(** * Destination-arc pipeline of the customer-flow map (LocationMap.tsx)

    A shallow embedding of the map component's data pipeline:
    CSV row normalisation, destination ranking, the quadratic Bezier arc
    geometry, the dash and pulse animations and the [drawArcs] rendering pass.

    JavaScript numbers are IEEE 754 binary64 values; they are modelled by
    Rocq's primitive floats, so every arithmetic step below rounds the way the
    browser does. *)

From Stdlib Require Import ZArith List Bool String Ascii Lia Floats.
From Stdlib Require Import Sorted Permutation.
From Stdlib Require Import Reals Lra.
From Stdlib Require DecimalString.
Import ListNotations.

Set Warnings "-inexact-float".

Local Open Scope float_scope.

(** ** JavaScript numbers *)

Module JsNumber.

Definition prec : Z := FloatOps.prec.
Definition emax : Z := FloatOps.emax.

(** The Number value of a mathematical integer (round to nearest, ties to
    even; exact up to 2^53). *)
Definition Z2F (z : Z) : float := SF2Prim (binary_normalize prec emax z 0 false).

(** The Number value of [s * 10^q] for a non-negative integer [s]: one
    correctly rounded conversion, as a decimal literal is read. *)
Definition decimalToSF (neg : bool) (s q : Z) : spec_float :=
  match s with
  | Zpos p =>
      match q with
      | Zneg q' =>
          let '(mz, ez, lz) :=
            SFdiv_core_binary prec emax (Zpos p) 0 (Zpos (Pos.pow 10 q')) 0 in
          binary_round_aux prec emax neg mz ez lz
      | _ => binary_normalize prec emax (cond_Zopp neg (s * 10 ^ q)) 0 neg
      end
  | _ => S754_zero neg
  end.

Definition decimalToFloat (neg : bool) (s q : Z) : float :=
  SF2Prim (decimalToSF neg s q).

(** The remainder operator [%] (ECMAScript Number::remainder): the result
    has the sign of the dividend and is exact. *)
Definition SFrem (x y : spec_float) : spec_float :=
  match x, y with
  | S754_nan, _ | _, S754_nan => S754_nan
  | S754_infinity _, _ => S754_nan
  | _, S754_zero _ => S754_nan
  | _, S754_infinity _ => x
  | S754_zero _, _ => x
  | S754_finite sx mx ex, S754_finite _ my ey =>
      let ez := Z.min ex ey in
      let nx := Zpos (fst (shl_align mx ex ez)) in
      let ny := Zpos (fst (shl_align my ey ez)) in
      binary_normalize prec emax (cond_Zopp sx (Z.modulo nx ny)) ez sx
  end.

Definition rem (x y : float) : float := SF2Prim (SFrem (Prim2SF x) (Prim2SF y)).

(** [Math.pow(x, 2)]: the square, rounded once. *)
Definition pow2 (x : float) : float := x * x.

Definition isNaN (x : float) : bool := PrimFloat.is_nan x.

(** [x <= y], [x >= y], [x > y] and [x < y]: false as soon as a side is NaN. *)
Definition le (x y : float) : bool := x <=? y.
Definition ge (x y : float) : bool := y <=? x.
Definition gt (x y : float) : bool := y <? x.
Definition lt (x y : float) : bool := x <? y.

End JsNumber.

(** ** Arc geometry *)

(** A coordinate pair [[lat, lng]]. *)
Definition Point : Type := (float * float)%type.

Module Arc.
Import JsNumber.

Definition midX (originPoint destPoint : Point) : float :=
  (fst originPoint + fst destPoint) / 2.
Definition midY (originPoint destPoint : Point) : float :=
  (snd originPoint + snd destPoint) / 2.

Definition distance (originPoint destPoint : Point) : float :=
  PrimFloat.sqrt
    (pow2 (fst destPoint - fst originPoint) +
     pow2 (snd destPoint - snd originPoint)).

Definition controlHeight (originPoint destPoint : Point) : float :=
  distance originPoint destPoint * 0.2.

Definition dx (originPoint destPoint : Point) : float :=
  fst destPoint - fst originPoint.
Definition dy (originPoint destPoint : Point) : float :=
  snd destPoint - snd originPoint.

Definition normFactor (originPoint destPoint : Point) : float :=
  1 / PrimFloat.sqrt (dx originPoint destPoint * dx originPoint destPoint +
                      dy originPoint destPoint * dy originPoint destPoint).

Definition perpX (originPoint destPoint : Point) : float :=
  - dy originPoint destPoint * normFactor originPoint destPoint.
Definition perpY (originPoint destPoint : Point) : float :=
  dx originPoint destPoint * normFactor originPoint destPoint.

Definition controlPoint (originPoint destPoint : Point) : Point :=
  (midX originPoint destPoint +
     perpX originPoint destPoint * controlHeight originPoint destPoint,
   midY originPoint destPoint +
     perpY originPoint destPoint * controlHeight originPoint destPoint).

(** One sample of the quadratic Bezier curve, as the loop body computes it. *)
Definition bezier (originPoint controlPt destPoint : Point) (t : float) : Point :=
  (pow2 (1 - t) * fst originPoint +
     2 * (1 - t) * t * fst controlPt +
     pow2 t * fst destPoint,
   pow2 (1 - t) * snd originPoint +
     2 * (1 - t) * t * snd controlPt +
     pow2 t * snd destPoint).

(** [for (let t = 0; t <= 1; t += 0.05) { ... push ... }]: the loop, run for
    at most [fuel] iterations from the current [t]. *)
Fixpoint curveLoop {A : Type} (fuel : nat) (t : float) (body : float -> A) : list A :=
  match fuel with
  | O => []
  | S fuel' =>
      if le t 1 then body t :: curveLoop fuel' (t + 0.05) body else []
  end.

(** Iterations allowed to the sampling loop; it stops by itself long before. *)
Definition curveFuel : nat := 64.

(** The parameter values the loop visits. *)
Definition curveParams : list float := curveLoop curveFuel 0 (fun t => t).

Definition curvePoints (originPoint controlPt destPoint : Point) : list Point :=
  curveLoop curveFuel 0 (bezier originPoint controlPt destPoint).

End Arc.

(** The control point once more, with the arithmetic left open: the same
    expressions as in [Arc], read with any addition, subtraction,
    multiplication, division, negation and square root.  With the binary64
    operations they are the definitions of [Arc]; with the operations of the
    real numbers they say what the code computes up to rounding. *)
Module Geometry.

Record Arithmetic (N : Type) : Type := {
  plus : N -> N -> N;
  minus : N -> N -> N;
  times : N -> N -> N;
  over : N -> N -> N;
  negate : N -> N;
  root : N -> N;
  one : N;
  two : N;
  fifth : N
}.
Arguments plus {N} _ _ _.
Arguments minus {N} _ _ _.
Arguments times {N} _ _ _.
Arguments over {N} _ _ _.
Arguments negate {N} _ _.
Arguments root {N} _ _.
Arguments one {N} _.
Arguments two {N} _.
Arguments fifth {N} _.

Section Formula.

Context {N : Type}.
Variable A : Arithmetic N.

Definition midX (originPoint destPoint : N * N) : N :=
  over A (plus A (fst originPoint) (fst destPoint)) (two A).
Definition midY (originPoint destPoint : N * N) : N :=
  over A (plus A (snd originPoint) (snd destPoint)) (two A).

(** [Math.pow(x, 2)]. *)
Definition square (x : N) : N := times A x x.

Definition distance (originPoint destPoint : N * N) : N :=
  root A (plus A (square (minus A (fst destPoint) (fst originPoint)))
                 (square (minus A (snd destPoint) (snd originPoint)))).

Definition controlHeight (originPoint destPoint : N * N) : N :=
  times A (distance originPoint destPoint) (fifth A).

Definition dx (originPoint destPoint : N * N) : N :=
  minus A (fst destPoint) (fst originPoint).
Definition dy (originPoint destPoint : N * N) : N :=
  minus A (snd destPoint) (snd originPoint).

Definition normFactor (originPoint destPoint : N * N) : N :=
  over A (one A)
    (root A (plus A (times A (dx originPoint destPoint) (dx originPoint destPoint))
                    (times A (dy originPoint destPoint) (dy originPoint destPoint)))).

Definition perpX (originPoint destPoint : N * N) : N :=
  times A (negate A (dy originPoint destPoint)) (normFactor originPoint destPoint).
Definition perpY (originPoint destPoint : N * N) : N :=
  times A (dx originPoint destPoint) (normFactor originPoint destPoint).

Definition controlPoint (originPoint destPoint : N * N) : N * N :=
  (plus A (midX originPoint destPoint)
          (times A (perpX originPoint destPoint) (controlHeight originPoint destPoint)),
   plus A (midY originPoint destPoint)
          (times A (perpY originPoint destPoint) (controlHeight originPoint destPoint))).

End Formula.


End Geometry.


(** ** JavaScript values, coercions and the string built-ins the pipeline calls *)

Module Js.
Import JsNumber.

(** A CSV cell after PapaParse's dynamic typing, or an absent column.  A
    cell that reads as an ISO date-time becomes a [Date] object; it is
    given by the two things the code can observe of it: the text [String]
    makes of it (which depends on the time zone) and its time value. *)
Inductive JsVal : Type :=
| JUndefined
| JNull
| JBool (b : bool)
| JNum (x : float)
| JStr (s : string)
| JDate (text : string) (time : float).

(** ToBoolean. *)
Definition truthy (v : JsVal) : bool :=
  match v with
  | JUndefined | JNull => false
  | JBool b => b
  | JNum x => negb (PrimFloat.is_zero x || PrimFloat.is_nan x)
  | JStr s => negb (String.eqb s EmptyString)
  | JDate _ _ => true
  end.

(** [a || b] and [a && b] return one of their operands. *)
Definition oror (a b : JsVal) : JsVal := if truthy a then a else b.
Definition andand (a b : JsVal) : JsVal := if truthy a then b else a.

(** *** Characters *)

(** The white space and line terminators of ASCII. *)
Definition isWhite (c : ascii) : bool :=
  let n := nat_of_ascii c in
  (Nat.eqb n 32 || Nat.eqb n 9 || Nat.eqb n 10 || Nat.eqb n 11
   || Nat.eqb n 12 || Nat.eqb n 13)%bool.

(** The value of [c] as a digit, for radixes up to 16. *)
Definition digitVal (c : ascii) : option Z :=
  let n := Z.of_nat (nat_of_ascii c) in
  if ((48 <=? n) && (n <=? 57))%Z%bool then Some (n - 48)%Z
  else if ((97 <=? n) && (n <=? 102))%Z%bool then Some (n - 87)%Z
  else if ((65 <=? n) && (n <=? 70))%Z%bool then Some (n - 55)%Z
  else None.

Definition digitIn (radix : Z) (c : ascii) : option Z :=
  match digitVal c with
  | Some d => if (d <? radix)%Z then Some d else None
  | None => None
  end.

(** The white space beyond ASCII, in the UTF-8 bytes of the text: U+00A0
    takes two bytes; U+1680, U+2000 to U+200A, U+2028, U+2029, U+202F,
    U+205F, U+3000 and U+FEFF take three. *)
Definition isWhite2 (c1 c2 : ascii) : bool :=
  (Nat.eqb (nat_of_ascii c1) 194 && Nat.eqb (nat_of_ascii c2) 160)%bool.

Definition isWhite3 (c1 c2 c3 : ascii) : bool :=
  let n1 := nat_of_ascii c1 in
  let n2 := nat_of_ascii c2 in
  let n3 := nat_of_ascii c3 in
  (Nat.eqb n1 225 && Nat.eqb n2 154 && Nat.eqb n3 128
   || Nat.eqb n1 226 && Nat.eqb n2 128
      && (Nat.leb 128 n3 && Nat.leb n3 138
          || Nat.eqb n3 168 || Nat.eqb n3 169 || Nat.eqb n3 175)
   || Nat.eqb n1 226 && Nat.eqb n2 129 && Nat.eqb n3 159
   || Nat.eqb n1 227 && Nat.eqb n2 128 && Nat.eqb n3 128
   || Nat.eqb n1 239 && Nat.eqb n2 187 && Nat.eqb n3 191)%bool.

(** Skips the leading white space and line terminators. *)
Fixpoint skipWhite (s : string) : string :=
  match s with
  | EmptyString => s
  | String c1 s1 =>
      if isWhite c1 then skipWhite s1
      else
        match s1 with
        | EmptyString => s
        | String c2 s2 =>
            if isWhite2 c1 c2 then skipWhite s2
            else
              match s2 with
              | EmptyString => s
              | String c3 s3 =>
                  if isWhite3 c1 c2 c3 then skipWhite s3 else s
              end
        end
  end.

(** The longest prefix of radix-[radix] digits: its value, its length and
    what follows. *)
Fixpoint readDigits (radix : Z) (s : string) (acc : Z) (len : nat)
  : Z * nat * string :=
  match s with
  | String c s' =>
      match digitIn radix c with
      | Some d => readDigits radix s' (acc * radix + d)%Z (S len)
      | None => (acc, len, s)
      end
  | EmptyString => (acc, len, s)
  end.

Definition readSign (s : string) : bool * string :=
  match s with
  | String "-"%char s' => (true, s')
  | String "+"%char s' => (false, s')
  | _ => (false, s)
  end.

(** *** Decimal literals *)

(** An optional exponent part [e±ddd]; without digits it is not consumed. *)
Definition readExponent (s : string) : Z * string :=
  match s with
  | String c s' =>
      if (Ascii.eqb c "e" || Ascii.eqb c "E")%bool then
        let '(neg, s1) := readSign s' in
        let '(v, len, rest) := readDigits 10 s1 0%Z 0%nat in
        match len with
        | O => (0%Z, s)
        | _ => (if neg then (- v)%Z else v, rest)
        end
      else (0%Z, s)
  | EmptyString => (0%Z, s)
  end.

(** The longest prefix that is a StrDecimalLiteral, after the sign has been
    read: the number and the rest, or [None] when no literal starts here. *)
Definition readDecimal (neg : bool) (s : string) : option (float * string) :=
  if String.prefix "Infinity" s then
    Some (if neg then neg_infinity else infinity,
          String.substring 8 (String.length s - 8) s)
  else
    let '(ip, ilen, s1) := readDigits 10 s 0%Z 0%nat in
    let '(fp, flen, s2) :=
      match s1 with
      | String "."%char s1' =>
          let '(v, len, rest) := readDigits 10 s1' ip 0%nat in
          match ilen, len with
          | O, O => (ip, 0%nat, s1)
          | _, _ => (v, len, rest)
          end
      | _ => (ip, 0%nat, s1)
      end in
    match ilen, flen with
    | O, O => None
    | _, _ =>
        let '(e, s3) := readExponent s2 in
        Some (decimalToFloat neg fp (e - Z.of_nat flen), s3)
    end.

(** [parseFloat(s)]: leading white space is skipped, the longest decimal
    literal is read and anything after it is ignored. *)
Definition parseFloat (s : string) : float :=
  let '(neg, s1) := readSign (skipWhite s) in
  match readDecimal neg s1 with
  | Some (x, _) => x
  | None => nan
  end.

(** [parseInt(s)] without a radix: an integer, or [None] for NaN. *)
Definition parseInt (s : string) : option Z :=
  let '(neg, s1) := readSign (skipWhite s) in
  let '(radix, s2) :=
    match s1 with
    | String "0"%char (String c s') =>
        if (Ascii.eqb c "x" || Ascii.eqb c "X")%bool then (16%Z, s') else (10%Z, s1)
    | _ => (10%Z, s1)
    end in
  let '(v, len, _) := readDigits radix s2 0%Z 0%nat in
  match len with
  | O => None
  | _ => Some (if neg then (- v)%Z else v)
  end.

(** StringToNumber: the whole trimmed string must be a numeric literal. *)
Definition stringToNumber (s : string) : float :=
  let s0 := skipWhite s in
  match s0 with
  | EmptyString => 0
  | String "0"%char (String c s') =>
      let radix :=
        if (Ascii.eqb c "x" || Ascii.eqb c "X")%bool then Some 16%Z
        else if (Ascii.eqb c "o" || Ascii.eqb c "O")%bool then Some 8%Z
        else if (Ascii.eqb c "b" || Ascii.eqb c "B")%bool then Some 2%Z
        else None in
      match radix with
      | Some r =>
          let '(v, len, rest) := readDigits r s' 0%Z 0%nat in
          match len, skipWhite rest with
          | S _, EmptyString => Z2F v
          | _, _ => nan
          end
      | None =>
          match readDecimal false s0 with
          | Some (x, rest) =>
              match skipWhite rest with EmptyString => x | _ => nan end
          | None => nan
          end
      end
  | _ =>
      let '(neg, s1) := readSign s0 in
      match readDecimal neg s1 with
      | Some (x, rest) =>
          match skipWhite rest with EmptyString => x | _ => nan end
      | None => nan
      end
  end.

(** ToNumber. *)
Definition toNumber (v : JsVal) : float :=
  match v with
  | JUndefined => nan
  | JNull => 0
  | JBool b => if b then 1 else 0
  | JNum x => x
  | JStr s => stringToNumber s
  | JDate _ time => time
  end.

(** [s.replace(pat, rep)] with a string pattern: the first occurrence only. *)
Fixpoint replace (pat rep s : string) : string :=
  if String.prefix pat s then
    String.append rep (String.substring (String.length pat)
                         (String.length s - String.length pat) s)
  else
    match s with
    | String c s' => String c (replace pat rep s')
    | EmptyString => EmptyString
    end.

(** *** Number::toString *)

Definition decimalString (z : Z) : string :=
  DecimalString.NilZero.string_of_uint (N.to_uint (Z.to_N z)).

Fixpoint zeros (n : nat) : string :=
  match n with
  | O => EmptyString
  | S n' => String "0"%char (zeros n')
  end.

Fixpoint stripZeros (fuel : nat) (s : Z) : Z :=
  match fuel with
  | O => s
  | S fuel' => if (Z.eqb (s mod 10) 0 && negb (Z.eqb s 0))%bool
               then stripZeros fuel' (s / 10)%Z else s
  end.

Definition sameSF (a b : spec_float) : bool :=
  match a, b with
  | S754_finite sa ma ea, S754_finite sb mb eb =>
      (Bool.eqb sa sb && Pos.eqb ma mb && Z.eqb ea eb)%bool
  | _, _ => false
  end.

(** The decimal exponent [n] of [num/den >= 0]: 10^(n-1) <= num/den < 10^n. *)
Fixpoint decimalExponentUp (fuel : nat) (num den : Z) (n : Z) : Z :=
  match fuel with
  | O => n
  | S fuel' =>
      if (num <? den * 10 ^ n)%Z then n
      else decimalExponentUp fuel' num den (n + 1)%Z
  end.

Fixpoint decimalExponentDown (fuel : nat) (num den : Z) (j : Z) : Z :=
  match fuel with
  | O => (1 - j)%Z
  | S fuel' =>
      if (den <=? num * 10 ^ j)%Z then (1 - j)%Z
      else decimalExponentDown fuel' num den (j + 1)%Z
  end.

Definition decimalExponent (num den : Z) : Z :=
  if (den <=? num)%Z then decimalExponentUp 400 num den 1%Z
  else decimalExponentDown 400 num den 1%Z.

(** The shortest digits: the least [k] and an integer [s] of [k] digits with
    [s * 10^(n-k)] reading back as [x]; of two such [s] the closer one. *)
Fixpoint shortestDigits (fuel : nat) (x : spec_float) (num den n k : Z) : Z * Z :=
  let q := (n - k)%Z in
  let snum := (num * 10 ^ Z.max 0 (- q))%Z in
  let sden := (den * 10 ^ Z.max 0 q)%Z in
  let lo := (snum / sden)%Z in
  let hi := (lo + 1)%Z in
  let okLo := sameSF (decimalToSF false lo q) x in
  let okHi := sameSF (decimalToSF false hi q) x in
  let pick :=
    match okLo, okHi with
    | true, true =>
        let twice := (2 * (snum - lo * sden))%Z in
        if (twice <? sden)%Z then Some lo
        else if (sden <? twice)%Z then Some hi
        else Some (if Z.even lo then lo else hi)
    | true, false => Some lo
    | false, true => Some hi
    | false, false => None
    end in
  match pick, fuel with
  | Some s, _ => (s, q)
  | None, S fuel' => shortestDigits fuel' x num den n (k + 1)%Z
  | None, O => (lo, q)
  end.

(** Number::toString of a positive finite value with digits [s] (without
    trailing zeros) standing for [0.s * 10^n]. *)
Definition formatDigits (ds : string) (n : Z) : string :=
  let k := Z.of_nat (String.length ds) in
  if ((k <=? n) && (n <=? 21))%Z%bool then
    String.append ds (zeros (Z.to_nat (n - k)))
  else if ((0 <? n) && (n <=? 21))%Z%bool then
    String.append (String.substring 0 (Z.to_nat n) ds)
      (String "."%char
         (String.substring (Z.to_nat n) (String.length ds - Z.to_nat n) ds))
  else if ((-6 <? n) && (n <=? 0))%Z%bool then
    String.append "0." (String.append (zeros (Z.to_nat (- n))) ds)
  else
    let e := (n - 1)%Z in
    let es := String.append (if (e <? 0)%Z then "e-" else "e+")
                (decimalString (Z.abs e)) in
    match ds with
    | String d EmptyString => String d es
    | String d rest => String d (String "."%char (String.append rest es))
    | EmptyString => es
    end.

Definition numberToString (x : float) : string :=
  match Prim2SF x with
  | S754_nan => "NaN"
  | S754_zero _ => "0"
  | S754_infinity s => if s then "-Infinity" else "Infinity"
  | S754_finite s m e =>
      let num := (Zpos m * 2 ^ Z.max 0 e)%Z in
      let den := (2 ^ Z.max 0 (- e))%Z in
      let n := decimalExponent num den in
      let '(d, q) := shortestDigits 20 (S754_finite false m e) num den n 1%Z in
      let d' := stripZeros 400 d in
      let ds := decimalString d' in
      let n' := (q + Z.of_nat (String.length (decimalString d)))%Z in
      String.append (if s then "-" else "") (formatDigits ds n')
  end.

(** [String(v)]. *)
Definition toString (v : JsVal) : string :=
  match v with
  | JUndefined => "undefined"
  | JNull => "null"
  | JBool b => if b then "true" else "false"
  | JNum x => numberToString x
  | JStr s => s
  | JDate text _ => text
  end.

End Js.

(** ** Destinations *)

(** A ranked destination.  [visitorCount] is the integer [parseInt] produced;
    JavaScript holds it exactly in a Number up to 2^53, and it is converted
    with [JsNumber.Z2F] wherever the code does floating-point arithmetic on it. *)
Record DestinationPoint : Type := {
  name : Js.JsVal;
  lat : float;
  lng : float;
  visitorCount : Z;
  type : Js.JsVal
}.

(** ** CSV ingestion: the filter / map / filter / sort / slice chain *)

Module Ingest.
Import Js JsNumber.

(** The columns of a parsed CSV row that the map reads; an absent column is
    [JUndefined]. *)
Record Row : Type := {
  KoordinatX : JsVal;
  KoordinatY : JsVal;
  latitude : JsVal;
  longitude : JsVal;
  visitor_count : JsVal;
  place_name : JsVal;
  MusteriTabelaAdi : JsVal;
  MusteriCesidi : JsVal
}.

Definition hasCoordinates (row : Row) : JsVal :=
  oror (andand (KoordinatX row) (KoordinatY row))
     (andand (latitude row) (longitude row)).

Definition hasVisitors (row : Row) : JsVal :=
  andand (visitor_count row) (JBool (gt (toNumber (visitor_count row)) 0)).

(** The predicate of the first [.filter]. *)
Definition rowFilter (row : Row) : bool :=
  truthy (andand (hasCoordinates row) (hasVisitors row)).

(** The object literal the [.map] callback returns.  Its [visitorCount] is
    what [parseInt] gave: an integer, or [None] for NaN. *)
Record MappedRow : Type := {
  m_name : JsVal;
  m_lat : float;
  m_lng : float;
  m_visitorCount : option Z;
  m_type : JsVal
}.

Definition koordinatX (row : Row) : string :=
  toString (oror (oror (KoordinatX row) (latitude row)) (JStr "")).
Definition koordinatY (row : Row) : string :=
  toString (oror (oror (KoordinatY row) (longitude row)) (JStr "")).

(** [parseFloat(s.replace(",", ".").replace("'", ""))]. *)
Definition parseCoordinate (s : string) : float :=
  parseFloat (replace "'" "" (replace "," "." s)).

Definition rowMap (row : Row) : MappedRow :=
  {| m_name := oror (oror (place_name row) (MusteriTabelaAdi row)) (JStr "Unknown Location");
     m_lat := parseCoordinate (koordinatX row);
     m_lng := parseCoordinate (koordinatY row);
     m_visitorCount := parseInt (toString (oror (visitor_count row) (JNum 0)));
     m_type := oror (MusteriCesidi row) (JStr "Unspecified") |}.

Definition validCoordinates (dest : MappedRow) : bool :=
  (negb (isNaN (m_lat dest)) && negb (isNaN (m_lng dest)) &&
   le (PrimFloat.abs (m_lat dest)) 90 && le (PrimFloat.abs (m_lng dest)) 180)%bool.

(** The predicate of the second [.filter]; [NaN > 0] is false. *)
Definition destFilter (dest : MappedRow) : bool :=
  (validCoordinates dest &&
   match m_visitorCount dest with
   | Some n => (0 <? n)%Z
   | None => false
   end)%bool.

(** A mapped row that passed the second filter, as a [DestinationPoint]. *)
Definition toDestination (dest : MappedRow) : option DestinationPoint :=
  match m_visitorCount dest with
  | Some n =>
      Some {| name := m_name dest; lat := m_lat dest; lng := m_lng dest;
              visitorCount := n; type := m_type dest |}
  | None => None
  end.

Definition keepValid (dest : MappedRow) : option DestinationPoint :=
  if destFilter dest then toDestination dest else None.

Fixpoint filterMap {A B : Type} (f : A -> option B) (l : list A) : list B :=
  match l with
  | [] => []
  | a :: l' =>
      match f a with
      | Some b => b :: filterMap f l'
      | None => filterMap f l'
      end
  end.

(** What the chain does to one row. *)
Definition normalize (row : Row) : option DestinationPoint :=
  if rowFilter row then keepValid (rowMap row) else None.

(** [rows.filter(...).map(...).filter(...)]. *)
Definition validDestinations (rows : list Row) : list DestinationPoint :=
  filterMap keepValid (map rowMap (filter rowFilter rows)).

(** The comparator [(a, b) => b.visitorCount - a.visitorCount]. *)
Definition compareFn (a b : DestinationPoint) : Z :=
  (visitorCount b - visitorCount a)%Z.

(** [Array.prototype.sort] is stable: an element moves behind exactly those
    later elements the comparator puts strictly before it. *)
Fixpoint insertSorted (a : DestinationPoint) (l : list DestinationPoint)
  : list DestinationPoint :=
  match l with
  | [] => [a]
  | b :: l' => if (0 <? compareFn a b)%Z then b :: insertSorted a l' else a :: l
  end.

Definition sort (l : list DestinationPoint) : list DestinationPoint :=
  fold_right insertSorted [] l.

(** [.sort(...).slice(0, maxArcs)], [maxArcs] being a count of arcs. *)
Definition selectTop (dests : list DestinationPoint) (maxArcs : nat)
  : list DestinationPoint :=
  firstn maxArcs (sort dests).

Definition defaultMaxArcs : nat := 10.

Definition topDestinations (rows : list Row) (maxArcs : nat)
  : list DestinationPoint :=
  selectTop (validDestinations rows) maxArcs.

End Ingest.

(** ** Visual attributes of an arc *)

Module Visual.
Import JsNumber.

(** The arc colour palette. *)
Definition colors : list string :=
  [ "#3B82F6"; "#8B5CF6"; "#EC4899"; "#F97316"; "#10B981" ]%string.

Definition colorIndex (index : nat) : nat := index mod List.length colors.

Definition color (index : nat) : string :=
  nth (colorIndex index) colors "undefined"%string.

(** [Math.max(...arcsDestinations.map(d => d.visitorCount))]; [drawArcs]
    returns before this line when the list is empty. *)
Definition maxVisitors (arcsDestinations : list DestinationPoint) : Z :=
  match arcsDestinations with
  | [] => 0%Z
  | d :: rest =>
      fold_left (fun acc d' => Z.max acc (visitorCount d')) rest (visitorCount d)
  end.

Definition normalizedValue (visitors maxVis : Z) : float :=
  0.3 + (Z2F visitors / Z2F maxVis) * 0.7.

Definition weight (normalized : float) : float := 2 + (normalized * 3).
Definition radius (normalized : float) : float := 5 + (normalized * 5).
Definition dashArray (normalized : float) : float := 5 + normalized * 5.

End Visual.

(** ** Animations *)

Module Animation.
Import JsNumber.

(** The state one arc's [animateArc] closure works on: its captured
    [dashArray] and [offset], and the attributes of the arc's SVG path. *)
Record ArcAnimation : Type := {
  dashArray : float;
  offset : float;
  strokeDasharray : option string;
  strokeDashoffset : option string;
  animatedArc : bool
}.

(** [let offset = 0; const dashArray = ...] before the first tick. *)
Definition newArcAnimation (dash : float) : ArcAnimation :=
  {| dashArray := dash; offset := 0; strokeDasharray := None;
     strokeDashoffset := None; animatedArc := false |}.

Definition addAnimatedClass (a : ArcAnimation) : ArcAnimation :=
  {| dashArray := dashArray a; offset := offset a;
     strokeDasharray := strokeDasharray a;
     strokeDashoffset := strokeDashoffset a; animatedArc := true |}.

(** One call of [animateArc]. *)
Definition animateArc (a : ArcAnimation) : ArcAnimation :=
  let offset' := rem (offset a + 1) (dashArray a * 2) in
  {| dashArray := dashArray a;
     offset := offset';
     strokeDasharray :=
       Some (String.append (Js.numberToString (dashArray a))
               (String ","%char (Js.numberToString (dashArray a))));
     strokeDashoffset := Some (Js.numberToString offset');
     animatedArc := animatedArc a |}.

(** The pulse marker around the restaurant and the two variables its timer
    callback closes over. *)
Record Pulse : Type := {
  size : float;
  increasing : bool;
  pulseRadius : float;
  pulseOpacity : float;
  pulseFillOpacity : float
}.

Definition newPulse : Pulse :=
  {| size := 10; increasing := true; pulseRadius := 10;
     pulseOpacity := 0.3; pulseFillOpacity := 0.3 |}.

(** One call of the pulse interval callback. *)
Definition pulseTick (p : Pulse) : Pulse :=
  let '(size', increasing') :=
    if increasing p then
      let size1 := size p + 0.5 in
      (size1, if ge size1 25 then false else true)
    else
      let size1 := size p - 0.5 in
      (size1, if le size1 10 then true else false) in
  {| size := size'; increasing := increasing'; pulseRadius := size';
     pulseOpacity := pulseOpacity p; pulseFillOpacity := pulseFillOpacity p |}.

(** The other copy of the component pulses differently: its circle jumps
    between the radii 30 and 40 once a second and changes its fill opacity
    with them. *)
Record PulsingCircle : Type := {
  animationRadius : float;
  circleRadius : float;
  circleOpacity : float;
  circleFillOpacity : float
}.

Definition newPulsingCircle : PulsingCircle :=
  {| animationRadius := 30; circleRadius := 30; circleOpacity := 0.5;
     circleFillOpacity := 0.3 |}.

Definition pulsingCircleTick (p : PulsingCircle) : PulsingCircle :=
  let animationRadius' := if animationRadius p =? 30 then 40 else 30 in
  {| animationRadius := animationRadius';
     circleRadius := animationRadius';
     circleOpacity := circleOpacity p;
     circleFillOpacity := if animationRadius' =? 30 then 0.3 else 0.2 |}.

(** [n] calls of a timer callback. *)
Fixpoint ticks {S : Type} (tick : S -> S) (n : nat) (s : S) : S :=
  match n with
  | O => s
  | S n' => ticks tick n' (tick s)
  end.

End Animation.

(** ** The map and its layers (the part of Leaflet the component uses) *)

Module Leaflet.

Record Polyline : Type := {
  latlngs : list Point;
  color : string;
  weight : float;
  opacity : float;
  className : string
}.

(** The variable parts of a destination popup. *)
Record Popup : Type := {
  title : Js.JsVal;
  subtitle : Js.JsVal;
  badge : Z;
  badgeColor : string
}.

Record CircleMarker : Type := {
  center : Point;
  radius : float;
  fillColor : string;
  strokeColor : string;
  strokeWeight : float;
  strokeOpacity : float;
  fillOpacity : float;
  popup : option Popup
}.

Inductive Layer : Type :=
| TileLayer
| PolylineLayer (p : Polyline)
| CircleMarkerLayer (c : CircleMarker).

(** A live map: its layers in the order they were added, and the points of
    the last [fitBounds]. *)
Record Map : Type := {
  layers : list Layer;
  fitted : option (list Point)
}.

(** [layer.options && layer.options.className === 'flow-arc']. *)
Definition isFlowArc (layer : Layer) : bool :=
  match layer with
  | PolylineLayer p => String.eqb (className p) "flow-arc"
  | _ => false
  end.

Definition addLayer (layer : Layer) (m : Map) : Map :=
  {| layers := layers m ++ [layer]; fitted := fitted m |}.

Definition removeFlowArcs (m : Map) : Map :=
  {| layers := filter (fun l => negb (isFlowArc l)) (layers m);
     fitted := fitted m |}.

Definition fitBounds (pts : list Point) (m : Map) : Map :=
  {| layers := layers m; fitted := Some pts |}.

End Leaflet.

(** ** The rendering pass: [drawArcs] *)

Module Render.
Import JsNumber Leaflet.

Inductive LogEntry : Type :=
| Log (msg : string)
| Error (msg : string).

(** The component state [drawArcs] reads and writes: the two refs and state
    variables it closes over, the browser's running interval timers, and
    the console. *)
Record Component : Type := {
  mapRef : option Map;
  destinations : list DestinationPoint;
  restaurantCoordinates : option Point;
  intervals : list Animation.ArcAnimation;
  console : list LogEntry
}.

(** What one pass mutates after the guards: the map, the local [allPoints]
    array, the interval timers and the console. *)
Record Pass : Type := {
  map : Map;
  allPoints : list Point;
  timers : list Animation.ArcAnimation;
  out : list LogEntry
}.

(** *** Statements that may throw *)

Inductive Outcome (A : Type) : Type :=
| Return (a : A)
| Throw (e : string).
Arguments Return {A} a.
Arguments Throw {A} e.

Definition M (A : Type) : Type := Pass -> Outcome A * Pass.

Definition ret {A : Type} (a : A) : M A := fun st => (Return a, st).

Definition bind {A B : Type} (m : M A) (k : A -> M B) : M B :=
  fun st =>
    match m st with
    | (Return a, st') => k a st'
    | (Throw e, st') => (Throw e, st')
    end.

Definition throw {A : Type} (e : string) : M A := fun st => (Throw e, st).

Definition modify (f : Pass -> Pass) : M unit :=
  fun st => (Return tt, f st).

(** [try { body } catch (err) { handler(err) }]: the handler runs in the
    state the body had reached when it threw. *)
Definition tryCatch (body : M unit) (handler : string -> M unit) : M unit :=
  fun st =>
    match body st with
    | (Return tt, st') => (Return tt, st')
    | (Throw e, st') => handler e st'
    end.

Notation "x <- m ;; k" := (bind m (fun x => k))
  (at level 61, m at next level, right associativity).
Notation "m ;;; k" := (bind m (fun _ => k))
  (at level 61, right associativity).

Definition pushPoint (p : Point) : M unit :=
  modify (fun st => {| map := map st; allPoints := allPoints st ++ [p];
                       timers := timers st; out := out st |}).

Definition addTo (layer : Layer) : M unit :=
  modify (fun st => {| map := addLayer layer (map st); allPoints := allPoints st;
                       timers := timers st; out := out st |}).

Definition setInterval (a : Animation.ArcAnimation) : M unit :=
  modify (fun st => {| map := map st; allPoints := allPoints st;
                       timers := timers st ++ [a]; out := out st |}).

Definition consoleWrite (entry : LogEntry) : M unit :=
  modify (fun st => {| map := map st; allPoints := allPoints st;
                       timers := timers st; out := out st ++ [entry] |}).

Section WithLeaflet.

(** Leaflet's [LatLng] constructor rejects some coordinate pairs by
    throwing; which ones is left to the library. *)
Variable invalidLatLng : Point -> bool.

Definition L_latLng (p : Point) : M Point :=
  if invalidLatLng p then throw "Invalid LatLng object" else ret p.

Definition L_polyline (pts : list Point) (col : string) (w op : float)
                      (cls : string) : M Polyline :=
  if existsb invalidLatLng pts then throw "Invalid LatLng object"
  else ret {| latlngs := pts; color := col; weight := w; opacity := op;
              className := cls |}.

Definition L_circleMarker (c : Point) (r : float) (fill : string) : M CircleMarker :=
  if invalidLatLng c then throw "Invalid LatLng object"
  else ret {| center := c; radius := r; fillColor := fill;
              strokeColor := "white"; strokeWeight := 2; strokeOpacity := 1;
              fillOpacity := 0.8; popup := None |}.

Definition bindPopup (dest : DestinationPoint) (col : string)
                     (m : CircleMarker) : CircleMarker :=
  {| center := center m; radius := Leaflet.radius m; fillColor := fillColor m;
     strokeColor := strokeColor m; strokeWeight := strokeWeight m;
     strokeOpacity := strokeOpacity m; fillOpacity := fillOpacity m;
     popup := Some {| title := name dest;
                      subtitle := Js.oror (type dest) (Js.JStr "Unknown");
                      badge := visitorCount dest; badgeColor := col |} |}.

(** The body of the [try] block inside [forEach], for the destination at
    position [index]. *)
Definition arcBody (restaurant : Point) (maxVis : Z)
                   (dest : DestinationPoint) (index : nat) : M unit :=
  pushPoint (lat dest, lng dest) ;;;
  consoleWrite (Log "Drawing arc from") ;;;
  let normalized := Visual.normalizedValue (visitorCount dest) maxVis in
  let col := Visual.color index in
  let originPoint := restaurant in
  let destPoint := (lat dest, lng dest) in
  let controlPt := Arc.controlPoint originPoint destPoint in
  let curve := Arc.curvePoints originPoint controlPt destPoint in
  arcLine <- L_polyline curve col (Visual.weight normalized) 0.8 "flow-arc" ;;
  addTo (PolylineLayer arcLine) ;;;
  destMarker <- L_circleMarker (lat dest, lng dest) (Visual.radius normalized) col ;;
  addTo (CircleMarkerLayer (bindPopup dest col destMarker)) ;;;
  setInterval
    (Animation.animateArc
       (Animation.addAnimatedClass
          (Animation.newArcAnimation (Visual.dashArray normalized)))).

(** One iteration of [forEach]: the body under its own [try]/[catch]. *)
Definition arcIteration (restaurant : Point) (maxVis : Z)
                        (dest : DestinationPoint) (index : nat) : M unit :=
  tryCatch (arcBody restaurant maxVis dest index)
           (fun _ => consoleWrite (Error "Error creating arc for")).

(** [arcsDestinations.forEach((dest, index) => ...)] from position [index]. *)
Fixpoint forEach (restaurant : Point) (maxVis : Z)
                 (dests : list DestinationPoint) (index : nat) : M unit :=
  match dests with
  | [] => ret tt
  | dest :: rest =>
      arcIteration restaurant maxVis dest index ;;;
      forEach restaurant maxVis rest (S index)
  end.

Fixpoint mapM {A B : Type} (f : A -> M B) (l : list A) : M (list B) :=
  match l with
  | [] => ret []
  | a :: l' => b <- f a ;; bs <- mapM f l' ;; ret (b :: bs)
  end.

(** The bounds block after the loop. *)
Definition setBounds : M unit :=
  fun st =>
    if (1 <? List.length (allPoints st))%nat then
      tryCatch
        (consoleWrite (Log "Setting map bounds") ;;;
         pts <- mapM L_latLng (allPoints st) ;;
         modify (fun st' => {| map := fitBounds pts (map st');
                               allPoints := allPoints st';
                               timers := timers st'; out := out st' |}))
        (fun _ => consoleWrite (Error "Error setting map bounds:")) st
    else (Return tt, st).

(** The outer [try] block of [drawArcs]. *)
Definition drawPass (restaurant : Point)
                    (arcsDestinations : list DestinationPoint) : M unit :=
  let maxVis := Visual.maxVisitors arcsDestinations in
  consoleWrite (Log "Max visitors:") ;;;
  modify (fun st => {| map := removeFlowArcs (map st);
                       allPoints := allPoints st;
                       timers := timers st; out := out st |}) ;;;
  forEach restaurant maxVis arcsDestinations 0 ;;;
  setBounds.

Definition logTo (entries : list LogEntry) (c : Component) : Component :=
  {| mapRef := mapRef c; destinations := destinations c;
     restaurantCoordinates := restaurantCoordinates c;
     intervals := intervals c; console := console c ++ entries |}.

(** [drawArcs(arcsDestinations)]. *)
Definition drawArcs (arcsDestinations : list DestinationPoint)
                    (c : Component) : Component :=
  let c0 := logTo [Log "Manual drawArcs called with"] c in
  match mapRef c0 with
  | None => logTo [Error "Map reference is null - cannot draw arcs"] c0
  | Some m =>
      match arcsDestinations with
      | [] => logTo [Error "No destinations available - cannot draw arcs"] c0
      | _ :: _ =>
          match restaurantCoordinates c0 with
          | None =>
              logTo [Error "Restaurant coordinates not available - cannot draw arcs"] c0
          | Some restaurant =>
              let st0 :=
                {| map := m; allPoints := [restaurant];
                   timers := intervals c0;
                   out := console c0 ++ [Log "RESTAURANT COORDINATES:";
                                         Log "DESTINATION EXAMPLE:"] |} in
              let '(res, st) :=
                tryCatch (drawPass restaurant arcsDestinations)
                         (fun _ => consoleWrite (Error "Error drawing arcs:")) st0 in
              {| mapRef := Some (map st); destinations := destinations c0;
                 restaurantCoordinates := restaurantCoordinates c0;
                 intervals := timers st; console := out st |}
          end
      end
  end.

(** [drawArcs()] with its default argument, the [destinations] state. *)
Definition drawArcsDefault (c : Component) : Component :=
  drawArcs (destinations c) c.

End WithLeaflet.

(** Leaflet's own check: a [LatLng] with a NaN component is rejected. *)
Definition nanLatLng (p : Point) : bool :=
  (isNaN (fst p) || isNaN (snd p))%bool.

End Render.

(** ** Loading: the restaurant's position and the destination list *)

(** How a [fetch] followed by [Papa.parse] ends: the request failed or was
    answered with an error status, the parser reported an error, or the
    parser delivered the rows. *)
Inductive Loaded (A : Type) : Type :=
| FetchFailed
| ParseFailed
| Parsed (data : list A).
Arguments FetchFailed {A}.
Arguments ParseFailed {A}.
Arguments Parsed {A} data.

Module Props.

(** The two optional numbers of the [location] prop; [JUndefined] when the
    caller left one out. *)
Record LocationData : Type := {
  latitude : Js.JsVal;
  longitude : Js.JsVal
}.

End Props.

Module Restaurant.
Import Js.

(** The columns of the location file that the component reads. *)
Record RestaurantLocation : Type := {
  lat : JsVal;
  lng : JsVal;
  Lat : JsVal;
  Lng : JsVal
}.

(** The object given to [setRestaurantCoordinates]: its [lat] and [lng]. *)
Definition Coordinates : Type := (JsVal * JsVal)%type.

(** [{ lat: restaurantData.lat || restaurantData.Lat || 0, lng: ... }]. *)
Definition fromRow (restaurantData : RestaurantLocation) : Coordinates :=
  (oror (oror (lat restaurantData) (Lat restaurantData)) (JNum 0),
   oror (oror (lng restaurantData) (Lng restaurantData)) (JNum 0)).

(** The fallback to the props; it leaves the state alone unless both
    numbers are truthy. *)
Definition fromProps (location : Props.LocationData)
                     (restaurantCoordinates : option Coordinates)
  : option Coordinates :=
  if truthy (andand (Props.latitude location) (Props.longitude location))
  then Some (JNum (toNumber (Props.latitude location)),
             JNum (toNumber (Props.longitude location)))
  else restaurantCoordinates.

(** The first effect: the [restaurantCoordinates] state after the location
    file was requested. *)
Definition loadRestaurant (outcome : Loaded RestaurantLocation)
                          (location : Props.LocationData)
                          (restaurantCoordinates : option Coordinates)
  : option Coordinates :=
  match outcome with
  | Parsed (restaurantData :: _) => Some (fromRow restaurantData)
  | Parsed [] => fromProps location restaurantCoordinates
  | ParseFailed => fromProps location restaurantCoordinates
  | FetchFailed => fromProps location restaurantCoordinates
  end.

(** The coordinates as numbers, when both are. *)
Definition asPoint (c : Coordinates) : option Point :=
  match c with
  | (JNum la, JNum lo) => Some (la, lo)
  | _ => None
  end.

End Restaurant.

Module Loading.
Import Js Render.

(** The built-in destinations used when the destination file cannot be
    loaded. *)
Definition fallbackDestinations : list DestinationPoint :=
  [ {| name := JStr "AKŞAM KADIKÖY"; lat := 40.98048011; lng := 29.02419242;
       visitorCount := 209; type := JStr "Geleneksel Meyhane" |};
    {| name := JStr "Duru Tiyatro"; lat := 40.99793436; lng := 29.10033471;
       visitorCount := 192; type := JStr "Tekne-Event Hall-Catering" |};
    {| name := JStr "Fil bistro moda"; lat := 40.98144373; lng := 29.02312433;
       visitorCount := 179; type := JStr "Modern Pub & Bistro" |};
    {| name := JStr "Rita Moda"; lat := 40.9838784; lng := 29.02636204;
       visitorCount := 171; type := JStr "Fine Dining (D.Mutf-Sar.Evi)" |};
    {| name := JStr "Yer Cafe"; lat := 40.981475; lng := 29.022672;
       visitorCount := 162; type := JStr "Modern Pub & Bistro" |} ].

Definition setDestinations (dests : list DestinationPoint) (c : Component)
  : Component :=
  {| mapRef := mapRef c; destinations := dests;
     restaurantCoordinates := restaurantCoordinates c;
     intervals := intervals c; console := console c |}.

(** The [complete] callback: the new state, and the argument of the
    [drawArcs] call it puts on a 500 ms timer, if it does. *)
Definition complete (data : list Ingest.Row) (maxArcs : nat) (c : Component)
  : Component * option (list DestinationPoint) :=
  let topDestinations := Ingest.topDestinations data maxArcs in
  let c1 :=
    setDestinations topDestinations
      (logTo [Log "CSV parsed, found rows:"; Log "Processed destinations:"] c) in
  match mapRef c, topDestinations, restaurantCoordinates c with
  | Some _, _ :: _, Some _ => (c1, Some topDestinations)
  | _, _, _ => (c1, None)
  end.

Definition useFallback (reason : string) (c : Component) : Component :=
  setDestinations fallbackDestinations
    (logTo [Error reason; Log "Using fallback data since CSV failed to load"] c).

(** The second effect, once the request for the destination file is over. *)
Definition loadDestinations (showDestinations : bool)
                            (outcome : Loaded Ingest.Row) (maxArcs : nat)
                            (c : Component)
  : Component * option (list DestinationPoint) :=
  if showDestinations then
    let c0 := logTo [Log "Fetching destinations for:";
                     Log "Loading destination data from:"] c in
    match outcome with
    | Parsed data => complete data maxArcs c0
    | ParseFailed => (useFallback "Error parsing CSV:" c0, None)
    | FetchFailed => (useFallback "Error loading destination data:" c0, None)
    end
  else (c, None).

(** The effect that reacts to new destinations or coordinates: whether it
    starts the one-second timer for [drawArcs()]. *)
Definition arcEffect (c : Component) : Component * bool :=
  let c0 := logTo [Log "Arc drawing effect triggered."] c in
  match mapRef c0, destinations c0, restaurantCoordinates c0 with
  | Some _, _ :: _, Some _ => (logTo [Log "Drawing arcs in separate effect:"] c0, true)
  | _, _, _ => (logTo [Log "Skipping arc drawing - requirements not met"] c0, false)
  end.

(** The test at the head of the effect that creates the map: it goes on
    only with a container element and a restaurant position. *)
Definition initGuard (mapContainer : bool) (c : Component) : bool :=
  match restaurantCoordinates c with
  | Some _ => mapContainer
  | None => false
  end.

(** The callback that effect leaves on a 500 ms timer once the map is
    created: with a map and a destination it calls [drawArcs(destinations)]
    at once.  [invalidateSize] changes no layer.  The second component is
    the argument of that call, if it is made. *)
Definition forceRedraw (c : Component) : Component * option (list DestinationPoint) :=
  match mapRef c with
  | None => (c, None)
  | Some _ =>
      match destinations c with
      | _ :: _ =>
          (logTo [Log "Force drawing arcs after map initialization";
                  Log "Destination sample:"] c,
           Some (destinations c))
      | [] => (logTo [Log "No destinations available yet for map init"] c, None)
      end
  end.

End Loading.

(** ** The destination panel *)

Module Panel.

(** One entry of the list: name, visitor count and [dest.type || 'Unknown']. *)
Record Item : Type := {
  itemName : Js.JsVal;
  itemCount : Z;
  itemType : Js.JsVal
}.

(** What the panel shows: the number in its badge, its entries, and whether
    the button that opens the full list is there. *)
Record View : Type := {
  badge : nat;
  items : list Item;
  viewAll : bool
}.

Definition item (dest : DestinationPoint) : Item :=
  {| itemName := name dest; itemCount := visitorCount dest;
     itemType := Js.oror (type dest) (Js.JStr "Unknown") |}.

(** What React accepts as a child between tags: it shows a text or a
    number and nothing for a boolean or a missing value, but an object that
    is no element, such as a [Date], makes rendering throw. *)
Definition validChild (v : Js.JsVal) : bool :=
  match v with
  | Js.JDate _ _ => false
  | _ => true
  end.

(** The children [{dest.name}] and [{dest.type || 'Unknown'}] of an entry. *)
Definition validItem (i : Item) : bool :=
  (validChild (itemName i) && validChild (itemType i))%bool.

(** [destinations.length > 0 && ( ... destinations.slice(0, 5).map(...) ...
    destinations.length > 5 && ( ... ) )]: no panel, the panel, or an
    exception that takes the whole component down.  The heading's
    [location.displayName] is a string of the props and is left out of the
    view; the [title] attribute takes any value. *)
Definition render (destinations : list DestinationPoint)
  : Render.Outcome (option View) :=
  if (0 <? List.length destinations)%nat then
    if forallb validItem (List.map item (firstn 5 destinations)) then
      Render.Return
        (Some {| badge := List.length destinations;
                 items := List.map item (firstn 5 destinations);
                 viewAll := (5 <? List.length destinations)%nat |})
    else Render.Throw "Objects are not valid as a React child"
  else Render.Return None.

(** The entries of the full list the button opens; the flag says whether the
    entry gets a bottom border ([i < destinations.length - 1]). *)
Fixpoint allEntries (destinations : list DestinationPoint) : list (Item * bool) :=
  match destinations with
  | [] => []
  | [dest] => [(item dest, false)]
  | dest :: rest => (item dest, true) :: allEntries rest
  end.

End Panel.

(** ** The earlier copy of the component: straight lines *)

Module Lines.
Import Js JsNumber.

(** [Math.max] and [Math.min] of two numbers: NaN as soon as a side is NaN,
    and [+0] is larger than [-0]. *)
Definition Math_max (a b : float) : float :=
  if (isNaN a || isNaN b)%bool then nan
  else if a <? b then b
  else if b <? a then a
  else if (PrimFloat.is_zero a && PrimFloat.get_sign a)%bool then b
  else a.

Definition Math_min (a b : float) : float :=
  if (isNaN a || isNaN b)%bool then nan
  else if a <? b then a
  else if b <? a then b
  else if (PrimFloat.is_zero a && negb (PrimFloat.get_sign a))%bool then b
  else a.

Definition getColor (count max : float) : string :=
  let ratio := count / max in
  if gt ratio 0.75 then "#7c3aed"
  else if gt ratio 0.5 then "#4f46e5"
  else if gt ratio 0.25 then "#3b82f6"
  else "#60a5fa".

(** [Math.max(2, Math.min(6, (dest.visitorCount / maxVisitors) * 6))]. *)
Definition weight (visitorCount maxVisitors : float) : float :=
  Math_max 2 (Math_min 6 ((visitorCount / maxVisitors) * 6)).

(** [Math.max(5, Math.min(12, (dest.visitorCount / maxVisitors) * 12))]. *)
Definition radius (visitorCount maxVisitors : float) : float :=
  Math_max 5 (Math_min 12 ((visitorCount / maxVisitors) * 12)).

(** [destinations[0].visitorCount]; read only when the list is not empty. *)
Definition maxVisitors (destinations : list DestinationPoint) : Z :=
  match destinations with
  | d :: _ => visitorCount d
  | [] => 0%Z
  end.

Module Path.

(** The options of a straight line. *)
Record Options : Type := {
  color : string;
  weight : float;
  opacity : float
}.

End Path.

Inductive Layer : Type :=
| TileLayer (url : string)
| MarkerLayer (position : Point)
| CircleLayer (center : Point) (meters : float)
| CircleMarkerLayer (c : Leaflet.CircleMarker)
| PolylineLayer (latlngs : list Point) (options : Path.Options).

Inductive ConsoleEntry : Type :=
| Log (msg : string)
| Warn (msg : string)
| Error (msg : string).

(** What the destination block of [initializeMap] works on: the layers of
    the map, its local [allPoints] array, the points of the last
    [fitBounds], and the console. *)
Record Pass : Type := {
  layers : list Layer;
  allPoints : list Point;
  fitted : option (list Point);
  out : list ConsoleEntry
}.

Definition write (entry : ConsoleEntry) (st : Pass) : Pass :=
  {| layers := layers st; allPoints := allPoints st; fitted := fitted st;
     out := out st ++ [entry] |}.

Definition pushPoint (p : Point) (st : Pass) : Pass :=
  {| layers := layers st; allPoints := allPoints st ++ [p];
     fitted := fitted st; out := out st |}.

Definition addTo (layer : Layer) (st : Pass) : Pass :=
  {| layers := layers st ++ [layer]; allPoints := allPoints st;
     fitted := fitted st; out := out st |}.

Section WithLeaflet.

(** The coordinate pairs Leaflet's [LatLng] constructor rejects. *)
Variable invalidLatLng : Point -> bool.

(** The callback of [destinations.forEach].  The two [L.latLng] calls are
    the statements of the [try] block that can throw; the marker is built
    from the pair the second one accepted. *)
Definition lineIteration (start : Point) (maxVis : Z)
                         (dest : DestinationPoint) (st : Pass) : Pass :=
  let st0 := write (Log "Processing destination") st in
  if (isNaN (lat dest) || isNaN (lng dest))%bool then
    write (Warn "Invalid coordinates for") st0
  else
    let st1 := pushPoint (lat dest, lng dest) st0 in
    if (invalidLatLng start || invalidLatLng (lat dest, lng dest))%bool then
      write (Error "Error creating arc for") st1
    else
      let color := getColor (Z2F (visitorCount dest)) (Z2F maxVis) in
      let st2 :=
        addTo (PolylineLayer [start; (lat dest, lng dest)]
                 {| Path.color := color;
                    Path.weight := weight (Z2F (visitorCount dest)) (Z2F maxVis);
                    Path.opacity := 0.8 |}) st1 in
      addTo (CircleMarkerLayer
               {| Leaflet.center := (lat dest, lng dest);
                  Leaflet.radius := radius (Z2F (visitorCount dest)) (Z2F maxVis);
                  Leaflet.fillColor := color;
                  Leaflet.strokeColor := "#ffffff";
                  Leaflet.strokeWeight := 2;
                  Leaflet.strokeOpacity := 1;
                  Leaflet.fillOpacity := 0.8;
                  Leaflet.popup :=
                    Some {| Leaflet.title := name dest;
                            Leaflet.subtitle := oror (type dest) (JStr "Unknown");
                            Leaflet.badge := visitorCount dest;
                            Leaflet.badgeColor := color |} |}) st2.

(** The bounds block after the loop. *)
Definition setBounds (st : Pass) : Pass :=
  if (1 <? List.length (allPoints st))%nat then
    let st0 := write (Log "Setting map bounds for") st in
    if existsb invalidLatLng (allPoints st0) then
      write (Error "Error setting map bounds:") st0
    else
      {| layers := layers st0; allPoints := allPoints st0;
         fitted := Some (allPoints st0); out := out st0 |}
  else st.

(** The destination block of [initializeMap]: lines, markers and bounds for
    the current [destinations], drawn on the layers [ls] of the new map. *)
Definition drawLines (location : Props.LocationData)
                     (destinations : list DestinationPoint)
                     (ls : list Layer) (console : list ConsoleEntry) : Pass :=
  let start := (toNumber (Props.latitude location),
                toNumber (Props.longitude location)) in
  let st := {| layers := ls; allPoints := [start]; fitted := None;
               out := console |} in
  match destinations with
  | [] => write (Warn "No destinations found to display arcs") st
  | _ :: _ =>
      let maxVis := maxVisitors destinations in
      let st0 := write (Log "Max visitors:") (write (Log "Creating arcs for") st) in
      setBounds (fold_left (fun acc dest => lineIteration start maxVis dest acc)
                           destinations st0)
  end.

End WithLeaflet.

(** *** The light and dark tiles *)

Inductive Style : Type := light | dark.

Definition lightTiles : string :=
  "https://{s}.basemaps.cartocdn.com/light_all/{z}/{x}/{y}{r}.png".
Definition darkTiles : string :=
  "https://{s}.basemaps.cartocdn.com/dark_all/{z}/{x}/{y}{r}.png".

(** The map reference and the [fontWeight] of the two buttons. *)
Record StyleControl : Type := {
  mapRef : option (list Layer);
  lightBtn : string;
  darkBtn : string
}.

(** [layer instanceof L.TileLayer]. *)
Definition isTileLayer (layer : Layer) : bool :=
  match layer with
  | TileLayer _ => true
  | _ => false
  end.

Definition updateMapStyle (style : Style) (s : StyleControl) : StyleControl :=
  match mapRef s with
  | None => s
  | Some ls =>
      let kept := filter (fun layer => negb (isTileLayer layer)) ls in
      match style with
      | light =>
          {| mapRef := Some (kept ++ [TileLayer lightTiles]);
             lightBtn := "bold"; darkBtn := "normal" |}
      | dark =>
          {| mapRef := Some (kept ++ [TileLayer darkTiles]);
             lightBtn := "normal"; darkBtn := "bold" |}
      end
  end.

(** The destination effect of this copy: a failed load only writes to the
    console. *)
Definition loadDestinations (showDestinations : bool)
                            (outcome : Loaded Ingest.Row) (maxArcs : nat)
                            (destinations : list DestinationPoint)
  : list DestinationPoint :=
  if showDestinations then
    match outcome with
    | Parsed data => Ingest.topDestinations data maxArcs
    | ParseFailed => destinations
    | FetchFailed => destinations
    end
  else destinations.

End Lines.

(** ** The dashboard (CustomerAnalysisDashboard.tsx) *)

(** *** Operators and [toFixed] *)

Module JsOps.
Import Js JsNumber.

(** What [+] turns into a string first: a string, or a [Date], whose
    default primitive is its text. *)
Definition isText (v : JsVal) : bool :=
  match v with
  | JStr _ | JDate _ _ => true
  | _ => false
  end.

(** [a + b]: concatenation as soon as one side is a string or a [Date],
    numeric addition otherwise. *)
Definition add (a b : JsVal) : JsVal :=
  if (isText a || isText b)%bool
  then JStr (String.append (toString a) (toString b))
  else JNum (toNumber a + toNumber b).

(** [a - b]. *)
Definition sub (a b : JsVal) : float := toNumber a - toNumber b.

(** The digits of the integer [n] with a point before the last [f] of
    them, padded with zeros on the left to at least [f + 1] digits. *)
Definition fixedDigits (f : nat) (n : Z) : string :=
  let m := decimalString n in
  match f with
  | O => m
  | S _ =>
      let k := String.length m in
      let m' := if (k <=? f)%nat then String.append (zeros (f + 1 - k)) m else m in
      let k' := String.length m' in
      String.append (String.substring 0 (k' - f) m')
        (String "."%char (String.substring (k' - f) f m'))
  end.

(** [x.toFixed(f)] for [0 <= f <= 100]: the integer [n] with [n / 10^f]
    nearest to [|x|] (the larger one of two), written with [f] decimals. *)
Definition toFixed (f : nat) (x : float) : string :=
  match Prim2SF x with
  | S754_nan => "NaN"
  | S754_infinity s => if s then "-Infinity" else "Infinity"
  | S754_zero _ => fixedDigits f 0
  | S754_finite s m e =>
      let num := (Zpos m * 2 ^ Z.max 0 e)%Z in
      let den := (2 ^ Z.max 0 (- e))%Z in
      let sign : string := if s then "-"%string else EmptyString in
      if (10 ^ 21 * den <=? num)%Z then
        String.append sign (numberToString (PrimFloat.abs x))
      else
        String.append sign
          (fixedDigits f ((2 * num * 10 ^ Z.of_nat f + den) / (2 * den))%Z)
  end.

End JsOps.

(** *** Plain objects used as dictionaries

    An object created by [{}] whose prototype is [Object.prototype] with
    the properties the language gives it, and nothing else. *)

Module JsObject.
Import Js.

(** The own properties of an object literal [{}] that is filled by
    assignment, in the order they were created. *)
Definition Obj : Type := list (string * JsVal).

Fixpoint getOwn (key : string) (o : Obj) : option JsVal :=
  match o with
  | [] => None
  | (k, v) :: o' => if String.eqb k key then Some v else getOwn key o'
  end.

(** An existing property keeps its place; a new one goes last. *)
Fixpoint setOwn (key : string) (v : JsVal) (o : Obj) : Obj :=
  match o with
  | [] => [(key, v)]
  | (k, v') :: o' =>
      if String.eqb k key then (k, v) :: o' else (k, v') :: setOwn key v o'
  end.

(** The function-valued properties every object inherits from
    [Object.prototype]. *)
Definition prototypeFunctions : list string :=
  [ "constructor"; "__defineGetter__"; "__defineSetter__"; "hasOwnProperty";
    "__lookupGetter__"; "__lookupSetter__"; "isPrototypeOf";
    "propertyIsEnumerable"; "toString"; "valueOf"; "toLocaleString" ]%string.

(** What [o[key]] evaluates to: a primitive, a built-in function, or
    [Object.prototype] itself (for the key [__proto__]). *)
Inductive Value : Type :=
| Prim (v : JsVal)
| Function (name : string)
| ObjectPrototype.

Definition get (key : string) (o : Obj) : Value :=
  match getOwn key o with
  | Some v => Prim v
  | None =>
      if String.eqb key "__proto__" then ObjectPrototype
      else if existsb (String.eqb key) prototypeFunctions then Function key
      else Prim JUndefined
  end.

(** [o[key] = v] for a primitive [v]: the setter behind [__proto__] ignores
    it; any other key becomes or stays an own property. *)
Definition assign (key : string) (v : JsVal) (o : Obj) : Obj :=
  if String.eqb key "__proto__" then o else setOwn key v o.

(** The integer a property key stands for when it is an array index: a
    decimal numeral without superfluous zeros, below 2^32 - 1. *)
Definition arrayIndex (key : string) : option Z :=
  match key with
  | EmptyString => None
  | String c rest =>
      let '(v, len, tail) := readDigits 10 key 0%Z 0%nat in
      if (Nat.eqb len (String.length key)
          && (negb (Ascii.eqb c "0") || String.eqb rest EmptyString)
          && (v <=? 4294967294)%Z)%bool
      then Some v else None
  end.

Fixpoint insertIndex (entry : Z * string) (l : list (Z * string)) : list (Z * string) :=
  match l with
  | [] => [entry]
  | e :: l' => if (fst entry <? fst e)%Z then entry :: l else e :: insertIndex entry l'
  end.

Fixpoint indexKeys (o : Obj) : list (Z * string) :=
  match o with
  | [] => []
  | (k, _) :: o' =>
      match arrayIndex k with
      | Some i => insertIndex (i, k) (indexKeys o')
      | None => indexKeys o'
      end
  end.

Fixpoint otherKeys (o : Obj) : list string :=
  match o with
  | [] => []
  | (k, _) :: o' =>
      match arrayIndex k with
      | Some _ => otherKeys o'
      | None => k :: otherKeys o'
      end
  end.

(** [Object.keys(o)]: array indices in ascending order, then the other
    keys in creation order. *)
Definition keys (o : Obj) : list string :=
  List.map snd (indexKeys o) ++ otherKeys o.

End JsObject.

(** *** The processing functions *)

Module Dashboard.
Import Js JsNumber JsOps JsObject.

(** The columns of a row of [amir_final.csv] that the dashboard reads. *)
Record CustomerData : Type := {
  MusteriKodu : JsVal;
  MusteriBolge3 : JsVal;
  MusteriBolge4 : JsVal;
  SatisKanali : JsVal;
  MusteriTabelaAdi : JsVal;
  MusteriCesidi : JsVal;
  MapProfileScore : JsVal;
  MapPopulationScore : JsVal;
  Mapin_Segment : JsVal;
  place_name : JsVal;
  visitor_count : JsVal
}.

(** An entry of a distribution chart. *)
Record DistributionItem : Type := {
  name : string;
  value : JsVal;
  percent : float
}.

(** An entry of a visitors chart. *)
Record VisitorsItem : Type := {
  visitorsName : string;
  visitors : JsVal;
  visitorPercent : float
}.

(** An entry of the top-destinations chart. *)
Record DestinationItem : Type := {
  destinationName : JsVal;
  destinationVisitors : JsVal;
  destinationPercent : float;
  destinationType : JsVal
}.

(** An entry of the score data. *)
Record ScoreItem : Type := {
  id : JsVal;
  scoreName : JsVal;
  profileScore : float;
  populationScore : float;
  scoreVisitors : JsVal;
  segment : JsVal;
  channel : JsVal
}.

(** [Array.prototype.sort] with a comparator: stable; an element moves
    behind exactly those later elements for which the comparator is
    positive (a NaN result counts as zero). *)
Fixpoint insertBy {A : Type} (compareFn : A -> A -> float) (a : A) (l : list A)
  : list A :=
  match l with
  | [] => [a]
  | b :: l' =>
      if gt (compareFn a b) 0 then b :: insertBy compareFn a l' else a :: l
  end.

Definition sortBy {A : Type} (compareFn : A -> A -> float) (l : list A) : list A :=
  fold_right (insertBy compareFn) [] l.

(** [parseFloat((part / total * 100).toFixed(1))]. *)
Definition percentOf (part total : float) : float :=
  parseFloat (toFixed 1 (part / total * 100)).

(** [data.length]. *)
Definition lengthOf {A : Type} (data : list A) : float :=
  Z2F (Z.of_nat (List.length data)).

Section Engine.

(** The text a built-in function is converted to; it differs between
    engines. *)
Variable functionText : string -> string.

Definition truthyValue (v : Value) : bool :=
  match v with
  | Prim p => truthy p
  | _ => true
  end.

(** [v + b] where [b] is primitive. *)
Definition addValue (v : Value) (b : JsVal) : JsVal :=
  match v with
  | Prim p => add p b
  | Function fn => JStr (String.append (functionText fn) (toString b))
  | ObjectPrototype => JStr (String.append "[object Object]" (toString b))
  end.

(** [v || 0]. *)
Definition orZero (v : Value) : Value :=
  if truthyValue v then v else Prim (JNum 0).

(** [distribution[key] = (distribution[key] || 0) + 1]. *)
Definition countRow (key : JsVal) (distribution : Obj) : Obj :=
  let k := toString key in
  assign k (addValue (orZero (get k distribution)) (JNum 1)) distribution.

Definition countBy (column : CustomerData -> JsVal) (data : list CustomerData) : Obj :=
  fold_left (fun distribution row => countRow (column row) distribution) data [].

Definition ownValue (key : string) (o : Obj) : JsVal :=
  match getOwn key o with
  | Some v => v
  | None => JUndefined
  end.

Definition distributionChart (distribution : Obj) (total : float)
  : list DistributionItem :=
  List.map (fun key =>
              {| name := key;
                 value := ownValue key distribution;
                 percent := percentOf (toNumber (ownValue key distribution)) total |})
           (keys distribution).

Definition processChannelDistribution (data : list CustomerData)
  : list DistributionItem :=
  distributionChart (countBy SatisKanali data) (lengthOf data).

Definition byValue (a b : DistributionItem) : float := sub (value b) (value a).

Definition processCustomerTypeDistribution (data : list CustomerData)
  : list DistributionItem :=
  sortBy byValue (distributionChart (countBy MusteriCesidi data) (lengthOf data)).

Definition processSegmentDistribution (data : list CustomerData)
  : list DistributionItem :=
  sortBy byValue (distributionChart (countBy Mapin_Segment data) (lengthOf data)).

(** [row.visitor_count || 0]. *)
Definition visitorsOf (row : CustomerData) : JsVal :=
  oror (visitor_count row) (JNum 0).

(** [if (!o[key]) o[key] = 0; o[key] += row.visitor_count || 0]. *)
Definition addVisitors (key : JsVal) (row : CustomerData) (o : Obj) : Obj :=
  let k := toString key in
  let o1 := if truthyValue (get k o) then o else assign k (JNum 0) o in
  assign k (addValue (get k o1) (visitorsOf row)) o1.

Definition visitorsBy (column : CustomerData -> JsVal) (data : list CustomerData) : Obj :=
  fold_left (fun o row => addVisitors (column row) row o) data [].

Definition byVisitors (a b : VisitorsItem) : float := sub (visitors b) (visitors a).

Definition visitorsChart (o : Obj) (totalVisitors : JsVal) : list VisitorsItem :=
  sortBy byVisitors
    (List.map (fun key =>
                 {| visitorsName := key;
                    visitors := ownValue key o;
                    visitorPercent :=
                      percentOf (toNumber (ownValue key o)) (toNumber totalVisitors) |})
              (keys o)).

Definition processVisitorsByCustomerType (data : list CustomerData)
                                         (totalVisitors : JsVal) : list VisitorsItem :=
  visitorsChart (visitorsBy MusteriCesidi data) totalVisitors.

Definition processVisitorsByRegion (data : list CustomerData)
                                   (totalVisitors : JsVal) : list VisitorsItem :=
  visitorsChart (visitorsBy MusteriBolge4 data) totalVisitors.

End Engine.

Definition toDestinationItem (totalVisitors : JsVal) (row : CustomerData)
  : DestinationItem :=
  {| destinationName := oror (place_name row) (MusteriTabelaAdi row);
     destinationVisitors := visitorsOf row;
     destinationPercent :=
       percentOf (toNumber (visitorsOf row)) (toNumber totalVisitors);
     destinationType := MusteriCesidi row |}.

(** [item.name && item.visitors > 0]. *)
Definition keepDestination (item : DestinationItem) : bool :=
  truthy (andand (destinationName item)
            (JBool (gt (toNumber (destinationVisitors item)) 0))).

Definition byDestinationVisitors (a b : DestinationItem) : float :=
  sub (destinationVisitors b) (destinationVisitors a).

Definition processTopDestinations (data : list CustomerData) (totalVisitors : JsVal)
  : list DestinationItem :=
  firstn 10
    (sortBy byDestinationVisitors
       (filter keepDestination (List.map (toDestinationItem totalVisitors) data))).

(** [parseFloat(String(score).replace(',', '.'))]. *)
Definition parseScore (score : JsVal) : float :=
  parseFloat (replace "," "." (toString score)).

Definition processScoreDistribution (data : list CustomerData) : list ScoreItem :=
  List.map (fun row =>
              {| id := MusteriKodu row;
                 scoreName := MusteriTabelaAdi row;
                 profileScore := parseScore (MapProfileScore row);
                 populationScore := parseScore (MapPopulationScore row);
                 scoreVisitors := visitorsOf row;
                 segment := Mapin_Segment row;
                 channel := SatisKanali row |})
           data.

(** [data.reduce((sum, row) => sum + (row.visitor_count || 0), 0)]. *)
Definition totalVisitors (data : list CustomerData) : JsVal :=
  fold_left (fun sum row => add sum (visitorsOf row)) data (JNum 0).

End Dashboard.

(** * Properties *)

(** ** Rounding to binary64

    Real values of binary64 numbers and the bounds that rounding to nearest
    keeps, for the division, multiplication and addition of non-negative
    numbers.  [F2R m e] is the real [m * 2^e]. *)

Module Rounding.

Local Open Scope R_scope.

Definition bpow (e : Z) : R := powerRZ 2 e.

Lemma bpow_gt_0 e : 0 < bpow e.
Proof. apply powerRZ_lt. lra. Qed.

Lemma bpow_add a b : bpow (a + b) = bpow a * bpow b.
Proof. apply powerRZ_add. lra. Qed.

Lemma bpow_0 : bpow 0 = 1.
Proof. reflexivity. Qed.

Lemma bpow_1 : bpow 1 = 2.
Proof. unfold bpow. simpl. lra. Qed.

Lemma bpow_m1 : bpow (-1) = / 2.
Proof. unfold bpow. simpl. now rewrite Rmult_1_r. Qed.

Lemma bpow_IZR k : (0 <= k)%Z -> bpow k = IZR (2 ^ k).
Proof.
  intros Hk. destruct k as [|p|p]; [reflexivity| |lia].
  unfold bpow. now rewrite <- Zpower_pos_powerRZ.
Qed.

Lemma bpow_ge_1 k : (0 <= k)%Z -> 1 <= bpow k.
Proof.
  intros Hk. rewrite bpow_IZR by assumption. apply IZR_le.
  pose proof (Z.pow_pos_nonneg 2 k). lia.
Qed.

Lemma bpow_le a b : (a <= b)%Z -> bpow a <= bpow b.
Proof.
  intros H. replace b with (a + (b - a))%Z by lia. rewrite bpow_add.
  pose proof (bpow_gt_0 a). pose proof (bpow_ge_1 (b - a) ltac:(lia)). nra.
Qed.

Lemma bpow_lt a b : (a < b)%Z -> bpow a < bpow b.
Proof.
  intros H. replace b with (a + 1 + (b - a - 1))%Z by lia. rewrite !bpow_add.
  pose proof (bpow_gt_0 a). pose proof (bpow_ge_1 (b - a - 1) ltac:(lia)).
  rewrite bpow_1. nra.
Qed.

Lemma bpow_le_inv a b : bpow a <= bpow b -> (a <= b)%Z.
Proof.
  intros H. destruct (Z.le_gt_cases a b) as [|Hlt]; [assumption|].
  apply bpow_lt in Hlt. lra.
Qed.

Lemma bpow_opp a : bpow (- a) = / bpow a.
Proof. apply powerRZ_neg'. Qed.

Lemma bpow_cancel a : bpow a * bpow (- a) = 1.
Proof.
  rewrite <- bpow_add. now replace (a + - a)%Z with 0%Z by lia.
Qed.

Definition F2R (m e : Z) : R := IZR m * bpow e.

(** Mantissa sizes *)

Lemma digits2_pos_bounds (p : positive) :
  (2 ^ (Z.pos (digits2_pos p) - 1) <= Z.pos p < 2 ^ Z.pos (digits2_pos p))%Z.
Proof.
  induction p as [p IH|p IH|]; simpl digits2_pos.
  - rewrite Pos2Z.inj_succ. change (Z.pos p~1) with (2 * Z.pos p + 1)%Z.
    replace (Z.succ (Z.pos (digits2_pos p)) - 1)%Z
      with (Z.succ (Z.pos (digits2_pos p) - 1))%Z by lia.
    rewrite !Z.pow_succ_r by lia.
    remember (2 ^ (Z.pos (digits2_pos p) - 1))%Z as a.
    remember (2 ^ Z.pos (digits2_pos p))%Z as b. clear - IH. lia.
  - rewrite Pos2Z.inj_succ. change (Z.pos p~0) with (2 * Z.pos p)%Z.
    replace (Z.succ (Z.pos (digits2_pos p)) - 1)%Z
      with (Z.succ (Z.pos (digits2_pos p) - 1))%Z by lia.
    rewrite !Z.pow_succ_r by lia.
    remember (2 ^ (Z.pos (digits2_pos p) - 1))%Z as a.
    remember (2 ^ Z.pos (digits2_pos p))%Z as b. clear - IH. lia.
  - simpl. lia.
Qed.

Lemma Zdigits2_bounds (m : Z) :
  (0 < m)%Z -> (2 ^ (Zdigits2 m - 1) <= m < 2 ^ Zdigits2 m)%Z /\ (0 < Zdigits2 m)%Z.
Proof.
  destruct m as [|p|p]; try lia. intros _. simpl.
  split; [apply digits2_pos_bounds | lia].
Qed.

Lemma Zdigits2_nonneg (m : Z) : (0 <= Zdigits2 m)%Z.
Proof. destruct m; simpl; lia. Qed.

Lemma Zdigits2_unique (m d : Z) :
  (2 ^ (d - 1) <= m < 2 ^ d)%Z -> (0 < m)%Z -> Zdigits2 m = d.
Proof.
  intros [Hlo Hhi] Hm.
  destruct (Zdigits2_bounds m Hm) as [[Dlo Dhi] Dpos].
  assert (Hd : (0 < d)%Z).
  { destruct (Z.lt_ge_cases 0 d); [assumption|].
    destruct (Z.eq_dec d 0) as [->|]; [simpl in Hhi; lia|].
    rewrite (Z.pow_neg_r 2 d) in Hhi by lia. lia. }
  destruct (Z.lt_trichotomy (Zdigits2 m) d) as [H|[H|H]]; [|assumption|].
  - assert (2 ^ Zdigits2 m <= 2 ^ (d - 1))%Z by (apply Z.pow_le_mono_r; lia). lia.
  - assert (2 ^ d <= 2 ^ (Zdigits2 m - 1))%Z by (apply Z.pow_le_mono_r; lia). lia.
Qed.


(** Position of a real in the unit interval above an integer *)

Definition located (m : Z) (l : location) (u : R) : Prop :=
  match l with
  | loc_Exact => u = IZR m
  | loc_Inexact Lt => IZR m < u < IZR m + / 2
  | loc_Inexact Eq => u = IZR m + / 2
  | loc_Inexact Gt => IZR m + / 2 < u < IZR m + 1
  end.

Lemma located_bounds m l u : located m l u -> IZR m <= u < IZR m + 1.
Proof. destruct l as [|[| |]]; simpl; lra. Qed.

Lemma located_inexact m l u :
  located m l u -> l <> loc_Exact -> IZR m < u.
Proof. destruct l as [|[| |]]; simpl; intros; try lra. congruence. Qed.

Lemma loc_of_record m l : loc_of_shr_record (shr_record_of_loc m l) = l.
Proof. now destruct l as [|[| |]]. Qed.

Lemma shr_m_of_record m l : shr_m (shr_record_of_loc m l) = m.
Proof. now destruct l as [|[| |]]. Qed.

Lemma shr_1_spec mrs u :
  (0 <= shr_m mrs)%Z ->
  located (shr_m mrs) (loc_of_shr_record mrs) u ->
  located (shr_m (shr_1 mrs)) (loc_of_shr_record (shr_1 mrs)) (u / 2)
  /\ shr_m (shr_1 mrs) = (shr_m mrs / 2)%Z.
Proof.
  destruct mrs as [m r s]. simpl shr_m. intros Hm H.
  destruct m as [|[p|p|]|p]; try lia.
  - split.
    + destruct r, s; simpl in *; lra.
    + now destruct r, s.
  - assert (E : IZR (Z.pos p~1) = 2 * IZR (Z.pos p) + 1).
    { change (Z.pos p~1) with (2 * Z.pos p + 1)%Z.
      now rewrite plus_IZR, mult_IZR. }
    split.
    + destruct r, s; unfold located, shr_1, loc_of_shr_record, shr_m in *;
        simpl orb; cbv iota; lra.
    + destruct r, s; simpl shr_m;
        apply (Z.div_unique _ 2 _ 1); lia.
  - assert (E : IZR (Z.pos p~0) = 2 * IZR (Z.pos p)).
    { change (Z.pos p~0) with (2 * Z.pos p)%Z. now rewrite mult_IZR. }
    split.
    + destruct r, s; unfold located, shr_1, loc_of_shr_record, shr_m in *;
        simpl orb; cbv iota; lra.
    + destruct r, s; simpl shr_m;
        apply (Z.div_unique _ 2 _ 0); lia.
  - split.
    + destruct r, s; simpl in *; lra.
    + now destruct r, s.
Qed.

Lemma iter_shr_spec (n : positive) :
  forall mrs u,
    (0 <= shr_m mrs)%Z ->
    located (shr_m mrs) (loc_of_shr_record mrs) u ->
    located (shr_m (SpecFloat.iter_pos shr_1 n mrs))
            (loc_of_shr_record (SpecFloat.iter_pos shr_1 n mrs)) (u * bpow (- Z.pos n))
    /\ shr_m (SpecFloat.iter_pos shr_1 n mrs) = (shr_m mrs / 2 ^ Z.pos n)%Z.
Proof.
  assert (Hnn : forall m k, (0 <= m)%Z -> (0 <= m / 2 ^ Z.pos k)%Z).
  { intros m k Hm. apply Z.div_pos; [assumption|]. apply Z.pow_pos_nonneg; lia. }
  induction n as [n IH|n IH|]; intros mrs u Hm H; simpl SpecFloat.iter_pos.
  - destruct (shr_1_spec mrs u Hm H) as [H1 E1].
    assert (Hm1 : (0 <= shr_m (shr_1 mrs))%Z)
      by (rewrite E1; apply Z.div_pos; lia).
    destruct (IH _ _ Hm1 H1) as [H2 E2].
    assert (Hm2 : (0 <= shr_m (SpecFloat.iter_pos shr_1 n (shr_1 mrs)))%Z)
      by (rewrite E2; apply Hnn; lia).
    destruct (IH _ _ Hm2 H2) as [H3 E3]. split.
    + replace (u * bpow (- Z.pos n~1))
        with (u / 2 * bpow (- Z.pos n) * bpow (- Z.pos n)); [assumption|].
      change (Z.pos n~1) with (2 * Z.pos n + 1)%Z.
      replace (- (2 * Z.pos n + 1))%Z with (- Z.pos n + - Z.pos n + -1)%Z by lia.
      rewrite !bpow_add, bpow_m1. field.
    + rewrite E3, E2, E1. change (Z.pos n~1) with (2 * Z.pos n + 1)%Z.
      rewrite !Z.div_div by (try apply Z.pow_pos_nonneg; lia).
      f_equal. replace (2 * Z.pos n + 1)%Z with (1 + Z.pos n + Z.pos n)%Z by lia.
      rewrite !Z.pow_add_r by lia. change (2 ^ 1)%Z with 2%Z. ring.
  - destruct (IH _ _ Hm H) as [H2 E2].
    assert (Hm2 : (0 <= shr_m (SpecFloat.iter_pos shr_1 n mrs))%Z)
      by (rewrite E2; apply Hnn; lia).
    destruct (IH _ _ Hm2 H2) as [H3 E3]. split.
    + replace (u * bpow (- Z.pos n~0))
        with (u * bpow (- Z.pos n) * bpow (- Z.pos n)); [assumption|].
      change (Z.pos n~0) with (2 * Z.pos n)%Z.
      replace (- (2 * Z.pos n))%Z with (- Z.pos n + - Z.pos n)%Z by lia.
      rewrite !bpow_add. ring.
    + rewrite E3, E2. change (Z.pos n~0) with (2 * Z.pos n)%Z.
      rewrite !Z.div_div by (try apply Z.pow_pos_nonneg; lia).
      f_equal. replace (2 * Z.pos n)%Z with (Z.pos n + Z.pos n)%Z by lia.
      rewrite !Z.pow_add_r by lia. ring.
  - destruct (shr_1_spec mrs u Hm H) as [H1 E1]. split.
    + change (- Z.pos 1)%Z with (-1)%Z. rewrite bpow_m1. exact H1.
    + rewrite E1. reflexivity.
Qed.


(** Binary64 *)

Lemma fexp_spec e : fexp prec emax e = Z.max (e - 53) (-1074).
Proof. reflexivity. Qed.

Lemma bounded_spec (m : positive) (e : Z) :
  SpecFloat.bounded prec emax m e = true ->
  fexp prec emax (Zdigits2 (Z.pos m) + e) = e /\ (e <= 971)%Z.
Proof.
  unfold SpecFloat.bounded, canonical_mantissa. intros H.
  apply andb_prop in H. destruct H as [H1 H2].
  apply Z.eqb_eq in H1. apply Z.leb_le in H2. split; assumption.
Qed.

Lemma F2R_lt_bpow (m e : Z) :
  (0 < m)%Z -> F2R m e < bpow (Zdigits2 m + e).
Proof.
  intros Hm. destruct (Zdigits2_bounds m Hm) as [[_ Hhi] Hd].
  unfold F2R. rewrite bpow_add, (bpow_IZR (Zdigits2 m)) by lia.
  apply Rmult_lt_compat_r; [apply bpow_gt_0 | now apply IZR_lt].
Qed.

Lemma bpow_le_F2R (m e : Z) :
  (0 < m)%Z -> bpow (Zdigits2 m - 1 + e) <= F2R m e.
Proof.
  intros Hm. destruct (Zdigits2_bounds m Hm) as [[Hlo _] Hd].
  unfold F2R. rewrite bpow_add, (bpow_IZR (Zdigits2 m - 1)) by lia.
  apply Rmult_le_compat_r; [left; apply bpow_gt_0 | now apply IZR_le].
Qed.

Lemma F2R_shift (m e k : Z) :
  (0 <= k)%Z -> F2R (m * 2 ^ k) e = F2R m (e + k).
Proof.
  intros Hk. unfold F2R. rewrite mult_IZR, bpow_add, (bpow_IZR k) by lia. ring.
Qed.

Lemma shifted_digits (m n : Z) :
  (0 < m)%Z -> (0 <= n)%Z ->
  ((0 < m / 2 ^ n)%Z -> Zdigits2 (m / 2 ^ n) = (Zdigits2 m - n)%Z)
  /\ ((m / 2 ^ n = 0)%Z -> (Zdigits2 m <= n)%Z).
Proof.
  intros Hm Hn. destruct (Zdigits2_bounds m Hm) as [[Hlo Hhi] Hd].
  assert (Hp : (0 < 2 ^ n)%Z) by (apply Z.pow_pos_nonneg; lia).
  split.
  - intros Hq.
    assert (Hge : (2 ^ n <= m)%Z).
    { destruct (Z.lt_ge_cases m (2 ^ n)) as [Hlt|]; [|assumption].
      rewrite Z.div_small in Hq by lia. lia. }
    assert (Hdn : (n < Zdigits2 m)%Z).
    { destruct (Z.lt_ge_cases n (Zdigits2 m)); [assumption|].
      assert (2 ^ Zdigits2 m <= 2 ^ n)%Z by (apply Z.pow_le_mono_r; lia). lia. }
    apply Zdigits2_unique; [|assumption]. split.
    + apply Z.div_le_lower_bound; [assumption|].
      rewrite <- Z.pow_add_r by lia.
      now replace (n + (Zdigits2 m - n - 1))%Z with (Zdigits2 m - 1)%Z by lia.
    + apply Z.div_lt_upper_bound; [assumption|].
      rewrite <- Z.pow_add_r by lia.
      now replace (n + (Zdigits2 m - n))%Z with (Zdigits2 m) by lia.
  - intros Hq.
    destruct (Z.lt_ge_cases n (Zdigits2 m)) as [Hlt|]; [|lia].
    assert (2 ^ n <= 2 ^ (Zdigits2 m - 1))%Z by (apply Z.pow_le_mono_r; lia).
    assert (1 <= m / 2 ^ n)%Z.
    { apply Z.div_le_lower_bound; lia. }
    lia.
Qed.

Lemma shr_fexp_spec (m e : Z) (l : location) (x : R) :
  (0 <= m)%Z ->
  located m l (x * bpow (- e)) ->
  (e <= fexp prec emax (Zdigits2 m + e))%Z ->
  exists mrs',
    shr_fexp prec emax m e l = (mrs', fexp prec emax (Zdigits2 m + e))
    /\ located (shr_m mrs') (loc_of_shr_record mrs')
         (x * bpow (- fexp prec emax (Zdigits2 m + e)))
    /\ shr_m mrs' = (m / 2 ^ (fexp prec emax (Zdigits2 m + e) - e))%Z.
Proof.
  intros Hm Hl He. unfold shr_fexp, shr.
  set (e' := fexp prec emax (Zdigits2 m + e)) in *.
  destruct (e' - e)%Z as [|p|p] eqn:Hn; try lia.
  - exists (shr_record_of_loc m l).
    replace e' with e by lia.
    rewrite loc_of_record, shr_m_of_record. repeat split; try assumption.
    now rewrite Z.div_1_r.
  - exists (SpecFloat.iter_pos shr_1 p (shr_record_of_loc m l)).
    destruct (iter_shr_spec p (shr_record_of_loc m l) (x * bpow (- e)))
      as [H1 H2].
    + now rewrite shr_m_of_record.
    + now rewrite loc_of_record, shr_m_of_record.
    + rewrite shr_m_of_record in H2. split; [f_equal; lia|]. split; [|assumption].
      replace (x * bpow (- e')) with (x * bpow (- e) * bpow (- Z.pos p));
        [assumption|].
      rewrite Rmult_assoc, <- bpow_add. f_equal. f_equal. lia.
Qed.

Lemma rne_cases (m : Z) (l : location) :
  round_nearest_even m l = m
  \/ (round_nearest_even m l = (m + 1)%Z /\ l <> loc_Exact).
Proof.
  destruct l as [|[| |]]; simpl; auto.
  - destruct (Z.even m); [left; reflexivity | right; split; [reflexivity | discriminate]].
  - right. split; [reflexivity | discriminate].
Qed.


Lemma Zdigits2_le_of_lt (x d : Z) :
  (0 < x < 2 ^ d)%Z -> (Zdigits2 x <= d)%Z.
Proof.
  intros [Hx Hd]. destruct (Zdigits2_bounds x Hx) as [[Hlo _] Hp].
  destruct (Z.le_gt_cases (Zdigits2 x) d) as [|Hgt]; [assumption|].
  assert (2 ^ d <= 2 ^ (Zdigits2 x - 1))%Z by (apply Z.pow_le_mono_r; lia). lia.
Qed.

(** The state of the mantissa after the first shift: it is zero at the
    smallest exponent, or it fills its canonical exponent. *)
Definition settled (m' e' : Z) : Prop :=
  (m' = 0%Z /\ e' = (-1074)%Z)
  \/ ((0 < m')%Z /\ fexp prec emax (Zdigits2 m' + e') = e').

Lemma second_shift (m' e' m1 : Z) :
  settled m' e' ->
  m1 = m' \/ m1 = (m' + 1)%Z ->
  exists mrs'' e'',
    shr_fexp prec emax m1 e' loc_Exact = (mrs'', e'')
    /\ F2R (shr_m mrs'') e'' = F2R m1 e'
    /\ (m1 = 0%Z -> shr_m mrs'' = 0%Z)
    /\ ((0 < m1)%Z -> (0 < shr_m mrs'')%Z).
Proof.
  intros Hs Hm1. unfold shr_fexp, shr.
  destruct (fexp prec emax (Zdigits2 m1 + e') - e')%Z as [|p|p] eqn:Hn.
  - exists (shr_record_of_loc m1 loc_Exact), e'. simpl. auto.
  - assert (Hm' : (0 < m')%Z /\ m1 = (m' + 1)%Z
                  /\ fexp prec emax (Zdigits2 m' + e') = e').
    { destruct Hs as [[-> ->]|[Hpos Hc]].
      - destruct Hm1 as [-> | ->]; vm_compute in Hn; discriminate.
      - destruct Hm1 as [-> | ->]; [lia | auto]. }
    destruct Hm' as (Hpos & -> & Hc).
    destruct (Zdigits2_bounds m' Hpos) as [[Hlo Hhi] Hd].
    assert (Hd1 : (Zdigits2 (m' + 1) <= Zdigits2 m' + 1)%Z).
    { apply Zdigits2_le_of_lt. rewrite Z.pow_add_r by lia. simpl (2 ^ 1)%Z. lia. }
    rewrite fexp_spec in Hn, Hc.
    assert (Hp : p = 1%positive) by lia. subst p.
    assert (Hd2 : Zdigits2 (m' + 1) = (Zdigits2 m' + 1)%Z) by lia.
    destruct (Zdigits2_bounds (m' + 1) ltac:(lia)) as [[Hlo1 _] _].
    rewrite Hd2 in Hlo1.
    replace (Zdigits2 m' + 1 - 1)%Z with (Zdigits2 m') in Hlo1 by lia.
    assert (Hpow : (m' + 1 = 2 * 2 ^ (Zdigits2 m' - 1))%Z).
    { replace (Zdigits2 m') with (1 + (Zdigits2 m' - 1))%Z in Hlo1, Hhi by lia.
      rewrite Z.pow_add_r in Hlo1, Hhi by lia. simpl (2 ^ 1)%Z in *. lia. }
    destruct (iter_shr_spec 1 (shr_record_of_loc (m' + 1) loc_Exact)
                (IZR (m' + 1))) as [_ H2].
    + simpl. lia.
    + reflexivity.
    + simpl shr_record_of_loc in *. simpl shr_m in H2 at 2.
      exists (SpecFloat.iter_pos shr_1 1
                {| shr_m := m' + 1; shr_r := false; shr_s := false |}),
             (e' + 1)%Z.
      rewrite H2, Hpow.
      replace (2 * 2 ^ (Zdigits2 m' - 1) / 2 ^ 1)%Z
        with (2 ^ (Zdigits2 m' - 1))%Z.
      2:{ simpl (2 ^ 1)%Z. rewrite Z.mul_comm, Z.div_mul; lia. }
      assert (0 < 2 ^ (Zdigits2 m' - 1))%Z by (apply Z.pow_pos_nonneg; lia).
      repeat split; try lia.
      unfold F2R. rewrite mult_IZR, bpow_add, bpow_1. ring.
  - exists (shr_record_of_loc m1 loc_Exact), e'. simpl. auto.
Qed.


Lemma settled_after_shift (m e : Z) :
  (0 <= m)%Z ->
  (e <= fexp prec emax (Zdigits2 m + e))%Z ->
  settled (m / 2 ^ (fexp prec emax (Zdigits2 m + e) - e))
          (fexp prec emax (Zdigits2 m + e)).
Proof.
  intros Hm He. unfold settled.
  destruct (Z.eq_dec m 0) as [->|Hne].
  - left. rewrite Z.div_0_l by (apply Z.pow_nonzero; lia).
    simpl Zdigits2 in *. rewrite fexp_spec in *. lia.
  - assert (Hpos : (0 < m)%Z) by lia.
    destruct (shifted_digits m (fexp prec emax (Zdigits2 m + e) - e) Hpos
                ltac:(lia)) as [H1 H2].
    assert (Hq : (0 <= m / 2 ^ (fexp prec emax (Zdigits2 m + e) - e))%Z).
    { apply Z.div_pos; [lia|]. apply Z.pow_pos_nonneg; lia. }
    destruct (Z.eq_dec (m / 2 ^ (fexp prec emax (Zdigits2 m + e) - e)) 0)
      as [Hz|Hnz].
    + left. split; [assumption|]. specialize (H2 Hz).
      rewrite fexp_spec in *. lia.
    + right. split; [lia|]. rewrite H1 by lia.
      now replace (Zdigits2 m - (fexp prec emax (Zdigits2 m + e) - e)
                   + fexp prec emax (Zdigits2 m + e))%Z
        with (Zdigits2 m + e)%Z by lia.
Qed.

(** No binary64 number lies strictly between two neighbouring multiples of
    the unit of a settled mantissa. *)
Lemma no_float_between (m' e' : Z) (mB : positive) (eB : Z) :
  settled m' e' ->
  SpecFloat.bounded prec emax mB eB = true ->
  F2R m' e' < F2R (Z.pos mB) eB ->
  F2R (m' + 1) e' <= F2R (Z.pos mB) eB.
Proof.
  intros Hs HB Hlt. destruct (bounded_spec _ _ HB) as [HcB _].
  destruct (Z.le_gt_cases e' eB) as [Hle|Hgt].
  - replace eB with (e' + (eB - e'))%Z in * by lia.
    rewrite <- F2R_shift in * by lia. unfold F2R in *.
    pose proof (bpow_gt_0 e') as Hb.
    assert (Hk : (m' < Z.pos mB * 2 ^ (eB - e'))%Z).
    { apply lt_IZR. nra. }
    apply Rmult_le_compat_r; [lra|]. apply IZR_le. lia.
  - exfalso. destruct Hs as [[-> ->]|[Hpos Hc]].
    + rewrite fexp_spec in HcB. lia.
    + assert (Hd : (Zdigits2 (Z.pos mB) + eB <= Zdigits2 m' - 1 + e')%Z).
      { rewrite fexp_spec in *. lia. }
      pose proof (F2R_lt_bpow (Z.pos mB) eB ltac:(lia)).
      pose proof (bpow_le_F2R m' e' Hpos).
      pose proof (bpow_le _ _ Hd). lra.
Qed.

Definition SFval (x : spec_float) : R :=
  match x with
  | S754_finite s m e => F2R (cond_Zopp s (Z.pos m)) e
  | _ => 0
  end.

Definition nonneg_finite (x : spec_float) : Prop :=
  x = S754_zero false \/ exists m e, x = S754_finite false m e.

(** Rounding a non-negative real: the result stays below every binary64
    number above the real and above every binary64 number below it. *)
Theorem round_aux_bounds (m e : Z) (l : location) (x : R)
                         (mB : positive) (eB : Z) :
  (0 <= m)%Z ->
  located m l (x * bpow (- e)) ->
  (e <= fexp prec emax (Zdigits2 m + e))%Z ->
  SpecFloat.bounded prec emax mB eB = true ->
  x <= F2R (Z.pos mB) eB ->
  F2R (Z.pos mB) eB <= bpow 971 ->
  let r := binary_round_aux prec emax false m e l in
  nonneg_finite r
  /\ 0 <= SFval r <= F2R (Z.pos mB) eB
  /\ (forall mA eA,
         SpecFloat.bounded prec emax mA eA = true ->
         F2R (Z.pos mA) eA <= x -> F2R (Z.pos mA) eA <= SFval r).
Proof.
  intros Hm Hl He HB HxB HBmax r. subst r. unfold binary_round_aux.
  destruct (shr_fexp_spec m e l x Hm Hl He) as (mrs' & -> & Hl' & Em').
  set (e' := fexp prec emax (Zdigits2 m + e)) in *.
  set (m' := shr_m mrs') in *.
  set (l' := loc_of_shr_record mrs') in *.
  assert (Hs : settled m' e').
  { rewrite Em'. subst e'. now apply settled_after_shift. }
  assert (Hm'0 : (0 <= m')%Z).
  { destruct Hs as [[-> _]|[? _]]; lia. }
  pose proof (bpow_gt_0 e') as Hbe'.
  assert (Hx' : x * bpow (- e') * bpow e' = x).
  { rewrite Rmult_assoc, (Rmult_comm (bpow (- e'))), bpow_cancel. ring. }
  destruct (located_bounds _ _ _ Hl') as [Hlo Hhi].
  assert (Hlo' : F2R m' e' <= x) by (unfold F2R; nra).
  assert (Hhi' : x < F2R (m' + 1) e') by (unfold F2R; rewrite plus_IZR; nra).
  set (m1 := round_nearest_even m' l').
  assert (Hm1 : m1 = m' \/ m1 = (m' + 1)%Z /\ l' <> loc_Exact)
    by apply rne_cases.
  assert (Hm1' : m1 = m' \/ m1 = (m' + 1)%Z) by tauto.
  destruct (second_shift m' e' m1 Hs Hm1')
    as (mrs'' & e'' & -> & Hval & Hz & Hp).
  (* the value reached before the final normalisation *)
  assert (Hup : F2R m1 e' <= F2R (Z.pos mB) eB).
  { destruct Hm1 as [-> | [-> Hne]]; [lra|].
    apply no_float_between; try assumption.
    pose proof (located_inexact _ _ _ Hl' Hne) as Hin.
    assert (F2R m' e' < x); [|lra].
    unfold F2R. rewrite <- Hx'. now apply Rmult_lt_compat_r. }
  assert (Hge : F2R m' e' <= F2R m1 e').
  { destruct Hm1' as [-> | ->]; [lra|]. unfold F2R. rewrite plus_IZR. nra. }
  assert (Hdown : forall mA eA,
             SpecFloat.bounded prec emax mA eA = true ->
             F2R (Z.pos mA) eA <= x -> F2R (Z.pos mA) eA <= F2R m1 e').
  { intros mA eA HA HAx.
    destruct (Rle_or_lt (F2R (Z.pos mA) eA) (F2R m' e')) as [|Hgt]; [lra|].
    pose proof (no_float_between m' e' mA eA Hs HA Hgt). lra. }
  assert (H0 : 0 <= F2R m1 e').
  { assert (0 <= F2R m' e'); [|lra].
    unfold F2R. apply Rmult_le_pos; [now apply IZR_le | lra]. }
  destruct (shr_m mrs'') as [|p|p] eqn:Em''.
  - split; [left; reflexivity|]. simpl SFval.
    assert (F2R m1 e' = 0) by (rewrite <- Hval; unfold F2R; simpl; ring).
    split; [lra|]. intros mA eA HA HAx. specialize (Hdown mA eA HA HAx). lra.
  - assert (He'' : (e'' <= 971)%Z).
    { apply bpow_le_inv.
      assert (bpow e'' <= F2R (Z.pos p) e''); [|lra].
      unfold F2R. pose proof (bpow_gt_0 e'').
      assert (1 <= IZR (Z.pos p)) by (apply IZR_le; lia). nra. }
    replace (e'' <=? emax - prec)%Z with true
      by (symmetry; apply Z.leb_le; exact He'').
    split; [right; eauto|]. simpl SFval. rewrite Hval.
    split; [lra | exact Hdown].
  - exfalso. destruct (Z.eq_dec m1 0) as [E|E]; [specialize (Hz E); lia|].
    assert (0 < m1)%Z by (destruct Hm1' as [-> | ->]; lia).
    specialize (Hp ltac:(assumption)). lia.
Qed.


(** Operations *)

Lemma Zdigits2_mul_pow (m k : Z) :
  (0 < m)%Z -> (0 <= k)%Z -> Zdigits2 (m * 2 ^ k) = (Zdigits2 m + k)%Z.
Proof.
  intros Hm Hk. destruct (Zdigits2_bounds m Hm) as [[Hlo Hhi] Hd].
  assert (Hp : (0 < 2 ^ k)%Z) by (apply Z.pow_pos_nonneg; lia).
  apply Zdigits2_unique; [|nia].
  replace (Zdigits2 m + k - 1)%Z with (Zdigits2 m - 1 + k)%Z by lia.
  rewrite !Z.pow_add_r by lia. nia.
Qed.

Lemma Zdigits2_ge (q k : Z) :
  (0 <= k)%Z -> (2 ^ k <= q)%Z -> (k + 1 <= Zdigits2 q)%Z.
Proof.
  intros Hk Hq.
  assert (Hp : (0 < 2 ^ k)%Z) by (apply Z.pow_pos_nonneg; lia).
  destruct (Zdigits2_bounds q ltac:(lia)) as [[_ Hhi] Hd].
  destruct (Z.le_gt_cases (k + 1) (Zdigits2 q)) as [|Hgt]; [assumption|].
  assert (2 ^ Zdigits2 q <= 2 ^ k)%Z by (apply Z.pow_le_mono_r; lia). lia.
Qed.

Lemma fexp_mono a b : (a <= b)%Z -> (fexp prec emax a <= fexp prec emax b)%Z.
Proof. rewrite !fexp_spec. lia. Qed.

Lemma mul_bounds (m1 m2 : positive) (e1 e2 : Z) (mB : positive) (eB : Z) :
  Zdigits2 (Z.pos m2) = 53%Z ->
  SpecFloat.bounded prec emax mB eB = true ->
  F2R (Z.pos m1) e1 * F2R (Z.pos m2) e2 <= F2R (Z.pos mB) eB ->
  F2R (Z.pos mB) eB <= bpow 971 ->
  let r := SFmul prec emax (S754_finite false m1 e1) (S754_finite false m2 e2) in
  nonneg_finite r
  /\ 0 <= SFval r <= F2R (Z.pos mB) eB
  /\ (forall mA eA,
         SpecFloat.bounded prec emax mA eA = true ->
         F2R (Z.pos mA) eA <= F2R (Z.pos m1) e1 * F2R (Z.pos m2) e2 ->
         F2R (Z.pos mA) eA <= SFval r).
Proof.
  intros Hd HB Hx HBmax. simpl SFmul.
  apply round_aux_bounds; try assumption; [lia| |].
  - simpl. unfold F2R. rewrite Pos2Z.inj_mul, mult_IZR.
    replace (- (e1 + e2))%Z with (- e1 + - e2)%Z by lia.
    rewrite bpow_add.
    transitivity (IZR (Z.pos m1) * IZR (Z.pos m2)
                  * (bpow e1 * bpow (- e1)) * (bpow e2 * bpow (- e2)));
      [ring | rewrite !bpow_cancel; ring].
  - rewrite Pos2Z.inj_mul.
    destruct (Zdigits2_bounds (Z.pos m1) ltac:(lia)) as [[L1 _] D1].
    destruct (Zdigits2_bounds (Z.pos m2) ltac:(lia)) as [[L2 _] D2].
    assert (Hprod : (2 ^ (Zdigits2 (Z.pos m1) - 1 + 52) <= Z.pos m1 * Z.pos m2)%Z).
    { rewrite Z.pow_add_r by lia. rewrite Hd in L2. simpl (53 - 1)%Z in L2.
      assert (0 < 2 ^ (Zdigits2 (Z.pos m1) - 1))%Z by (apply Z.pow_pos_nonneg; lia).
      nia. }
    apply Zdigits2_ge in Hprod; [|lia].
    rewrite fexp_spec. lia.
Qed.

Lemma new_location_spec (n k q : Z) :
  (0 <= k < n)%Z ->
  located q (new_location n k) (IZR q + IZR k / IZR n).
Proof.
  intros [Hk Hn].
  assert (Hn0 : 0 < IZR n) by (apply IZR_lt; lia).
  assert (Hk0 : 0 <= IZR k) by (apply IZR_le; lia).
  unfold new_location.
  destruct (Z.eqb_spec k 0) as [->|Hne].
  - destruct (Z.even n); simpl; unfold Rdiv; rewrite Rmult_0_l; ring.
  - assert (Hk1 : 0 < IZR k) by (apply IZR_lt; lia).
    assert (Hlt : IZR k / IZR n < 1).
    { apply Rmult_lt_reg_r with (IZR n); [assumption|].
      unfold Rdiv. rewrite Rmult_assoc, Rinv_l, Rmult_1_r, Rmult_1_l by lra.
      apply IZR_lt. lia. }
    assert (Hgt : 0 < IZR k / IZR n) by (apply Rdiv_lt_0_compat; assumption).
    assert (Hhalf : forall c, (2 * k ?= n)%Z = c ->
               match c with
               | Lt => IZR k / IZR n < / 2
               | Eq => IZR k / IZR n = / 2
               | Gt => / 2 < IZR k / IZR n
               end).
    { intros c <-. destruct (Z.compare_spec (2 * k) n) as [E|E|E].
      - rewrite <- E, mult_IZR. field. lra.
      - apply IZR_lt in E. rewrite mult_IZR in E.
        apply Rmult_lt_reg_r with (IZR n); [assumption|].
        unfold Rdiv. rewrite Rmult_assoc, Rinv_l, Rmult_1_r by lra. lra.
      - apply IZR_lt in E. rewrite mult_IZR in E.
        apply Rmult_lt_reg_r with (IZR n); [assumption|].
        unfold Rdiv. rewrite Rmult_assoc, Rinv_l, Rmult_1_r by lra. lra. }
    apply Z.eqb_neq in Hne.
    destruct (Z.even n) eqn:Hev.
    + unfold new_location_even. rewrite Hne.
      specialize (Hhalf _ eq_refl).
      destruct (2 * k ?= n)%Z; simpl; lra.
    + unfold new_location_odd. rewrite Hne.
      assert (Hodd : (2 * k <> n)%Z).
      { intros E. rewrite <- E, Z.even_mul in Hev. discriminate. }
      specialize (Hhalf _ eq_refl).
      destruct (Z.compare_spec (2 * k + 1) n) as [E|E|E]; simpl;
        destruct (Z.compare_spec (2 * k) n); try lia; lra.
Qed.


Lemma div_core_spec (m1 m2 : positive) (e1 e2 : Z) :
  exists q e' l,
    SFdiv_core_binary prec emax (Z.pos m1) e1 (Z.pos m2) e2 = (q, e', l)
    /\ (0 <= q)%Z
    /\ located q l (F2R (Z.pos m1) e1 / F2R (Z.pos m2) e2 * bpow (- e'))
    /\ (e' <= fexp prec emax (Zdigits2 q + e'))%Z.
Proof.
  unfold SFdiv_core_binary.
  set (d1 := Zdigits2 (Z.pos m1)). set (d2 := Zdigits2 (Z.pos m2)).
  set (e' := Z.min (fexp prec emax (d1 + e1 - (d2 + e2))) (e1 - e2)).
  set (s := (e1 - e2 - e')%Z).
  assert (Hs : (0 <= s)%Z) by (subst s e'; lia).
  set (m' := match s with
             | 0%Z => Z.pos m1
             | Z.pos _ => Z.shiftl (Z.pos m1) s
             | Z.neg _ => 0%Z
             end).
  assert (Em' : m' = (Z.pos m1 * 2 ^ s)%Z).
  { subst m'. destruct s as [|p|p] eqn:Es; [simpl; lia | | lia].
    now rewrite Z.shiftl_mul_pow2 by lia. }
  pose proof (Z_div_mod m' (Z.pos m2) ltac:(lia)) as Hdm.
  destruct (Z.div_eucl m' (Z.pos m2)) as [q r]. destruct Hdm as [Eq Hr].
  exists q, e', (new_location (Z.pos m2) r).
  assert (Hp : (0 < 2 ^ s)%Z) by (apply Z.pow_pos_nonneg; lia).
  assert (Hq : (0 <= q)%Z) by nia.
  split; [reflexivity|]. split; [assumption|]. split.
  - replace (F2R (Z.pos m1) e1 / F2R (Z.pos m2) e2 * bpow (- e'))
      with (IZR q + IZR r / IZR (Z.pos m2)).
    + apply new_location_spec. lia.
    + assert (H2 : 0 < IZR (Z.pos m2)) by (apply IZR_lt; lia).
      pose proof (bpow_gt_0 e2) as Hb2.
      assert (Em : IZR m' = IZR (Z.pos m2) * IZR q + IZR r)
        by (rewrite Eq, plus_IZR, mult_IZR; reflexivity).
      assert (Es : IZR m' = IZR (Z.pos m1) * (bpow e1 * / bpow e2 * bpow (- e'))).
      { rewrite Em', mult_IZR, <- bpow_IZR by lia. f_equal.
        subst s. replace (e1 - e2 - e')%Z with (e1 + - e2 + - e')%Z by lia.
        now rewrite !bpow_add, (bpow_opp e2). }
      unfold F2R. unfold Rdiv at 2.
      rewrite Rinv_mult.
      transitivity (IZR m' * / IZR (Z.pos m2)).
      * rewrite Em. field. lra.
      * rewrite Es. ring.
  - assert (Hd : (d1 + s - d2 <= Zdigits2 q)%Z).
    { destruct (Z.le_gt_cases (d1 + s - d2) 0) as [|Hgt].
      - pose proof (Zdigits2_nonneg q). lia.
      - destruct (Zdigits2_bounds (Z.pos m1) ltac:(lia)) as [[L1 _] D1].
        destruct (Zdigits2_bounds (Z.pos m2) ltac:(lia)) as [[_ U2] D2].
        fold d1 in L1, D1. fold d2 in U2, D2.
        assert (Hk : (2 ^ (d1 + s - d2 - 1) <= q)%Z).
        { assert (Hpk : (0 < 2 ^ (d1 + s - d2 - 1))%Z)
            by (apply Z.pow_pos_nonneg; lia).
          assert (Hmul : (2 ^ d2 * 2 ^ (d1 + s - d2 - 1) = 2 ^ (d1 - 1) * 2 ^ s)%Z).
          { rewrite <- !Z.pow_add_r by lia. f_equal. lia. }
          assert (Hm2 : (Z.pos m2 * 2 ^ (d1 + s - d2 - 1) < m')%Z) by nia.
          nia. }
        apply Zdigits2_ge in Hk; lia. }
    subst e' s. rewrite !fexp_spec in *. lia.
Qed.

Lemma div_bounds (m1 m2 : positive) (e1 e2 : Z) (mB : positive) (eB : Z) :
  SpecFloat.bounded prec emax mB eB = true ->
  F2R (Z.pos m1) e1 / F2R (Z.pos m2) e2 <= F2R (Z.pos mB) eB ->
  F2R (Z.pos mB) eB <= bpow 971 ->
  let r := SFdiv prec emax (S754_finite false m1 e1) (S754_finite false m2 e2) in
  nonneg_finite r
  /\ 0 <= SFval r <= F2R (Z.pos mB) eB
  /\ (forall mA eA,
         SpecFloat.bounded prec emax mA eA = true ->
         F2R (Z.pos mA) eA <= F2R (Z.pos m1) e1 / F2R (Z.pos m2) e2 ->
         F2R (Z.pos mA) eA <= SFval r).
Proof.
  intros HB Hx HBmax. simpl SFdiv.
  destruct (div_core_spec m1 m2 e1 e2) as (q & e' & l & -> & Hq & Hl & He).
  now apply round_aux_bounds.
Qed.


Lemma iter_xO (m d : positive) :
  Z.pos (Pos.iter xO m d) = (Z.pos m * 2 ^ Z.pos d)%Z.
Proof.
  induction d as [|d IH] using Pos.peano_ind.
  - simpl. lia.
  - rewrite Pos.iter_succ, Pos2Z.inj_succ, Z.pow_succ_r by lia.
    change (Z.pos (Pos.iter xO m d)~0) with (2 * Z.pos (Pos.iter xO m d))%Z.
    rewrite IH. ring.
Qed.

Lemma shl_align_spec (mx : positive) (ex ex' : Z) :
  (ex' <= ex)%Z ->
  Z.pos (fst (shl_align mx ex ex')) = (Z.pos mx * 2 ^ (ex - ex'))%Z
  /\ snd (shl_align mx ex ex') = ex'.
Proof.
  intros H. unfold shl_align.
  destruct (ex' - ex)%Z as [|p|p] eqn:E; try lia.
  - replace (ex - ex')%Z with 0%Z by lia. simpl. split; lia.
  - simpl. rewrite iter_xO. replace (ex - ex')%Z with (Z.pos p) by lia.
    split; reflexivity.
Qed.

Lemma shl_align_id (mx : positive) (ex ex' : Z) :
  (ex <= ex')%Z -> shl_align mx ex ex' = (mx, ex).
Proof.
  intros H. unfold shl_align.
  destruct (ex' - ex)%Z as [|p|p] eqn:E; try reflexivity. lia.
Qed.

Lemma binary_round_bounds (s : positive) (ez : Z) (mB : positive) (eB : Z) :
  SpecFloat.bounded prec emax mB eB = true ->
  F2R (Z.pos s) ez <= F2R (Z.pos mB) eB ->
  F2R (Z.pos mB) eB <= bpow 971 ->
  let r := binary_round prec emax false s ez in
  nonneg_finite r
  /\ 0 <= SFval r <= F2R (Z.pos mB) eB
  /\ (forall mA eA,
         SpecFloat.bounded prec emax mA eA = true ->
         F2R (Z.pos mA) eA <= F2R (Z.pos s) ez ->
         F2R (Z.pos mA) eA <= SFval r).
Proof.
  intros HB Hx HBmax. unfold binary_round.
  change (Z.pos (digits2_pos s)) with (Zdigits2 (Z.pos s)).
  set (f := fexp prec emax (Zdigits2 (Z.pos s) + ez)).
  destruct (Z.le_gt_cases f ez) as [Hle|Hgt].
  - destruct (shl_align_spec s ez f Hle) as [Hm He].
    destruct (shl_align s ez f) as [mz ez']. cbn [fst snd] in Hm, He. subst ez'.
    apply round_aux_bounds; try assumption; [lia| |].
    + simpl. rewrite Hm.
      assert (E : F2R (Z.pos s * 2 ^ (ez - f)) f = F2R (Z.pos s) ez).
      { rewrite F2R_shift by lia. f_equal. lia. }
      rewrite <- E. unfold F2R. rewrite Rmult_assoc, bpow_cancel. ring.
    + rewrite Hm, Zdigits2_mul_pow by lia.
      replace (Zdigits2 (Z.pos s) + (ez - f) + f)%Z
        with (Zdigits2 (Z.pos s) + ez)%Z by lia.
      fold f. lia.
  - rewrite shl_align_id by lia.
    apply round_aux_bounds; try assumption; [lia| |].
    + simpl. unfold F2R. rewrite Rmult_assoc, bpow_cancel. ring.
    + fold f. lia.
Qed.

Lemma add_bounds (m1 m2 : positive) (e1 e2 : Z) (mB : positive) (eB : Z) :
  SpecFloat.bounded prec emax mB eB = true ->
  F2R (Z.pos m1) e1 + F2R (Z.pos m2) e2 <= F2R (Z.pos mB) eB ->
  F2R (Z.pos mB) eB <= bpow 971 ->
  let r := SFadd prec emax (S754_finite false m1 e1) (S754_finite false m2 e2) in
  nonneg_finite r
  /\ 0 <= SFval r <= F2R (Z.pos mB) eB
  /\ (forall mA eA,
         SpecFloat.bounded prec emax mA eA = true ->
         F2R (Z.pos mA) eA <= F2R (Z.pos m1) e1 + F2R (Z.pos m2) e2 ->
         F2R (Z.pos mA) eA <= SFval r).
Proof.
  intros HB Hx HBmax. unfold SFadd.
  set (ez := Z.min e1 e2).
  destruct (shl_align_spec m1 e1 ez ltac:(subst ez; lia)) as [H1 _].
  destruct (shl_align_spec m2 e2 ez ltac:(subst ez; lia)) as [H2 _].
  set (a := fst (shl_align m1 e1 ez)) in *.
  set (b := fst (shl_align m2 e2 ez)) in *.
  simpl cond_Zopp. change (Z.pos a + Z.pos b)%Z with (Z.pos (a + b)).
  simpl binary_normalize.
  assert (E : F2R (Z.pos (a + b)) ez = F2R (Z.pos m1) e1 + F2R (Z.pos m2) e2).
  { rewrite Pos2Z.inj_add, H1, H2. unfold F2R at 1. rewrite plus_IZR.
    rewrite Rmult_plus_distr_r. fold (F2R (Z.pos m1 * 2 ^ (e1 - ez)) ez).
    fold (F2R (Z.pos m2 * 2 ^ (e2 - ez)) ez).
    rewrite !F2R_shift by (subst ez; lia). f_equal; f_equal; lia. }
  rewrite <- E in *. now apply binary_round_bounds.
Qed.

(** A canonical mantissa is left as it is. *)
Lemma round_canonical (s : bool) (m : positive) (e : Z) :
  SpecFloat.bounded prec emax m e = true ->
  binary_round_aux prec emax s (Z.pos m) e loc_Exact = S754_finite s m e.
Proof.
  intros HB. destruct (bounded_spec _ _ HB) as [Hc He].
  unfold binary_round_aux, shr_fexp. rewrite Hc, Z.sub_diag.
  cbn [shr shr_record_of_loc round_nearest_even loc_of_shr_record shr_m].
  rewrite Hc, Z.sub_diag.
  cbn [shr shr_record_of_loc shr_m].
  now replace (e <=? emax - prec)%Z with true by (symmetry; apply Z.leb_le; exact He).
Qed.

(** Order of valid non-negative numbers *)
Lemma SFleb_of_val (x y : spec_float) :
  valid_binary x = true ->
  valid_binary y = true ->
  nonneg_finite x -> nonneg_finite y ->
  SFval x <= SFval y -> SFleb x y = true.
Proof.
  intros Vx Vy [-> | (m1 & e1 & ->)] [-> | (m2 & e2 & ->)] H;
    try reflexivity.
  - exfalso. simpl in H.
    assert (0 < F2R (Z.pos m1) e1); [|lra].
    unfold F2R. apply Rmult_lt_0_compat; [apply IZR_lt; lia | apply bpow_gt_0].
  - unfold valid_binary in Vx, Vy. simpl in Vx, Vy, H.
    destruct (bounded_spec _ _ Vx) as [C1 _].
    destruct (bounded_spec _ _ Vy) as [C2 _].
    unfold SFleb, SFcompare.
    destruct (Z.compare_spec e1 e2) as [E|E|E]; [subst e2| reflexivity |].
    + assert (Hm : (Z.pos m1 <= Z.pos m2)%Z).
      { apply le_IZR. unfold F2R in H. pose proof (bpow_gt_0 e1). nra. }
      change (Pos.compare_cont Eq m1 m2) with (Pos.compare m1 m2).
      destruct (Pos.compare_spec m1 m2); try reflexivity. lia.
    + exfalso.
      assert (Hd : (Zdigits2 (Z.pos m2) + e2 <= Zdigits2 (Z.pos m1) - 1 + e1)%Z).
      { rewrite fexp_spec in *. lia. }
      pose proof (F2R_lt_bpow (Z.pos m2) e2 ltac:(lia)).
      pose proof (bpow_le_F2R (Z.pos m1) e1 ltac:(lia)).
      pose proof (bpow_le _ _ Hd). lra.
Qed.


(** The constants 0.3, 0.7 and 1 *)

Definition F03 : spec_float := S754_finite false 5404319552844595 (-54).
Definition F07 : spec_float := S754_finite false 6305039478318694 (-53).
Definition F1 : spec_float := S754_finite false 4503599627370496 (-52).

Lemma F2R_le (m1 m2 e : Z) : (m1 <= m2)%Z -> F2R m1 e <= F2R m2 e.
Proof.
  intros H. unfold F2R. apply Rmult_le_compat_r; [left; apply bpow_gt_0|].
  now apply IZR_le.
Qed.

Lemma F2R_plus (m1 m2 e : Z) : F2R m1 e + F2R m2 e = F2R (m1 + m2) e.
Proof. unfold F2R. rewrite plus_IZR. ring. Qed.

Lemma F2R_pos (m : positive) (e : Z) : 0 < F2R (Z.pos m) e.
Proof.
  unfold F2R. apply Rmult_lt_0_compat; [apply IZR_lt; lia | apply bpow_gt_0].
Qed.

Lemma val_F1 : F2R 4503599627370496 (-52) = 1.
Proof.
  change 4503599627370496%Z with (1 * 2 ^ 52)%Z. rewrite F2R_shift by lia.
  change (-52 + 52)%Z with 0%Z. unfold F2R. rewrite bpow_0. ring.
Qed.

Lemma val_F07_as54 : F2R 6305039478318694 (-53) = F2R 12610078956637388 (-54).
Proof.
  change 12610078956637388%Z with (6305039478318694 * 2 ^ 1)%Z.
  now rewrite F2R_shift by lia.
Qed.

Lemma val_F1_as54 : F2R 4503599627370496 (-52) = F2R 18014398509481984 (-54).
Proof.
  change 18014398509481984%Z with (4503599627370496 * 2 ^ 2)%Z.
  now rewrite F2R_shift by lia.
Qed.

Lemma val_F03_F07 :
  F2R 5404319552844595 (-54) + F2R 6305039478318694 (-53)
  <= F2R 4503599627370496 (-52).
Proof.
  rewrite val_F07_as54, val_F1_as54, F2R_plus. apply F2R_le. lia.
Qed.

Lemma one_le_bpow971 : 1 <= bpow 971.
Proof. apply bpow_ge_1. lia. Qed.

(** The scaled ratio of two positive numbers [a <= b] stays in [0.3, 1]. *)
Theorem scaled_ratio_range (ma mb : positive) (ea eb : Z) :
  F2R (Z.pos ma) ea <= F2R (Z.pos mb) eb ->
  let n := SFadd prec emax F03
             (SFmul prec emax
                (SFdiv prec emax (S754_finite false ma ea) (S754_finite false mb eb))
                F07) in
  nonneg_finite n /\ SFval F03 <= SFval n <= SFval F1.
Proof.
  intros Hab. simpl SFval. rewrite val_F1.
  pose proof (F2R_pos ma ea) as Ha. pose proof (F2R_pos mb eb) as Hb.
  pose proof (F2R_pos 5404319552844595 (-54)) as H3.
  pose proof (F2R_pos 6305039478318694 (-53)) as H7.
  pose proof val_F03_F07 as H37. rewrite val_F1 in H37.
  pose proof one_le_bpow971 as H971.
  assert (Hq : F2R (Z.pos ma) ea / F2R (Z.pos mb) eb <= 1).
  { apply Rmult_le_reg_r with (F2R (Z.pos mb) eb); [assumption|].
    unfold Rdiv. rewrite Rmult_assoc, Rinv_l, Rmult_1_r, Rmult_1_l by lra.
    assumption. }
  destruct (div_bounds ma mb ea eb 4503599627370496 (-52) eq_refl)
    as (Nq & [Q0 Q1] & _); [rewrite val_F1; lra | rewrite val_F1; lra |].
  rewrite val_F1 in Q1.
  destruct Nq as [E | (mq & eq & E)]; rewrite E in *; clear E.
  - (* the quotient underflows to zero *)
    simpl. split; [right; unfold F03; eauto | lra].
  - simpl SFval in Q0, Q1.
    assert (Hp : F2R (Z.pos mq) eq * F2R 6305039478318694 (-53)
                 <= F2R 6305039478318694 (-53)) by nra.
    destruct (mul_bounds mq 6305039478318694 eq (-53) 6305039478318694 (-53)
                eq_refl eq_refl Hp ltac:(lra))
      as (Np & [P0 P1] & _).
    unfold F07.
    destruct Np as [E | (mp & ep & E)]; rewrite E in *; clear E.
    + simpl. split; [right; unfold F03; eauto | lra].
    + simpl SFval in P0, P1.
      destruct (add_bounds 5404319552844595 mp (-54) ep 4503599627370496 (-52)
                  eq_refl)
        as (Nn & [N0 N1] & Nlow); [rewrite val_F1; lra | rewrite val_F1; lra |].
      rewrite val_F1 in N1. split; [exact Nn|]. split; [|exact N1].
      apply (Nlow 5404319552844595%positive (-54)%Z eq_refl).
      pose proof (F2R_pos mp ep). lra.
Qed.

End Rounding.

(** ** Visual scale and control point *)

Module VisualFacts.
Import JsNumber Rounding.

Local Open Scope R_scope.

(** A positive integer below 2^53 is a binary64 number. *)
Lemma Z2F_exact (v : Z) :
  (0 < v < 2 ^ 53)%Z ->
  exists mv ev,
    Prim2SF (Z2F v) = S754_finite false mv ev /\ F2R (Z.pos mv) ev = IZR v.
Proof.
  intros [Hpos Hlt]. destruct v as [|p|p]; try lia.
  unfold Z2F. simpl binary_normalize. unfold binary_round.
  change (Z.pos (digits2_pos p)) with (Zdigits2 (Z.pos p)).
  pose proof (Zdigits2_le_of_lt (Z.pos p) 53 ltac:(lia)) as Hd.
  destruct (Zdigits2_bounds (Z.pos p) ltac:(lia)) as [_ Hd0].
  assert (Hf : fexp prec emax (Zdigits2 (Z.pos p) + 0)
               = (Zdigits2 (Z.pos p) - 53)%Z).
  { change prec with FloatOps.prec. change emax with FloatOps.emax.
    rewrite fexp_spec. lia. }
  rewrite Hf.
  destruct (shl_align_spec p 0 (Zdigits2 (Z.pos p) - 53) ltac:(lia)) as [Hm He].
  destruct (shl_align p 0 (Zdigits2 (Z.pos p) - 53)) as [mz ez].
  cbn [fst snd] in Hm, He. subst ez.
  assert (Hdz : Zdigits2 (Z.pos mz) = 53%Z).
  { rewrite Hm, Zdigits2_mul_pow by lia. lia. }
  assert (HB : SpecFloat.bounded FloatOps.prec FloatOps.emax mz
                 (Zdigits2 (Z.pos p) - 53) = true).
  { unfold SpecFloat.bounded, canonical_mantissa.
    change (Z.pos (digits2_pos mz)) with (Zdigits2 (Z.pos mz)).
    rewrite Hdz, fexp_spec. apply andb_true_intro. split.
    - apply Z.eqb_eq. lia.
    - apply Z.leb_le. change (FloatOps.emax - FloatOps.prec)%Z with 971%Z. lia. }
  change prec with FloatOps.prec. change emax with FloatOps.emax.
  rewrite (round_canonical false mz _ HB).
  exists mz, (Zdigits2 (Z.pos p) - 53)%Z. split.
  - apply Prim2SF_SF2Prim. exact HB.
  - rewrite Hm, F2R_shift by lia.
    replace (Zdigits2 (Z.pos p) - 53 + (0 - (Zdigits2 (Z.pos p) - 53)))%Z
      with 0%Z by lia.
    unfold F2R. rewrite bpow_0. ring.
Qed.

Lemma Prim2SF_constants :
  Prim2SF 0.3 = F03 /\ Prim2SF 0.7 = F07 /\ Prim2SF 1 = F1.
Proof. repeat split. Qed.

(** *** The control point in the words of the specification *)

(** The arithmetic of the real numbers; [0.2] is the decimal the source
    writes. *)
Definition exact : Geometry.Arithmetic R :=
  {| Geometry.plus := Rplus; Geometry.minus := Rminus; Geometry.times := Rmult;
     Geometry.over := Rdiv; Geometry.negate := Ropp; Geometry.root := sqrt;
     Geometry.one := 1; Geometry.two := 2; Geometry.fifth := 2 / 10 |}.



Definition euclideanNorm (v : R * R) : R := sqrt (fst v * fst v + snd v * snd v).


Definition normalize (v : R * R) : R * R :=
  (fst v / euclideanNorm v, snd v / euclideanNorm v).











End VisualFacts.

(** ** The sampling loop and the degenerate arc *)

Module ArcFacts.
Import JsNumber Arc.

(** The loop body does not influence which parameters are visited. *)
Lemma curveLoop_map {A : Type} (body : float -> A) :
  forall fuel t, curveLoop fuel t body = map body (curveLoop fuel t (fun u => u)).
Proof.
  induction fuel as [|fuel IH]; intros t; simpl; [reflexivity|].
  destruct (le t 1); simpl; [now rewrite IH | reflexivity].
Qed.

(** The parameters the loop visits, as binary64 values. *)
Definition visited : list float :=
  [ 0; 0.05; 0.1; 0.15000000000000002; 0.2; 0.25; 0.3; 0.35;
    0.39999999999999997; 0.44999999999999996; 0.49999999999999994;
    0.5499999999999999; 0.6; 0.65; 0.7000000000000001; 0.7500000000000001;
    0.8000000000000002; 0.8500000000000002; 0.9000000000000002;
    0.9500000000000003 ].

(** The loop leaves by its own test after twenty iterations, whatever fuel
    beyond twenty-one it is given. *)
Lemma curveLoop_terminates :
  forall extra, curveLoop (21 + extra) 0 (fun u => u) = visited.
Proof. intros extra. lazy. reflexivity. Qed.

Lemma curveParams_visited : curveParams = visited.
Proof. exact (curveLoop_terminates 43). Qed.

Lemma curvePoints_samples (o c d : Point) :
  curvePoints o c d = map (bezier o c d) visited.
Proof.
  unfold curvePoints. rewrite curveLoop_map.
  change (curveLoop curveFuel 0 (fun u => u)) with curveParams.
  now rewrite curveParams_visited.
Qed.

(** The value the loop variable has when the test [t <= 1] fails. *)
Lemma curveLoop_exit :
  fold_left (fun t _ => t + 0.05) visited 0 = 1.0000000000000002
  /\ le 1.0000000000000002 1 = false.
Proof. split; vm_compute; reflexivity. Qed.

(** C1 (the code departs from it).  The sampling loop adds 0.05 to [t] in
    binary64 arithmetic; after twenty additions [t] is 1.0000000000000002,
    so the loop stops after twenty samples, for every origin, control point
    and destination.  The last sample is taken at 0.9500000000000003 and the
    parameter 0.5 is never visited; from (0,0) to (0,10) the polyline starts
    at the origin and ends before the destination. *)
Theorem curve_stops_before_destination :
  (forall o c d : Point,
      List.length (curvePoints o c d) = 20%nat
      /\ curvePoints o c d = map (bezier o c d) visited)
  /\ last visited 0 = 0.9500000000000003
  /\ existsb (fun t => t =? 0.5) visited = false
  /\ (let o := (0, 0) in
      let d := (0, 10) in
      let curve := curvePoints o (controlPoint o d) d in
      hd d curve = o
      /\ lt (snd (last curve o)) (snd d) = true
      /\ (snd (last curve o) =? snd d) = false).
Proof.
  split; [|split; [|split]].
  - intros o c d. rewrite curvePoints_samples. split; [|reflexivity].
    now rewrite length_map.
  - reflexivity.
  - vm_compute. reflexivity.
  - vm_compute. repeat split.
Qed.

(** *** Coincident origin and destination *)

Lemma is_nan_Prim2SF (x : float) :
  Prim2SF x = S754_nan -> isNaN x = true.
Proof.
  intros H. unfold isNaN, PrimFloat.is_nan. now rewrite eqb_spec, H.
Qed.

(** [x - x] is NaN or [+0]. *)
Lemma sub_self (x : float) :
  Prim2SF (x - x) = S754_nan \/ Prim2SF (x - x) = S754_zero false.
Proof.
  rewrite sub_spec. destruct (Prim2SF x) as [s|s| |s m e]; simpl.
  - right. now destruct s.
  - left. now destruct s.
  - now left.
  - right. unfold shl_align. rewrite Z.min_id, Z.sub_diag. simpl.
    destruct s; simpl; now rewrite ?Z.pos_sub_diag.
Qed.

(** The reciprocal norm of a zero displacement is NaN or [+Infinity]. *)
Lemma normFactor_degenerate (p : Point) :
  Prim2SF (normFactor p p) = S754_nan
  \/ Prim2SF (normFactor p p) = S754_infinity false.
Proof.
  unfold normFactor, dx, dy.
  rewrite div_spec, sqrt_spec, add_spec, !mul_spec.
  destruct (sub_self (fst p)) as [-> | ->], (sub_self (snd p)) as [-> | ->];
    vm_compute; auto.
Qed.

Lemma perp_degenerate (p : Point) :
  Prim2SF (perpX p p) = S754_nan /\ Prim2SF (perpY p p) = S754_nan.
Proof.
  unfold perpX, perpY, dx, dy. rewrite !mul_spec, opp_spec.
  destruct (normFactor_degenerate p) as [-> | ->],
           (sub_self (fst p)) as [-> | ->], (sub_self (snd p)) as [-> | ->];
    split; reflexivity.
Qed.

Lemma add_mul_nan (a b c : float) :
  Prim2SF b = S754_nan -> Prim2SF (a + b * c) = S754_nan.
Proof.
  intros H. rewrite add_spec, mul_spec, H. simpl.
  now destruct (Prim2SF a).
Qed.

(** C3 (the code departs from it).  Nothing guards the division: when the
    destination coincides with the origin the reciprocal norm is [1 / 0],
    and both coordinates of the control point are NaN, for every point. *)
Theorem coincident_destination_gives_nan_control_point :
  forall p : Point,
    isNaN (fst (controlPoint p p)) = true
    /\ isNaN (snd (controlPoint p p)) = true.
Proof.
  intros p. destruct (perp_degenerate p) as [Hx Hy].
  unfold controlPoint; simpl; split; apply is_nan_Prim2SF;
    now apply add_mul_nan.
Qed.

(** At the restaurant position used by the fallback data the reciprocal norm
    is [+Infinity] and every sample of the curve has NaN coordinates. *)
Lemma coincident_destination_example :
  let p := (40.98, 29.02) in
  normFactor p p = infinity
  /\ forallb (fun q => isNaN (fst q) && isNaN (snd q))
       (curvePoints p (controlPoint p p) p) = true.
Proof. vm_compute. split; reflexivity. Qed.

End ArcFacts.

(** ** Ranking: sort by visitor count, keep the first [maxArcs] *)

Module SelectFacts.
Import Ingest.

(** [a] may stand before [b]: its visitor count is not smaller. *)
Definition before (a b : DestinationPoint) : Prop :=
  (visitorCount b <= visitorCount a)%Z.

Definition hasCount (n : Z) (d : DestinationPoint) : bool :=
  Z.eqb (visitorCount d) n.

Lemma insertSorted_length a l :
  List.length (insertSorted a l) = S (List.length l).
Proof.
  induction l as [|b l IH]; simpl; [reflexivity|].
  destruct (0 <? compareFn a b)%Z; simpl; [now rewrite IH | reflexivity].
Qed.

Lemma sort_length l : List.length (sort l) = List.length l.
Proof.
  induction l as [|a l IH]; simpl; [reflexivity|].
  unfold sort in *. simpl. now rewrite insertSorted_length, IH.
Qed.

Lemma insertSorted_perm a l : Permutation (insertSorted a l) (a :: l).
Proof.
  induction l as [|b l IH]; simpl; [apply Permutation_refl|].
  destruct (0 <? compareFn a b)%Z; [|apply Permutation_refl].
  eapply perm_trans; [apply perm_skip, IH | apply perm_swap].
Qed.

Lemma sort_perm l : Permutation (sort l) l.
Proof.
  induction l as [|a l IH]; [apply perm_nil|].
  change (sort (a :: l)) with (insertSorted a (sort l)).
  eapply perm_trans; [apply insertSorted_perm | now apply perm_skip].
Qed.

Lemma insertSorted_hd a l :
  forall c, HdRel before c l -> before c a -> HdRel before c (insertSorted a l).
Proof.
  intros c Hl Ha. destruct l as [|b l]; simpl; [now constructor|].
  destruct (0 <? compareFn a b)%Z; constructor; [|assumption].
  now inversion Hl.
Qed.

Lemma insertSorted_sorted a l :
  Sorted before l -> Sorted before (insertSorted a l).
Proof.
  induction 1 as [|b l Hs IH Hhd]; simpl; [repeat constructor|].
  destruct (0 <? compareFn a b)%Z eqn:E; unfold compareFn in E.
  - constructor; [assumption|]. apply insertSorted_hd; [assumption|].
    unfold before. apply Z.ltb_lt in E. lia.
  - constructor; [now constructor|]. constructor.
    unfold before. apply Z.ltb_ge in E. lia.
Qed.

Lemma sort_sorted l : Sorted before (sort l).
Proof.
  induction l as [|a l IH]; [constructor|].
  change (sort (a :: l)) with (insertSorted a (sort l)).
  now apply insertSorted_sorted.
Qed.

Lemma before_trans : Relations_1.Transitive before.
Proof. intros a b c. unfold before. lia. Qed.

Lemma sort_strongly_sorted l : StronglySorted before (sort l).
Proof. apply Sorted_StronglySorted; [exact before_trans | apply sort_sorted]. Qed.

(** Stability: insertion only moves [a] behind elements with another count. *)
Lemma insertSorted_stable n a l :
  filter (hasCount n) (insertSorted a l) = filter (hasCount n) (a :: l).
Proof.
  induction l as [|b l IH]; [reflexivity|].
  simpl insertSorted. destruct (0 <? compareFn a b)%Z eqn:E; [|reflexivity].
  unfold compareFn in E. apply Z.ltb_lt in E.
  simpl filter in *. rewrite IH. unfold hasCount.
  destruct (Z.eqb_spec (visitorCount a) n), (Z.eqb_spec (visitorCount b) n);
    try reflexivity; lia.
Qed.

Lemma sort_stable n l : filter (hasCount n) (sort l) = filter (hasCount n) l.
Proof.
  induction l as [|a l IH]; [reflexivity|].
  change (sort (a :: l)) with (insertSorted a (sort l)).
  rewrite insertSorted_stable. simpl. now rewrite IH.
Qed.

(** Sorting a list that is already in rank order changes nothing. *)
Lemma sort_of_sorted l : Sorted before l -> sort l = l.
Proof.
  induction 1 as [|a l Hs IH Hhd]; [reflexivity|].
  change (sort (a :: l)) with (insertSorted a (sort l)). rewrite IH.
  destruct Hhd as [|b l Hab]; [reflexivity|]. simpl.
  unfold before in Hab. unfold compareFn.
  destruct (Z.ltb_spec 0 (visitorCount b - visitorCount a)); [lia | reflexivity].
Qed.

Lemma firstn_sorted n l : Sorted before l -> Sorted before (firstn n l).
Proof.
  intros H. revert n. induction H as [|a l Hs IH Hhd]; intros [|n]; simpl;
    try constructor.
  - apply IH.
  - destruct Hhd as [|b l Hab]; destruct n; simpl; constructor. assumption.
Qed.

Lemma selectTop_sorted dests maxArcs : Sorted before (selectTop dests maxArcs).
Proof. apply firstn_sorted, sort_sorted. Qed.

(** C5.  Selection returns [min (number of destinations) maxArcs] elements
    (ten by default), in non-increasing order of visitor count; together
    with the elements it drops it is a rearrangement of the input that keeps
    destinations with equal counts in their input order; and selecting again
    from its own output returns the same list. *)
Theorem selectTop_ranked :
  forall (dests : list DestinationPoint) (maxArcs : nat),
    List.length (selectTop dests maxArcs) = Nat.min (List.length dests) maxArcs
    /\ defaultMaxArcs = 10%nat
    /\ StronglySorted before (selectTop dests maxArcs)
    /\ (exists dropped,
           Permutation (selectTop dests maxArcs ++ dropped) dests
           /\ StronglySorted before (selectTop dests maxArcs ++ dropped)
           /\ forall n, filter (hasCount n) (selectTop dests maxArcs ++ dropped)
                        = filter (hasCount n) dests)
    /\ selectTop (selectTop dests maxArcs) maxArcs = selectTop dests maxArcs.
Proof.
  intros dests maxArcs. unfold selectTop. repeat split.
  - rewrite length_firstn, sort_length. lia.
  - apply Sorted_StronglySorted; [exact before_trans|].
    apply firstn_sorted, sort_sorted.
  - exists (skipn maxArcs (sort dests)). rewrite firstn_skipn.
    repeat split; [apply sort_perm | apply sort_strongly_sorted |].
    intros n. apply sort_stable.
  - rewrite sort_of_sorted by apply firstn_sorted, sort_sorted.
    rewrite firstn_firstn. now rewrite Nat.min_id.
Qed.

End SelectFacts.

(** ** Row normalisation *)

Module IngestFacts.
Import Js JsNumber Ingest.

(** *** The statement as the specification words it *)

(** A column holds a value when the cell is neither absent nor empty. *)
Definition present (v : JsVal) : bool :=
  match v with
  | JUndefined | JNull => false
  | _ => true
  end.

(** The coordinate pair of a row: the KoordinatX/KoordinatY convention when
    both its columns are present, else latitude/longitude. *)
Definition claimedPair (row : Row) : option (JsVal * JsVal) :=
  if (present (KoordinatX row) && present (KoordinatY row))%bool
  then Some (KoordinatX row, KoordinatY row)
  else if (present (latitude row) && present (longitude row))%bool
  then Some (latitude row, longitude row)
  else None.

(** Two finite numbers with |lat| <= 90 and |lng| <= 180. *)
Definition inRange (la lo : float) : bool :=
  (PrimFloat.is_finite la && PrimFloat.is_finite lo &&
   le (PrimFloat.abs la) 90 && le (PrimFloat.abs lo) 180)%bool.

(** The visitor-count field parses to a positive integer. *)
Definition positiveCount (v : JsVal) : bool :=
  match parseInt (toString v) with
  | Some n => (0 <? n)%Z
  | None => false
  end.

Definition claimedValid (row : Row) : bool :=
  match claimedPair row with
  | Some (a, b) =>
      (inRange (parseCoordinate (toString a)) (parseCoordinate (toString b))
       && positiveCount (visitor_count row))%bool
  | None => false
  end.

(** *** What the code does *)

(** The pair the code reads when the two KoordinatX/KoordinatY cells are
    truthy together or falsy together. *)
Definition chosenPair (row : Row) : option (JsVal * JsVal) :=
  if (truthy (KoordinatX row) && truthy (KoordinatY row))%bool
  then Some (KoordinatX row, KoordinatY row)
  else if (truthy (latitude row) && truthy (longitude row))%bool
  then Some (latitude row, longitude row)
  else None.

(** The count of a truthy [visitor_count] that compares greater than zero. *)
Definition countedVisitors (v : JsVal) : option Z :=
  if (truthy v && gt (toNumber v) 0)%bool then parseInt (toString v) else None.

Definition emptyRow : Row :=
  {| KoordinatX := JUndefined; KoordinatY := JUndefined;
     latitude := JUndefined; longitude := JUndefined;
     visitor_count := JUndefined; place_name := JUndefined;
     MusteriTabelaAdi := JUndefined; MusteriCesidi := JUndefined |}.

(** The row of the specification's example. *)
Definition exampleRow : Row :=
  {| KoordinatX := JStr "40,98"; KoordinatY := JStr "29,02";
     latitude := JUndefined; longitude := JUndefined;
     visitor_count := JNum 150; place_name := JUndefined;
     MusteriTabelaAdi := JUndefined; MusteriCesidi := JUndefined |}.

Definition exampleDestination : DestinationPoint :=
  {| name := JStr "Unknown Location"; lat := 40.98; lng := 29.02;
     visitorCount := 150; type := JStr "Unspecified" |}.

(** A place on the equator, given in the latitude/longitude convention. *)
Definition equatorRow : Row :=
  {| KoordinatX := JUndefined; KoordinatY := JUndefined;
     latitude := JNum 0; longitude := JNum 29.02;
     visitor_count := JNum 150; place_name := JStr "Equator";
     MusteriTabelaAdi := JUndefined; MusteriCesidi := JUndefined |}.

(** A row whose first convention is half filled. *)
Definition halfFilledRow : Row :=
  {| KoordinatX := JNum 95; KoordinatY := JNull;
     latitude := JNum 40.98; longitude := JNum 29.02;
     visitor_count := JNum 150; place_name := JUndefined;
     MusteriTabelaAdi := JUndefined; MusteriCesidi := JUndefined |}.

Lemma truthy_andand a b : truthy (andand a b) = (truthy a && truthy b)%bool.
Proof. unfold andand. destruct (truthy a) eqn:E; [reflexivity | exact E]. Qed.

Lemma truthy_oror a b : truthy (oror a b) = (truthy a || truthy b)%bool.
Proof. unfold oror. destruct (truthy a) eqn:E; [exact E | reflexivity]. Qed.

Lemma oror_truthy a b : truthy a = true -> oror a b = a.
Proof. unfold oror. now intros ->. Qed.

Lemma oror_falsy a b : truthy a = false -> oror a b = b.
Proof. unfold oror. now intros ->. Qed.

Lemma rowFilter_spec row :
  rowFilter row =
  (((truthy (KoordinatX row) && truthy (KoordinatY row))
    || (truthy (latitude row) && truthy (longitude row)))
   && (truthy (visitor_count row) && gt (toNumber (visitor_count row)) 0))%bool.
Proof.
  unfold rowFilter, hasCoordinates, hasVisitors.
  now rewrite !truthy_andand, truthy_oror, !truthy_andand.
Qed.

(** A number whose absolute value is below a finite bound is finite. *)
Lemma abs_le_finite (x b : float) :
  PrimFloat.is_infinity b = false ->
  le (PrimFloat.abs x) b = true -> PrimFloat.is_finite x = true.
Proof.
  unfold le, PrimFloat.is_finite, PrimFloat.is_infinity, PrimFloat.is_nan.
  rewrite leb_spec, !eqb_spec, !abs_spec.
  change (Prim2SF infinity) with (S754_infinity false).
  intros Hb Hle.
  destruct (Prim2SF x) as [s|s| |s m e]; simpl in *; try reflexivity;
    try discriminate.
  - exfalso.
    destruct (Prim2SF b) as [sb|sb| |sb mb eb]; simpl in *; discriminate.
  - unfold SFeqb. simpl.
    rewrite Z.compare_refl, Pos.compare_cont_refl. now destruct s.
Qed.

Lemma finite_not_nan (x : float) :
  PrimFloat.is_finite x = true -> isNaN x = false.
Proof.
  unfold PrimFloat.is_finite, isNaN.
  destruct (PrimFloat.is_nan x); [discriminate | reflexivity].
Qed.

Lemma is_infinity_90 : PrimFloat.is_infinity 90 = false.
Proof. reflexivity. Qed.

Lemma is_infinity_180 : PrimFloat.is_infinity 180 = false.
Proof. reflexivity. Qed.

(** The second filter keeps a mapped row exactly when its coordinates are
    finite and in range and its count is a positive integer. *)
Lemma keepValid_spec (m : MappedRow) (d : DestinationPoint) :
  keepValid m = Some d <->
  exists n, m_visitorCount m = Some n /\ (0 < n)%Z
            /\ PrimFloat.is_finite (m_lat m) = true
            /\ PrimFloat.is_finite (m_lng m) = true
            /\ le (PrimFloat.abs (m_lat m)) 90 = true
            /\ le (PrimFloat.abs (m_lng m)) 180 = true
            /\ d = {| name := m_name m; lat := m_lat m; lng := m_lng m;
                      visitorCount := n; type := m_type m |}.
Proof.
  unfold keepValid, destFilter, validCoordinates, toDestination.
  split.
  - destruct (m_visitorCount m) as [n|]; [|now rewrite andb_false_r].
    destruct (isNaN (m_lat m)) eqn:E1; [discriminate|].
    destruct (isNaN (m_lng m)) eqn:E2; [discriminate|].
    destruct (le (PrimFloat.abs (m_lat m)) 90) eqn:E3; [|discriminate].
    destruct (le (PrimFloat.abs (m_lng m)) 180) eqn:E4; [|discriminate].
    destruct (Z.ltb_spec 0 n); [|discriminate].
    simpl. intros [= <-]. exists n. repeat split; try assumption.
    + now apply (abs_le_finite _ 90).
    + now apply (abs_le_finite _ 180).
  - intros (n & -> & Hn & F1 & F2 & L1 & L2 & ->).
    rewrite (finite_not_nan _ F1), (finite_not_nan _ F2), L1, L2. simpl.
    destruct (Z.ltb_spec 0 n); [reflexivity | lia].
Qed.

(** C4, as amended.  A row whose KoordinatX and KoordinatY cells are truthy
    together or falsy together yields a destination exactly when both cells
    of a convention are truthy (KoordinatX/KoordinatY first), the two values
    read by [parseFloat] -- after [String], the first comma turned into a dot
    and the first apostrophe removed -- are finite with |lat| <= 90 and
    |lng| <= 180, and [visitor_count] is truthy, greater than zero and read by
    [parseInt] as a positive integer; the destination then carries exactly
    these values, with the name and type fall-backs. *)
Theorem normalize_iff :
  forall (row : Row) (d : DestinationPoint),
    truthy (KoordinatX row) = truthy (KoordinatY row) ->
    (normalize row = Some d <->
     exists a b n,
       chosenPair row = Some (a, b)
       /\ countedVisitors (visitor_count row) = Some n
       /\ (0 < n)%Z
       /\ PrimFloat.is_finite (parseCoordinate (toString a)) = true
       /\ PrimFloat.is_finite (parseCoordinate (toString b)) = true
       /\ le (PrimFloat.abs (parseCoordinate (toString a))) 90 = true
       /\ le (PrimFloat.abs (parseCoordinate (toString b))) 180 = true
       /\ d = {| name := oror (oror (place_name row) (MusteriTabelaAdi row))
                           (JStr "Unknown Location");
                 lat := parseCoordinate (toString a);
                 lng := parseCoordinate (toString b);
                 visitorCount := n;
                 type := oror (MusteriCesidi row) (JStr "Unspecified") |}).
Proof.
  intros row d Hpair. unfold normalize. rewrite rowFilter_spec.
  unfold chosenPair, countedVisitors. rewrite <- Hpair.
  assert (Hmap : forall a b,
             (if (truthy (KoordinatX row) && truthy (KoordinatX row))%bool
              then Some (KoordinatX row, KoordinatY row)
              else if (truthy (latitude row) && truthy (longitude row))%bool
                   then Some (latitude row, longitude row) else None)
             = Some (a, b) ->
             truthy (visitor_count row) = true ->
             rowMap row =
             {| m_name := oror (oror (place_name row) (MusteriTabelaAdi row))
                            (JStr "Unknown Location");
                m_lat := parseCoordinate (toString a);
                m_lng := parseCoordinate (toString b);
                m_visitorCount := parseInt (toString (visitor_count row));
                m_type := oror (MusteriCesidi row) (JStr "Unspecified") |}).
  { intros a b Hab Hv. unfold rowMap, koordinatX, koordinatY.
    rewrite (oror_truthy (visitor_count row)) by exact Hv.
    destruct (truthy (KoordinatX row)) eqn:EX; simpl in Hab.
    - injection Hab as <- <-.
      now rewrite !(oror_truthy (KoordinatX row)), !(oror_truthy (KoordinatY row)).
    - destruct (truthy (latitude row)) eqn:EA; [|discriminate].
      destruct (truthy (longitude row)) eqn:EO; [|discriminate].
      injection Hab as <- <-.
      rewrite (oror_falsy (KoordinatX row)), (oror_falsy (KoordinatY row)) by auto.
      now rewrite !(oror_truthy (latitude row)), !(oror_truthy (longitude row)). }
  split.
  - intros H.
    destruct (truthy (visitor_count row)) eqn:Hv;
      [|now rewrite andb_false_r in H].
    destruct (gt (toNumber (visitor_count row)) 0) eqn:Hg;
      [|now rewrite andb_false_r in H].
    rewrite andb_true_r in H.
    match type of H with
    | (if (?c1 || ?c2)%bool then _ else _) = _ =>
        destruct c1 eqn:E1; [|destruct c2 eqn:E2; [|discriminate]]
    end; simpl in H.
    + rewrite (Hmap _ _ eq_refl eq_refl) in H.
      apply keepValid_spec in H. simpl in H.
      destruct H as (n & Hn & Hpos & F1 & F2 & L1 & L2 & ->).
      exists (KoordinatX row), (KoordinatY row), n. simpl. now repeat split.
    + rewrite (Hmap _ _ eq_refl eq_refl) in H.
      apply keepValid_spec in H. simpl in H.
      destruct H as (n & Hn & Hpos & F1 & F2 & L1 & L2 & ->).
      exists (latitude row), (longitude row), n. simpl. now repeat split.
  - intros (a & b & n & Hab & Hn & Hpos & F1 & F2 & L1 & L2 & ->).
    destruct (truthy (visitor_count row)) eqn:Hv; [|discriminate].
    destruct (gt (toNumber (visitor_count row)) 0) eqn:Hg; [|discriminate].
    simpl in Hn. rewrite andb_true_r.
    assert (Hc : ((truthy (KoordinatX row) && truthy (KoordinatX row))
                  || (truthy (latitude row) && truthy (longitude row)))%bool = true).
    { destruct (truthy (KoordinatX row) && truthy (KoordinatX row))%bool;
        [reflexivity|].
      destruct (truthy (latitude row) && truthy (longitude row))%bool;
        [reflexivity | discriminate]. }
    rewrite Hc, (Hmap _ _ Hab eq_refl). apply keepValid_spec. simpl.
    exists n. now repeat split.
Qed.

Lemma normalize_iff_example :
  truthy (KoordinatX exampleRow) = truthy (KoordinatY exampleRow)
  /\ (normalize exampleRow = Some exampleDestination <->
      exists a b n,
        chosenPair exampleRow = Some (a, b)
        /\ countedVisitors (visitor_count exampleRow) = Some n
        /\ (0 < n)%Z
        /\ PrimFloat.is_finite (parseCoordinate (toString a)) = true
        /\ PrimFloat.is_finite (parseCoordinate (toString b)) = true
        /\ le (PrimFloat.abs (parseCoordinate (toString a))) 90 = true
        /\ le (PrimFloat.abs (parseCoordinate (toString b))) 180 = true
        /\ exampleDestination =
           {| name := oror (oror (place_name exampleRow) (MusteriTabelaAdi exampleRow))
                        (JStr "Unknown Location");
              lat := parseCoordinate (toString a);
              lng := parseCoordinate (toString b);
              visitorCount := n;
              type := oror (MusteriCesidi exampleRow) (JStr "Unspecified") |}).
Proof.
  split; [reflexivity | apply (normalize_iff exampleRow exampleDestination); reflexivity].
Defined.

(** The example of the specification: comma decimals are read, the count is
    kept, and the missing name and category get their defaults. *)
Lemma example_row_normalized : normalize exampleRow = Some exampleDestination.
Proof. vm_compute. reflexivity. Qed.

(** C4 as stated fails: a place on the equator has a coordinate pair that
    parses to finite numbers in range and a positive count, yet the row is
    dropped, because the first filter tests the latitude cell for truthiness
    and 0 is falsy. *)
Lemma equator_row_dropped :
  claimedValid equatorRow = true /\ normalize equatorRow = None.
Proof. split; vm_compute; reflexivity. Qed.

(** When only one KoordinatX/KoordinatY cell is filled the map step reads
    that cell together with the one of the other convention. *)
Lemma half_filled_row_mixes_conventions :
  claimedPair halfFilledRow = Some (JNum 40.98, JNum 29.02)
  /\ koordinatX halfFilledRow = "95"%string
  /\ koordinatY halfFilledRow = "29.02"%string
  /\ normalize halfFilledRow = None.
Proof. vm_compute. repeat split. Qed.

End IngestFacts.

(** ** The dash and pulse animations *)

Module AnimationFacts.
Import JsNumber Animation.

Lemma ticks_succ {S : Type} (tick : S -> S) (n : nat) (s : S) :
  ticks tick (Datatypes.S n) s = tick (ticks tick n s).
Proof.
  revert s. induction n as [|n IH]; intros s; [reflexivity|].
  change (ticks tick (Datatypes.S (Datatypes.S n)) s)
    with (ticks tick (Datatypes.S n) (tick s)).
  now rewrite IH.
Qed.

Lemma ticks_add {S : Type} (tick : S -> S) (a b : nat) (s : S) :
  ticks tick (a + b) s = ticks tick b (ticks tick a s).
Proof.
  revert s. induction a as [|a IH]; intros s; [reflexivity|].
  simpl. apply IH.
Qed.

(** *** Dash offset *)






(** The attributes written to the path on the first calls, dash length 10. *)
Lemma dash_attributes_example :
  let a := ticks animateArc 21 (newArcAnimation 10) in
  strokeDasharray a = Some "10,10"%string
  /\ strokeDashoffset a = Some "1"%string.
Proof. vm_compute. split; reflexivity. Qed.

(** *** Pulse *)

Lemma pulse_period : ticks pulseTick 60 newPulse = newPulse.
Proof. vm_compute. reflexivity. Qed.

Lemma pulse_periods (q : nat) :
  ticks pulseTick (q * 60) newPulse = newPulse.
Proof.
  induction q as [|q IH]; [reflexivity|].
  replace (Datatypes.S q * 60)%nat with (q * 60 + 60)%nat by lia.
  now rewrite ticks_add, IH, pulse_period.
Qed.

Lemma pulse_mod (n : nat) :
  ticks pulseTick n newPulse = ticks pulseTick (n mod 60) newPulse.
Proof.
  rewrite (Nat.div_mod_eq n 60) at 1.
  rewrite (Nat.mul_comm 60), ticks_add. now rewrite pulse_periods.
Qed.

Definition sizeInBounds (p : Pulse) : bool :=
  (le 10 (size p) && le (size p) 25)%bool.

Lemma pulse_orbit_bounded :
  forallb (fun k => sizeInBounds (ticks pulseTick k newPulse)) (seq 0 60) = true.
Proof. vm_compute. reflexivity. Qed.

Lemma pulse_bounded (n : nat) :
  sizeInBounds (ticks pulseTick n newPulse) = true.
Proof.
  rewrite pulse_mod.
  apply (proj1 (forallb_forall _ _) pulse_orbit_bounded).
  apply in_seq. pose proof (Nat.mod_upper_bound n 60). lia.
Qed.

(** The callback writes the radius only. *)
Lemma pulse_frame (n : nat) :
  let p := ticks pulseTick n newPulse in
  pulseRadius p = size p /\ pulseOpacity p = 0.3 /\ pulseFillOpacity p = 0.3.
Proof.
  induction n as [|n IH]; [repeat split|].
  rewrite ticks_succ. simpl in IH. destruct IH as (_ & IHo & IHf).
  set (p := ticks pulseTick n newPulse) in *. simpl.
  unfold pulseTick.
  destruct (increasing p); simpl; repeat split; assumption.
Qed.

(** C8, as amended.  The pulse starts at radius 10; every call of the
    callback moves the radius by exactly 0.5 in the current direction and
    sets the marker to it; the direction flips exactly when the new radius
    has reached a bound (>= 25 going up, <= 10 going down); after every call
    the radius lies in [10, 25].  Opacity and fill opacity stay at 0.3. *)
Theorem pulse_radius_invariant :
  size newPulse = 10 /\ increasing newPulse = true
  /\ (forall p,
         size (pulseTick p)
         = (if increasing p then size p + 0.5 else size p - 0.5)
         /\ pulseRadius (pulseTick p) = size (pulseTick p)
         /\ (increasing (pulseTick p) = negb (increasing p) <->
             (if increasing p then ge (size (pulseTick p)) 25
              else le (size (pulseTick p)) 10) = true))
  /\ (forall n : nat,
         let p := ticks pulseTick n newPulse in
         le 10 (pulseRadius p) = true /\ le (pulseRadius p) 25 = true
         /\ pulseOpacity p = 0.3 /\ pulseFillOpacity p = 0.3).
Proof.
  split; [reflexivity|]. split; [reflexivity|]. split.
  - intros p. unfold pulseTick.
    destruct (increasing p); simpl.
    + destruct (ge (size p + 0.5) 25); simpl; repeat split; congruence.
    + destruct (le (size p - 0.5) 10); simpl; repeat split; congruence.
  - intros n. destruct (pulse_frame n) as (Hr & Ho & Hf).
    pose proof (pulse_bounded n) as Hb. unfold sizeInBounds in Hb.
    apply andb_prop in Hb. simpl. rewrite Hr. tauto.
Qed.

(** The circle of the other copy is 30 or 40 wide after every call, never
    within [10, 25]; its fill opacity follows the radius. *)
Lemma pulsing_circle_states (n : nat) :
  let p := ticks pulsingCircleTick n newPulsingCircle in
  (animationRadius p = 30 /\ circleRadius p = 30 /\ circleFillOpacity p = 0.3)
  \/ (animationRadius p = 40 /\ circleRadius p = 40 /\ circleFillOpacity p = 0.2).
Proof.
  induction n as [|n IH]; [left; repeat split|].
  rewrite ticks_succ. simpl in IH.
  set (p := ticks pulsingCircleTick n newPulsingCircle) in *.
  unfold pulsingCircleTick. simpl.
  destruct IH as [(-> & _) | (-> & _)]; [right | left]; repeat split.
Qed.

(** C8 as stated fails on the opacity: at the thirtieth call the radius
    reaches 25 and the direction flips, and the marker's opacity and fill
    opacity are what they were before.  The copy of the component that does
    change an opacity has a radius of 40 after its first call. *)
Lemma pulse_opacity_not_toggled :
  let before := ticks pulseTick 29 newPulse in
  let after := ticks pulseTick 30 newPulse in
  let other := ticks pulsingCircleTick 1 newPulsingCircle in
  increasing before = true /\ increasing after = false
  /\ size after = 25
  /\ pulseOpacity after = pulseOpacity before
  /\ pulseFillOpacity after = pulseFillOpacity before
  /\ circleRadius other = 40
  /\ le (circleRadius other) 25 = false.
Proof. vm_compute. repeat split. Qed.

End AnimationFacts.

(** ** The rendering pass *)

Module RenderFacts.
Import JsNumber Leaflet Render.

(** [f] applied to each destination with its position, results appended. *)
Fixpoint collect {A : Type} (f : nat -> DestinationPoint -> list A)
                 (dests : list DestinationPoint) (index : nat) : list A :=
  match dests with
  | [] => []
  | d :: rest => f index d ++ collect f rest (S index)
  end.

Definition coordinates (d : DestinationPoint) : Point := (lat d, lng d).

(** The sampled curve from the restaurant to a destination. *)
Definition curveOf (restaurant : Point) (d : DestinationPoint) : list Point :=
  Arc.curvePoints restaurant (Arc.controlPoint restaurant (coordinates d))
    (coordinates d).

(** The polyline, marker and timer [drawArcs] builds for the destination at
    position [index], from its own data and the largest visitor count. *)
Definition arcLine (restaurant : Point) (maxVis : Z) (index : nat)
                   (d : DestinationPoint) : Polyline :=
  {| latlngs := curveOf restaurant d;
     color := Visual.color index;
     weight := Visual.weight (Visual.normalizedValue (visitorCount d) maxVis);
     opacity := 0.8;
     className := "flow-arc" |}.

Definition destMarker (maxVis : Z) (index : nat) (d : DestinationPoint) : CircleMarker :=
  {| center := coordinates d;
     radius := Visual.radius (Visual.normalizedValue (visitorCount d) maxVis);
     fillColor := Visual.color index;
     strokeColor := "white"; strokeWeight := 2; strokeOpacity := 1;
     fillOpacity := 0.8;
     popup := Some {| title := name d;
                      subtitle := Js.oror (type d) (Js.JStr "Unknown");
                      badge := visitorCount d;
                      badgeColor := Visual.color index |} |}.

Definition arcTimer (maxVis : Z) (d : DestinationPoint) : Animation.ArcAnimation :=
  Animation.animateArc
    (Animation.addAnimatedClass
       (Animation.newArcAnimation
          (Visual.dashArray (Visual.normalizedValue (visitorCount d) maxVis)))).

Section Isolation.

Variable invalidLatLng : Point -> bool.

Definition polylineThrows (restaurant : Point) (d : DestinationPoint) : bool :=
  existsb invalidLatLng (curveOf restaurant d).

Definition markerThrows (d : DestinationPoint) : bool :=
  invalidLatLng (coordinates d).

Definition arcThrows (restaurant : Point) (d : DestinationPoint) : bool :=
  (polylineThrows restaurant d || markerThrows d)%bool.

(** What one iteration leaves on the map, among the timers and on the
    console. *)
Definition arcLayers (restaurant : Point) (maxVis : Z) (index : nat)
                     (d : DestinationPoint) : list Layer :=
  if polylineThrows restaurant d then []
  else PolylineLayer (arcLine restaurant maxVis index d)
       :: (if markerThrows d then []
           else [CircleMarkerLayer (destMarker maxVis index d)]).

Definition arcTimers (restaurant : Point) (maxVis : Z) (index : nat)
                     (d : DestinationPoint) : list Animation.ArcAnimation :=
  if arcThrows restaurant d then [] else [arcTimer maxVis d].

Definition arcLog (restaurant : Point) (index : nat) (d : DestinationPoint)
  : list LogEntry :=
  Log "Drawing arc from"
  :: (if arcThrows restaurant d then [Error "Error creating arc for"] else []).

Definition afterArcs (restaurant : Point) (maxVis : Z)
                     (dests : list DestinationPoint) (index : nat) (st : Pass) : Pass :=
  {| map := {| layers := layers (map st)
                         ++ collect (arcLayers restaurant maxVis) dests index;
               fitted := fitted (map st) |};
     allPoints := allPoints st ++ List.map coordinates dests;
     timers := timers st ++ collect (arcTimers restaurant maxVis) dests index;
     out := out st ++ collect (arcLog restaurant) dests index |}.

Lemma arcIteration_spec restaurant maxVis d index st :
  arcIteration invalidLatLng restaurant maxVis d index st
  = (Return tt, afterArcs restaurant maxVis [d] index st).
Proof.
  destruct st as [[ls ft] pts tms o].
  unfold arcIteration, tryCatch, arcBody, afterArcs, bind, pushPoint, addTo,
    consoleWrite, setInterval, modify, L_polyline, L_circleMarker, throw, ret.
  unfold collect, arcLayers, arcTimers, arcLog, arcThrows, polylineThrows,
    markerThrows, curveOf, coordinates.
  cbn [map allPoints timers out layers fitted addLayer List.map].
  destruct (existsb invalidLatLng _) eqn:Hp;
    cbn [map allPoints timers out layers fitted addLayer orb].
  - now rewrite ?app_nil_r, <- ?app_assoc.
  - destruct (invalidLatLng (lat d, lng d)) eqn:Hm;
      cbn [map allPoints timers out layers fitted orb]; unfold addLayer;
      cbn [layers fitted]; rewrite ?app_nil_r, <- ?app_assoc; reflexivity.
Qed.

Lemma afterArcs_cons restaurant maxVis d rest index st :
  afterArcs restaurant maxVis rest (S index)
    (afterArcs restaurant maxVis [d] index st)
  = afterArcs restaurant maxVis (d :: rest) index st.
Proof.
  unfold afterArcs. simpl. now rewrite !app_nil_r, <- !app_assoc.
Qed.

(** Every destination is processed, in order, whatever the others did. *)
Lemma forEach_spec restaurant maxVis dests :
  forall index st,
    forEach invalidLatLng restaurant maxVis dests index st
    = (Return tt, afterArcs restaurant maxVis dests index st).
Proof.
  induction dests as [|d rest IH]; intros index st.
  - unfold afterArcs. simpl. rewrite !app_nil_r.
    destruct st as [[ls ft] pts tms o]. reflexivity.
  - simpl. unfold bind. rewrite arcIteration_spec, IH.
    now rewrite afterArcs_cons.
Qed.

Lemma mapM_latLng pts st :
  mapM (L_latLng invalidLatLng) pts st
  = if existsb invalidLatLng pts then (Throw "Invalid LatLng object", st)
    else (Return pts, st).
Proof.
  induction pts as [|p pts IH]; [reflexivity|].
  simpl. unfold bind, L_latLng at 1, throw, ret.
  destruct (invalidLatLng p); simpl; [reflexivity|].
  rewrite IH. now destruct (existsb invalidLatLng pts).
Qed.

(** The points [fitBounds] is given, when none of them is rejected. *)
Definition boundsAfter (restaurant : Point) (dests : list DestinationPoint)
                       (m : Map) : option (list Point) :=
  if existsb invalidLatLng (restaurant :: List.map coordinates dests)
  then fitted m
  else Some (restaurant :: List.map coordinates dests).

Definition boundsLog (restaurant : Point) (dests : list DestinationPoint)
  : list LogEntry :=
  Log "Setting map bounds"
  :: (if existsb invalidLatLng (restaurant :: List.map coordinates dests)
      then [Error "Error setting map bounds:"] else []).

(** The component after a [drawArcs] that passed its guards. *)
Lemma drawArcs_eq c m restaurant d0 rest :
  mapRef c = Some m ->
  restaurantCoordinates c = Some restaurant ->
  drawArcs invalidLatLng (d0 :: rest) c =
  {| mapRef :=
       Some {| layers :=
                 filter (fun l => negb (isFlowArc l)) (layers m)
                 ++ collect (arcLayers restaurant (Visual.maxVisitors (d0 :: rest)))
                      (d0 :: rest) 0;
               fitted := boundsAfter restaurant (d0 :: rest) m |};
     destinations := destinations c;
     restaurantCoordinates := restaurantCoordinates c;
     intervals :=
       intervals c
       ++ collect (arcTimers restaurant (Visual.maxVisitors (d0 :: rest)))
            (d0 :: rest) 0;
     console :=
       console c
       ++ [Log "Manual drawArcs called with"; Log "RESTAURANT COORDINATES:";
           Log "DESTINATION EXAMPLE:"; Log "Max visitors:"]
       ++ collect (arcLog restaurant) (d0 :: rest) 0
       ++ boundsLog restaurant (d0 :: rest) |}.
Proof.
  intros Hm Hr. unfold drawArcs.
  cbn [logTo mapRef restaurantCoordinates intervals console destinations].
  rewrite Hm, Hr.
  unfold tryCatch at 1, drawPass, bind at 1 2 3, consoleWrite at 1, modify at 1 2.
  rewrite forEach_spec.
  unfold setBounds, afterArcs.
  cbn [map allPoints timers out layers fitted removeFlowArcs].
  rewrite length_app. cbn [List.length List.map app].
  replace (1 <? S (S (List.length (List.map coordinates rest))))%nat with true
    by (symmetry; apply Nat.ltb_lt; lia).
  unfold tryCatch, bind, consoleWrite, modify.
  rewrite mapM_latLng. unfold boundsAfter, boundsLog.
  cbn [map allPoints timers out layers fitted app List.map].
  destruct (existsb invalidLatLng _);
    cbn [map allPoints timers out layers fitted fitBounds];
    f_equal; rewrite <- ?app_assoc; reflexivity.
Qed.

End Isolation.

Lemma collect_in {A : Type} (f : nat -> DestinationPoint -> list A) (x : A) :
  forall dests index i d,
    nth_error dests i = Some d ->
    In x (f (index + i)%nat d) -> In x (collect f dests index).
Proof.
  induction dests as [|d0 rest IH]; intros index i d Hn Hx.
  - now destruct i.
  - simpl. apply in_or_app. destruct i as [|i]; simpl in Hn.
    + injection Hn as ->. left. now rewrite Nat.add_0_r in Hx.
    + right. apply (IH (S index) i d Hn).
      now rewrite Nat.add_succ_comm.
Qed.

Lemma arcLayers_ok invalidLatLng restaurant maxVis index d :
  arcThrows invalidLatLng restaurant d = false ->
  arcLayers invalidLatLng restaurant maxVis index d
  = [PolylineLayer (arcLine restaurant maxVis index d);
     CircleMarkerLayer (destMarker maxVis index d)].
Proof.
  unfold arcThrows, arcLayers. intros H. apply orb_false_elim in H.
  destruct H as [-> ->]. reflexivity.
Qed.

(** ** The guards of [drawArcs] *)

(** *** Example data *)

Definition restaurant : Point := (40.9869, 29.0259).

(** A map as initialisation leaves it: the tile layer, the restaurant marker
    and the pulse marker around it. *)
Definition liveMap : Map :=
  {| layers :=
       [ TileLayer;
         CircleMarkerLayer
           {| center := restaurant; radius := 8; fillColor := "#3B82F6";
              strokeColor := "#2563EB"; strokeWeight := 2; strokeOpacity := 1;
              fillOpacity := 0.9; popup := None |};
         CircleMarkerLayer
           {| center := restaurant; radius := 10; fillColor := "#3B82F6";
              strokeColor := "#2563EB"; strokeWeight := 1; strokeOpacity := 0.3;
              fillOpacity := 0.3; popup := None |} ];
     fitted := None |}.

Definition ready : Component :=
  {| mapRef := Some liveMap; destinations := [];
     restaurantCoordinates := Some restaurant;
     intervals := []; console := [] |}.

(** Three CSV rows with visitor counts 209, 179 and 100. *)
Definition threeRows : list Ingest.Row :=
  [ {| Ingest.KoordinatX := Js.JStr "40,98048011";
       Ingest.KoordinatY := Js.JStr "29,02419242";
       Ingest.latitude := Js.JUndefined; Ingest.longitude := Js.JUndefined;
       Ingest.visitor_count := Js.JNum 209;
       Ingest.place_name := Js.JUndefined;
       Ingest.MusteriTabelaAdi := Js.JStr "AKSAM KADIKOY";
       Ingest.MusteriCesidi := Js.JStr "Geleneksel Meyhane" |};
    {| Ingest.KoordinatX := Js.JUndefined; Ingest.KoordinatY := Js.JUndefined;
       Ingest.latitude := Js.JNum 40.98144373;
       Ingest.longitude := Js.JNum 29.02312433;
       Ingest.visitor_count := Js.JNum 179;
       Ingest.place_name := Js.JStr "Fil bistro moda";
       Ingest.MusteriTabelaAdi := Js.JUndefined;
       Ingest.MusteriCesidi := Js.JNull |};
    {| Ingest.KoordinatX := Js.JStr "40,981475";
       Ingest.KoordinatY := Js.JStr "29,022672";
       Ingest.latitude := Js.JUndefined; Ingest.longitude := Js.JUndefined;
       Ingest.visitor_count := Js.JNum 100;
       Ingest.place_name := Js.JUndefined;
       Ingest.MusteriTabelaAdi := Js.JStr "Yer Cafe";
       Ingest.MusteriCesidi := Js.JStr "Modern Pub & Bistro" |} ].

(** A destination at the restaurant's own position, and another one. *)
Definition atRestaurant : DestinationPoint :=
  {| name := Js.JStr "Same address"; lat := 40.9869; lng := 29.0259;
     visitorCount := 209; type := Js.JStr "Cafe" |}.

Definition filBistro : DestinationPoint :=
  {| name := Js.JStr "Fil bistro moda"; lat := 40.98144373; lng := 29.02312433;
     visitorCount := 179; type := Js.JStr "Modern Pub & Bistro" |}.

(** The colours of the arcs on a map and the visitor counts on its
    destination markers, in layer order. *)
Definition arcColors (m : option Map) : list string :=
  match m with
  | Some m' =>
      flat_map (fun l => match l with
                         | PolylineLayer p => [color p]
                         | _ => []
                         end) (layers m')
  | None => []
  end.

Definition arcWeights (m : option Map) : list float :=
  match m with
  | Some m' =>
      flat_map (fun l => match l with
                         | PolylineLayer p => [weight p]
                         | _ => []
                         end) (layers m')
  | None => []
  end.

Definition markerCounts (m : option Map) : list Z :=
  match m with
  | Some m' =>
      flat_map (fun l => match l with
                         | CircleMarkerLayer c =>
                             match popup c with
                             | Some pp => [badge pp]
                             | None => []
                             end
                         | _ => []
                         end) (layers m')
  | None => []
  end.

(** C10.  Called with no map, with an empty destination list or without
    restaurant coordinates, [drawArcs] only writes to the console: the map
    reference (hence every layer), the running timers and the two state
    variables are what they were. *)
Theorem drawArcs_guarded :
  forall (invalidLatLng : Point -> bool) (arcsDestinations : list DestinationPoint)
         (c : Component),
    mapRef c = None \/ arcsDestinations = [] \/ restaurantCoordinates c = None ->
    mapRef (drawArcs invalidLatLng arcsDestinations c) = mapRef c
    /\ intervals (drawArcs invalidLatLng arcsDestinations c) = intervals c
    /\ destinations (drawArcs invalidLatLng arcsDestinations c) = destinations c
    /\ restaurantCoordinates (drawArcs invalidLatLng arcsDestinations c)
       = restaurantCoordinates c
    /\ exists e,
         console (drawArcs invalidLatLng arcsDestinations c)
         = console c ++ [Log "Manual drawArcs called with"; Error e].
Proof.
  intros inv dests c H. unfold drawArcs.
  cbn [logTo mapRef restaurantCoordinates intervals console destinations].
  destruct (mapRef c) as [m|] eqn:Hm.
  - destruct dests as [|d0 rest].
    + cbn. repeat split; try assumption. eexists. now rewrite <- app_assoc.
    + destruct (restaurantCoordinates c) as [r|] eqn:Hr.
      * destruct H as [H | [H | H]]; discriminate.
      * cbn. repeat split; try assumption. eexists. now rewrite <- app_assoc.
  - cbn. repeat split; try assumption. eexists. now rewrite <- app_assoc.
Qed.

Lemma drawArcs_guarded_ready :
  (mapRef ready = None \/ @nil DestinationPoint = []
   \/ restaurantCoordinates ready = None)
  /\ mapRef (drawArcs nanLatLng [] ready) = Some liveMap
  /\ intervals (drawArcs nanLatLng [] ready) = [].
Proof.
  split; [right; left; reflexivity|].
  destruct (drawArcs_guarded nanLatLng [] ready (or_intror (or_introl eq_refl)))
    as (H1 & H2 & _).
  split; assumption.
Defined.

(** ** Style of the rendered arcs *)

Lemma fold_max_below (rest : list DestinationPoint) (top : Z) :
  Forall (fun d => (visitorCount d <= top)%Z) rest ->
  fold_left (fun acc d' => Z.max acc (visitorCount d')) rest top = top.
Proof.
  induction 1 as [|d rest Hd _ IH]; [reflexivity|].
  simpl. now rewrite Z.max_l.
Qed.

(** The first destination of a ranked list carries the largest count. *)
Lemma maxVisitors_of_ranked (d0 : DestinationPoint) (rest : list DestinationPoint) :
  StronglySorted SelectFacts.before (d0 :: rest) ->
  Visual.maxVisitors (d0 :: rest) = visitorCount d0.
Proof.
  intros H. apply StronglySorted_inv in H. destruct H as [_ H].
  unfold Visual.maxVisitors. now apply fold_max_below.
Qed.

(** C6.  After [drawArcs], the destination at position [i] of the list whose
    arc was built has on the map a polyline of colour [colors[i mod 5]] and
    weight [2 + normalized * 3] and a marker of radius [5 + normalized * 5]
    in the same colour, [normalized] being computed from its visitor count
    and the largest count of the list.  In a list that selection produced,
    position 0 holds the largest visitor count, and it gets palette entry 0.
    Of three rows with counts 209, 179 and 100 and [maxArcs = 2], the first
    two are drawn, in that order, in the palette entries 0 and 1. *)
Theorem arc_style_by_rank :
  (forall (invalidLatLng : Point -> bool) (c : Component) (m : Map)
          (origin : Point) (dests : list DestinationPoint) (i : nat)
          (d : DestinationPoint),
      mapRef c = Some m ->
      restaurantCoordinates c = Some origin ->
      nth_error dests i = Some d ->
      arcThrows invalidLatLng origin d = false ->
      let normalized :=
        Visual.normalizedValue (visitorCount d) (Visual.maxVisitors dests) in
      let paletteColor := nth (i mod 5) Visual.colors "undefined"%string in
      exists m' line marker,
        mapRef (drawArcs invalidLatLng dests c) = Some m'
        /\ In (PolylineLayer line) (layers m')
        /\ In (CircleMarkerLayer marker) (layers m')
        /\ latlngs line = curveOf origin d
        /\ color line = paletteColor
        /\ weight line = 2 + normalized * 3
        /\ center marker = (lat d, lng d)
        /\ fillColor marker = paletteColor
        /\ Leaflet.radius marker = 5 + normalized * 5)
  /\ (forall (dests : list DestinationPoint) (maxArcs : nat)
             (d0 : DestinationPoint) (rest : list DestinationPoint),
         Ingest.selectTop dests maxArcs = d0 :: rest ->
         Visual.maxVisitors (d0 :: rest) = visitorCount d0
         /\ Visual.colorIndex 0 = 0%nat)
  /\ List.length Visual.colors = 5%nat
  /\ (let dests := Ingest.topDestinations threeRows 2 in
      let c := drawArcs nanLatLng dests ready in
      List.map visitorCount dests = [209; 179]%Z
      /\ arcColors (mapRef c)
         = [nth 0 Visual.colors ""%string; nth 1 Visual.colors ""%string]
      /\ markerCounts (mapRef c) = [209; 179]%Z
      /\ List.length (intervals c) = 2%nat).
Proof.
  split; [|split; [|split]].
  - intros inv c m origin dests i d Hm Hr Hn Hok normalized paletteColor.
    destruct dests as [|d0 rest]; [now destruct i|].
    rewrite (drawArcs_eq inv c m origin d0 rest Hm Hr).
    cbn [mapRef].
    eexists. exists (arcLine origin (Visual.maxVisitors (d0 :: rest)) i d),
               (destMarker (Visual.maxVisitors (d0 :: rest)) i d).
    split; [reflexivity|]. cbn [layers].
    split; [|split].
    + apply in_or_app. right. apply (collect_in _ _ _ 0%nat i d Hn).
      rewrite (arcLayers_ok _ _ _ _ _ Hok). left. reflexivity.
    + apply in_or_app. right. apply (collect_in _ _ _ 0%nat i d Hn).
      rewrite (arcLayers_ok _ _ _ _ _ Hok). right. left. reflexivity.
    + repeat split.
  - intros dests maxArcs d0 rest Hsel. split; [|reflexivity].
    apply maxVisitors_of_ranked. rewrite <- Hsel.
    apply Sorted_StronglySorted; [exact SelectFacts.before_trans|].
    apply SelectFacts.selectTop_sorted.
  - reflexivity.
  - vm_compute. repeat split.
Qed.

Lemma arc_style_by_rank_example :
  let d := filBistro in
  let normalized := Visual.normalizedValue 179 209 in
  mapRef ready = Some liveMap
  /\ restaurantCoordinates ready = Some restaurant
  /\ nth_error [atRestaurant; filBistro] 1 = Some d
  /\ arcThrows nanLatLng restaurant d = false
  /\ exists m' line marker,
      mapRef (drawArcs nanLatLng [atRestaurant; filBistro] ready) = Some m'
      /\ In (PolylineLayer line) (layers m')
      /\ In (CircleMarkerLayer marker) (layers m')
      /\ latlngs line = curveOf restaurant d
      /\ color line = "#8B5CF6"%string
      /\ weight line = 2 + normalized * 3
      /\ center marker = (lat d, lng d)
      /\ fillColor marker = "#8B5CF6"%string
      /\ Leaflet.radius marker = 5 + normalized * 5.
Proof.
  split; [reflexivity|]. split; [reflexivity|]. split; [reflexivity|].
  split; [vm_compute; reflexivity|].
  apply (proj1 arc_style_by_rank nanLatLng ready liveMap restaurant
           [atRestaurant; filBistro] 1%nat filBistro);
    reflexivity.
Defined.

(** ** Exceptions stay inside their iteration *)

(** C9, as amended.  An exception thrown while one destination's arc is
    built is caught and logged inside that iteration and the loop goes on:
    the map ends up with, for every destination in list order, the layers of
    its own iteration; the timers likewise.  A destination whose iteration
    does not throw gets exactly the polyline, marker and timer fixed by its
    own data, its position in the list and the largest visitor count of the
    whole list -- the failing destinations included, so as in a pass in which
    nothing throws; one whose iteration throws gets no timer and its error is
    logged. *)
Theorem arc_exceptions_isolated :
  forall (invalidLatLng : Point -> bool) (c : Component) (m : Map)
         (origin : Point) (d0 : DestinationPoint) (rest : list DestinationPoint),
    mapRef c = Some m ->
    restaurantCoordinates c = Some origin ->
    let dests := d0 :: rest in
    let maxVis := Visual.maxVisitors dests in
    let c' := drawArcs invalidLatLng dests c in
    (exists m',
        mapRef c' = Some m'
        /\ layers m' = filter (fun l => negb (isFlowArc l)) (layers m)
                       ++ collect (arcLayers invalidLatLng origin maxVis) dests 0)
    /\ intervals c'
       = intervals c ++ collect (arcTimers invalidLatLng origin maxVis) dests 0
    /\ console c'
       = console c
         ++ [Log "Manual drawArcs called with"; Log "RESTAURANT COORDINATES:";
             Log "DESTINATION EXAMPLE:"; Log "Max visitors:"]
         ++ collect (arcLog invalidLatLng origin) dests 0
         ++ boundsLog invalidLatLng origin dests
    /\ (forall i d,
           arcThrows invalidLatLng origin d = false ->
           arcLayers invalidLatLng origin maxVis i d
           = [PolylineLayer (arcLine origin maxVis i d);
              CircleMarkerLayer (destMarker maxVis i d)]
           /\ arcLayers invalidLatLng origin maxVis i d
              = arcLayers (fun _ => false) origin maxVis i d
           /\ arcTimers invalidLatLng origin maxVis i d = [arcTimer maxVis d]
           /\ arcLog invalidLatLng origin i d = [Log "Drawing arc from"])
    /\ (forall i d,
           arcThrows invalidLatLng origin d = true ->
           arcTimers invalidLatLng origin maxVis i d = []
           /\ arcLog invalidLatLng origin i d
              = [Log "Drawing arc from"; Error "Error creating arc for"]).
Proof.
  intros inv c m origin d0 rest Hm Hr dests maxVis c'. subst c' dests maxVis.
  rewrite (drawArcs_eq inv c m origin d0 rest Hm Hr).
  cbn [mapRef intervals console].
  split; [eexists; split; reflexivity|].
  split; [reflexivity|]. split; [reflexivity|]. split.
  - intros i d Hok. rewrite (arcLayers_ok _ _ _ _ _ Hok).
    unfold arcTimers, arcLog. rewrite Hok. repeat split.
  - intros i d Hbad. unfold arcTimers, arcLog. rewrite Hbad. split; reflexivity.
Qed.

Lemma arc_exceptions_isolated_example :
  mapRef ready = Some liveMap
  /\ restaurantCoordinates ready = Some restaurant
  /\ arcThrows nanLatLng restaurant atRestaurant = true
  /\ arcThrows nanLatLng restaurant filBistro = false
  /\ intervals (drawArcs nanLatLng [atRestaurant; filBistro] ready)
     = intervals ready
       ++ collect (arcTimers nanLatLng restaurant
                     (Visual.maxVisitors [atRestaurant; filBistro]))
            [atRestaurant; filBistro] 0.
Proof.
  split; [reflexivity|]. split; [reflexivity|].
  split; [vm_compute; reflexivity|]. split; [vm_compute; reflexivity|].
  exact (proj1 (proj2 (arc_exceptions_isolated nanLatLng ready liveMap restaurant
                         atRestaurant [filBistro] eq_refl eq_refl))).
Defined.

(** C9 as stated fails on its last clause.  With a first destination at the
    restaurant's own position (its curve is NaN and Leaflet rejects it) the
    second destination is drawn in the second palette colour with a weight
    scaled against 209 visitors; were the first one absent it would be drawn
    in the first colour with full weight. *)
Lemma failing_destination_still_counts :
  let withFailing := drawArcs nanLatLng [atRestaurant; filBistro] ready in
  let without := drawArcs nanLatLng [filBistro] ready in
  arcThrows nanLatLng restaurant atRestaurant = true
  /\ markerCounts (mapRef withFailing) = [179]%Z
  /\ markerCounts (mapRef without) = [179]%Z
  /\ arcColors (mapRef withFailing) = ["#8B5CF6"]%string
  /\ arcColors (mapRef without) = ["#3B82F6"]%string
  /\ arcWeights (mapRef withFailing) = [4.6985645933014357]
  /\ arcWeights (mapRef without) = [5]
  /\ arcColors (mapRef withFailing) <> arcColors (mapRef without).
Proof.
  vm_compute. repeat split. discriminate.
Qed.

End RenderFacts.

(** ** What the ingestion chain lets through *)

Module PipelineFacts.
Import Js JsNumber Ingest.

Lemma filterMap_in {A B : Type} (f : A -> option B) (l : list A) (b : B) :
  In b (filterMap f l) <-> exists a, In a l /\ f a = Some b.
Proof.
  induction l as [|a l IH]; simpl.
  - split; [contradiction | intros (a & [] & _)].
  - destruct (f a) as [b'|] eqn:E; simpl; rewrite IH; split.
    + intros [<- | (a' & Ha & Hf)]; [exists a | exists a']; auto.
    + intros (a' & [<- | Ha] & Hf); [left; congruence | right; exists a'; auto].
    + intros (a' & Ha & Hf). exists a'. auto.
    + intros (a' & [<- | Ha] & Hf); [congruence | exists a'; auto].
Qed.

Lemma validDestinations_in (rows : list Row) (d : DestinationPoint) :
  In d (validDestinations rows) <->
  exists row, In row rows /\ normalize row = Some d.
Proof.
  unfold validDestinations, normalize. rewrite filterMap_in. split.
  - intros (m & Hm & Hk). apply in_map_iff in Hm.
    destruct Hm as (row & <- & Hrow). apply filter_In in Hrow.
    destruct Hrow as [Hin Hf]. exists row. now rewrite Hf.
  - intros (row & Hin & Hn). destruct (rowFilter row) eqn:Hf; [|discriminate].
    exists (rowMap row). split; [|assumption].
    apply in_map. apply filter_In. now split.
Qed.

Lemma firstn_in {A : Type} (n : nat) (l : list A) (x : A) :
  In x (firstn n l) -> In x l.
Proof.
  revert l. induction n as [|n IH]; intros [|a l]; simpl; try contradiction.
  intros [H | H]; [now left | right; now apply IH].
Qed.

Lemma topDestinations_in (rows : list Row) (maxArcs : nat) (d : DestinationPoint) :
  In d (topDestinations rows maxArcs) -> In d (validDestinations rows).
Proof.
  unfold topDestinations, selectTop. intros H. apply firstn_in in H.
  exact (Permutation_in d (SelectFacts.sort_perm _) H).
Qed.

(** What [normalize] guarantees about the destination it returns. *)
Lemma normalize_wellformed (row : Row) (d : DestinationPoint) :
  normalize row = Some d ->
  PrimFloat.is_finite (lat d) = true /\ PrimFloat.is_finite (lng d) = true
  /\ le (PrimFloat.abs (lat d)) 90 = true
  /\ le (PrimFloat.abs (lng d)) 180 = true
  /\ (0 < visitorCount d)%Z
  /\ truthy (name d) = true /\ truthy (type d) = true.
Proof.
  unfold normalize. destruct (rowFilter row); [|discriminate].
  intros H. apply IngestFacts.keepValid_spec in H.
  destruct H as (n & _ & Hn & F1 & F2 & L1 & L2 & ->). simpl.
  repeat split; try assumption.
  - rewrite !IngestFacts.truthy_oror. now rewrite orb_true_r.
  - rewrite IngestFacts.truthy_oror. now rewrite orb_true_r.
Qed.

(** X1.  Every destination the chain [filter / map / filter / sort / slice]
    hands to the component comes from one of the parsed rows, has two finite
    coordinates with |lat| <= 90 and |lng| <= 180 and a positive visitor
    count, and its name and type are truthy -- so a popup or list entry
    never falls back to ['Unknown'] for it. *)
Theorem topDestinations_wellformed :
  forall (rows : list Row) (maxArcs : nat) (d : DestinationPoint),
    In d (topDestinations rows maxArcs) ->
    (exists row, In row rows /\ normalize row = Some d)
    /\ PrimFloat.is_finite (lat d) = true
    /\ PrimFloat.is_finite (lng d) = true
    /\ isNaN (lat d) = false /\ isNaN (lng d) = false
    /\ le (PrimFloat.abs (lat d)) 90 = true
    /\ le (PrimFloat.abs (lng d)) 180 = true
    /\ (0 < visitorCount d)%Z
    /\ truthy (name d) = true
    /\ truthy (type d) = true
    /\ oror (type d) (JStr "Unknown") = type d.
Proof.
  intros rows maxArcs d H.
  apply topDestinations_in, validDestinations_in in H.
  destruct H as (row & Hin & Hn).
  destruct (normalize_wellformed row d Hn) as (F1 & F2 & L1 & L2 & Hc & Hname & Htype).
  split; [now exists row|].
  repeat split; try assumption.
  - now apply IngestFacts.finite_not_nan.
  - now apply IngestFacts.finite_not_nan.
  - now apply IngestFacts.oror_truthy.
Qed.

Lemma topDestinations_wellformed_example :
  let d := {| name := JStr "Fil bistro moda"; lat := 40.98144373;
              lng := 29.02312433; visitorCount := 179;
              type := JStr "Unspecified" |} in
  In d (topDestinations RenderFacts.threeRows 2)
  /\ PrimFloat.is_finite (lat d) = true
  /\ (0 < visitorCount d)%Z
  /\ oror (type d) (JStr "Unknown") = type d.
Proof.
  intros d.
  assert (H : In d (topDestinations RenderFacts.threeRows 2))
    by (vm_compute; right; left; reflexivity).
  split; [exact H|].
  destruct (topDestinations_wellformed RenderFacts.threeRows 2 d H)
    as (_ & F1 & _ & _ & _ & _ & _ & Hc & _ & _ & Ht).
  repeat split; assumption.
Defined.

End PipelineFacts.

(** ** The destination panel *)

Module PanelFacts.
Import Js Ingest.

Lemma sorted_app_before (l1 l2 : list DestinationPoint) (a b : DestinationPoint) :
  StronglySorted SelectFacts.before (l1 ++ l2) ->
  In a l1 -> In b l2 -> (visitorCount b <= visitorCount a)%Z.
Proof.
  induction l1 as [|x l1 IH]; simpl; [contradiction|].
  intros Hs [<- | Ha] Hb; apply StronglySorted_inv in Hs; destruct Hs as [Hs Hx].
  - rewrite Forall_forall in Hx. apply (Hx b). apply in_or_app. now right.
  - now apply IH.
Qed.

(** X2.  For the destinations the ingestion chain selected: without a
    destination there is no panel; rendering throws exactly when the name
    or the type of one of the first five is a [Date] (a cell that reads as
    an ISO date-time); otherwise the panel is shown.  Its badge then shows
    the number of destinations (at most [maxArcs]); it lists the first five
    of them, which are the valid destinations with the largest visitor
    counts -- a valid destination it leaves out never has more visitors than
    one it shows --, each with its own type; and the button for the full
    list is there exactly when there are more than five, hence never for
    [maxArcs <= 5]. *)
Theorem panel_lists_top_five :
  forall (rows : list Row) (maxArcs : nat),
    let dests := topDestinations rows maxArcs in
    (Panel.render dests = Render.Return None <-> dests = [])
    /\ ((exists e, Panel.render dests = Render.Throw e)
        <-> exists d, In d (firstn 5 dests)
                      /\ (Panel.validChild (name d) = false
                          \/ Panel.validChild (type d) = false))
    /\ forall v : Panel.View,
         Panel.render dests = Render.Return (Some v) ->
         dests <> []
         /\ Panel.badge v = List.length dests
         /\ (Panel.badge v <= maxArcs)%nat
         /\ Panel.items v = List.map Panel.item (firstn 5 dests)
         /\ List.length (Panel.items v) = Nat.min 5 (List.length dests)
         /\ (Panel.viewAll v = true <-> (5 < List.length dests)%nat)
         /\ ((maxArcs <= 5)%nat -> Panel.viewAll v = false)
         /\ (forall a b,
                In a (firstn 5 dests) -> In b (validDestinations rows) ->
                In b (firstn 5 dests) \/ (visitorCount b <= visitorCount a)%Z)
         /\ (forall a, In a (firstn 5 dests) ->
                       Panel.itemType (Panel.item a) = type a
                       /\ Panel.validChild (name a) = true
                       /\ Panel.validChild (type a) = true).
Proof.
  intros rows maxArcs dests.
  assert (Ht : forall a, In a (firstn 5 dests) ->
                         Panel.itemType (Panel.item a) = type a).
  { intros a Ha. apply PipelineFacts.firstn_in in Ha.
    apply PipelineFacts.topDestinations_in, PipelineFacts.validDestinations_in in Ha.
    destruct Ha as (row & _ & Hn).
    apply PipelineFacts.normalize_wellformed in Hn.
    cbn [Panel.item Panel.itemType].
    apply IngestFacts.oror_truthy. tauto. }
  assert (Hv : forallb Panel.validItem (List.map Panel.item (firstn 5 dests)) = false
               <-> exists d, In d (firstn 5 dests)
                             /\ (Panel.validChild (name d) = false
                                 \/ Panel.validChild (type d) = false)).
  { rewrite <- not_true_iff_false, forallb_forall. split.
    - intros H.
      destruct (existsb (fun d => negb (Panel.validItem (Panel.item d)))
                        (firstn 5 dests)) eqn:E.
      + apply existsb_exists in E. destruct E as (d & Hd & Hn).
        exists d. split; [exact Hd|].
        apply negb_true_iff in Hn. unfold Panel.validItem in Hn.
        rewrite (Ht d Hd) in Hn. cbn [Panel.item Panel.itemName] in Hn.
        apply andb_false_iff in Hn. exact Hn.
      + exfalso. apply H. intros i Hi. apply in_map_iff in Hi.
        destruct Hi as (d & <- & Hd).
        destruct (Panel.validItem (Panel.item d)) eqn:Ev; [reflexivity|].
        assert (existsb (fun d => negb (Panel.validItem (Panel.item d)))
                        (firstn 5 dests) = true)
          by (apply existsb_exists; exists d; split; [exact Hd | now rewrite Ev]).
        congruence.
    - intros (d & Hd & Hn) H.
      specialize (H (Panel.item d) (in_map _ _ _ Hd)).
      unfold Panel.validItem in H. rewrite (Ht d Hd) in H.
      cbn [Panel.item Panel.itemName] in H.
      apply andb_true_iff in H. destruct H, Hn; congruence. }
  unfold Panel.render.
  destruct (Nat.ltb_spec 0 (List.length dests)) as [Hpos|Hzero].
  - destruct (forallb Panel.validItem (List.map Panel.item (firstn 5 dests))) eqn:Ef.
    + split; [split; [discriminate | intros E; rewrite E in Hpos; simpl in Hpos; lia]|].
      split.
      * split; [intros [e He]; discriminate|].
        intros H. apply Hv in H. discriminate.
      * intros v H.
        apply (f_equal (fun o => match o with
                                 | Render.Return (Some x) => x
                                 | _ => v
                                 end)) in H.
        cbv beta iota in H. subst v.
        unfold Panel.badge, Panel.items, Panel.viewAll; cbv beta iota.
        assert (Hlen : (List.length dests <= maxArcs)%nat).
        { unfold dests, topDestinations, selectTop. rewrite length_firstn. lia. }
        split; [intros E; rewrite E in Hpos; simpl in Hpos; lia|].
        split; [reflexivity|]. split; [exact Hlen|]. split; [reflexivity|].
        split; [rewrite length_map; apply length_firstn|].
        split; [apply Nat.ltb_lt|].
        split; [intros Hm; apply Nat.ltb_ge; lia|].
        split.
        -- intros a b Ha Hb.
           unfold dests, topDestinations, selectTop in *.
           rewrite firstn_firstn in *.
           set (k := Nat.min 5 maxArcs) in *.
           set (sorted := sort (validDestinations rows)) in *.
           assert (Hb' : In b sorted)
             by exact (Permutation_in b (Permutation_sym (SelectFacts.sort_perm _)) Hb).
           rewrite <- (firstn_skipn k sorted) in Hb'.
           apply in_app_or in Hb'. destruct Hb' as [Hb' | Hb']; [now left | right].
           apply (sorted_app_before (firstn k sorted) (skipn k sorted)); try assumption.
           rewrite firstn_skipn. apply SelectFacts.sort_strongly_sorted.
        -- intros a Ha. split; [now apply Ht|].
           rewrite forallb_forall in Ef.
           specialize (Ef (Panel.item a) (in_map _ _ _ Ha)).
           unfold Panel.validItem in Ef. rewrite (Ht a Ha) in Ef.
           cbn [Panel.item Panel.itemName] in Ef.
           now apply andb_true_iff in Ef.
    + split; [split; [discriminate | intros E; rewrite E in Hpos; simpl in Hpos; lia]|].
      split; [|intros v H; discriminate].
      split; [intros _; now apply Hv | intros _; eexists; reflexivity].
  - assert (E : dests = []) by (destruct dests; [reflexivity | simpl in Hzero; lia]).
    split; [split; [intros _; exact E | reflexivity]|].
    split; [|intros v H; discriminate].
    split; [intros [e He]; discriminate|].
    intros (d & Hd & _). rewrite E in Hd. destruct Hd.
Qed.

Lemma panel_lists_top_five_example :
  exists v,
    Panel.render (topDestinations RenderFacts.threeRows 10) = Render.Return (Some v)
    /\ Panel.badge v = 3%nat
    /\ List.map Panel.itemCount (Panel.items v) = [209; 179; 100]%Z
    /\ Panel.viewAll v = false.
Proof.
  destruct (Panel.render (topDestinations RenderFacts.threeRows 10)) as [[v|]|e] eqn:E;
    [|vm_compute in E; discriminate|vm_compute in E; discriminate].
  exists v. split; [reflexivity|].
  destruct (panel_lists_top_five RenderFacts.threeRows 10) as (_ & _ & H).
  destruct (H v E) as (_ & Hb & _ & Hi & _ & Hv & _).
  split; [rewrite Hb; vm_compute; reflexivity|].
  split; [rewrite Hi; vm_compute; reflexivity|].
  destruct (Panel.viewAll v) eqn:Ev; [|reflexivity].
  apply proj1 in Hv. specialize (Hv eq_refl). vm_compute in Hv. lia.
Defined.

(** A destination file whose best row has a place name that reads as a
    date: the chain selects it, and rendering the panel throws. *)
Lemma date_name_breaks_panel :
  let row := {| KoordinatX := JStr "40,98"; KoordinatY := JStr "29,02";
                latitude := JUndefined; longitude := JUndefined;
                visitor_count := JNum 150;
                place_name := JDate "Tue Jan 02 2024 13:00:00 GMT+0300 (GMT+03:00)"
                                    1704189600000;
                MusteriTabelaAdi := JStr "Moda"; MusteriCesidi := JStr "Cafe" |} in
  List.length (topDestinations [row] 10) = 1%nat
  /\ Panel.render (topDestinations [row] 10)
     = Render.Throw "Objects are not valid as a React child".
Proof. vm_compute. split; reflexivity. Qed.

Lemma allEntries_spec (dests : list DestinationPoint) :
  List.map fst (Panel.allEntries dests) = List.map Panel.item dests
  /\ List.map snd (Panel.allEntries dests)
     = repeat true (List.length dests - 1) ++ firstn 1 (repeat false (List.length dests)).
Proof.
  induction dests as [|d rest [IH1 IH2]]; [split; reflexivity|].
  destruct rest as [|d' rest']; [split; reflexivity|].
  change (Panel.allEntries (d :: d' :: rest'))
    with ((Panel.item d, true) :: Panel.allEntries (d' :: rest')).
  cbn [List.map fst snd]. rewrite IH1, IH2. split; [reflexivity|].
  cbn [List.length Nat.sub repeat firstn app]. now rewrite Nat.sub_0_r.
Qed.

Lemma sorted_counts (l : list DestinationPoint) :
  StronglySorted SelectFacts.before l ->
  StronglySorted Z.ge (List.map visitorCount l).
Proof.
  induction 1 as [|d l Hs IH Hall]; [constructor|].
  cbn [List.map]. constructor; [exact IH|].
  rewrite Forall_forall in *. intros c Hc. apply in_map_iff in Hc.
  destruct Hc as (d' & <- & Hd'). specialize (Hall d' Hd').
  unfold SelectFacts.before in Hall. lia.
Qed.

(** X14.  The full list behind the button shows every selected destination
    exactly once, in rank order -- visitor counts never increase down the
    list --, each with its own name, count and type; every entry but the
    last gets a bottom border. *)
Theorem full_list_in_rank_order :
  forall (rows : list Row) (maxArcs : nat),
    let dests := topDestinations rows maxArcs in
    let entries := Panel.allEntries dests in
    List.length entries = List.length dests
    /\ List.map fst entries = List.map Panel.item dests
    /\ List.map (fun e => Panel.itemCount (fst e)) entries = List.map visitorCount dests
    /\ StronglySorted Z.ge (List.map (fun e => Panel.itemCount (fst e)) entries)
    /\ List.map snd entries
       = repeat true (List.length dests - 1)
         ++ firstn 1 (repeat false (List.length dests))
    /\ Forall (fun e => exists d, In d dests /\ Panel.itemName (fst e) = name d
                                  /\ Panel.itemType (fst e) = type d) entries.
Proof.
  intros rows maxArcs dests entries.
  destruct (allEntries_spec dests) as [E1 E2]. fold entries in E1, E2.
  assert (Ec : List.map (fun e => Panel.itemCount (fst e)) entries
               = List.map visitorCount dests).
  { rewrite <- (map_map fst Panel.itemCount), E1, map_map. reflexivity. }
  split; [rewrite <- (length_map fst entries), E1; apply length_map|].
  split; [exact E1|]. split; [exact Ec|]. split; [|split; [exact E2|]].
  - rewrite Ec. apply sorted_counts.
    apply Sorted_StronglySorted; [exact SelectFacts.before_trans|].
    apply SelectFacts.selectTop_sorted.
  - rewrite Forall_forall. intros e He.
    assert (Hi : In (fst e) (List.map Panel.item dests))
      by (rewrite <- E1; now apply in_map).
    apply in_map_iff in Hi. destruct Hi as (d & Hd & Hin).
    exists d. split; [exact Hin|]. rewrite <- Hd. cbn [Panel.item Panel.itemName Panel.itemType].
    split; [reflexivity|].
    apply PipelineFacts.topDestinations_in, PipelineFacts.validDestinations_in in Hin.
    destruct Hin as (row & _ & Hn).
    apply PipelineFacts.normalize_wellformed in Hn.
    apply IngestFacts.oror_truthy. tauto.
Qed.

End PanelFacts.

(** ** Loading the restaurant's position and the destinations *)

Module LoadingFacts.
Import Js JsNumber Render.

(** A cell that dynamic typing read as a number, or that is missing. *)
Definition numberOrMissing (v : JsVal) : bool :=
  match v with
  | JNum _ | JUndefined | JNull => true
  | _ => false
  end.

(** The load delivered no row. *)
Definition noRow {A : Type} (outcome : Loaded A) : bool :=
  match outcome with
  | Parsed (_ :: _) => false
  | _ => true
  end.

Lemma truthy_not_nan (x : float) : truthy (JNum x) = true -> isNaN x = false.
Proof.
  simpl. unfold isNaN. destruct (PrimFloat.is_nan x); [|reflexivity].
  now rewrite orb_true_r.
Qed.

(** [a || b || 0] over cells that are numbers or missing is a number, and
    not NaN. *)
Lemma number_or_zero (a b : JsVal) :
  numberOrMissing a = true -> numberOrMissing b = true ->
  exists x, oror (oror a b) (JNum 0) = JNum x /\ isNaN x = false.
Proof.
  intros Ha Hb. unfold oror.
  destruct (truthy a) eqn:Ta.
  - rewrite Ta. destruct a; try discriminate. eexists. split; [reflexivity|].
    now apply truthy_not_nan.
  - destruct (truthy b) eqn:Tb.
    + destruct b; try discriminate. eexists. split; [reflexivity|].
      now apply truthy_not_nan.
    + exists 0. split; reflexivity.
Qed.

(** The first of two cells that is truthy, else 0. *)
Definition firstTruthy (a b : JsVal) : JsVal :=
  if truthy a then a else if truthy b then b else JNum 0.

(** X3.  When the location file has a row, the restaurant's position is
    read from its first row alone: the latitude is the [lat] cell when that
    is truthy, else the [Lat] cell when that is truthy, else 0, and likewise
    the longitude from [lng] and [Lng] -- the props and the former state
    play no part, and a cell that is missing or zero is passed over.  If
    those cells are numbers or missing, both coordinates are numbers and
    neither is NaN.  Without a row (an empty file, a parse error, a failed
    request) the props are used when both are truthy, and otherwise the
    state keeps its value. *)
Theorem restaurant_position_source :
  forall (outcome : Loaded Restaurant.RestaurantLocation)
         (location : Props.LocationData)
         (current : option Restaurant.Coordinates),
    (forall r rest, outcome = Parsed (r :: rest) ->
       Restaurant.loadRestaurant outcome location current
       = Some (firstTruthy (Restaurant.lat r) (Restaurant.Lat r),
               firstTruthy (Restaurant.lng r) (Restaurant.Lng r))
       /\ (forall location' current',
              Restaurant.loadRestaurant outcome location' current'
              = Restaurant.loadRestaurant outcome location current)
       /\ (numberOrMissing (Restaurant.lat r) = true ->
           numberOrMissing (Restaurant.Lat r) = true ->
           numberOrMissing (Restaurant.lng r) = true ->
           numberOrMissing (Restaurant.Lng r) = true ->
           exists x y,
             Restaurant.loadRestaurant outcome location current
             = Some (JNum x, JNum y)
             /\ isNaN x = false /\ isNaN y = false))
    /\ (noRow outcome = true ->
        Restaurant.loadRestaurant outcome location current
        = if (truthy (Props.latitude location)
              && truthy (Props.longitude location))%bool
          then Some (JNum (toNumber (Props.latitude location)),
                     JNum (toNumber (Props.longitude location)))
          else current).
Proof.
  intros outcome location current. split.
  - intros r rest ->.
    assert (E : forall a b, oror (oror a b) (JNum 0) = firstTruthy a b).
    { intros a b. unfold oror, firstTruthy.
      destruct (truthy a) eqn:Ta; [now rewrite Ta|].
      now destruct (truthy b). }
    split; [cbn [Restaurant.loadRestaurant]; unfold Restaurant.fromRow;
            now rewrite !E|].
    split; [reflexivity|].
    intros H1 H2 H3 H4. cbn [Restaurant.loadRestaurant]. unfold Restaurant.fromRow.
    destruct (number_or_zero _ _ H1 H2) as (x & -> & Hx).
    destruct (number_or_zero _ _ H3 H4) as (y & -> & Hy).
    exists x, y. repeat split; assumption.
  - intros Hno.
    assert (E : Restaurant.loadRestaurant outcome location current
                = Restaurant.fromProps location current).
    { destruct outcome as [| |[|r rest]]; try reflexivity. discriminate. }
    rewrite E. unfold Restaurant.fromProps.
    now rewrite IngestFacts.truthy_andand.
Qed.

(** A location file whose only row has no [lat] and a zero [lng]; the props
    carry the real position. *)
Lemma restaurant_position_source_example :
  let row := {| Restaurant.lat := JUndefined; Restaurant.lng := JNum 0;
                Restaurant.Lat := JNum 40.9869; Restaurant.Lng := JNull |} in
  let location := {| Props.latitude := JNum 40.9869;
                     Props.longitude := JNum 29.0259 |} in
  Restaurant.loadRestaurant (Parsed [row]) location None
  = Some (JNum 40.9869, JNum 0)
  /\ Restaurant.loadRestaurant (Parsed []) location None
     = Some (JNum 40.9869, JNum 29.0259).
Proof.
  intros row location. split.
  - destruct (restaurant_position_source (Parsed [row]) location None)
      as [H _].
    destruct (H row [] eq_refl) as (E & _).
    rewrite E. reflexivity.
  - destruct (restaurant_position_source (Parsed []) location None)
      as [_ H].
    rewrite (H eq_refl). reflexivity.
Defined.

(** The built-in destinations pass the test of the chain's second filter. *)
Definition passesFilter (d : DestinationPoint) : bool :=
  (negb (isNaN (lat d)) && negb (isNaN (lng d))
   && le (PrimFloat.abs (lat d)) 90 && le (PrimFloat.abs (lng d)) 180
   && (0 <? visitorCount d)%Z)%bool.

(** What a failed load leaves: the built-in list, nothing else touched but
    the console, and no draw put on a timer. *)
Definition fallbackShown (c : Component)
                         (r : Component * option (list DestinationPoint)) : Prop :=
  destinations (fst r) = Loading.fallbackDestinations
  /\ snd r = None
  /\ mapRef (fst r) = mapRef c
  /\ restaurantCoordinates (fst r) = restaurantCoordinates c
  /\ intervals (fst r) = intervals c.

(** X4.  When the destination file cannot be fetched or parsed, the
    component takes its five built-in destinations, whatever [maxArcs] is --
    a parsed file gives at most [maxArcs].  The built-in list is already in
    rank order, so ranking it again changes nothing, and every entry passes
    the validity test of the ingestion chain.  With [showDestinations] off
    the effect does nothing. *)
Theorem failed_load_shows_fallback :
  (forall maxArcs c,
      fallbackShown c (Loading.loadDestinations true FetchFailed maxArcs c))
  /\ (forall maxArcs c,
         fallbackShown c (Loading.loadDestinations true ParseFailed maxArcs c))
  /\ List.length Loading.fallbackDestinations = 5%nat
  /\ StronglySorted SelectFacts.before Loading.fallbackDestinations
  /\ Ingest.sort Loading.fallbackDestinations = Loading.fallbackDestinations
  /\ forallb passesFilter Loading.fallbackDestinations = true
  /\ (forall data maxArcs c,
         let r := Loading.loadDestinations true (Parsed data) maxArcs c in
         destinations (fst r) = Ingest.topDestinations data maxArcs
         /\ (List.length (destinations (fst r)) <= maxArcs)%nat)
  /\ (forall outcome maxArcs c,
         Loading.loadDestinations false outcome maxArcs c = (c, None)).
Proof.
  split; [intros maxArcs c; repeat split|].
  split; [intros maxArcs c; repeat split|].
  split; [reflexivity|].
  assert (Hs : Sorted SelectFacts.before Loading.fallbackDestinations).
  { unfold Loading.fallbackDestinations.
    repeat (constructor; try (unfold SelectFacts.before; simpl; lia)). }
  split; [apply Sorted_StronglySorted; [exact SelectFacts.before_trans | exact Hs]|].
  split; [now apply SelectFacts.sort_of_sorted|].
  split; [vm_compute; reflexivity|].
  split; [|reflexivity].
  intros data maxArcs c r.
  assert (E : destinations (fst r) = Ingest.topDestinations data maxArcs).
  { unfold r, Loading.loadDestinations, Loading.complete.
    cbn [logTo mapRef restaurantCoordinates].
    destruct (mapRef c), (Ingest.topDestinations data maxArcs),
      (restaurantCoordinates c); reflexivity. }
  split; [exact E|]. rewrite E.
  unfold Ingest.topDestinations, Ingest.selectTop. rewrite length_firstn. lia.
Qed.

(** [drawArcs] gets past its three guards. *)
Definition passesGuards (arcsDestinations : list DestinationPoint)
                        (c : Component) : Prop :=
  mapRef c <> None /\ arcsDestinations <> [] /\ restaurantCoordinates c <> None.

(** X5.  The three places that call [drawArcs] do so only where its guards
    pass.  The [complete] callback puts a draw of the new destinations on a
    timer, and the arc effect a draw of the current ones, exactly when there
    is a map, a destination and a restaurant position.  The callback left by
    the effect that creates the map calls [drawArcs] exactly when there is a
    map and a destination; it tests no restaurant position, but exists only
    where that effect found one.  A draw that runs in such a state gets past
    the guards: it leaves on the map the layers that are not arcs, followed
    by what the pass built. *)
Theorem scheduled_draw_passes_guards :
  forall (invalidLatLng : Point -> bool) (c : Component),
    (forall data maxArcs,
        let r := Loading.complete data maxArcs c in
        let top := Ingest.topDestinations data maxArcs in
        (snd r = Some top <-> passesGuards top (fst r))
        /\ (snd r = None <-> ~ passesGuards top (fst r)))
    /\ (snd (Loading.arcEffect c) = true <-> passesGuards (destinations c) c)
    /\ (snd (Loading.forceRedraw c) = Some (destinations c)
        <-> mapRef c <> None /\ destinations c <> [])
    /\ (snd (Loading.forceRedraw c) = None
        <-> ~ (mapRef c <> None /\ destinations c <> []))
    /\ (forall mapContainer,
           Loading.initGuard mapContainer c = true ->
           (snd (Loading.forceRedraw c) = Some (destinations c)
            <-> passesGuards (destinations c) c))
    /\ (forall dests,
           passesGuards dests c ->
           exists m restaurant,
             mapRef c = Some m /\ restaurantCoordinates c = Some restaurant
             /\ mapRef (drawArcs invalidLatLng dests c)
                = Some {| Leaflet.layers :=
                            filter (fun l => negb (Leaflet.isFlowArc l))
                                   (Leaflet.layers m)
                            ++ RenderFacts.collect
                                 (RenderFacts.arcLayers invalidLatLng restaurant
                                    (Visual.maxVisitors dests)) dests 0;
                          Leaflet.fitted :=
                            RenderFacts.boundsAfter invalidLatLng restaurant
                              dests m |}).
Proof.
  intros inv c.
  assert (Hf : (snd (Loading.forceRedraw c) = Some (destinations c)
                <-> mapRef c <> None /\ destinations c <> [])
               /\ (snd (Loading.forceRedraw c) = None
                   <-> ~ (mapRef c <> None /\ destinations c <> []))).
  { unfold Loading.forceRedraw.
    destruct (mapRef c) as [m|], (destinations c) as [|d0 rest]; cbn [snd];
      split; split; intros H;
      first [ reflexivity | discriminate | (split; discriminate)
            | (intros [H1 H2]; congruence)
            | (destruct H as [H1 H2]; congruence)
            | (exfalso; apply H; split; discriminate) ]. }
  split; [|split; [|split; [apply Hf|split; [apply Hf|split]]]].
  - intros data maxArcs r top. unfold r, Loading.complete. fold top.
    unfold passesGuards.
    destruct (mapRef c) as [m|] eqn:Hm, top as [|d0 rest] eqn:Ht,
      (restaurantCoordinates c) as [p|] eqn:Hr;
      cbn [fst snd Loading.setDestinations logTo mapRef restaurantCoordinates];
      rewrite ?Hm, ?Hr; split; split; intros H;
      first [ reflexivity | discriminate | (repeat split; discriminate)
            | (intros (H1 & H2 & H3); congruence)
            | (destruct H as (H1 & H2 & H3); congruence)
            | (exfalso; apply H; repeat split; discriminate) ].
  - unfold Loading.arcEffect, passesGuards.
    cbn [logTo mapRef destinations restaurantCoordinates].
    destruct (mapRef c), (destinations c), (restaurantCoordinates c);
      cbn [snd]; split; intros H; try discriminate; try reflexivity;
      try (repeat split; discriminate);
      destruct H as (H1 & H2 & H3); congruence.
  - intros mapContainer Hg. rewrite (proj1 Hf). unfold passesGuards.
    unfold Loading.initGuard in Hg.
    destruct (restaurantCoordinates c); [|discriminate].
    split; [intros [H1 H2]; repeat split; try assumption; discriminate
           | intros (H1 & H2 & _); now split].
  - intros dests (Hm & Hd & Hr).
    destruct (mapRef c) as [m|] eqn:Em; [|congruence].
    destruct (restaurantCoordinates c) as [p|] eqn:Er; [|congruence].
    destruct dests as [|d0 rest]; [congruence|].
    exists m, p. split; [reflexivity|]. split; [reflexivity|].
    now rewrite (RenderFacts.drawArcs_eq inv c m p d0 rest Em Er).
Qed.

Lemma scheduled_draw_passes_guards_example :
  passesGuards [RenderFacts.filBistro] RenderFacts.ready
  /\ exists m restaurant,
       mapRef RenderFacts.ready = Some m
       /\ restaurantCoordinates RenderFacts.ready = Some restaurant
       /\ mapRef (drawArcs nanLatLng [RenderFacts.filBistro] RenderFacts.ready)
          = Some {| Leaflet.layers :=
                      filter (fun l => negb (Leaflet.isFlowArc l))
                             (Leaflet.layers m)
                      ++ RenderFacts.collect
                           (RenderFacts.arcLayers nanLatLng restaurant
                              (Visual.maxVisitors [RenderFacts.filBistro]))
                           [RenderFacts.filBistro] 0;
                    Leaflet.fitted :=
                      RenderFacts.boundsAfter nanLatLng restaurant
                        [RenderFacts.filBistro] m |}.
Proof.
  assert (H : passesGuards [RenderFacts.filBistro] RenderFacts.ready)
    by (repeat split; discriminate).
  split; [exact H|].
  destruct (scheduled_draw_passes_guards nanLatLng RenderFacts.ready)
    as (_ & _ & _ & _ & _ & Hd).
  exact (Hd [RenderFacts.filBistro] H).
Defined.

End LoadingFacts.

(** ** Drawing again *)

Module RedrawFacts.
Import JsNumber Leaflet Render RenderFacts.

Definition isMarker (layer : Layer) : bool :=
  match layer with
  | CircleMarkerLayer _ => true
  | _ => false
  end.

Definition isTile (layer : Layer) : bool :=
  match layer with
  | TileLayer => true
  | _ => false
  end.

Definition count (f : Layer -> bool) (ls : list Layer) : nat :=
  List.length (filter f ls).

Lemma count_app f l1 l2 : count f (l1 ++ l2) = (count f l1 + count f l2)%nat.
Proof. unfold count. now rewrite filter_app, length_app. Qed.

Lemma count_kept_arcs ls : count isFlowArc (filter (fun l => negb (isFlowArc l)) ls) = 0%nat.
Proof.
  unfold count. induction ls as [|l ls IH]; [reflexivity|].
  simpl. destruct (isFlowArc l) eqn:E; simpl; [exact IH|].
  now rewrite E.
Qed.

Lemma count_kept_other f ls :
  (forall l, f l = true -> isFlowArc l = false) ->
  count f (filter (fun l => negb (isFlowArc l)) ls) = count f ls.
Proof.
  intros Hf. unfold count. induction ls as [|l ls IH]; [reflexivity|].
  simpl. destruct (isFlowArc l) eqn:E; simpl.
  - destruct (f l) eqn:F; [|exact IH]. rewrite (Hf l F) in E. discriminate.
  - destruct (f l); simpl; now rewrite IH.
Qed.

Section Redraw.

Variable invalidLatLng : Point -> bool.
Variable restaurant : Point.
Variable maxVis : Z.

Lemma collect_layers_counts dests :
  (forall d, In d dests -> arcThrows invalidLatLng restaurant d = false) ->
  forall index,
    count isFlowArc (collect (arcLayers invalidLatLng restaurant maxVis) dests index)
    = List.length dests
    /\ count isMarker (collect (arcLayers invalidLatLng restaurant maxVis) dests index)
       = List.length dests
    /\ count isTile (collect (arcLayers invalidLatLng restaurant maxVis) dests index)
       = 0%nat
    /\ List.length (collect (arcTimers invalidLatLng restaurant maxVis) dests index)
       = List.length dests.
Proof.
  induction dests as [|d rest IH]; intros Hok index; [repeat split|].
  assert (Hd : arcThrows invalidLatLng restaurant d = false)
    by (apply Hok; now left).
  destruct (IH (fun d' H => Hok d' (or_intror H)) (S index)) as (I1 & I2 & I3 & I4).
  cbn [collect]. rewrite !count_app, length_app.
  assert (Ht : arcTimers invalidLatLng restaurant maxVis index d = [arcTimer maxVis d])
    by (unfold arcTimers; now rewrite Hd).
  rewrite (arcLayers_ok _ _ _ _ _ Hd), Ht.
  rewrite I1, I2, I3, I4. repeat split.
Qed.

End Redraw.

(** X6.  Calling [drawArcs] again replaces the arcs but not what comes with
    them.  After any number of calls with the same destinations (none of them
    rejected by Leaflet), the map carries one arc per destination and the
    tile layer it had, but one more destination marker per destination and
    call, and one more running interval timer per destination and call:
    only layers of class [flow-arc] are removed, and no timer is cleared. *)
Theorem redraw_replaces_arcs_only :
  forall (invalidLatLng : Point -> bool) (c : Component) (m : Map)
         (restaurant : Point) (dests : list DestinationPoint) (calls : nat),
    mapRef c = Some m ->
    restaurantCoordinates c = Some restaurant ->
    dests <> [] ->
    (forall d, In d dests -> arcThrows invalidLatLng restaurant d = false) ->
    let c' := Animation.ticks (drawArcs invalidLatLng dests) (S calls) c in
    exists m',
      mapRef c' = Some m'
      /\ count isFlowArc (layers m') = List.length dests
      /\ count isMarker (layers m')
         = (count isMarker (layers m) + S calls * List.length dests)%nat
      /\ count isTile (layers m') = count isTile (layers m)
      /\ List.length (intervals c')
         = (List.length (intervals c) + S calls * List.length dests)%nat.
Proof.
  intros inv c m restaurant dests calls Hm Hr Hne Hok.
  destruct dests as [|d0 rest]; [congruence|]. clear Hne.
  set (dests := d0 :: rest) in *.
  revert c m Hm Hr. induction calls as [|calls IH]; intros c m Hm Hr c'.
  - unfold c'. cbn [Animation.ticks].
    pose proof (drawArcs_eq inv c m restaurant d0 rest Hm Hr) as E.
    fold dests in E. rewrite E.
    eexists. split; [reflexivity|]. cbn [layers intervals].
    destruct (collect_layers_counts inv restaurant (Visual.maxVisitors dests)
                dests Hok 0) as (I1 & I2 & I3 & I4).
    rewrite !count_app, length_app, I1, I2, I3, I4, count_kept_arcs.
    rewrite !count_kept_other by (now intros [| |]).
    repeat split; lia.
  - unfold c'. change (Animation.ticks (drawArcs inv dests) (S (S calls)) c)
      with (Animation.ticks (drawArcs inv dests) (S calls) (drawArcs inv dests c)).
    pose proof (drawArcs_eq inv c m restaurant d0 rest Hm Hr) as E. fold dests in E.
    set (c1 := drawArcs inv dests c) in *.
    assert (Hm1 : mapRef c1 = Some
              {| layers := filter (fun l => negb (isFlowArc l)) (layers m)
                           ++ collect (arcLayers inv restaurant (Visual.maxVisitors dests))
                                dests 0;
                 fitted := boundsAfter inv restaurant dests m |})
      by now rewrite E.
    assert (Hr1 : restaurantCoordinates c1 = Some restaurant) by now rewrite E.
    destruct (IH c1 _ Hm1 Hr1) as (m' & Hm' & A & B & C & D).
    exists m'. split; [exact Hm'|]. split; [exact A|].
    destruct (collect_layers_counts inv restaurant (Visual.maxVisitors dests)
                dests Hok 0) as (I1 & I2 & I3 & I4).
    rewrite B, C, D. cbn [layers].
    rewrite !count_app, I2, I3.
    rewrite !count_kept_other by (now intros [| |]).
    assert (Hi : List.length (intervals c1)
                 = (List.length (intervals c) + List.length dests)%nat).
    { rewrite E. cbn [intervals]. now rewrite length_app, I4. }
    rewrite Hi. repeat split; lia.
Qed.

Lemma redraw_replaces_arcs_only_example :
  let dests := [filBistro] in
  let c' := Animation.ticks (drawArcs nanLatLng dests) 3 ready in
  exists m',
    mapRef c' = Some m'
    /\ count isFlowArc (layers m') = 1%nat
    /\ count isMarker (layers m') = 5%nat
    /\ count isTile (layers m') = 1%nat
    /\ List.length (intervals c') = 3%nat.
Proof.
  intros dests c'.
  assert (Hok : forall d, In d dests -> arcThrows nanLatLng restaurant d = false).
  { intros d [<- | []]. vm_compute. reflexivity. }
  exact (redraw_replaces_arcs_only nanLatLng ready liveMap restaurant dests 2
           eq_refl eq_refl ltac:(discriminate) Hok).
Defined.

End RedrawFacts.

(** ** More on binary64 arithmetic *)

Module FloatFacts.
Import JsNumber Rounding.

Local Open Scope R_scope.

Lemma ltb_leb (a b : float) : (a <? b)%float = true -> (a <=? b)%float = true.
Proof.
  rewrite ltb_spec, leb_spec. unfold SFltb, SFleb.
  destruct (SFcompare (Prim2SF a) (Prim2SF b)) as [[| |]|]; congruence.
Qed.

Lemma located_exact (m : Z) (l : location) : located m l (IZR m) -> l = loc_Exact.
Proof. destruct l as [|[| |]]; simpl; intros H; try reflexivity; lra. Qed.

(** A binary64 number written with a longer mantissa rounds to itself. *)
Lemma round_exact (s : bool) (m : positive) (e k : Z) :
  SpecFloat.bounded FloatOps.prec FloatOps.emax m e = true ->
  (0 <= k)%Z ->
  binary_round_aux FloatOps.prec FloatOps.emax s (Z.pos m * 2 ^ k) (e - k) loc_Exact
  = S754_finite s m e.
Proof.
  intros HB Hk. destruct (bounded_spec _ _ HB) as [Hc He].
  assert (Hd : Zdigits2 (Z.pos m * 2 ^ k) = (Zdigits2 (Z.pos m) + k)%Z)
    by (apply Zdigits2_mul_pow; lia).
  assert (Hf : fexp FloatOps.prec FloatOps.emax (Zdigits2 (Z.pos m * 2 ^ k) + (e - k)) = e).
  { rewrite Hd. replace (Zdigits2 (Z.pos m) + k + (e - k))%Z
      with (Zdigits2 (Z.pos m) + e)%Z by lia. exact Hc. }
  assert (Hpos : (0 < 2 ^ k)%Z) by (apply Z.pow_pos_nonneg; lia).
  destruct (shr_fexp_spec (Z.pos m * 2 ^ k) (e - k) loc_Exact
              (F2R (Z.pos m * 2 ^ k) (e - k)))
    as (mrs' & Hs & Hl & Hm).
  - lia.
  - simpl. unfold F2R. rewrite Rmult_assoc, bpow_cancel. ring.
  - change prec with FloatOps.prec. change emax with FloatOps.emax.
    rewrite Hf. lia.
  - change prec with FloatOps.prec in *. change emax with FloatOps.emax in *.
    rewrite Hf in Hs, Hl, Hm.
    replace (e - (e - k))%Z with k in Hm by lia.
    rewrite Z.div_mul in Hm by lia.
    assert (Hv : F2R (Z.pos m * 2 ^ k) (e - k) * bpow (- e) = IZR (Z.pos m)).
    { rewrite F2R_shift by lia. replace (e - k + k)%Z with e by lia.
      unfold F2R. rewrite Rmult_assoc, bpow_cancel. ring. }
    rewrite Hv, Hm in Hl. apply located_exact in Hl.
    unfold binary_round_aux. rewrite Hs, Hm, Hl.
    cbn [round_nearest_even]. unfold shr_fexp. rewrite Hc, Z.sub_diag.
    cbn [shr shr_record_of_loc shr_m].
    now replace (e <=? FloatOps.emax - FloatOps.prec)%Z with true
      by (symmetry; apply Z.leb_le; exact He).
Qed.

Lemma SFmul_one_l (x : spec_float) :
  valid_binary x = true -> SFmul FloatOps.prec FloatOps.emax F1 x = x.
Proof.
  destruct x as [s|s| |s m e]; intros V; try reflexivity.
  unfold F1, SFmul. cbn [xorb].
  replace (Z.pos (4503599627370496 * m)) with (Z.pos m * 2 ^ 52)%Z by lia.
  replace (-52 + e)%Z with (e - 52)%Z by lia.
  apply round_exact; [exact V | lia].
Qed.

(** Multiplying by one changes nothing. *)
Lemma mul_one_l (x : float) : (1 * x)%float = x.
Proof.
  rewrite <- (SF2Prim_Prim2SF (1 * x)%float), mul_spec.
  change (Prim2SF 1) with F1. rewrite SFmul_one_l by apply Prim2SF_valid.
  apply SF2Prim_Prim2SF.
Qed.

(** Two binary64 numbers with the same value are the same number. *)
Lemma canonical_unique (m1 m2 : positive) (e1 e2 : Z) :
  SpecFloat.bounded FloatOps.prec FloatOps.emax m1 e1 = true ->
  SpecFloat.bounded FloatOps.prec FloatOps.emax m2 e2 = true ->
  F2R (Z.pos m1) e1 = F2R (Z.pos m2) e2 ->
  m1 = m2 /\ e1 = e2.
Proof.
  intros B1 B2 H.
  assert (H12 : SFleb (S754_finite false m1 e1) (S754_finite false m2 e2) = true).
  { apply SFleb_of_val; try assumption; [right; eauto | right; eauto |].
    simpl. lra. }
  assert (H21 : SFleb (S754_finite false m2 e2) (S754_finite false m1 e1) = true).
  { apply SFleb_of_val; try assumption; [right; eauto | right; eauto |].
    simpl. lra. }
  unfold SFleb, SFcompare in H12, H21.
  rewrite (Z.compare_antisym e1 e2) in H21.
  destruct (Z.compare_spec e1 e2) as [E|E|E]; simpl in H21; try discriminate.
  subst e2. split; [|reflexivity].
  change (Pos.compare_cont Eq m1 m2) with (Pos.compare m1 m2) in H12.
  change (Pos.compare_cont Eq m2 m1) with (Pos.compare m2 m1) in H21.
  rewrite (Pos.compare_antisym m1 m2) in H21.
  destruct (Pos.compare_spec m1 m2); simpl in H21; try discriminate.
  assumption.
Qed.

Lemma finite_of_positive (x : spec_float) :
  nonneg_finite x -> 0 < SFval x -> exists m e, x = S754_finite false m e.
Proof.
  intros [-> | (m & e & ->)] H; [simpl in H; lra | eauto].
Qed.

(** The value of an integer written as a binary64 mantissa. *)
Lemma F2R_int (z k : Z) : (0 <= k)%Z -> F2R (z * 2 ^ k) (- k) = IZR z.
Proof.
  intros Hk. rewrite F2R_shift by lia. replace (- k + k)%Z with 0%Z by lia.
  unfold F2R. rewrite bpow_0. ring.
Qed.

Lemma F2R_mult (m1 m2 e1 e2 : Z) :
  F2R m1 e1 * F2R m2 e2 = F2R (m1 * m2) (e1 + e2).
Proof. unfold F2R. rewrite mult_IZR, bpow_add. ring. Qed.

Lemma le_bpow971 (z k : Z) :
  (0 <= k)%Z -> (0 < z <= 2 ^ 60)%Z -> F2R (z * 2 ^ k) (- k) <= bpow 971.
Proof.
  intros Hk Hz. rewrite F2R_int by lia.
  apply Rle_trans with (IZR (2 ^ 60)); [apply IZR_le; lia|].
  rewrite <- bpow_IZR by lia. apply bpow_le. lia.
Qed.

(** The visual scale of a destination, as a binary64 number. *)
Lemma normalized_view (visitors maxVis : Z) :
  (1 <= visitors <= maxVis)%Z -> (maxVis <= 9007199254740991)%Z ->
  exists m e,
    Prim2SF (Visual.normalizedValue visitors maxVis) = S754_finite false m e
    /\ F2R 5404319552844595 (-54) <= F2R (Z.pos m) e <= 1.
Proof.
  intros Hv Hmax.
  destruct (VisualFacts.Z2F_exact visitors ltac:(lia)) as (ma & ea & Ea & Va).
  destruct (VisualFacts.Z2F_exact maxVis ltac:(lia)) as (mb & eb & Eb & Vb).
  assert (Hab : F2R (Z.pos ma) ea <= F2R (Z.pos mb) eb).
  { rewrite Va, Vb. apply IZR_le. lia. }
  destruct (scaled_ratio_range ma mb ea eb Hab) as (Nn & Hlo & Hhi).
  assert (En : Prim2SF (Visual.normalizedValue visitors maxVis)
               = SFadd FloatOps.prec FloatOps.emax F03
                   (SFmul FloatOps.prec FloatOps.emax
                      (SFdiv FloatOps.prec FloatOps.emax
                         (S754_finite false ma ea) (S754_finite false mb eb))
                      F07)).
  { unfold Visual.normalizedValue.
    rewrite add_spec, mul_spec, div_spec, Ea, Eb. reflexivity. }
  change prec with FloatOps.prec in *. change emax with FloatOps.emax in *.
  rewrite <- En in Nn, Hlo, Hhi.
  simpl SFval in Hlo at 1. simpl SFval in Hhi at 2. rewrite val_F1 in Hhi.
  destruct (finite_of_positive _ Nn) as (m & e & E).
  - pose proof (F2R_pos 5404319552844595 (-54)). lra.
  - exists m, e. rewrite E in *. simpl in Hlo, Hhi. auto.
Qed.

End FloatFacts.

(** ** The range of the visual attributes *)

Module StyleFacts.
Import JsNumber Rounding FloatFacts.

Local Open Scope R_scope.

(** Comparing two mantissa/exponent pairs after bringing them to the
    smaller exponent. *)
Lemma F2R_le_align (m1 e1 m2 e2 e : Z) :
  (e <= e1)%Z -> (e <= e2)%Z ->
  (m1 * 2 ^ (e1 - e) <= m2 * 2 ^ (e2 - e))%Z ->
  F2R m1 e1 <= F2R m2 e2.
Proof.
  intros H1 H2 H.
  replace (F2R m1 e1) with (F2R (m1 * 2 ^ (e1 - e)) e)
    by (rewrite F2R_shift by lia; f_equal; lia).
  replace (F2R m2 e2) with (F2R (m2 * 2 ^ (e2 - e)) e)
    by (rewrite F2R_shift by lia; f_equal; lia).
  now apply F2R_le.
Qed.

Lemma F2R_scale (m1 e1 k : Z) : F2R m1 e1 * IZR k = F2R (m1 * k) e1.
Proof. unfold F2R. rewrite mult_IZR. ring. Qed.

Lemma F2R_add_int (m1 e1 k : Z) :
  (e1 <= 0)%Z -> IZR k + F2R m1 e1 = F2R (k * 2 ^ (- e1) + m1) e1.
Proof.
  intros He. rewrite <- F2R_plus. f_equal.
  rewrite <- (F2R_int k (- e1)) by lia. f_equal. lia.
Qed.

(** A positive integer divided by itself is exactly one. *)
Lemma div_self (v : Z) : (0 < v < 2 ^ 53)%Z -> (Z2F v / Z2F v)%float = 1%float.
Proof.
  intros Hv. destruct (VisualFacts.Z2F_exact v Hv) as (mv & ev & Ev & Vv).
  pose proof (F2R_pos mv ev) as Hp.
  assert (Hq : F2R (Z.pos mv) ev / F2R (Z.pos mv) ev = 1) by (field; lra).
  destruct (div_bounds mv mv ev ev 4503599627370496 (-52) eq_refl)
    as (Nq & [Q0 Q1] & Qlow);
    [rewrite val_F1; lra | rewrite val_F1; apply one_le_bpow971 |].
  specialize (Qlow 4503599627370496%positive (-52)%Z eq_refl ltac:(rewrite val_F1; lra)).
  rewrite val_F1 in Q1, Qlow.
  assert (Ed : Prim2SF (Z2F v / Z2F v)%float
               = SFdiv FloatOps.prec FloatOps.emax (S754_finite false mv ev)
                   (S754_finite false mv ev))
    by (rewrite div_spec, Ev; reflexivity).
  pose proof (Prim2SF_valid (Z2F v / Z2F v)%float) as V.
  change prec with FloatOps.prec in *. change emax with FloatOps.emax in *.
  destruct (finite_of_positive _ Nq ltac:(lra)) as (m & e & E).
  rewrite Ed, E in V. rewrite E in Q1, Qlow. simpl in Q1, Qlow, V.
  destruct (canonical_unique m 4503599627370496 e (-52) V eq_refl) as [-> ->];
    [rewrite val_F1; lra|].
  rewrite <- (SF2Prim_Prim2SF (Z2F v / Z2F v)%float), Ed, E.
  reflexivity.
Qed.

Section Scaled.

Variables (visitors maxVis : Z).
Hypothesis Hcount : (1 <= visitors <= maxVis)%Z.
Hypothesis Hsafe : (maxVis <= 9007199254740991)%Z.

Lemma weight_range :
  le 2.9 (Visual.weight (Visual.normalizedValue visitors maxVis)) = true
  /\ le (Visual.weight (Visual.normalizedValue visitors maxVis)) 5 = true.
Proof.
  destruct (normalized_view visitors maxVis Hcount Hsafe) as (m & e & En & Hlo & Hhi).
  set (n := Visual.normalizedValue visitors maxVis) in *.
  pose proof (F2R_pos m e) as Hpos.
  assert (V3 : F2R 6755399441055744 (-51) = 3)
    by (change 6755399441055744%Z with (3 * 2 ^ 51)%Z; now rewrite F2R_int by lia).
  assert (V2 : F2R 4503599627370496 (-51) = 2)
    by (change 4503599627370496%Z with (2 * 2 ^ 51)%Z; now rewrite F2R_int by lia).
  assert (V5 : F2R 5629499534213120 (-50) = 5)
    by (change 5629499534213120%Z with (5 * 2 ^ 50)%Z; now rewrite F2R_int by lia).
  assert (H971 : 5 <= bpow 971).
  { rewrite <- V5. change 5629499534213120%Z with (5 * 2 ^ 50)%Z.
    apply le_bpow971; lia. }
  (* the product n * 3 *)
  destruct (mul_bounds m 6755399441055744 e (-51) 6755399441055744 (-51)
              eq_refl eq_refl)
    as (Np & [P0 P1] & Plow); [rewrite V3; nra | rewrite V3; lra |].
  assert (PA : F2R 8106479329266892 (-53) <= F2R (Z.pos m) e * F2R 6755399441055744 (-51)).
  { rewrite V3.
    apply Rle_trans with (F2R 5404319552844595 (-54) * 3); [|nra].
    change 3 with (IZR 3). rewrite F2R_scale.
    apply (F2R_le_align _ _ _ _ (-54)%Z); lia. }
  specialize (Plow 8106479329266892%positive (-53)%Z eq_refl PA).
  rewrite V3 in P1.
  change prec with FloatOps.prec in *. change emax with FloatOps.emax in *.
  pose proof (F2R_pos 8106479329266892 (-53)) as HA.
  destruct (finite_of_positive _ Np ltac:(lra)) as (mp & ep & Ep).
  rewrite Ep in *. simpl SFval in P0, P1, Plow.
  (* the sum 2 + n * 3 *)
  destruct (add_bounds 4503599627370496 mp (-51) ep 5629499534213120 (-50) eq_refl)
    as (Ns & [S0 S1] & Slow); [rewrite V2, V5; lra | rewrite V5; lra |].
  assert (SA : F2R 6530219459687219 (-51)
               <= F2R 4503599627370496 (-51) + F2R (Z.pos mp) ep).
  { apply Rle_trans with (F2R 4503599627370496 (-51) + F2R 8106479329266892 (-53));
      [|lra].
    rewrite V2. change 2 with (IZR 2). rewrite F2R_add_int by lia.
    apply (F2R_le_align _ _ _ _ (-53)%Z); lia. }
  specialize (Slow 6530219459687219%positive (-51)%Z eq_refl SA).
  assert (Ew : Prim2SF (Visual.weight n)
               = SFadd FloatOps.prec FloatOps.emax
                   (S754_finite false 4503599627370496 (-51))
                   (S754_finite false mp ep)).
  { unfold Visual.weight. rewrite add_spec, mul_spec, En.
    change (Prim2SF 2) with (S754_finite false 4503599627370496 (-51)).
    change (Prim2SF 3) with (S754_finite false 6755399441055744 (-51)).
    unfold SF64add, SF64mul. now rewrite Ep. }
  change prec with FloatOps.prec in *. change emax with FloatOps.emax in *.
  rewrite <- Ew in Ns, S0, S1, Slow.
  pose proof (Prim2SF_valid (Visual.weight n)) as Vw.
  unfold le. rewrite !leb_spec. split.
  - apply SFleb_of_val; try assumption; try reflexivity.
    right. exists 6530219459687219%positive, (-51)%Z. reflexivity.
  - apply SFleb_of_val; try assumption; try reflexivity.
    right. exists 5629499534213120%positive, (-50)%Z. reflexivity.
Qed.

(** The scale is 0.3 itself, or at least the next binary64 number. *)
Lemma normalized_cases :
  Visual.normalizedValue visitors maxVis = 0.3%float
  \/ exists m e,
       Prim2SF (Visual.normalizedValue visitors maxVis) = S754_finite false m e
       /\ F2R 5404319552844596 (-54) <= F2R (Z.pos m) e <= 1.
Proof.
  destruct (normalized_view visitors maxVis Hcount Hsafe) as (m & e & En & Hlo & Hhi).
  pose proof (Prim2SF_valid (Visual.normalizedValue visitors maxVis)) as V.
  rewrite En in V. simpl in V.
  destruct (Rle_lt_or_eq_dec _ _ Hlo) as [Hlt | Heq].
  - right. exists m, e. split; [exact En|]. split; [|exact Hhi].
    apply (no_float_between 5404319552844595 (-54) m e); try assumption.
    right. split; [lia | reflexivity].
  - left. destruct (canonical_unique 5404319552844595 m (-54) e eq_refl V Heq)
      as [<- <-].
    rewrite <- (SF2Prim_Prim2SF (Visual.normalizedValue visitors maxVis)), En.
    reflexivity.
Qed.

Lemma radius_range :
  le 6.5 (Visual.radius (Visual.normalizedValue visitors maxVis)) = true
  /\ le (Visual.radius (Visual.normalizedValue visitors maxVis)) 10 = true.
Proof.
  destruct normalized_cases as [-> | (m & e & En & Hlo & Hhi)];
    [split; vm_compute; reflexivity|].
  set (n := Visual.normalizedValue visitors maxVis) in *.
  pose proof (F2R_pos m e) as Hpos.
  assert (V5 : F2R 5629499534213120 (-50) = 5)
    by (change 5629499534213120%Z with (5 * 2 ^ 50)%Z; now rewrite F2R_int by lia).
  assert (V10 : F2R 5629499534213120 (-49) = 10)
    by (change 5629499534213120%Z with (10 * 2 ^ 49)%Z; now rewrite F2R_int by lia).
  assert (H971 : 10 <= bpow 971).
  { rewrite <- V10. change 5629499534213120%Z with (10 * 2 ^ 49)%Z.
    apply le_bpow971; lia. }
  (* the product n * 5 *)
  destruct (mul_bounds m 5629499534213120 e (-50) 5629499534213120 (-50)
              eq_refl eq_refl)
    as (Np & [P0 P1] & Plow); [rewrite V5; nra | rewrite V5; lra |].
  assert (PA : F2R 6755399441055744 (-52) <= F2R (Z.pos m) e * F2R 5629499534213120 (-50)).
  { rewrite V5.
    apply Rle_trans with (F2R 5404319552844596 (-54) * 5); [|nra].
    change 5 with (IZR 5). rewrite F2R_scale.
    apply (F2R_le_align _ _ _ _ (-54)%Z); lia. }
  specialize (Plow 6755399441055744%positive (-52)%Z eq_refl PA).
  rewrite V5 in P1.
  change prec with FloatOps.prec in *. change emax with FloatOps.emax in *.
  pose proof (F2R_pos 6755399441055744 (-52)) as HA.
  destruct (finite_of_positive _ Np ltac:(lra)) as (mp & ep & Ep).
  rewrite Ep in P0, P1, Plow. simpl SFval in P0, P1, Plow.
  (* the sum 5 + n * 5 *)
  destruct (add_bounds 5629499534213120 mp (-50) ep 5629499534213120 (-49) eq_refl)
    as (Ns & [S0 S1] & Slow); [rewrite V5, V10; lra | rewrite V10; lra |].
  assert (SA : F2R 7318349394477056 (-50)
               <= F2R 5629499534213120 (-50) + F2R (Z.pos mp) ep).
  { apply Rle_trans with (F2R 5629499534213120 (-50) + F2R 6755399441055744 (-52));
      [|lra].
    rewrite V5. change 5 with (IZR 5). rewrite F2R_add_int by lia.
    apply (F2R_le_align _ _ _ _ (-52)%Z); lia. }
  specialize (Slow 7318349394477056%positive (-50)%Z eq_refl SA).
  assert (Ew : Prim2SF (Visual.radius n)
               = SFadd FloatOps.prec FloatOps.emax
                   (S754_finite false 5629499534213120 (-50))
                   (S754_finite false mp ep)).
  { unfold Visual.radius. rewrite add_spec, mul_spec, En.
    change (Prim2SF 5) with (S754_finite false 5629499534213120 (-50)).
    unfold SF64add, SF64mul. now rewrite Ep. }
  change prec with FloatOps.prec in *. change emax with FloatOps.emax in *.
  rewrite <- Ew in Ns, S0, S1, Slow.
  pose proof (Prim2SF_valid (Visual.radius n)) as Vw.
  unfold le. rewrite !leb_spec. split.
  - apply SFleb_of_val; try assumption; try reflexivity.
    right. exists 7318349394477056%positive, (-50)%Z. reflexivity.
  - apply SFleb_of_val; try assumption; try reflexivity.
    right. exists 5629499534213120%positive, (-49)%Z. reflexivity.
Qed.

End Scaled.

(** X7.  For visitor counts [1 <= visitors <= maxVis] in JavaScript's exact
    integer range, the attributes [drawArcs] derives from the visual scale
    are binary64 numbers in fixed ranges: the stroke weight [2 + n * 3] lies
    in [2.9, 5], the marker radius [5 + n * 5] and the dash length
    [5 + n * 5] in [6.5, 10].  The destination with the largest count has
    scale 1 exactly, hence weight 5, radius 10 and dash length 10. *)
Theorem arc_attributes_in_range :
  forall visitors maxVis : Z,
    (1 <= visitors <= maxVis)%Z ->
    (maxVis <= 9007199254740991)%Z ->
    let n := Visual.normalizedValue visitors maxVis in
    le 2.9 (Visual.weight n) = true /\ le (Visual.weight n) 5 = true
    /\ le 6.5 (Visual.radius n) = true /\ le (Visual.radius n) 10 = true
    /\ le 6.5 (Visual.dashArray n) = true /\ le (Visual.dashArray n) 10 = true
    /\ (visitors = maxVis ->
        n = 1%float /\ Visual.weight n = 5%float
        /\ Visual.radius n = 10%float /\ Visual.dashArray n = 10%float).
Proof.
  intros visitors maxVis Hcount Hsafe n.
  destruct (weight_range visitors maxVis Hcount Hsafe) as [W1 W2].
  destruct (radius_range visitors maxVis Hcount Hsafe) as [R1 R2].
  repeat (split; [assumption|]).
  intros ->. unfold n, Visual.normalizedValue.
  rewrite (div_self maxVis) by lia.
  repeat split; vm_compute; reflexivity.
Qed.

Lemma arc_attributes_in_range_example :
  (1 <= 179 <= 209)%Z /\ (209 <= 9007199254740991)%Z
  /\ le 2.9 (Visual.weight (Visual.normalizedValue 179 209)) = true
  /\ le (Visual.weight (Visual.normalizedValue 179 209)) 5 = true
  /\ le 6.5 (Visual.radius (Visual.normalizedValue 179 209)) = true
  /\ le (Visual.radius (Visual.normalizedValue 179 209)) 10 = true.
Proof.
  split; [lia|]. split; [lia|].
  destruct (arc_attributes_in_range 179 209 ltac:(lia) ltac:(lia))
    as (H1 & H2 & H3 & H4 & _).
  repeat split; assumption.
Defined.

End StyleFacts.

(** ** The straight-line copy: colours, widths and radii *)

Module LinesFacts.
Import Js JsNumber Rounding FloatFacts.

(** *** NaN *)

Lemma SFeqb_refl (x : spec_float) : x <> S754_nan -> SFeqb x x = true.
Proof.
  destruct x as [s|s| |s m e]; intros H; try reflexivity.
  - now destruct s.
  - congruence.
  - unfold SFeqb, SFcompare. rewrite Z.compare_refl, Pos.compare_cont_refl.
    now destruct s.
Qed.

Lemma isNaN_spec (x : float) : isNaN x = true <-> Prim2SF x = S754_nan.
Proof.
  unfold isNaN, PrimFloat.is_nan. rewrite eqb_spec. split.
  - intros H. destruct (Prim2SF x) as [s|s| |s m e] eqn:E; try reflexivity;
      rewrite SFeqb_refl in H by discriminate; discriminate.
  - now intros ->.
Qed.

Lemma not_NaN_spec (x : float) : isNaN x = false <-> Prim2SF x <> S754_nan.
Proof.
  rewrite <- isNaN_spec. destruct (isNaN x); split; congruence.
Qed.

Lemma ltb_nan_r (a x : float) : isNaN x = true -> (a <? x)%float = false.
Proof.
  intros H. apply isNaN_spec in H. rewrite ltb_spec, H. unfold SFltb, SFcompare.
  now destruct (Prim2SF a).
Qed.

Lemma ltb_nan_l (a x : float) : isNaN x = true -> (x <? a)%float = false.
Proof.
  intros H. apply isNaN_spec in H. now rewrite ltb_spec, H.
Qed.

Lemma leb_refl (x : float) : isNaN x = false -> (x <=? x)%float = true.
Proof.
  intros H. apply not_NaN_spec in H. rewrite leb_spec.
  pose proof (SFeqb_refl _ H) as E. unfold SFeqb in E. unfold SFleb.
  now destruct (SFcompare (Prim2SF x) (Prim2SF x)) as [[| |]|].
Qed.

(** Shifting a non-negative mantissa keeps it non-negative, so rounding
    never invents a NaN. *)
Lemma shr_1_nonneg mrs : (0 <= shr_m mrs)%Z -> (0 <= shr_m (shr_1 mrs))%Z.
Proof.
  destruct mrs as [m r s]. simpl. intros H.
  destruct m as [|[p|p|]|p]; simpl; lia.
Qed.

Lemma iter_shr_nonneg (n : positive) :
  forall mrs, (0 <= shr_m mrs)%Z -> (0 <= shr_m (SpecFloat.iter_pos shr_1 n mrs))%Z.
Proof.
  induction n as [n IH|n IH|]; intros mrs H; simpl.
  - apply IH, IH. now apply shr_1_nonneg.
  - now apply IH, IH.
  - now apply shr_1_nonneg.
Qed.

Lemma shr_fexp_nonneg (m e : Z) (l : location) :
  (0 <= m)%Z -> (0 <= shr_m (fst (shr_fexp FloatOps.prec FloatOps.emax m e l)))%Z.
Proof.
  intros H. unfold shr_fexp, shr.
  destruct (fexp FloatOps.prec FloatOps.emax (Zdigits2 m + e) - e)%Z as [|p|p];
    cbn [fst]; try now rewrite shr_m_of_record.
  apply iter_shr_nonneg. now rewrite shr_m_of_record.
Qed.

Lemma round_nearest_even_nonneg (m : Z) (l : location) :
  (0 <= m)%Z -> (0 <= round_nearest_even m l)%Z.
Proof.
  intros H. destruct l as [|[| |]]; simpl; try lia.
  destruct (Z.even m); lia.
Qed.

Lemma binary_round_aux_not_nan (s : bool) (m e : Z) (l : location) :
  (0 <= m)%Z -> binary_round_aux FloatOps.prec FloatOps.emax s m e l <> S754_nan.
Proof.
  intros H. unfold binary_round_aux.
  pose proof (shr_fexp_nonneg m e l H) as H1.
  destruct (shr_fexp FloatOps.prec FloatOps.emax m e l) as [mrs' e'].
  cbn [fst] in H1.
  pose proof (shr_fexp_nonneg _ e' loc_Exact
                (round_nearest_even_nonneg _ (loc_of_shr_record mrs') H1)) as H2.
  destruct (shr_fexp FloatOps.prec FloatOps.emax _ e' loc_Exact) as [mrs'' e''].
  cbn [fst] in H2.
  destruct (shr_m mrs'') as [|p|p]; try discriminate; [|lia].
  destruct (e'' <=? FloatOps.emax - FloatOps.prec)%Z; discriminate.
Qed.

(** A number that is not NaN, times a positive constant, is not NaN. *)
Lemma mul_not_nan (x k : float) (mk : positive) (ek : Z) :
  Prim2SF k = S754_finite false mk ek ->
  isNaN x = false -> isNaN (x * k) = false.
Proof.
  intros Hk Hx. apply not_NaN_spec in Hx. apply not_NaN_spec.
  rewrite mul_spec, Hk.
  destruct (Prim2SF x) as [s|s| |s m e]; try discriminate; [congruence|].
  apply binary_round_aux_not_nan. lia.
Qed.

Lemma mul_nan (x k : float) : isNaN x = true -> isNaN (x * k) = true.
Proof.
  intros Hx. apply isNaN_spec in Hx. apply isNaN_spec.
  now rewrite mul_spec, Hx.
Qed.

(** *** Clamping *)

Section Clamp.

Variables lo hi : float.
Hypothesis lo_number : isNaN lo = false.
Hypothesis hi_number : isNaN hi = false.
Hypothesis lo_not_zero : PrimFloat.is_zero lo = false.
Hypothesis hi_not_zero : PrimFloat.is_zero hi = false.
Hypothesis lo_le_hi : le lo hi = true.

Lemma clamp_nan (x : float) :
  isNaN x = true -> isNaN (Lines.Math_max lo (Lines.Math_min hi x)) = true.
Proof.
  intros H. unfold Lines.Math_min. rewrite H, orb_true_r.
  unfold Lines.Math_max. now rewrite orb_true_r.
Qed.

Lemma clamp_range (x : float) :
  isNaN x = false ->
  let r := Lines.Math_max lo (Lines.Math_min hi x) in
  le lo r = true /\ le r hi = true /\ (r = lo \/ r = hi \/ r = x).
Proof.
  intros Hx.
  assert (Hmin : exists r1, Lines.Math_min hi x = r1 /\ isNaN r1 = false
                            /\ le r1 hi = true /\ (r1 = hi \/ r1 = x)).
  { unfold Lines.Math_min. rewrite hi_number, Hx, hi_not_zero. cbn [orb andb].
    destruct (hi <? x)%float eqn:E1.
    - exists hi. repeat split; auto. now apply leb_refl.
    - destruct (x <? hi)%float eqn:E2.
      + exists x. repeat split; auto. now apply ltb_leb.
      + exists hi. repeat split; auto. now apply leb_refl. }
  destruct Hmin as (r1 & -> & N1 & L1 & C1).
  unfold Lines.Math_max. rewrite lo_number, N1, lo_not_zero. cbn [orb andb].
  destruct (lo <? r1)%float eqn:E1.
  - split; [now apply ltb_leb|]. split; [exact L1|]. destruct C1; auto.
  - destruct (r1 <? lo)%float eqn:E2; (split; [now apply leb_refl|]);
      (split; [exact lo_le_hi | now left]).
Qed.

End Clamp.

(** X8.  Line width and marker radius of the straight-line copy are
    clamped: whenever the ratio [count / max] is a number, the width lies in
    [2, 6] and the radius in [5, 12], however large or small the ratio is.
    When the ratio is NaN (as for 0 / 0) both are NaN, and the colour is the
    lightest of the four. *)
Theorem line_width_and_radius_clamped :
  forall count max : float,
    (isNaN (count / max) = false ->
     le 2 (Lines.weight count max) = true
     /\ le (Lines.weight count max) 6 = true
     /\ le 5 (Lines.radius count max) = true
     /\ le (Lines.radius count max) 12 = true)
    /\ (isNaN (count / max) = true ->
        isNaN (Lines.weight count max) = true
        /\ isNaN (Lines.radius count max) = true
        /\ Lines.getColor count max = "#60a5fa"%string).
Proof.
  intros count max. split; intros H.
  - assert (H6 : isNaN (count / max * 6) = false)
      by (eapply mul_not_nan; [reflexivity | exact H]).
    assert (H12 : isNaN (count / max * 12) = false)
      by (eapply mul_not_nan; [reflexivity | exact H]).
    destruct (clamp_range 2 6 eq_refl eq_refl eq_refl eq_refl eq_refl _ H6)
      as (A & B & _).
    destruct (clamp_range 5 12 eq_refl eq_refl eq_refl eq_refl eq_refl _ H12)
      as (C & D & _).
    repeat split; assumption.
  - split; [apply clamp_nan, mul_nan, H|].
    split; [apply clamp_nan, mul_nan, H|].
    unfold Lines.getColor, gt. now rewrite !ltb_nan_r.
Qed.

Lemma line_width_and_radius_clamped_example :
  isNaN (1000 / 3) = false
  /\ Lines.weight 1000 3 = 6%float
  /\ le 5 (Lines.radius 1 1000) = true
  /\ isNaN (0 / 0) = true
  /\ isNaN (Lines.weight 0 0) = true.
Proof.
  destruct (line_width_and_radius_clamped 1000 3) as [H1 _].
  destruct (line_width_and_radius_clamped 1 1000) as [H2 _].
  destruct (line_width_and_radius_clamped 0 0) as [_ H3].
  split; [reflexivity|]. split; [reflexivity|].
  split; [apply H2; reflexivity|].
  split; [reflexivity|]. apply H3. reflexivity.
Defined.

(** *** Destinations in rank order *)

Local Open Scope R_scope.

(** The ratio of two counts [1 <= v <= m] is a number, and at most one. *)
Lemma ratio_at_most_one (v m : Z) :
  (1 <= v <= m)%Z -> (m <= 9007199254740991)%Z ->
  isNaN (Z2F v / Z2F m) = false /\ le (Z2F v / Z2F m) 1 = true.
Proof.
  intros Hv Hm.
  destruct (VisualFacts.Z2F_exact v ltac:(lia)) as (ma & ea & Ea & Va).
  destruct (VisualFacts.Z2F_exact m ltac:(lia)) as (mb & eb & Eb & Vb).
  pose proof (F2R_pos ma ea) as Ha. pose proof (F2R_pos mb eb) as Hb.
  assert (Hq : F2R (Z.pos ma) ea / F2R (Z.pos mb) eb <= 1).
  { apply Rmult_le_reg_r with (F2R (Z.pos mb) eb); [assumption|].
    unfold Rdiv. rewrite Rmult_assoc, Rinv_l, Rmult_1_r, Rmult_1_l by lra.
    rewrite Va, Vb. apply IZR_le. lia. }
  destruct (div_bounds ma mb ea eb 4503599627370496 (-52) eq_refl)
    as (Nq & [Q0 Q1] & _);
    [rewrite val_F1; lra | rewrite val_F1; apply one_le_bpow971 |].
  assert (Ed : Prim2SF (Z2F v / Z2F m)%float
               = SFdiv FloatOps.prec FloatOps.emax (S754_finite false ma ea)
                   (S754_finite false mb eb))
    by (rewrite div_spec, Ea, Eb; reflexivity).
  change prec with FloatOps.prec in *. change emax with FloatOps.emax in *.
  rewrite <- Ed in Nq, Q1. split.
  - apply not_NaN_spec. destruct Nq as [-> | (mq & eq & ->)]; discriminate.
  - unfold le. rewrite leb_spec.
    apply SFleb_of_val; try apply Prim2SF_valid; try assumption.
    right. exists 4503599627370496%positive, (-52)%Z. reflexivity.
Qed.

Local Close Scope R_scope.

Lemma first_is_largest (dests : list DestinationPoint) (d : DestinationPoint) :
  StronglySorted SelectFacts.before dests -> In d dests ->
  (visitorCount d <= Lines.maxVisitors dests)%Z.
Proof.
  intros Hs Hin. destruct dests as [|d0 rest]; [contradiction|].
  apply StronglySorted_inv in Hs. destruct Hs as [_ Hall].
  destruct Hin as [<- | Hin]; simpl; [lia|].
  rewrite Forall_forall in Hall. exact (Hall d Hin).
Qed.

(** X9.  The straight-line copy scales by the first destination's count.
    For the destinations selection produced this is the largest count, the
    value the arc copy computes with [Math.max]; so, for counts in the exact
    integer range, every ratio is a number between 0 and 1, every width lies
    in [2, 6] and every radius in [5, 12], and a destination with the
    largest count is drawn 6 wide with radius 12 in the darkest colour. *)
Theorem ranked_lines_scaled_by_first :
  forall (rows : list Ingest.Row) (maxArcs : nat) (d : DestinationPoint),
    In d (Ingest.topDestinations rows maxArcs) ->
    let dests := Ingest.topDestinations rows maxArcs in
    let maxVisitors := Lines.maxVisitors dests in
    (maxVisitors <= 9007199254740991)%Z ->
    let count := Z2F (visitorCount d) in
    maxVisitors = Visual.maxVisitors dests
    /\ (1 <= visitorCount d <= maxVisitors)%Z
    /\ isNaN (count / Z2F maxVisitors) = false
    /\ le (count / Z2F maxVisitors) 1 = true
    /\ le 2 (Lines.weight count (Z2F maxVisitors)) = true
    /\ le (Lines.weight count (Z2F maxVisitors)) 6 = true
    /\ le 5 (Lines.radius count (Z2F maxVisitors)) = true
    /\ le (Lines.radius count (Z2F maxVisitors)) 12 = true
    /\ (visitorCount d = maxVisitors ->
        Lines.getColor count (Z2F maxVisitors) = "#7c3aed"%string
        /\ Lines.weight count (Z2F maxVisitors) = 6%float
        /\ Lines.radius count (Z2F maxVisitors) = 12%float).
Proof.
  intros rows maxArcs d Hin dests maxVisitors Hsafe count.
  assert (Hs : StronglySorted SelectFacts.before dests).
  { apply Sorted_StronglySorted; [exact SelectFacts.before_trans|].
    apply SelectFacts.selectTop_sorted. }
  assert (Hpos : (0 < visitorCount d)%Z).
  { apply PipelineFacts.topDestinations_in, PipelineFacts.validDestinations_in in Hin.
    destruct Hin as (row & _ & Hn).
    apply PipelineFacts.normalize_wellformed in Hn. tauto. }
  pose proof (first_is_largest dests d Hs Hin) as Hle. fold maxVisitors in Hle.
  destruct (ratio_at_most_one (visitorCount d) maxVisitors ltac:(lia) Hsafe)
    as [Hnan Hone].
  split.
  { unfold maxVisitors. destruct dests as [|d0 rest] eqn:E; [reflexivity|].
    symmetry. now apply RenderFacts.maxVisitors_of_ranked. }
  split; [lia|]. split; [exact Hnan|]. split; [exact Hone|].
  assert (H6 : isNaN (count / Z2F maxVisitors * 6) = false)
    by (eapply mul_not_nan; [reflexivity | exact Hnan]).
  assert (H12 : isNaN (count / Z2F maxVisitors * 12) = false)
    by (eapply mul_not_nan; [reflexivity | exact Hnan]).
  destruct (clamp_range 2 6 eq_refl eq_refl eq_refl eq_refl eq_refl _ H6)
    as (A & B & _).
  destruct (clamp_range 5 12 eq_refl eq_refl eq_refl eq_refl eq_refl _ H12)
    as (C & D & _).
  repeat (split; [assumption|]).
  intros E. unfold count, Lines.getColor, Lines.weight, Lines.radius.
  rewrite E, (StyleFacts.div_self maxVisitors) by lia.
  repeat split; vm_compute; reflexivity.
Qed.

Lemma ranked_lines_scaled_by_first_example :
  let d := {| name := JStr "Fil bistro moda"; lat := 40.98144373;
              lng := 29.02312433; visitorCount := 179;
              type := JStr "Unspecified" |} in
  In d (Ingest.topDestinations RenderFacts.threeRows 2)
  /\ Lines.maxVisitors (Ingest.topDestinations RenderFacts.threeRows 2) = 209%Z
  /\ le (Lines.weight (Z2F 179) (Z2F 209)) 6 = true
  /\ le 5 (Lines.radius (Z2F 179) (Z2F 209)) = true.
Proof.
  intros d.
  assert (H : In d (Ingest.topDestinations RenderFacts.threeRows 2))
    by (vm_compute; right; left; reflexivity).
  split; [exact H|]. split; [vm_compute; reflexivity|].
  destruct (ranked_lines_scaled_by_first RenderFacts.threeRows 2 d H)
    as (_ & _ & _ & _ & _ & Hw & Hr & _); [vm_compute; discriminate|].
  split; assumption.
Defined.

(** *** The drawing loop *)

Definition coordinates (d : DestinationPoint) : Point := (lat d, lng d).

(** The test at the top of the loop body. *)
Definition skipped (d : DestinationPoint) : bool :=
  (isNaN (lat d) || isNaN (lng d))%bool.

(** The line and the marker of one destination. *)
Definition lineOf (start : Point) (maxVis : Z) (d : DestinationPoint) : Lines.Layer :=
  Lines.PolylineLayer [start; coordinates d]
    {| Lines.Path.color := Lines.getColor (Z2F (visitorCount d)) (Z2F maxVis);
       Lines.Path.weight := Lines.weight (Z2F (visitorCount d)) (Z2F maxVis);
       Lines.Path.opacity := 0.8 |}.

Definition markerOf (maxVis : Z) (d : DestinationPoint) : Lines.Layer :=
  Lines.CircleMarkerLayer
    {| Leaflet.center := coordinates d;
       Leaflet.radius := Lines.radius (Z2F (visitorCount d)) (Z2F maxVis);
       Leaflet.fillColor := Lines.getColor (Z2F (visitorCount d)) (Z2F maxVis);
       Leaflet.strokeColor := "#ffffff";
       Leaflet.strokeWeight := 2;
       Leaflet.strokeOpacity := 1;
       Leaflet.fillOpacity := 0.8;
       Leaflet.popup :=
         Some {| Leaflet.title := name d;
                 Leaflet.subtitle := oror (type d) (JStr "Unknown");
                 Leaflet.badge := visitorCount d;
                 Leaflet.badgeColor :=
                   Lines.getColor (Z2F (visitorCount d)) (Z2F maxVis) |} |}.

Definition drawn (start : Point) (maxVis : Z) (d : DestinationPoint)
  : list Lines.Layer :=
  if skipped d then [] else [lineOf start maxVis d; markerOf maxVis d].

Definition isError (entry : Lines.ConsoleEntry) : bool :=
  match entry with
  | Lines.Error _ => true
  | _ => false
  end.

Definition isWarn (entry : Lines.ConsoleEntry) : bool :=
  match entry with
  | Lines.Warn _ => true
  | _ => false
  end.

Section Loop.

Variable start : Point.
Variable maxVis : Z.
Hypothesis start_valid : Render.nanLatLng start = false.

Lemma lineIteration_spec (d : DestinationPoint) (st : Lines.Pass) :
  let st' := Lines.lineIteration Render.nanLatLng start maxVis d st in
  Lines.layers st' = Lines.layers st ++ drawn start maxVis d
  /\ Lines.allPoints st'
     = Lines.allPoints st ++ (if skipped d then [] else [coordinates d])
  /\ Lines.fitted st' = Lines.fitted st
  /\ filter isError (Lines.out st') = filter isError (Lines.out st)
  /\ List.length (filter isWarn (Lines.out st'))
     = (List.length (filter isWarn (Lines.out st))
        + (if skipped d then 1 else 0))%nat.
Proof.
  unfold Lines.lineIteration, drawn, skipped.
  destruct (isNaN (lat d) || isNaN (lng d))%bool eqn:E.
  - cbn [Lines.write Lines.layers Lines.allPoints Lines.fitted Lines.out].
    rewrite !filter_app, !length_app, ?app_nil_r. cbn. rewrite ?app_nil_r.
    repeat split; lia.
  - rewrite start_valid. unfold Render.nanLatLng. cbn [fst snd orb]. rewrite E.
    cbn [Lines.write Lines.pushPoint Lines.addTo Lines.layers Lines.allPoints
         Lines.fitted Lines.out].
    rewrite !filter_app, !length_app, <- ?app_assoc. cbn. rewrite ?app_nil_r.
    repeat split; lia.
Qed.

Lemma lineLoop_spec (dests : list DestinationPoint) :
  forall st,
    let st' := fold_left (fun acc dest =>
                 Lines.lineIteration Render.nanLatLng start maxVis dest acc)
                 dests st in
    Lines.layers st' = Lines.layers st ++ flat_map (drawn start maxVis) dests
    /\ Lines.allPoints st'
       = Lines.allPoints st
         ++ List.map coordinates (filter (fun d => negb (skipped d)) dests)
    /\ Lines.fitted st' = Lines.fitted st
    /\ filter isError (Lines.out st') = filter isError (Lines.out st)
    /\ List.length (filter isWarn (Lines.out st'))
       = (List.length (filter isWarn (Lines.out st))
          + List.length (filter skipped dests))%nat.
Proof.
  induction dests as [|d rest IH]; intros st.
  - cbn. rewrite !app_nil_r. repeat split. lia.
  - cbn [fold_left].
    destruct (lineIteration_spec d st) as (A1 & A2 & A3 & A4 & A5).
    destruct (IH (Lines.lineIteration Render.nanLatLng start maxVis d st))
      as (B1 & B2 & B3 & B4 & B5).
    cbv zeta. rewrite B1, B2, B3, B4, B5, A1, A2, A3, A4, A5.
    cbn [flat_map filter]. rewrite <- !app_assoc.
    destruct (skipped d); cbn [negb List.map app List.length];
      repeat split; lia.
Qed.

End Loop.

Lemma valid_points (pts : list DestinationPoint) :
  existsb Render.nanLatLng
    (List.map coordinates (filter (fun d => negb (skipped d)) pts)) = false.
Proof.
  induction pts as [|d rest IH]; [reflexivity|].
  cbn [filter]. destruct (skipped d) eqn:E; cbn [negb]; [exact IH|].
  cbn [List.map existsb]. rewrite IH, orb_false_r. exact E.
Qed.

(** X10.  In the straight-line copy, with a start position that has no NaN
    component, no iteration ever reaches its [catch]: a destination with a
    NaN coordinate is skipped with a warning and leaves nothing behind --
    no layer and no point for the bounds --, and every other destination
    gets exactly one two-point line from the start to its position and one
    marker.  The bounds are fitted to the start and the destinations drawn,
    provided one was drawn. *)
Theorem lines_skip_nan_and_never_fail :
  forall (location : Props.LocationData) (d0 : DestinationPoint)
         (rest : list DestinationPoint) (ls : list Lines.Layer)
         (console : list Lines.ConsoleEntry),
    let start := (toNumber (Props.latitude location),
                  toNumber (Props.longitude location)) in
    let dests := d0 :: rest in
    Render.nanLatLng start = false ->
    let st := Lines.drawLines Render.nanLatLng location dests ls console in
    Lines.layers st = ls ++ flat_map (drawn start (visitorCount d0)) dests
    /\ Lines.allPoints st
       = start :: List.map coordinates (filter (fun d => negb (skipped d)) dests)
    /\ Lines.fitted st
       = (if existsb (fun d => negb (skipped d)) dests
          then Some (Lines.allPoints st) else None)
    /\ filter isError (Lines.out st) = filter isError console
    /\ List.length (filter isWarn (Lines.out st))
       = (List.length (filter isWarn console)
          + List.length (filter skipped dests))%nat.
Proof.
  intros location d0 rest ls console start dests Hstart st.
  unfold st, dests, Lines.drawLines. clear st dests. fold start. cbv iota.
  change (Lines.maxVisitors (d0 :: rest)) with (visitorCount d0).
  set (dests := d0 :: rest).
  set (st0 := Lines.write _ (Lines.write _ _)).
  destruct (lineLoop_spec start (visitorCount d0) Hstart dests st0)
    as (A1 & A2 & A3 & A4 & A5).
  set (st1 := fold_left _ dests st0) in *. cbv zeta in A1, A2, A3, A4, A5.
  assert (E0 : Lines.layers st0 = ls /\ Lines.allPoints st0 = [start]
               /\ Lines.fitted st0 = None
               /\ filter isError (Lines.out st0) = filter isError console
               /\ filter isWarn (Lines.out st0) = filter isWarn console).
  { unfold st0. cbn [Lines.write Lines.layers Lines.allPoints Lines.fitted Lines.out].
    rewrite !filter_app. cbn. rewrite !app_nil_r. repeat split. }
  destruct E0 as (E1 & E2 & E3 & E4 & E5).
  rewrite E1 in A1. rewrite E2 in A2. rewrite E3 in A3. rewrite E4 in A4.
  rewrite E5 in A5.
  set (kept := filter (fun d => negb (skipped d)) dests) in *.
  assert (Hk : existsb (fun d => negb (skipped d)) dests
               = (1 <? List.length (Lines.allPoints st1))%nat).
  { rewrite A2. cbn [app List.length]. rewrite length_map. unfold kept.
    clear. induction dests as [|d l IH]; [reflexivity|].
    cbn [existsb filter]. destruct (negb (skipped d)); [reflexivity|].
    now rewrite IH. }
  unfold Lines.setBounds. rewrite <- Hk.
  destruct (existsb (fun d => negb (skipped d)) dests).
  - cbn [Lines.write Lines.allPoints].
    replace (existsb Render.nanLatLng (Lines.allPoints st1)) with false.
    + cbn [Lines.layers Lines.allPoints Lines.fitted Lines.out Lines.write].
      rewrite !filter_app. cbn [filter isError isWarn]. rewrite !app_nil_r.
      repeat split; assumption.
    + rewrite A2. cbn [app existsb]. rewrite Hstart. symmetry.
      apply valid_points.
  - repeat split; assumption.
Qed.

(** A location, one good destination and one whose latitude is NaN. *)
Lemma lines_skip_nan_and_never_fail_example :
  let location := {| Props.latitude := JNum 40.9869;
                     Props.longitude := JNum 29.0259 |} in
  let lost := {| name := JStr "Lost"; lat := nan; lng := 29.02;
                 visitorCount := 12; type := JNull |} in
  let st := Lines.drawLines Render.nanLatLng location
              [RenderFacts.filBistro; lost] [] [] in
  Render.nanLatLng (40.9869, 29.0259)%float = false
  /\ List.length (Lines.layers st) = 2%nat
  /\ Lines.fitted st = Some [(40.9869, 29.0259)%float; (40.98144373, 29.02312433)%float]
  /\ filter isError (Lines.out st) = []
  /\ List.length (filter isWarn (Lines.out st)) = 1%nat.
Proof.
  intros location lost st.
  assert (H : Render.nanLatLng (40.9869, 29.0259)%float = false) by reflexivity.
  destruct (lines_skip_nan_and_never_fail location RenderFacts.filBistro [lost]
              [] [] H) as (A1 & A2 & A3 & A4 & A5).
  fold st in A1, A2, A3, A4, A5.
  split; [exact H|].
  split; [rewrite A1; reflexivity|].
  split; [rewrite A3, A2; reflexivity|].
  split; [exact A4 | rewrite A5; reflexivity].
Defined.

(** *** Light and dark tiles *)

Definition tilesOf (style : Lines.Style) : string :=
  match style with
  | Lines.light => Lines.lightTiles
  | Lines.dark => Lines.darkTiles
  end.

Definition notTile (layer : Lines.Layer) : bool := negb (Lines.isTileLayer layer).

Definition clicks (styles : list Lines.Style) (s : Lines.StyleControl)
  : Lines.StyleControl :=
  fold_left (fun acc style => Lines.updateMapStyle style acc) styles s.

Lemma filter_tiles_kept (ls : list Lines.Layer) :
  filter Lines.isTileLayer (filter (fun l => negb (Lines.isTileLayer l)) ls) = []
  /\ filter notTile (filter (fun l => negb (Lines.isTileLayer l)) ls)
     = filter notTile ls.
Proof.
  unfold notTile. induction ls as [|l ls [IH1 IH2]]; [split; reflexivity|].
  cbn [filter]. destruct (Lines.isTileLayer l) eqn:E; cbn [negb filter];
    rewrite ?E; cbn [negb]; split; congruence.
Qed.

Lemma updateMapStyle_spec (style : Lines.Style) (s : Lines.StyleControl)
                          (ls : list Lines.Layer) :
  Lines.mapRef s = Some ls ->
  exists ls',
    Lines.mapRef (Lines.updateMapStyle style s) = Some ls'
    /\ filter Lines.isTileLayer ls' = [Lines.TileLayer (tilesOf style)]
    /\ filter notTile ls' = filter notTile ls
    /\ Lines.lightBtn (Lines.updateMapStyle style s)
       = (match style with Lines.light => "bold" | Lines.dark => "normal" end)%string
    /\ Lines.darkBtn (Lines.updateMapStyle style s)
       = (match style with Lines.light => "normal" | Lines.dark => "bold" end)%string.
Proof.
  intros H. unfold Lines.updateMapStyle. rewrite H.
  destruct (filter_tiles_kept ls) as [F1 F2].
  destruct style; eexists; (split; [reflexivity|]);
    rewrite !filter_app, F1, F2; cbn; rewrite app_nil_r; repeat split.
Qed.

(** X11.  Switching the tile style keeps exactly one tile layer on a live
    map.  After any sequence of clicks on the two buttons, the map has the
    tile layer of the last style clicked and no other, its other layers are
    the ones it had, in the same order, and the button of that style is the
    bold one.  Without a map a click changes nothing. *)
Theorem one_tile_layer_after_clicks :
  forall (before : list Lines.Style) (last : Lines.Style)
         (s : Lines.StyleControl),
    (forall ls, Lines.mapRef s = Some ls ->
       exists ls',
         Lines.mapRef (clicks (before ++ [last]) s) = Some ls'
         /\ filter Lines.isTileLayer ls' = [Lines.TileLayer (tilesOf last)]
         /\ filter notTile ls' = filter notTile ls
         /\ Lines.lightBtn (clicks (before ++ [last]) s)
            = (match last with Lines.light => "bold" | Lines.dark => "normal" end)%string
         /\ Lines.darkBtn (clicks (before ++ [last]) s)
            = (match last with Lines.light => "normal" | Lines.dark => "bold" end)%string)
    /\ (Lines.mapRef s = None -> clicks (before ++ [last]) s = s).
Proof.
  induction before as [|style before IH]; intros last s; split.
  - intros ls H. now apply updateMapStyle_spec.
  - intros H. cbn. unfold Lines.updateMapStyle. now rewrite H.
  - intros ls H. cbn [app clicks fold_left].
    destruct (updateMapStyle_spec style s ls H) as (ls1 & H1 & _ & K1 & _).
    destruct (proj1 (IH last (Lines.updateMapStyle style s)) ls1 H1)
      as (ls' & A & B & C & D & E).
    exists ls'. unfold clicks in *. repeat split; try assumption. congruence.
  - intros H. cbn [app clicks fold_left].
    assert (E : Lines.updateMapStyle style s = s)
      by (unfold Lines.updateMapStyle; now rewrite H).
    rewrite E. now apply IH.
Qed.

Lemma one_tile_layer_after_clicks_example :
  let s := {| Lines.mapRef :=
                Some [Lines.TileLayer Lines.lightTiles;
                      Lines.MarkerLayer (40.9869, 29.0259)%float;
                      Lines.CircleLayer (40.9869, 29.0259)%float 300];
              Lines.lightBtn := "bold"; Lines.darkBtn := "normal" |} in
  Lines.mapRef (clicks [Lines.dark; Lines.light; Lines.dark] s)
  = Some [Lines.MarkerLayer (40.9869, 29.0259)%float;
          Lines.CircleLayer (40.9869, 29.0259)%float 300;
          Lines.TileLayer Lines.darkTiles]
  /\ Lines.darkBtn (clicks [Lines.dark; Lines.light; Lines.dark] s) = "bold"%string.
Proof.
  intros s.
  destruct (proj1 (one_tile_layer_after_clicks [Lines.dark; Lines.light]
                     Lines.dark s) _ eq_refl) as (ls' & A & _ & _ & _ & E).
  split; [reflexivity | exact E].
Defined.

End LinesFacts.

(** ** Where the curve starts *)

Module CurveFacts.
Import JsNumber Arc FloatFacts.

Lemma finite_cases (x : float) :
  PrimFloat.is_finite x = true ->
  (exists s, Prim2SF x = S754_zero s) \/ (exists s m e, Prim2SF x = S754_finite s m e).
Proof.
  unfold PrimFloat.is_finite, PrimFloat.is_nan, PrimFloat.is_infinity.
  rewrite !eqb_spec, abs_spec.
  change (Prim2SF infinity) with (S754_infinity false).
  destruct (Prim2SF x) as [s|[|]| |s m e]; simpl; intros H; try discriminate; eauto.
Qed.

(** Zero times a finite number is a zero. *)
Lemma zero_mul_finite (c : float) :
  PrimFloat.is_finite c = true -> exists s, Prim2SF (0 * c) = S754_zero s.
Proof.
  intros H. rewrite mul_spec. change (Prim2SF 0) with (S754_zero false).
  destruct (finite_cases c H) as [(s & ->) | (s & m & e & ->)]; simpl; eauto.
Qed.

(** Adding a zero to a number gives that number, up to the sign of zero. *)
Lemma add_zero_r (x z : float) (s : bool) :
  Prim2SF z = S754_zero s -> isNaN x = false ->
  (exists s', Prim2SF x = S754_zero s' /\ exists s'', Prim2SF (x + z) = S754_zero s'')
  \/ Prim2SF (x + z) = Prim2SF x.
Proof.
  intros Hz Hx. apply LinesFacts.not_NaN_spec in Hx.
  rewrite add_spec, Hz.
  destruct (Prim2SF x) as [sx|sx| |sx m e]; try congruence.
  - left. exists sx. split; [reflexivity|]. destruct sx, s; simpl; eauto.
  - right. reflexivity.
  - right. reflexivity.
Qed.

Lemma start_component (o c d : float) :
  isNaN o = false ->
  PrimFloat.is_finite c = true -> PrimFloat.is_finite d = true ->
  (1 * o + 0 * c + 0 * d =? o)%float = true.
Proof.
  intros Ho Hc Hd.
  destruct (zero_mul_finite c Hc) as (s1 & Z1).
  destruct (zero_mul_finite d Hd) as (s2 & Z2).
  rewrite mul_one_l.
  assert (Hoo : SFeqb (Prim2SF o) (Prim2SF o) = true)
    by (apply LinesFacts.SFeqb_refl; now apply LinesFacts.not_NaN_spec).
  rewrite eqb_spec.
  destruct (add_zero_r o (0 * c) s1 Z1 Ho) as [(s' & Eo & s'' & E1) | E1].
  - assert (N1 : isNaN (o + 0 * c) = false)
      by (apply LinesFacts.not_NaN_spec; rewrite E1; discriminate).
    destruct (add_zero_r (o + 0 * c) (0 * d) s2 Z2 N1) as [(_ & _ & s3 & E2) | E2];
      rewrite E2, ?E1, Eo; reflexivity.
  - assert (N1 : isNaN (o + 0 * c) = false)
      by (apply LinesFacts.not_NaN_spec; rewrite E1;
          now apply LinesFacts.not_NaN_spec).
    destruct (add_zero_r (o + 0 * c) (0 * d) s2 Z2 N1)
      as [(s' & Eo & s3 & E2) | E2].
    + rewrite E2. rewrite E1 in Eo. rewrite Eo. reflexivity.
    + rewrite E2, E1. exact Hoo.
Qed.

(** X12.  Whenever the control point and the destination are finite and the
    origin has no NaN component, the sampled curve begins at the origin: its
    first point compares equal ([===]) to the origin in both coordinates.
    (The loop's first parameter is 0, where the Bezier formula reduces to
    [1 * origin + 0 * control + 0 * destination].) *)
Theorem curve_starts_at_origin :
  forall originPoint controlPt destPoint : Point,
    isNaN (fst originPoint) = false -> isNaN (snd originPoint) = false ->
    PrimFloat.is_finite (fst controlPt) = true ->
    PrimFloat.is_finite (snd controlPt) = true ->
    PrimFloat.is_finite (fst destPoint) = true ->
    PrimFloat.is_finite (snd destPoint) = true ->
    exists first rest,
      curvePoints originPoint controlPt destPoint = first :: rest
      /\ (fst first =? fst originPoint)%float = true
      /\ (snd first =? snd originPoint)%float = true.
Proof.
  intros o c d Ho1 Ho2 Hc1 Hc2 Hd1 Hd2.
  rewrite ArcFacts.curvePoints_samples. unfold ArcFacts.visited.
  cbn [List.map]. eexists. eexists. split; [reflexivity|].
  unfold bezier. cbn [fst snd].
  change (pow2 (1 - 0)) with 1%float.
  change (2 * (1 - 0) * 0)%float with 0%float.
  change (pow2 0) with 0%float.
  split; now apply start_component.
Qed.

Lemma curve_starts_at_origin_example :
  let o := (40.9869, 29.0259)%float in
  let d := (40.98144373, 29.02312433)%float in
  exists first rest,
    curvePoints o (controlPoint o d) d = first :: rest
    /\ (fst first =? 40.9869)%float = true
    /\ (snd first =? 29.0259)%float = true.
Proof.
  intros o d.
  exact (curve_starts_at_origin o (controlPoint o d) d
           eq_refl eq_refl eq_refl eq_refl eq_refl eq_refl).
Defined.

End CurveFacts.

(** ** The dash offset never leaves its period *)

Module DashFacts.
Import JsNumber Rounding FloatFacts Animation.

Local Open Scope R_scope.

Lemma SFltb_of_val (x y : spec_float) :
  valid_binary x = true ->
  valid_binary y = true ->
  nonneg_finite x -> nonneg_finite y ->
  SFval x < SFval y -> SFltb x y = true.
Proof.
  intros Vx Vy [-> | (m1 & e1 & ->)] [-> | (m2 & e2 & ->)] H;
    try reflexivity.
  - simpl in H. lra.
  - exfalso. simpl in H. pose proof (F2R_pos m1 e1). lra.
  - unfold valid_binary in Vx, Vy. simpl in Vx, Vy, H.
    destruct (bounded_spec _ _ Vx) as [C1 _].
    destruct (bounded_spec _ _ Vy) as [C2 _].
    unfold SFltb, SFcompare.
    destruct (Z.compare_spec e1 e2) as [E|E|E]; [subst e2| reflexivity |].
    + assert (Hm : (Z.pos m1 < Z.pos m2)%Z).
      { apply lt_IZR. unfold F2R in H. pose proof (bpow_gt_0 e1). nra. }
      change (Pos.compare_cont Eq m1 m2) with (Pos.compare m1 m2).
      destruct (Pos.compare_spec m1 m2); try reflexivity; lia.
    + exfalso.
      assert (Hd : (Zdigits2 (Z.pos m2) + e2 <= Zdigits2 (Z.pos m1) - 1 + e1)%Z).
      { rewrite fexp_spec in *. lia. }
      pose proof (F2R_lt_bpow (Z.pos m2) e2 ltac:(lia)).
      pose proof (bpow_le_F2R (Z.pos m1) e1 ltac:(lia)).
      pose proof (bpow_le _ _ Hd). lra.
Qed.

(** The order of two positive binary64 numbers is the order of their
    values. *)
Lemma SFleb_val (m1 m2 : positive) (e1 e2 : Z) :
  SpecFloat.bounded FloatOps.prec FloatOps.emax m1 e1 = true ->
  SpecFloat.bounded FloatOps.prec FloatOps.emax m2 e2 = true ->
  SFleb (S754_finite false m1 e1) (S754_finite false m2 e2) = true ->
  F2R (Z.pos m1) e1 <= F2R (Z.pos m2) e2.
Proof.
  intros B1 B2 H.
  destruct (Rle_or_lt (F2R (Z.pos m1) e1) (F2R (Z.pos m2) e2)) as [|Hlt];
    [assumption | exfalso].
  assert (L : SFltb (S754_finite false m2 e2) (S754_finite false m1 e1) = true).
  { apply SFltb_of_val; try assumption; right; eauto. }
  unfold SFleb, SFltb, SFcompare in H, L.
  rewrite (Z.compare_antisym e1 e2) in L.
  destruct (Z.compare e1 e2); simpl in L; try discriminate.
  change (Pos.compare_cont Eq m1 m2) with (Pos.compare m1 m2) in H.
  change (Pos.compare_cont Eq m2 m1) with (Pos.compare m2 m1) in L.
  rewrite (Pos.compare_antisym m1 m2) in L.
  destruct (Pos.compare m1 m2); simpl in L; discriminate.
Qed.

Lemma bounded_mantissa (m : positive) (e : Z) :
  SpecFloat.bounded FloatOps.prec FloatOps.emax m e = true ->
  (Z.pos m < 2 ^ 53)%Z /\ (-1074 <= e <= 971)%Z.
Proof.
  intros B. destruct (bounded_spec _ _ B) as [C He].
  rewrite fexp_spec in C.
  destruct (Zdigits2_bounds (Z.pos m) ltac:(lia)) as [[_ Hd] Hp].
  split; [|lia].
  apply Z.lt_le_trans with (2 ^ Zdigits2 (Z.pos m))%Z; [assumption|].
  apply Z.pow_le_mono_r; lia.
Qed.

(** An integer below 2^53 times a power of two in range is a binary64
    number, and rounding returns it. *)
Lemma binary_round_small (p : positive) (e : Z) :
  (Z.pos p < 2 ^ 53)%Z -> (-1074 <= e <= 971)%Z ->
  exists m' e',
    binary_round FloatOps.prec FloatOps.emax false p e = S754_finite false m' e'
    /\ SpecFloat.bounded FloatOps.prec FloatOps.emax m' e' = true
    /\ F2R (Z.pos m') e' = F2R (Z.pos p) e.
Proof.
  intros Hp He. unfold binary_round.
  change (Z.pos (digits2_pos p)) with (Zdigits2 (Z.pos p)).
  pose proof (Zdigits2_le_of_lt (Z.pos p) 53 ltac:(lia)) as Hd.
  destruct (Zdigits2_bounds (Z.pos p) ltac:(lia)) as [_ Hd0].
  set (e' := fexp FloatOps.prec FloatOps.emax (Zdigits2 (Z.pos p) + e)).
  assert (He' : (e' <= e)%Z /\ (-1074 <= e')%Z
                /\ e' = Z.max (Zdigits2 (Z.pos p) + e - 53) (-1074)).
  { unfold e'. rewrite fexp_spec. lia. }
  destruct He' as (H1 & H2 & H3).
  destruct (shl_align_spec p e e' H1) as [Hm Hs].
  destruct (shl_align p e e') as [mz ez]. cbn [fst snd] in Hm, Hs. subst ez.
  assert (Hdz : Zdigits2 (Z.pos mz) = (Zdigits2 (Z.pos p) + (e - e'))%Z).
  { rewrite Hm. apply Zdigits2_mul_pow; lia. }
  assert (HB : SpecFloat.bounded FloatOps.prec FloatOps.emax mz e' = true).
  { unfold SpecFloat.bounded, canonical_mantissa.
    change (Z.pos (digits2_pos mz)) with (Zdigits2 (Z.pos mz)).
    rewrite Hdz, fexp_spec. apply andb_true_intro. split.
    - apply Z.eqb_eq. lia.
    - apply Z.leb_le. change (FloatOps.emax - FloatOps.prec)%Z with 971%Z. lia. }
  rewrite (round_canonical false mz e' HB).
  exists mz, e'. split; [reflexivity|]. split; [exact HB|].
  rewrite Hm, F2R_shift by lia. f_equal. lia.
Qed.

(** The remainder of two positive binary64 numbers is exact: a binary64
    number below the divisor and not above the dividend. *)
Lemma SFrem_exact (mx my : positive) (ex ey : Z) :
  SpecFloat.bounded FloatOps.prec FloatOps.emax mx ex = true ->
  SpecFloat.bounded FloatOps.prec FloatOps.emax my ey = true ->
  let r := SFrem (S754_finite false mx ex) (S754_finite false my ey) in
  valid_binary r = true /\ nonneg_finite r
  /\ SFval r < F2R (Z.pos my) ey /\ SFval r <= F2R (Z.pos mx) ex.
Proof.
  intros Bx By.
  destruct (bounded_mantissa _ _ Bx) as [Mx Ex].
  destruct (bounded_mantissa _ _ By) as [My Ey].
  unfold SFrem. set (ez := Z.min ex ey).
  destruct (shl_align_spec mx ex ez ltac:(unfold ez; lia)) as [Hx _].
  destruct (shl_align_spec my ey ez ltac:(unfold ez; lia)) as [Hy _].
  set (nx := Z.pos (fst (shl_align mx ex ez))) in *.
  set (ny := Z.pos (fst (shl_align my ey ez))) in *.
  assert (Vx : F2R nx ez = F2R (Z.pos mx) ex)
    by (rewrite Hx, F2R_shift by (unfold ez; lia); f_equal; lia).
  assert (Vy : F2R ny ez = F2R (Z.pos my) ey)
    by (rewrite Hy, F2R_shift by (unfold ez; lia); f_equal; lia).
  pose proof (Z.mod_pos_bound nx ny ltac:(unfold ny; lia)) as [R0 R1].
  assert (R2 : (nx mod ny <= nx)%Z) by (apply Z.mod_le; unfold nx, ny; lia).
  assert (Rsmall : (nx mod ny < 2 ^ 53)%Z).
  { destruct (Z.min_spec ex ey) as [[_ E] | [_ E]]; fold ez in E.
    - assert (nx = Z.pos mx) by (rewrite Hx, E, Z.sub_diag; lia). lia.
    - assert (ny = Z.pos my) by (rewrite Hy, E, Z.sub_diag; lia). lia. }
  cbn [cond_Zopp].
  destruct (nx mod ny)%Z as [|p|p] eqn:Er; try lia.
  - simpl. split; [reflexivity|]. split; [now left|].
    split; [apply F2R_pos | left; apply F2R_pos].
  - cbn [binary_normalize].
    destruct (binary_round_small p ez Rsmall ltac:(unfold ez; lia))
      as (m' & e' & Eb & Bb & Vb).
    change prec with FloatOps.prec. change emax with FloatOps.emax.
    rewrite Eb. simpl. rewrite Vb.
    split; [exact Bb|]. split; [right; eauto|]. split.
    + rewrite <- Vy. unfold F2R. apply Rmult_lt_compat_r; [apply bpow_gt_0|].
      apply IZR_lt. lia.
    + rewrite <- Vx. apply F2R_le. lia.
Qed.

Section Offset.

Variable dash : float.
Hypothesis dash_min : le 5 dash = true.
Hypothesis dash_max : le dash 10 = true.

(** The dash length and the period [dash * 2] as binary64 numbers. *)
Lemma dash_view :
  exists md ed,
    Prim2SF dash = S754_finite false md ed
    /\ 5 <= F2R (Z.pos md) ed <= 10.
Proof.
  assert (V5 : F2R 5629499534213120 (-50) = 5)
    by (change 5629499534213120%Z with (5 * 2 ^ 50)%Z; now rewrite F2R_int by lia).
  assert (V10 : F2R 5629499534213120 (-49) = 10)
    by (change 5629499534213120%Z with (10 * 2 ^ 49)%Z; now rewrite F2R_int by lia).
  pose proof (Prim2SF_valid dash) as V.
  unfold le in dash_min, dash_max. rewrite leb_spec in dash_min, dash_max.
  change (Prim2SF 5) with (S754_finite false 5629499534213120 (-50)) in dash_min.
  change (Prim2SF 10) with (S754_finite false 5629499534213120 (-49)) in dash_max.
  destruct (Prim2SF dash) as [s|[|]| |[|] m e]; try discriminate.
  exists m, e. split; [reflexivity|]. simpl in V.
  rewrite <- V5, <- V10. split; apply SFleb_val; auto.
Qed.

Lemma period_view :
  exists mD eD,
    Prim2SF (dash * 2) = S754_finite false mD eD
    /\ 10 <= F2R (Z.pos mD) eD <= 20.
Proof.
  destruct dash_view as (md & ed & Ed & Hlo & Hhi).
  assert (V2 : F2R 4503599627370496 (-51) = 2)
    by (change 4503599627370496%Z with (2 * 2 ^ 51)%Z; now rewrite F2R_int by lia).
  assert (V10 : F2R 5629499534213120 (-49) = 10)
    by (change 5629499534213120%Z with (10 * 2 ^ 49)%Z; now rewrite F2R_int by lia).
  assert (V20 : F2R 5629499534213120 (-48) = 20)
    by (change 5629499534213120%Z with (20 * 2 ^ 48)%Z; now rewrite F2R_int by lia).
  assert (H971 : 20 <= bpow 971).
  { rewrite <- V20. change 5629499534213120%Z with (20 * 2 ^ 48)%Z.
    apply le_bpow971; lia. }
  destruct (mul_bounds md 4503599627370496 ed (-51) 5629499534213120 (-48)
              eq_refl eq_refl)
    as (Np & [P0 P1] & Plow); [rewrite V2, V20; lra | rewrite V20; lra |].
  specialize (Plow 5629499534213120%positive (-49)%Z eq_refl
                ltac:(rewrite V2, V10; lra)).
  rewrite V10 in Plow. rewrite V20 in P1.
  assert (Ep : Prim2SF (dash * 2)
               = SFmul FloatOps.prec FloatOps.emax (S754_finite false md ed)
                   (S754_finite false 4503599627370496 (-51)))
    by (rewrite mul_spec, Ed; reflexivity).
  change prec with FloatOps.prec in *. change emax with FloatOps.emax in *.
  rewrite <- Ep in Np, P1, Plow.
  destruct (finite_of_positive _ Np ltac:(lra)) as (mD & eD & E).
  exists mD, eD. split; [exact E|]. rewrite E in P1, Plow. simpl in P1, Plow. lra.
Qed.

(** What holds of the offset between two ticks. *)
Definition inPeriod (o : float) : Prop :=
  nonneg_finite (Prim2SF o) /\ SFval (Prim2SF o) < SFval (Prim2SF (dash * 2)).

Lemma offset_in_period (o : float) :
  inPeriod o -> inPeriod (rem (o + 1) (dash * 2)).
Proof.
  intros [No Ho].
  destruct period_view as (mD & eD & ED & Dlo & Dhi).
  rewrite ED in Ho. simpl in Ho.
  pose proof (Prim2SF_valid (dash * 2)) as VD. rewrite ED in VD. simpl in VD.
  assert (V32 : F2R 4503599627370496 (-47) = 32)
    by (change 4503599627370496%Z with (32 * 2 ^ 47)%Z; now rewrite F2R_int by lia).
  assert (H971 : 32 <= bpow 971).
  { rewrite <- V32. change 4503599627370496%Z with (32 * 2 ^ 47)%Z.
    apply le_bpow971; lia. }
  (* the sum o + 1 is a positive binary64 number *)
  assert (Hy : exists my ey, Prim2SF (o + 1) = S754_finite false my ey).
  { rewrite add_spec. change (Prim2SF 1) with F1.
    destruct No as [-> | (m & e & E)]; [unfold F1; simpl; eauto|].
    rewrite E in Ho |- *. simpl in Ho.
    pose proof (F2R_pos m e) as Hpos.
    destruct (add_bounds m 4503599627370496 e (-52) 4503599627370496 (-47) eq_refl)
      as (Ns & _ & Slow); [rewrite val_F1, V32; lra | rewrite V32; lra |].
    specialize (Slow 4503599627370496%positive (-52)%Z eq_refl
                  ltac:(rewrite val_F1; lra)).
    rewrite val_F1 in Slow.
    change prec with FloatOps.prec in *. change emax with FloatOps.emax in *.
    unfold SF64add, F1. apply finite_of_positive; [exact Ns | lra]. }
  destruct Hy as (my & ey & Ey).
  pose proof (Prim2SF_valid (o + 1)) as Vy. rewrite Ey in Vy. simpl in Vy.
  destruct (SFrem_exact my mD ey eD Vy VD) as (Vr & Nr & Rlt & _).
  assert (Er : Prim2SF (rem (o + 1) (dash * 2))
               = SFrem (S754_finite false my ey) (S754_finite false mD eD)).
  { unfold rem. rewrite Ey, ED. apply Prim2SF_SF2Prim. exact Vr. }
  unfold inPeriod. rewrite Er, ED. simpl SFval at 2. split; assumption.
Qed.

Lemma ticks_in_period (t : nat) :
  dashArray (ticks animateArc t (newArcAnimation dash)) = dash
  /\ inPeriod (offset (ticks animateArc t (newArcAnimation dash))).
Proof.
  induction t as [|t [IHd IHo]].
  - split; [reflexivity|]. cbn [ticks newArcAnimation offset].
    destruct period_view as (mD & eD & ED & Dlo & Dhi).
    split; [now left|]. rewrite ED. simpl. lra.
  - rewrite AnimationFacts.ticks_succ.
    set (a := ticks animateArc t (newArcAnimation dash)) in *.
    change (dashArray (animateArc a)) with (dashArray a).
    change (offset (animateArc a)) with (rem (offset a + 1) (dashArray a * 2)).
    split; [exact IHd|]. rewrite IHd. now apply offset_in_period.
Qed.

End Offset.

(** X13.  For every dash length between 5 and 10 -- the lengths
    [5 + normalized * 5] takes -- the animation keeps the offset inside one
    period for ever: after any number of calls of [animateArc] the dash
    length is unchanged, the period [dashArray * 2] lies in [10, 20], and
    the offset is a number with [0 <= offset < dashArray * 2]. *)
Theorem dash_offset_stays_in_period :
  forall (dash : float) (t : nat),
    le 5 dash = true -> le dash 10 = true ->
    let a := ticks animateArc t (newArcAnimation dash) in
    dashArray a = dash
    /\ le 10 (dash * 2) = true /\ le (dash * 2) 20 = true
    /\ isNaN (offset a) = false
    /\ le 0 (offset a) = true
    /\ lt (offset a) (dashArray a * 2) = true.
Proof.
  intros dash t Hmin Hmax a.
  destruct (ticks_in_period dash Hmin Hmax t) as [Hd [No Ho]]. fold a in Hd, No, Ho.
  destruct (period_view dash Hmin Hmax) as (mD & eD & ED & Dlo & Dhi).
  pose proof (Prim2SF_valid (dash * 2)) as VD.
  pose proof (Prim2SF_valid (offset a)) as Vo.
  assert (V10 : F2R 5629499534213120 (-49) = 10)
    by (change 5629499534213120%Z with (10 * 2 ^ 49)%Z; now rewrite F2R_int by lia).
  assert (V20 : F2R 5629499534213120 (-48) = 20)
    by (change 5629499534213120%Z with (20 * 2 ^ 48)%Z; now rewrite F2R_int by lia).
  split; [exact Hd|]. unfold le, lt. rewrite !leb_spec, ltb_spec, Hd.
  assert (ND : nonneg_finite (Prim2SF (dash * 2))) by (right; eauto).
  change (Prim2SF 10) with (S754_finite false 5629499534213120 (-49)).
  change (Prim2SF 20) with (S754_finite false 5629499534213120 (-48)).
  split; [|split; [|split; [|split]]].
  - apply SFleb_of_val; try assumption; [reflexivity | right; eauto |].
    rewrite ED. simpl. rewrite V10. lra.
  - apply SFleb_of_val; try assumption; [reflexivity | right; eauto |].
    rewrite ED. simpl. rewrite V20. lra.
  - apply LinesFacts.not_NaN_spec.
    destruct No as [-> | (m & e & ->)]; discriminate.
  - change (Prim2SF 0) with (S754_zero false).
    destruct No as [-> | (m & e & ->)]; reflexivity.
  - now apply SFltb_of_val.
Qed.

Lemma dash_offset_stays_in_period_example :
  le 5 6.5 = true /\ le 6.5 10 = true
  /\ le 0 (offset (ticks animateArc 1000 (newArcAnimation 6.5))) = true
  /\ lt (offset (ticks animateArc 1000 (newArcAnimation 6.5))) (6.5 * 2) = true.
Proof.
  split; [reflexivity|]. split; [reflexivity|].
  destruct (dash_offset_stays_in_period 6.5 1000 eq_refl eq_refl)
    as (Hd & _ & _ & _ & H0 & H1).
  split; [exact H0|]. rewrite Hd in H1. exact H1.
Defined.

End DashFacts.

(** ** Decimal commas *)

Module CommaFacts.
Import Js Ingest.

Local Open Scope string_scope.

Fixpoint occurs (c : ascii) (s : string) : bool :=
  match s with
  | EmptyString => false
  | String a s' => (Ascii.eqb c a || occurs c s')%bool
  end.

(** A string of decimal digits. *)
Fixpoint isDigits (s : string) : bool :=
  match s with
  | EmptyString => true
  | String a s' =>
      (Nat.leb 48 (nat_of_ascii a) && Nat.leb (nat_of_ascii a) 57
       && isDigits s')%bool
  end.

Lemma substring_all (s : string) : String.substring 0 (String.length s) s = s.
Proof. induction s as [|a s IH]; simpl; [reflexivity | now rewrite IH]. Qed.

Lemma prefix_char (c a : ascii) (s : string) :
  String.prefix (String c "") (String a s) = Ascii.eqb c a.
Proof.
  simpl. destruct (ascii_dec c a) as [->|N].
  - rewrite Ascii.eqb_refl. now destruct s.
  - symmetry. now apply Ascii.eqb_neq.
Qed.

Lemma replace_absent (c : ascii) (rep s : string) :
  occurs c s = false -> replace (String c "") rep s = s.
Proof.
  induction s as [|a s IH]; [reflexivity|].
  cbn [occurs]. intros H. apply orb_false_elim in H. destruct H as [Ha Hs].
  cbn [replace]. rewrite prefix_char, Ha. now rewrite IH.
Qed.

Lemma replace_first (c : ascii) (rep a b : string) :
  occurs c a = false ->
  replace (String c "") rep (a ++ String c b) = a ++ rep ++ b.
Proof.
  induction a as [|x a IH]; intros H.
  - cbn [String.append replace]. rewrite prefix_char, Ascii.eqb_refl.
    cbn [String.length Nat.sub String.substring]. rewrite Nat.sub_0_r.
    now rewrite substring_all.
  - cbn [occurs] in H. apply orb_false_elim in H. destruct H as [Hx Ha].
    cbn [String.append replace]. rewrite prefix_char, Hx. now rewrite IH.
Qed.

Lemma append_assoc (a b c : string) : (a ++ b) ++ c = a ++ (b ++ c).
Proof. induction a as [|x a IH]; simpl; [reflexivity | now rewrite IH]. Qed.

Lemma append_nil_r (a : string) : a ++ "" = a.
Proof. induction a as [|x a IH]; simpl; [reflexivity | now rewrite IH]. Qed.

Lemma occurs_append (c : ascii) (a b : string) :
  occurs c (a ++ b) = (occurs c a || occurs c b)%bool.
Proof.
  induction a as [|x a IH]; [reflexivity|].
  cbn [String.append occurs]. now rewrite IH, orb_assoc.
Qed.

Lemma digits_without (c : ascii) (s : string) :
  (nat_of_ascii c < 48)%nat -> isDigits s = true -> occurs c s = false.
Proof.
  intros Hc. induction s as [|a s IH]; [reflexivity|].
  cbn [isDigits occurs]. intros H.
  apply andb_prop in H. destruct H as [H Hs].
  apply andb_prop in H. destruct H as [H1 H2].
  apply Nat.leb_le in H1. rewrite (IH Hs), orb_false_r.
  apply Ascii.eqb_neq. intros ->. lia.
Qed.

Definition signOf (negative : bool) : string := if negative then "-" else "".

(** The text of a decimal number with the given separator. *)
Definition decimalText (negative : bool) (ip sep fp : string) : string :=
  signOf negative ++ ip ++ sep ++ fp.

(** X15.  A coordinate written with a decimal comma is read as the same
    text with a decimal point: for every optional minus sign and every two
    digit strings, [parseFloat(s.replace(",", ".").replace("'", ""))] of
    [ip,fp] is [parseFloat] of [ip.fp]; a decimal point is left alone, and
    an apostrophe before or after the number is dropped.  Only the first
    comma is turned into a point, so [1,234,5] reads as 1.234. *)
Theorem decimal_comma_reads_as_point :
  forall (negative : bool) (ip fp : string),
    isDigits ip = true -> isDigits fp = true ->
    parseCoordinate (decimalText negative ip "," fp)
    = parseFloat (decimalText negative ip "." fp)
    /\ parseCoordinate (decimalText negative ip "." fp)
       = parseFloat (decimalText negative ip "." fp)
    /\ parseCoordinate ("'" ++ decimalText negative ip "," fp)
       = parseFloat (decimalText negative ip "." fp)
    /\ parseCoordinate (decimalText negative ip "," fp ++ "'")
       = parseFloat (decimalText negative ip "." fp)
    /\ parseCoordinate "1,234,5" = 1.234%float.
Proof.
  intros negative ip fp Hip Hfp.
  assert (Cip : occurs "," ip = false) by (apply digits_without; [apply Nat.ltb_lt; reflexivity | exact Hip]).
  assert (Cfp : occurs "," fp = false) by (apply digits_without; [apply Nat.ltb_lt; reflexivity | exact Hfp]).
  assert (Aip : occurs "'" ip = false) by (apply digits_without; [apply Nat.ltb_lt; reflexivity | exact Hip]).
  assert (Afp : occurs "'" fp = false) by (apply digits_without; [apply Nat.ltb_lt; reflexivity | exact Hfp]).
  assert (Cs : occurs "," (signOf negative ++ ip) = false)
    by (rewrite occurs_append, Cip; now destruct negative).
  assert (As : forall sep, occurs "'" sep = false ->
                           occurs "'" (decimalText negative ip sep fp) = false).
  { intros sep Hsep. unfold decimalText.
    rewrite !occurs_append, Aip, Afp, Hsep. now destruct negative. }
  assert (Ec : replace "," "." (decimalText negative ip "," fp)
               = decimalText negative ip "." fp).
  { unfold decimalText.
    replace (signOf negative ++ ip ++ "," ++ fp)
      with ((signOf negative ++ ip) ++ String "," fp)
      by (now rewrite append_assoc).
    rewrite replace_first by exact Cs. now rewrite append_assoc. }
  assert (Ed : replace "," "." (decimalText negative ip "." fp)
               = decimalText negative ip "." fp).
  { apply replace_absent. unfold decimalText.
    rewrite !occurs_append, Cip, Cfp. now destruct negative. }
  unfold parseCoordinate. split; [|split; [|split; [|split]]].
  - rewrite Ec. now rewrite replace_absent by (apply As; reflexivity).
  - rewrite Ed. now rewrite replace_absent by (apply As; reflexivity).
  - change ("'" ++ decimalText negative ip "," fp)
      with (String "'" (decimalText negative ip "," fp)).
    cbn [replace]. rewrite prefix_char. cbn [Ascii.eqb Bool.eqb]. rewrite Ec.
    cbn [replace]. rewrite prefix_char, Ascii.eqb_refl.
    cbn [String.length Nat.sub String.substring String.append].
    now rewrite Nat.sub_0_r, substring_all.
  - assert (E1 : replace "," "." (decimalText negative ip "," fp ++ "'")
                 = decimalText negative ip "." fp ++ "'").
    { unfold decimalText.
      replace ((signOf negative ++ ip ++ "," ++ fp) ++ "'")
        with ((signOf negative ++ ip) ++ String "," (fp ++ "'"))
        by (now rewrite !append_assoc).
      rewrite replace_first by exact Cs. now rewrite !append_assoc. }
    rewrite E1.
    rewrite (replace_first "'" "" _ "") by (apply As; reflexivity).
    cbn [String.append]. now rewrite append_nil_r.
  - vm_compute. reflexivity.
Qed.

Lemma decimal_comma_reads_as_point_example :
  isDigits "40" = true /\ isDigits "98048011" = true
  /\ parseCoordinate "-40,98048011" = parseFloat "-40.98048011"
  /\ parseCoordinate "'-40,98048011" = parseFloat "-40.98048011".
Proof.
  split; [reflexivity|]. split; [reflexivity|].
  destruct (decimal_comma_reads_as_point true "40" "98048011" eq_refl eq_refl)
    as (H1 & _ & H3 & _).
  split; [exact H1 | exact H3].
Defined.

End CommaFacts.

(** ** Counts as binary64 numbers *)

Module CountFacts.
Import Js JsNumber Rounding FloatFacts.

Local Open Scope R_scope.

Lemma IZR_le_bpow971 (v : Z) : (0 < v < 2 ^ 53)%Z -> IZR v <= bpow 971.
Proof.
  intros Hv. replace (IZR v) with (F2R (v * 2 ^ 0) (- 0)) by (rewrite F2R_int by lia; reflexivity).
  apply le_bpow971; lia.
Qed.

(** Adding two counts is exact below 2^53. *)
Lemma Z2F_add (a b : Z) :
  (0 < a)%Z -> (0 < b)%Z -> (a + b < 2 ^ 53)%Z ->
  (Z2F a + Z2F b)%float = Z2F (a + b).
Proof.
  intros Ha Hb Hab.
  destruct (VisualFacts.Z2F_exact a ltac:(lia)) as (ma & ea & Ea & Va).
  destruct (VisualFacts.Z2F_exact b ltac:(lia)) as (mb & eb & Eb & Vb).
  destruct (VisualFacts.Z2F_exact (a + b) ltac:(lia)) as (mc & ec & Ec & Vc).
  pose proof (Prim2SF_valid (Z2F (a + b))) as Bc. rewrite Ec in Bc. simpl in Bc.
  assert (Hs : F2R (Z.pos ma) ea + F2R (Z.pos mb) eb = F2R (Z.pos mc) ec)
    by (rewrite Va, Vb, Vc, plus_IZR; reflexivity).
  destruct (add_bounds ma mb ea eb mc ec Bc) as (N & [_ Hi] & Lo);
    [lra | rewrite Vc; apply IZR_le_bpow971; lia |].
  specialize (Lo mc ec Bc ltac:(lra)).
  assert (Es : Prim2SF (Z2F a + Z2F b)%float
               = SFadd FloatOps.prec FloatOps.emax (S754_finite false ma ea)
                   (S754_finite false mb eb))
    by (rewrite add_spec, Ea, Eb; reflexivity).
  pose proof (Prim2SF_valid (Z2F a + Z2F b)%float) as V.
  change prec with FloatOps.prec in *. change emax with FloatOps.emax in *.
  pose proof (F2R_pos mc ec) as Hp.
  destruct (finite_of_positive _ N ltac:(lra)) as (m & e & E).
  rewrite Es, E in V. rewrite E in Hi, Lo. simpl in Hi, Lo, V.
  destruct (canonical_unique m mc e ec V Bc) as [-> ->]; [lra|].
  rewrite <- (SF2Prim_Prim2SF (Z2F a + Z2F b)%float), Es, E, <- Ec.
  apply SF2Prim_Prim2SF.
Qed.

(** Rounding with the negative sign never gives a positive number. *)
Lemma binary_round_aux_negative (m e : Z) (l : location) :
  (0 <= m)%Z ->
  SFltb (S754_zero false) (binary_round_aux FloatOps.prec FloatOps.emax true m e l) = false.
Proof.
  intros H. unfold binary_round_aux.
  pose proof (LinesFacts.shr_fexp_nonneg m e l H) as H1.
  destruct (shr_fexp FloatOps.prec FloatOps.emax m e l) as [mrs' e'].
  cbn [fst] in H1.
  pose proof (LinesFacts.shr_fexp_nonneg _ e' loc_Exact
                (LinesFacts.round_nearest_even_nonneg _ (loc_of_shr_record mrs') H1)) as H2.
  destruct (shr_fexp FloatOps.prec FloatOps.emax _ e' loc_Exact) as [mrs'' e''].
  cbn [fst] in H2.
  destruct (shr_m mrs'') as [|p|p]; try reflexivity.
  destruct (e'' <=? FloatOps.emax - FloatOps.prec)%Z; reflexivity.
Qed.

(** The comparator [b - a > 0] on two counts decides [a < b]. *)
Lemma count_compare (a b : Z) :
  (0 < a < 2 ^ 53)%Z -> (0 < b < 2 ^ 53)%Z ->
  (0 <? Z2F b - Z2F a)%float = (a <? b)%Z.
Proof.
  intros Ha Hb.
  destruct (VisualFacts.Z2F_exact a Ha) as (ma & ea & Ea & Va).
  destruct (VisualFacts.Z2F_exact b Hb) as (mb & eb & Eb & Vb).
  pose proof (Prim2SF_valid (Z2F b)) as Bb. rewrite Eb in Bb. simpl in Bb.
  rewrite ltb_spec, sub_spec, Ea, Eb.
  change (Prim2SF 0) with (S754_zero false).
  unfold SF64sub, SFsub.
  set (ez := Z.min eb ea).
  destruct (shl_align_spec mb eb ez ltac:(lia)) as [Zb _].
  destruct (shl_align_spec ma ea ez ltac:(lia)) as [Za _].
  rewrite Zb, Za.
  set (zb := (Z.pos mb * 2 ^ (eb - ez))%Z).
  set (za := (Z.pos ma * 2 ^ (ea - ez))%Z).
  assert (Hzb : F2R zb ez = IZR b).
  { unfold zb. rewrite F2R_shift by lia. replace (ez + (eb - ez))%Z with eb by lia. exact Vb. }
  assert (Hza : F2R za ez = IZR a).
  { unfold za. rewrite F2R_shift by lia. replace (ez + (ea - ez))%Z with ea by lia. exact Va. }
  assert (Hd : F2R (zb - za) ez = IZR (b - a)).
  { unfold F2R in *. rewrite !minus_IZR. lra. }
  pose proof (bpow_gt_0 ez) as Hpow.
  cbn [cond_Zopp].
  destruct (zb - za)%Z as [|p|p] eqn:Ez; unfold binary_normalize.
  - assert (IZR (b - a) = 0) by (rewrite <- Hd; unfold F2R; simpl; lra).
    apply eq_IZR in H. symmetry. apply Z.ltb_ge. lia.
  - assert (Hpos : 0 < IZR (b - a)).
    { rewrite <- Hd. unfold F2R. apply Rmult_lt_0_compat; [apply IZR_lt; lia | exact Hpow]. }
    apply lt_IZR in Hpos.
    destruct (VisualFacts.Z2F_exact (b - a) ltac:(lia)) as (mc & ec & Ec & Vc).
    pose proof (Prim2SF_valid (Z2F (b - a))) as Bc. rewrite Ec in Bc. simpl in Bc.
    destruct (binary_round_bounds p ez mb eb Bb) as (N & _ & Lo);
      [rewrite Hd, Vb; apply IZR_le; lia | rewrite Vb; apply IZR_le_bpow971; lia |].
    specialize (Lo mc ec Bc ltac:(rewrite Hd, Vc; lra)).
    pose proof (F2R_pos mc ec) as Hp.
    change prec with FloatOps.prec in *. change emax with FloatOps.emax in *.
    destruct (finite_of_positive _ N ltac:(lra)) as (m & e & E).
    rewrite E. symmetry. apply Z.ltb_lt. lia.
  - assert (Hneg : IZR (b - a) < 0).
    { rewrite <- Hd. unfold F2R.
      replace (IZR (Z.neg p) * bpow ez) with (- (IZR (Z.pos p) * bpow ez))
        by (change (Z.neg p) with (- Z.pos p)%Z; rewrite opp_IZR; lra).
      pose proof (F2R_pos p ez) as Hp. unfold F2R in Hp. lra. }
    apply lt_IZR in Hneg.
    unfold binary_round.
    destruct (shl_align p ez _) as [mz ez'].
    rewrite binary_round_aux_negative by lia.
    symmetry. apply Z.ltb_ge. lia.
Qed.

(** A count: zero or a positive binary64 number with the integer's value. *)
Lemma Z2F_view (n : Z) :
  (0 <= n < 2 ^ 53)%Z ->
  nonneg_finite (Prim2SF (Z2F n)) /\ SFval (Prim2SF (Z2F n)) = IZR n.
Proof.
  intros H. destruct (Z.eq_dec n 0) as [->|Hn].
  - split; [now left | reflexivity].
  - destruct (VisualFacts.Z2F_exact n ltac:(lia)) as (m & e & E & V).
    rewrite E. split; [right; eauto | exact V].
Qed.

Lemma Z2F_add0 (a b : Z) :
  (0 <= a)%Z -> (0 <= b)%Z -> (a + b < 2 ^ 53)%Z ->
  (Z2F a + Z2F b)%float = Z2F (a + b).
Proof.
  intros Ha Hb Hab.
  destruct (Z.eq_dec a 0) as [->|Na]; [|destruct (Z.eq_dec b 0) as [->|Nb]].
  - rewrite Z.add_0_l. apply Prim2SF_inj. rewrite add_spec.
    change (Prim2SF (Z2F 0)) with (S754_zero false).
    destruct (Z.eq_dec b 0) as [->|Nb]; [reflexivity|].
    destruct (VisualFacts.Z2F_exact b ltac:(lia)) as (m & e & E & _).
    now rewrite E.
  - rewrite Z.add_0_r. apply Prim2SF_inj. rewrite add_spec.
    change (Prim2SF (Z2F 0)) with (S754_zero false).
    destruct (VisualFacts.Z2F_exact a ltac:(lia)) as (m & e & E & _).
    now rewrite E.
  - apply Z2F_add; lia.
Qed.

(** The comparator on counts that may be zero. *)
Lemma count_compare0 (a b : Z) :
  (0 <= a < 2 ^ 53)%Z -> (0 <= b < 2 ^ 53)%Z ->
  (0 <? Z2F b - Z2F a)%float = (a <? b)%Z.
Proof.
  intros Ha Hb.
  destruct (Z.eq_dec a 0) as [->|Na]; [|destruct (Z.eq_dec b 0) as [->|Nb]].
  - rewrite ltb_spec, sub_spec.
    change (Prim2SF (Z2F 0)) with (S754_zero false).
    change (Prim2SF 0) with (S754_zero false).
    destruct (Z.eq_dec b 0) as [->|Nb]; [reflexivity|].
    destruct (VisualFacts.Z2F_exact b ltac:(lia)) as (m & e & E & _).
    rewrite E. symmetry. apply Z.ltb_lt. lia.
  - rewrite ltb_spec, sub_spec.
    change (Prim2SF (Z2F 0)) with (S754_zero false).
    change (Prim2SF 0) with (S754_zero false).
    destruct (VisualFacts.Z2F_exact a ltac:(lia)) as (m & e & E & _).
    rewrite E. symmetry. apply Z.ltb_ge. lia.
  - apply count_compare; lia.
Qed.

(** The order of counts is the order of the integers. *)
Lemma count_leb (a b : Z) :
  (0 <= a < 2 ^ 53)%Z -> (0 <= b < 2 ^ 53)%Z ->
  (Z2F a <=? Z2F b)%float = (a <=? b)%Z.
Proof.
  intros Ha Hb.
  destruct (Z2F_view a Ha) as [Na Va]. destruct (Z2F_view b Hb) as [Nb Vb].
  pose proof (Prim2SF_valid (Z2F a)) as Ba. pose proof (Prim2SF_valid (Z2F b)) as Bb.
  rewrite leb_spec.
  destruct (Z.leb_spec a b) as [H|H].
  - apply SFleb_of_val; try assumption. rewrite Va, Vb. now apply IZR_le.
  - assert (L : SFltb (Prim2SF (Z2F b)) (Prim2SF (Z2F a)) = true).
    { apply DashFacts.SFltb_of_val; try assumption. rewrite Va, Vb. now apply IZR_lt. }
    unfold SFltb in L. unfold SFleb.
    destruct Na as [Ea | (ma & ea & Ea)]; destruct Nb as [Eb | (mb & eb & Eb)];
      rewrite Ea, Eb in *; try reflexivity; try discriminate.
    unfold SFcompare in *.
    rewrite (Z.compare_antisym ea eb) in L.
    destruct (Z.compare ea eb); simpl in L |- *; try discriminate; try reflexivity.
    change (Pos.compare_cont Eq ma mb) with (Pos.compare ma mb).
    change (Pos.compare_cont Eq mb ma) with (Pos.compare mb ma) in L.
    rewrite (Pos.compare_antisym ma mb) in L.
    destruct (Pos.compare ma mb); simpl in L |- *; try discriminate; reflexivity.
Qed.

Lemma Z2F_inj (a b : Z) :
  (0 <= a < 2 ^ 53)%Z -> (0 <= b < 2 ^ 53)%Z -> Z2F a = Z2F b -> a = b.
Proof.
  intros Ha Hb E. destruct (Z2F_view a Ha) as [_ Va]. destruct (Z2F_view b Hb) as [_ Vb].
  rewrite E, Vb in Va. now apply eq_IZR.
Qed.

Lemma count_positive (n : Z) :
  (0 <= n < 2 ^ 53)%Z -> (0 <? Z2F n)%float = (0 <? n)%Z.
Proof.
  intros H. destruct (Z.eq_dec n 0) as [->|Hn]; [reflexivity|].
  destruct (VisualFacts.Z2F_exact n ltac:(lia)) as (m & e & E & _).
  rewrite ltb_spec, E. symmetry. apply Z.ltb_lt. lia.
Qed.

Lemma count_finite (n : Z) :
  (0 <= n < 2 ^ 53)%Z -> PrimFloat.is_finite (Z2F n) = true.
Proof.
  intros H. destruct (Z2F_view n H) as [N _].
  unfold PrimFloat.is_finite, PrimFloat.is_nan, PrimFloat.is_infinity.
  rewrite !eqb_spec, abs_spec.
  change (Prim2SF infinity) with (S754_infinity false).
  destruct N as [E | (m & e & E)]; rewrite E; [reflexivity|].
  simpl. unfold SFeqb, SFcompare. rewrite Z.compare_refl, Pos.compare_cont_refl.
  reflexivity.
Qed.

(** Adding a finite number to a number never gives NaN. *)
Lemma add_finite_not_nan (a y : float) :
  isNaN a = false -> PrimFloat.is_finite y = true -> isNaN (a + y) = false.
Proof.
  intros Ha Hy. apply LinesFacts.not_NaN_spec in Ha. apply LinesFacts.not_NaN_spec.
  rewrite add_spec. unfold SF64add.
  destruct (CurveFacts.finite_cases y Hy) as [[s E] | (s & m & e & E)]; rewrite E;
    destruct (Prim2SF a) as [sa|sa| |sa ma ea]; try discriminate; try congruence.
  - simpl. destruct sa, s; discriminate.
  - unfold SFadd, binary_normalize.
    destruct (cond_Zopp sa _ + cond_Zopp s _)%Z as [|p|p]; [discriminate | |];
      unfold binary_round;
      destruct (shl_align p _ _) as [mz ez];
      apply LinesFacts.binary_round_aux_not_nan; lia.
Qed.

(** Starting from either zero gives the same sum, unless the other number
    is the negative zero. *)
Lemma zero_add (z y : float) (s : bool) :
  Prim2SF z = S754_zero s -> Prim2SF y <> S754_zero true ->
  (z + y)%float = (0 + y)%float.
Proof.
  intros Hz Hy. apply Prim2SF_inj. rewrite !add_spec, Hz.
  change (Prim2SF 0) with (S754_zero false).
  destruct (Prim2SF y) as [sy|sy| |sy my ey]; try reflexivity.
  destruct sy; [congruence|]. now destruct s.
Qed.

End CountFacts.

(** ** The dashboard's dictionaries *)

Module ObjectFacts.
Import Js JsObject.

Lemma getOwn_setOwn_same (k : string) (v : JsVal) (o : Obj) :
  getOwn k (setOwn k v o) = Some v.
Proof.
  induction o as [|[k' v'] o IH]; simpl.
  - now rewrite String.eqb_refl.
  - destruct (String.eqb k' k) eqn:E; simpl; rewrite E; [reflexivity | exact IH].
Qed.

Lemma getOwn_setOwn_other (k k' : string) (v : JsVal) (o : Obj) :
  k <> k' -> getOwn k (setOwn k' v o) = getOwn k o.
Proof.
  intros H. induction o as [|[k0 v0] o IH]; simpl.
  - destruct (String.eqb_spec k' k); [congruence | reflexivity].
  - destruct (String.eqb_spec k0 k'); simpl.
    + subst k0. destruct (String.eqb_spec k' k); [congruence | reflexivity].
    + destruct (String.eqb_spec k0 k); [reflexivity | exact IH].
Qed.

Lemma getOwn_in (k : string) (o : Obj) :
  In k (List.map fst o) <-> getOwn k o <> None.
Proof.
  induction o as [|[k0 v0] o IH]; simpl.
  - split; [intros [] | congruence].
  - destruct (String.eqb_spec k0 k).
    + split; [discriminate | now left].
    + rewrite <- IH. split; [intros [|]; [congruence | assumption] | now right].
Qed.

Lemma setOwn_keys (k : string) (v : JsVal) (o : Obj) :
  List.map fst (setOwn k v o)
  = if existsb (String.eqb k) (List.map fst o) then List.map fst o
    else List.map fst o ++ [k].
Proof.
  induction o as [|[k0 v0] o IH]; simpl; [reflexivity|].
  rewrite (String.eqb_sym k k0).
  destruct (String.eqb k0 k); simpl; [reflexivity|].
  rewrite IH. now destruct (existsb (String.eqb k) (List.map fst o)).
Qed.

Lemma existsb_eqb (k : string) (l : list string) :
  existsb (String.eqb k) l = true <-> In k l.
Proof.
  rewrite existsb_exists. split.
  - intros (x & Hx & E). apply String.eqb_eq in E. now subst.
  - intros H. exists k. split; [assumption | apply String.eqb_refl].
Qed.

Lemma setOwn_in (k k' : string) (v : JsVal) (o : Obj) :
  In k (List.map fst (setOwn k' v o)) <-> In k (List.map fst o) \/ k = k'.
Proof.
  rewrite setOwn_keys.
  destruct (existsb (String.eqb k') (List.map fst o)) eqn:E.
  - apply existsb_eqb in E. split; [now left | intros [|]; [assumption | now subst]].
  - rewrite in_app_iff. simpl. split; intros [|]; auto.
    + destruct H as [|[]]; auto.
Qed.

Lemma setOwn_NoDup (k : string) (v : JsVal) (o : Obj) :
  NoDup (List.map fst o) -> NoDup (List.map fst (setOwn k v o)).
Proof.
  intros H. rewrite setOwn_keys.
  destruct (existsb (String.eqb k) (List.map fst o)) eqn:E; [assumption|].
  apply NoDup_app; [assumption | repeat constructor; intros [] | ].
  intros x Hx [<-|[]].
  apply existsb_eqb in Hx. congruence.
Qed.

(** [Object.keys] lists every own key once. *)

Definition isIndex (k : string) : bool :=
  match arrayIndex k with Some _ => true | None => false end.

Lemma insertIndex_perm (e : Z * string) (l : list (Z * string)) :
  Permutation (insertIndex e l) (e :: l).
Proof.
  induction l as [|x l IH]; simpl; [reflexivity|].
  destruct (fst e <? fst x)%Z; [reflexivity|].
  rewrite IH. apply perm_swap.
Qed.

Lemma indexKeys_perm (o : Obj) :
  Permutation (List.map snd (indexKeys o)) (filter isIndex (List.map fst o)).
Proof.
  induction o as [|[k v] o IH]; simpl; [reflexivity|].
  unfold isIndex at 1. destruct (arrayIndex k) as [i|]; [|exact IH].
  rewrite (Permutation_map snd (insertIndex_perm (i, k) (indexKeys o))).
  simpl. now constructor.
Qed.

Lemma otherKeys_filter (o : Obj) :
  otherKeys o = filter (fun k => negb (isIndex k)) (List.map fst o).
Proof.
  induction o as [|[k v] o IH]; simpl; [reflexivity|].
  unfold isIndex at 1. destruct (arrayIndex k); simpl; now rewrite IH.
Qed.

Lemma partition_perm {A : Type} (f : A -> bool) (l : list A) :
  Permutation (filter f l ++ filter (fun x => negb (f x)) l) l.
Proof.
  induction l as [|x l IH]; simpl; [reflexivity|].
  destruct (f x); simpl.
  - now constructor.
  - rewrite <- Permutation_middle. now constructor.
Qed.

Lemma keys_perm (o : Obj) : Permutation (keys o) (List.map fst o).
Proof.
  unfold keys. rewrite indexKeys_perm, otherKeys_filter. apply partition_perm.
Qed.

(** The array-index keys come out in ascending order of the index. *)

Lemma insertIndex_sorted (e : Z * string) (l : list (Z * string)) :
  StronglySorted (fun a b => (fst a <= fst b)%Z) l ->
  StronglySorted (fun a b => (fst a <= fst b)%Z) (insertIndex e l).
Proof.
  induction l as [|x l IH]; intros S; simpl; [repeat constructor|].
  apply StronglySorted_inv in S. destruct S as [S F].
  destruct (Z.ltb_spec (fst e) (fst x)) as [H|H].
  - constructor; [now constructor|]. constructor; [lia|].
    rewrite Forall_forall in *. intros y Hy. specialize (F y Hy). lia.
  - constructor; [now apply IH|].
    rewrite Forall_forall in *. intros y Hy.
    apply (Permutation_in _ (insertIndex_perm e l)) in Hy.
    destruct Hy as [<-|Hy]; [assumption | now apply F].
Qed.

Lemma indexKeys_sorted (o : Obj) :
  StronglySorted (fun a b => (fst a <= fst b)%Z) (indexKeys o).
Proof.
  induction o as [|[k v] o IH]; simpl; [constructor|].
  destruct (arrayIndex k); [now apply insertIndex_sorted | assumption].
Qed.

Lemma indexKeys_index (o : Obj) (e : Z * string) :
  In e (indexKeys o) -> arrayIndex (snd e) = Some (fst e).
Proof.
  induction o as [|[k v] o IH]; simpl; [contradiction|].
  destruct (arrayIndex k) as [i|] eqn:E; [|assumption].
  intros H. apply (Permutation_in _ (insertIndex_perm (i, k) _)) in H.
  destruct H as [<-|H]; [exact E | now apply IH].
Qed.

End ObjectFacts.

(** ** The dashboard's comparators *)

Module SortFacts.
Import JsNumber Dashboard.

Section Sorting.

Context {A : Type}.
Variable compareFn : A -> A -> float.

Lemma insertBy_perm (a : A) (l : list A) :
  Permutation (insertBy compareFn a l) (a :: l).
Proof.
  induction l as [|b l IH]; simpl; [reflexivity|].
  destruct (gt (compareFn a b) 0); [|reflexivity].
  rewrite IH. apply perm_swap.
Qed.

Lemma sortBy_perm (l : list A) : Permutation (sortBy compareFn l) l.
Proof.
  induction l as [|a l IH]; simpl; [reflexivity|].
  change (fold_right (insertBy compareFn) [] l) with (sortBy compareFn l).
  rewrite insertBy_perm. now constructor.
Qed.

(** [before a b]: [a] may stand before [b]. *)
Variable before : A -> A -> Prop.

Lemma insertBy_sorted (a : A) (l : list A) :
  (forall x y z, before x y -> before y z -> before x z) ->
  (forall b, In b l -> gt (compareFn a b) 0 = true -> before b a) ->
  (forall b, In b l -> gt (compareFn a b) 0 = false -> before a b) ->
  StronglySorted before l ->
  StronglySorted before (insertBy compareFn a l).
Proof.
  intros Tr Hgt Hle. induction l as [|b l IH]; intros S; simpl.
  - repeat constructor.
  - apply StronglySorted_inv in S. destruct S as [S F].
    destruct (gt (compareFn a b) 0) eqn:E.
    + constructor.
      * apply IH; [intros; apply Hgt | intros; apply Hle | ]; simpl; auto.
      * rewrite Forall_forall in *. intros x Hx.
        apply (Permutation_in _ (insertBy_perm a l)) in Hx.
        destruct Hx as [<-|Hx]; [apply Hgt; simpl; auto | now apply F].
    + constructor; [constructor; assumption|].
      assert (Hab : before a b) by (apply Hle; simpl; auto).
      constructor; [assumption|].
      rewrite Forall_forall in *. intros x Hx. apply Tr with b; auto.
Qed.

Lemma sortBy_sorted (l : list A) :
  (forall x y z, before x y -> before y z -> before x z) ->
  (forall a b, In a l -> In b l -> gt (compareFn a b) 0 = true -> before b a) ->
  (forall a b, In a l -> In b l -> gt (compareFn a b) 0 = false -> before a b) ->
  StronglySorted before (sortBy compareFn l).
Proof.
  intros Tr Hgt Hle. induction l as [|a l IH]; simpl; [constructor|].
  change (fold_right (insertBy compareFn) [] l) with (sortBy compareFn l).
  apply insertBy_sorted; [exact Tr | | | ].
  - intros b Hb. apply (Permutation_in _ (sortBy_perm l)) in Hb.
    apply Hgt; simpl; auto.
  - intros b Hb. apply (Permutation_in _ (sortBy_perm l)) in Hb.
    apply Hle; simpl; auto.
  - apply IH; intros; [apply Hgt | apply Hle]; simpl; auto.
Qed.

Lemma sorted_app (l1 l2 : list A) (a b : A) :
  StronglySorted before (l1 ++ l2) -> In a l1 -> In b l2 -> before a b.
Proof.
  induction l1 as [|x l1 IH]; simpl; [contradiction|].
  intros Hs [<- | Ha] Hb; apply StronglySorted_inv in Hs; destruct Hs as [Hs Hx].
  - rewrite Forall_forall in Hx. apply (Hx b). apply in_or_app. now right.
  - now apply IH.
Qed.

Lemma sorted_weaken (weaker : A -> A -> Prop) (l : list A) :
  (forall a b, before a b -> weaker a b) ->
  StronglySorted before l -> StronglySorted weaker l.
Proof.
  intros H. induction 1 as [|a l S IH F]; constructor; [assumption|].
  rewrite Forall_forall in *. auto.
Qed.

End Sorting.

End SortFacts.

(** ** The dashboard's charts *)

Module DashboardFacts.
Import Js JsNumber JsOps JsObject Dashboard ObjectFacts SortFacts CountFacts.

Local Open Scope string_scope.
Local Open Scope list_scope.

(** [n] times the digit 1. *)
Fixpoint ones (n : nat) : string :=
  match n with
  | O => EmptyString
  | S n' => (ones n' ++ "1")%string
  end.

(** The name of a function every object inherits. *)
Definition isMethod (k : string) : bool :=
  existsb (String.eqb k) prototypeFunctions.

Lemma append_nonempty (a b : string) :
  b <> EmptyString -> (a ++ b)%string <> EmptyString.
Proof. destruct a; simpl; [auto | discriminate]. Qed.

Lemma ones_nonempty (s : string) (n : nat) :
  String.eqb (s ++ ones (S n))%string EmptyString = false.
Proof.
  apply String.eqb_neq. apply append_nonempty. simpl.
  apply append_nonempty. discriminate.
Qed.

Lemma count_truthy (n : Z) : (0 < n < 2 ^ 53)%Z -> truthy (JNum (Z2F n)) = true.
Proof.
  intros H. destruct (VisualFacts.Z2F_exact n H) as (m & e & E & _).
  unfold truthy, PrimFloat.is_zero, PrimFloat.is_nan.
  rewrite !eqb_spec, E.
  rewrite (LinesFacts.SFeqb_refl (S754_finite false m e)) by discriminate.
  reflexivity.
Qed.

Lemma indicator_sum (x : string) (ks : list string) :
  NoDup ks ->
  list_sum (List.map (fun k => if String.eqb x k then 1 else 0)%nat ks)
  = if existsb (String.eqb x) ks then 1%nat else 0%nat.
Proof.
  induction 1 as [|k ks Hk Hn IH]; simpl; [reflexivity|].
  rewrite IH. destruct (String.eqb_spec x k) as [->|]; simpl; [|reflexivity].
  destruct (existsb (String.eqb k) ks) eqn:E; [|reflexivity].
  apply existsb_eqb in E. contradiction.
Qed.

Lemma list_sum_add {A : Type} (f g : A -> nat) (l : list A) :
  list_sum (List.map (fun x => f x + g x)%nat l)
  = (list_sum (List.map f l) + list_sum (List.map g l))%nat.
Proof. induction l as [|x l IH]; simpl; [reflexivity | rewrite IH; lia]. Qed.

Section Counting.

Variable functionText : string -> string.
Variable column : CustomerData -> JsVal.

Definition keyOf (row : CustomerData) : string := toString (column row).

(** The rows whose cell in the column converts to the key [k]. *)
Definition rowsOf (k : string) (data : list CustomerData) : list CustomerData :=
  filter (fun row => String.eqb (keyOf row) k) data.

Lemma rowsOf_snoc (k : string) (l : list CustomerData) (row : CustomerData) :
  rowsOf k (l ++ [row])
  = rowsOf k l ++ (if String.eqb (keyOf row) k then [row] else []).
Proof.
  unfold rowsOf. rewrite filter_app. simpl.
  now destruct (String.eqb (keyOf row) k).
Qed.

Lemma rowsOf_nonempty (k : string) (data : list CustomerData) :
  rowsOf k data <> [] <-> exists row, In row data /\ keyOf row = k.
Proof.
  unfold rowsOf. split.
  - destruct (filter _ data) as [|row rest] eqn:E; [congruence|]. intros _.
    assert (H : In row (filter (fun row => String.eqb (keyOf row) k) data))
      by (rewrite E; now left).
    apply filter_In in H. destruct H as [H1 H2]. apply String.eqb_eq in H2. eauto.
  - intros (row & Hin & Hk) E.
    assert (H : In row (filter (fun row => String.eqb (keyOf row) k) data))
      by (apply filter_In; split; [assumption | now apply String.eqb_eq]).
    rewrite E in H. destruct H.
Qed.

Lemma countBy_snoc (l : list CustomerData) (row : CustomerData) :
  countBy functionText column (l ++ [row])
  = countRow functionText (column row) (countBy functionText column l).
Proof. unfold countBy. now rewrite fold_left_app. Qed.

(** What the counting loop leaves under a key. *)
Definition counted (k : string) (n : nat) : JsVal :=
  if isMethod k then JStr (functionText k ++ ones n)%string
  else JNum (Z2F (Z.of_nat n)).

Lemma first_count (k : string) (o : Obj) :
  k <> "__proto__" -> getOwn k o = None ->
  addValue functionText (orZero (get k o)) (JNum 1) = counted k 1.
Proof.
  intros Hp Ho. unfold get, counted, isMethod. rewrite Ho.
  destruct (String.eqb_spec k "__proto__"); [contradiction|].
  destruct (existsb (String.eqb k) prototypeFunctions); reflexivity.
Qed.

Lemma next_count (k : string) (o : Obj) (n : nat) :
  (Z.of_nat (S (S n)) < 2 ^ 53)%Z ->
  getOwn k o = Some (counted k (S n)) ->
  addValue functionText (orZero (get k o)) (JNum 1) = counted k (S (S n)).
Proof.
  intros Hn Ho. unfold get, counted in *. rewrite Ho.
  destruct (isMethod k).
  - unfold orZero, truthyValue, truthy. rewrite ones_nonempty.
    cbn [negb addValue add isText orb toString]. change (numberToString 1) with "1".
    f_equal. cbn [ones]. now rewrite !CommaFacts.append_assoc.
  - unfold orZero, truthyValue. rewrite count_truthy by lia.
    cbn [addValue add isText orb toNumber]. f_equal.
    change 1%float with (Z2F 1). rewrite Z2F_add by lia. f_equal. lia.
Qed.

Lemma countBy_spec (data : list CustomerData) :
  (Z.of_nat (List.length data) < 2 ^ 53)%Z ->
  let o := countBy functionText column data in
  NoDup (List.map fst o)
  /\ (forall k, In k (List.map fst o) <-> k <> "__proto__" /\ rowsOf k data <> [])
  /\ (forall k, k <> "__proto__" -> rowsOf k data <> [] ->
                getOwn k o = Some (counted k (List.length (rowsOf k data)))).
Proof.
  induction data as [|row l IH] using rev_ind; intros Hlen o.
  - subst o. simpl. split; [constructor|]. split.
    + intros k. split; [intros [] | intros [_ H]; now apply H].
    + intros k _ H. now contradiction H.
  - rewrite length_app in Hlen. simpl in Hlen.
    destruct (IH ltac:(lia)) as (Nd & Dom & Val). clear IH.
    subst o. rewrite countBy_snoc.
    set (o := countBy functionText column l) in *.
    unfold countRow. fold (keyOf row). set (k0 := keyOf row).
    set (v := addValue functionText (orZero (get k0 o)) (JNum 1)).
    assert (Hle : forall k, (List.length (rowsOf k l) <= List.length l)%nat)
      by (intros k; apply filter_length_le).
    unfold assign. destruct (String.eqb_spec k0 "__proto__") as [Ep|Np].
    + assert (Er : forall k, k <> "__proto__" -> rowsOf k (l ++ [row]) = rowsOf k l).
      { intros k Hk. rewrite rowsOf_snoc. fold k0.
        destruct (String.eqb_spec k0 k); [congruence | apply app_nil_r]. }
      split; [assumption|]. split.
      * intros k. rewrite Dom. split; intros [H1 H2]; (split; [assumption|]).
        -- now rewrite Er.
        -- now rewrite <- Er.
      * intros k Hk Hr. rewrite Er in * by assumption. now apply Val.
    + split; [now apply setOwn_NoDup|]. split.
      * intros k. rewrite setOwn_in, Dom, rowsOf_snoc. fold k0.
        destruct (String.eqb_spec k0 k) as [<-|Hne].
        -- split; [intros _ | now right].
           split; [assumption|]. intros H. apply app_eq_nil in H. destruct H; discriminate.
        -- rewrite app_nil_r. split; [intros [|]; [assumption | congruence] | now left].
      * intros k Hk Hr. rewrite rowsOf_snoc in *. fold k0 in Hr |- *.
        destruct (String.eqb_spec k0 k) as [<-|Hne].
        -- rewrite getOwn_setOwn_same. f_equal. rewrite length_app. simpl.
           rewrite Nat.add_1_r. subst v.
           destruct (rowsOf k0 l) as [|r rs] eqn:Er.
           ++ apply first_count; [assumption|].
              destruct (getOwn k0 o) eqn:Eg; [|reflexivity].
              assert (In k0 (List.map fst o)) by (apply getOwn_in; congruence).
              apply Dom in H. destruct H as [_ H]. now contradiction H.
           ++ specialize (Hle k0). rewrite Er in Hle. simpl in Hle. simpl List.length.
              apply next_count; [lia|].
              rewrite (Val k0 Np) by (rewrite Er; discriminate).
              now rewrite Er.
        -- rewrite app_nil_r in *. rewrite getOwn_setOwn_other by congruence.
           now apply Val.
Qed.

(** The chart made from the counts. *)
Lemma chart_names (o : Obj) (total : float) :
  List.map name (distributionChart o total) = keys o.
Proof.
  unfold distributionChart. rewrite map_map. simpl. apply map_id.
Qed.

Lemma chart_entry (o : Obj) (total : float) (item : DistributionItem) :
  In item (distributionChart o total) ->
  In (name item) (List.map fst o) /\ value item = ownValue (name item) o.
Proof.
  unfold distributionChart. intros H. apply in_map_iff in H.
  destruct H as (k & <- & Hk). simpl. split; [|reflexivity].
  now apply (Permutation_in _ (keys_perm o)).
Qed.

Lemma counts_add_up (ks : list string) (data : list CustomerData) :
  NoDup ks ->
  ~ In "__proto__" ks ->
  (forall row, In row data -> keyOf row <> "__proto__" -> In (keyOf row) ks) ->
  list_sum (List.map (fun k => List.length (rowsOf k data)) ks)
  = List.length (filter (fun row => negb (String.eqb (keyOf row) "__proto__")) data).
Proof.
  intros Nd Hp. induction data as [|row data IH]; intros Hall.
  - simpl. clear. induction ks; simpl; auto.
  - assert (E : forall k, List.length (rowsOf k (row :: data))
                          = ((if String.eqb (keyOf row) k then 1 else 0)
                             + List.length (rowsOf k data))%nat).
    { intros k. unfold rowsOf. simpl. now destruct (String.eqb (keyOf row) k). }
    rewrite (map_ext _ _ E), list_sum_add, indicator_sum by assumption.
    rewrite IH by (intros r Hr; apply Hall; now right).
    simpl filter. destruct (String.eqb_spec (keyOf row) "__proto__") as [Ep|Np]; simpl.
    + destruct (existsb (String.eqb (keyOf row)) ks) eqn:Ex; [|reflexivity].
      apply existsb_eqb in Ex. rewrite Ep in Ex. contradiction.
    + destruct (existsb (String.eqb (keyOf row)) ks) eqn:Ex; [reflexivity|].
      assert (In (keyOf row) ks) by (apply Hall; [now left | assumption]).
      apply existsb_eqb in H. congruence.
Qed.

(** The chart of a column before it is sorted. *)
Definition countsChart (data : list CustomerData) : list DistributionItem :=
  distributionChart (countBy functionText column data) (lengthOf data).

Lemma countsChart_spec (data : list CustomerData) :
  (Z.of_nat (List.length data) <= 4294967295)%Z ->
  let chart := countsChart data in
  NoDup (List.map name chart)
  /\ (forall k, In k (List.map name chart)
                <-> k <> "__proto__" /\ exists row, In row data /\ keyOf row = k)
  /\ (forall item, In item chart ->
        rowsOf (name item) data <> []
        /\ value item = counted (name item) (List.length (rowsOf (name item) data)))
  /\ list_sum (List.map (fun item => List.length (rowsOf (name item) data)) chart)
     = List.length (filter (fun row => negb (String.eqb (keyOf row) "__proto__")) data).
Proof.
  intros Hlen chart.
  assert (Hb : (Z.of_nat (List.length data) < 2 ^ 53)%Z).
  { change (2 ^ 53)%Z with 9007199254740992%Z. lia. }
  destruct (countBy_spec data Hb) as (Nd & Dom & Val).
  subst chart. unfold countsChart.
  set (o := countBy functionText column data) in *.
  set (chart := distributionChart o (lengthOf data)).
  assert (En : List.map name chart = keys o) by apply chart_names.
  assert (Nk : NoDup (keys o))
    by (apply (Permutation_NoDup (Permutation_sym (keys_perm o))); assumption).
  assert (Ik : forall k, In k (keys o) <-> In k (List.map fst o)).
  { intros k. split; apply Permutation_in;
      [apply keys_perm | apply Permutation_sym, keys_perm]. }
  split; [now rewrite En|]. split.
  - intros k. rewrite En, Ik, Dom, rowsOf_nonempty. reflexivity.
  - split.
    + intros item Hi. apply chart_entry in Hi. destruct Hi as [Hin Hv].
      apply Dom in Hin. destruct Hin as [Hp Hr]. split; [assumption|].
      rewrite Hv. unfold ownValue. now rewrite (Val _ Hp Hr).
    + rewrite <- (map_map name (fun k => List.length (rowsOf k data))), En.
      apply counts_add_up; [assumption | |].
      * intros H. apply Ik, Dom in H. now destruct H.
      * intros row Hr Hp. apply Ik, Dom. split; [assumption|].
        apply rowsOf_nonempty. eauto.
Qed.

End Counting.

(** Four rows: two sales channels, three customer types and segments. *)
Definition sampleRow (code : float) (channel type segment place : string)
                     (visitors : JsVal) : CustomerData :=
  {| MusteriKodu := JNum code;
     MusteriBolge3 := JStr "ISTANBUL ANADOLU";
     MusteriBolge4 := JStr "KADIKOY";
     SatisKanali := JStr channel;
     MusteriTabelaAdi := JStr place;
     MusteriCesidi := JStr type;
     MapProfileScore := JStr "7,5";
     MapPopulationScore := JStr "6";
     Mapin_Segment := JStr segment;
     place_name := JStr place;
     visitor_count := visitors |}.

Definition sampleRows : list CustomerData :=
  [ sampleRow 1 "On-Trade" "Modern Pub & Bistro" "A" "Fil bistro moda" (JNum 179);
    sampleRow 2 "Off-Trade" "Market" "B" "Moda market" (JNum 12);
    sampleRow 3 "On-Trade" "Modern Pub & Bistro" "A" "Aksam Kadikoy" (JNum 209);
    sampleRow 4 "On-Trade" "Cafe" "C" "Moda sahil cafe" JNull ].

Definition nativeText (fn : string) : string :=
  ("function " ++ fn ++ "() { [native code] }")%string.

(** X16.  The sales-channel chart has one entry per channel text that
    occurs in the rows, except that rows whose channel reads [__proto__]
    leave no entry.  The value of an entry is the exact number of rows with
    that channel -- unless the channel is the name of a method every object
    inherits (such as [toString]), where the value is the text of that
    function followed by one digit 1 per row.  The rows of the entries
    add up to the rows whose channel is not [__proto__]. *)
Theorem channel_counts :
  forall (functionText : string -> string) (data : list CustomerData),
    (Z.of_nat (List.length data) <= 4294967295)%Z ->
    let chart := processChannelDistribution functionText data in
    let rows := fun k => rowsOf SatisKanali k data in
    NoDup (List.map name chart)
    /\ (forall k, In k (List.map name chart)
                  <-> k <> "__proto__"
                      /\ exists row, In row data /\ toString (SatisKanali row) = k)
    /\ (forall item, In item chart ->
          rows (name item) <> []
          /\ value item
             = if isMethod (name item)
               then JStr (functionText (name item)
                          ++ ones (List.length (rows (name item))))%string
               else JNum (Z2F (Z.of_nat (List.length (rows (name item))))))
    /\ list_sum (List.map (fun item => List.length (rows (name item))) chart)
       = List.length
           (filter (fun row => negb (String.eqb (toString (SatisKanali row)) "__proto__"))
                   data).
Proof.
  intros functionText data Hlen chart rows.
  exact (countsChart_spec functionText SatisKanali data Hlen).
Qed.

Lemma channel_counts_example :
  List.map (fun item => (name item, value item))
           (processChannelDistribution nativeText sampleRows)
  = [("On-Trade", JNum 3); ("Off-Trade", JNum 1)]
  /\ list_sum (List.map (fun item => List.length (rowsOf SatisKanali (name item) sampleRows))
                        (processChannelDistribution nativeText sampleRows))
     = 4%nat.
Proof.
  split; [vm_compute; reflexivity|].
  destruct (channel_counts nativeText sampleRows) as (_ & _ & _ & H);
    [vm_compute; discriminate|].
  exact H.
Defined.

(** After [.sort((a, b) => b.value - a.value)]. *)
Definition ranked (column : CustomerData -> JsVal) (functionText : string -> string)
                  (data : list CustomerData) (chart : list DistributionItem) : Prop :=
  Permutation chart (countsChart functionText column data)
  /\ (forall item, In item chart ->
        value item = JNum (Z2F (Z.of_nat (List.length (rowsOf column (name item) data)))))
  /\ StronglySorted
       (fun a b => (List.length (rowsOf column (name b) data)
                    <= List.length (rowsOf column (name a) data))%nat)
       chart.

Lemma sorted_chart_ranked (column : CustomerData -> JsVal)
                          (functionText : string -> string)
                          (data : list CustomerData) :
  (Z.of_nat (List.length data) <= 4294967295)%Z ->
  (forall row, In row data -> isMethod (toString (column row)) = false) ->
  ranked column functionText data
         (sortBy byValue (countsChart functionText column data)).
Proof.
  intros Hlen Hm.
  destruct (countsChart_spec functionText column data Hlen) as (_ & Dom & Val & _).
  set (chart := countsChart functionText column data) in *.
  assert (Hv : forall item, In item chart ->
                 let n := Z.of_nat (List.length (rowsOf column (name item) data)) in
                 value item = JNum (Z2F n) /\ (0 < n < 2 ^ 53)%Z).
  { intros item Hi n. destruct (Val item Hi) as [Hr Hval].
    assert (Hk : In (name item) (List.map name chart)) by now apply in_map.
    apply Dom in Hk. destruct Hk as (_ & row & Hrow & Ek).
    unfold counted in Hval. unfold keyOf in Ek.
    rewrite <- Ek, (Hm row Hrow), Ek in Hval. split; [exact Hval|].
    subst n. pose proof (filter_length_le (fun row => String.eqb (keyOf column row) (name item)) data) as Hle.
    fold (rowsOf column (name item) data) in Hle.
    change (2 ^ 53)%Z with 9007199254740992%Z.
    destruct (rowsOf column (name item) data); [congruence | simpl List.length in *; lia]. }
  assert (Hc : forall a b, In a chart -> In b chart ->
                 gt (byValue a b) 0
                 = (Z.of_nat (List.length (rowsOf column (name a) data))
                    <? Z.of_nat (List.length (rowsOf column (name b) data)))%Z).
  { intros a b Ha Hb. destruct (Hv a Ha) as [Ea Ra]. destruct (Hv b Hb) as [Eb Rb].
    unfold byValue, sub, gt. rewrite Ea, Eb. cbn [toNumber].
    now apply count_compare. }
  split; [apply sortBy_perm|]. split.
  - intros item Hi. apply (Permutation_in _ (sortBy_perm byValue chart)) in Hi.
    now apply Hv.
  - apply sortBy_sorted.
    + intros x y z; lia.
    + intros a b Ha Hb H. rewrite Hc in H by assumption. apply Z.ltb_lt in H. lia.
    + intros a b Ha Hb H. rewrite Hc in H by assumption. apply Z.ltb_ge in H. lia.
Qed.

(** X17.  When no customer type (no segment) is the name of an inherited
    method, the customer-type chart (the segment chart) has the entries the
    counting loop gives, each with the exact number of its rows as value,
    and is in descending order of that number. *)
Theorem sorted_charts_rank_by_count :
  forall (functionText : string -> string) (data : list CustomerData),
    (Z.of_nat (List.length data) <= 4294967295)%Z ->
    (forall row, In row data -> isMethod (toString (MusteriCesidi row)) = false) ->
    (forall row, In row data -> isMethod (toString (Mapin_Segment row)) = false) ->
    ranked MusteriCesidi functionText data
           (processCustomerTypeDistribution functionText data)
    /\ ranked Mapin_Segment functionText data
              (processSegmentDistribution functionText data).
Proof.
  intros functionText data Hlen Ht Hs.
  split; now apply sorted_chart_ranked.
Qed.

Lemma sorted_charts_rank_by_count_example :
  List.map (fun item => (name item, value item, percent item))
           (processCustomerTypeDistribution nativeText sampleRows)
  = [("Modern Pub & Bistro", JNum 2, 50%float); ("Market", JNum 1, 25%float);
     ("Cafe", JNum 1, 25%float)]
  /\ ranked MusteriCesidi nativeText sampleRows
            (processCustomerTypeDistribution nativeText sampleRows)
  /\ ranked Mapin_Segment nativeText sampleRows
            (processSegmentDistribution nativeText sampleRows).
Proof.
  split; [vm_compute; reflexivity|].
  apply (sorted_charts_rank_by_count nativeText sampleRows).
  - vm_compute; discriminate.
  - intros row Hr. repeat (destruct Hr as [<-|Hr]; [reflexivity|]). destruct Hr.
  - intros row Hr. repeat (destruct Hr as [<-|Hr]; [reflexivity|]). destruct Hr.
Defined.

(** *** Visitor totals *)

(** A visitor count that makes [+] append instead of add: a non-empty text,
    or a [Date] (a cell that reads as an ISO date-time). *)
Definition textCount (v : JsVal) : bool :=
  match v with
  | JStr s => negb (String.eqb s EmptyString)
  | JDate _ _ => true
  | _ => false
  end.

(** The texts of a list one after the other. *)
Fixpoint joined (l : list string) : string :=
  match l with
  | [] => EmptyString
  | s :: l' => (s ++ joined l')%string
  end.

(** The reducer of [totalVisitors] from any start value. *)
Definition sumFrom (start : JsVal) (rows : list CustomerData) : JsVal :=
  fold_left (fun sum row => add sum (visitorsOf row)) rows start.

Lemma sumFrom_snoc (start : JsVal) (rows : list CustomerData) (row : CustomerData) :
  sumFrom start (rows ++ [row]) = add (sumFrom start rows) (visitorsOf row).
Proof. unfold sumFrom. now rewrite fold_left_app. Qed.

Lemma add_isText (a b : JsVal) :
  isText (add a b) = (isText a || isText b)%bool.
Proof. unfold add. now destruct (isText a || isText b)%bool. Qed.

Lemma add_text (t : string) (b : JsVal) :
  add (JStr t) b = JStr (t ++ toString b).
Proof. reflexivity. Qed.

Lemma add_number (x : float) (b : JsVal) :
  isText b = false -> add (JNum x) b = JNum (x + toNumber b).
Proof. intros H. unfold add. cbn [isText orb]. now rewrite H. Qed.

Lemma add_to_number (x : float) (b : JsVal) :
  isText b = true -> add (JNum x) b = JStr (numberToString x ++ toString b).
Proof. intros H. unfold add. cbn [isText orb]. now rewrite H. Qed.

(** [row.visitor_count || 0] is a text or a [Date] exactly for a non-empty
    text and for a [Date]. *)
Lemma visitorsOf_text (row : CustomerData) :
  isText (visitorsOf row) = textCount (visitor_count row).
Proof.
  unfold visitorsOf, oror.
  destruct (visitor_count row) as [| |b|x|t|t x]; try reflexivity.
  - now destruct (truthy (JBool b)).
  - now destruct (truthy (JNum x)).
  - cbn [truthy textCount]. now destruct (negb (String.eqb t EmptyString)).
Qed.

Lemma visitorsOf_textCount (row : CustomerData) :
  textCount (visitor_count row) = true -> visitorsOf row = visitor_count row.
Proof.
  unfold visitorsOf, oror.
  destruct (visitor_count row) as [| |b|x|t|t x]; try discriminate.
  - cbn [truthy textCount]. now intros ->.
  - reflexivity.
Qed.

Lemma sumFrom_text (t : string) (rows : list CustomerData) :
  sumFrom (JStr t) rows
  = JStr (t ++ joined (List.map (fun row => toString (visitorsOf row)) rows)).
Proof.
  revert t. induction rows as [|row rows IH]; intros t; simpl.
  - now rewrite CommaFacts.append_nil_r.
  - change (sumFrom (add (JStr t) (visitorsOf row)) rows
            = JStr (t ++ (toString (visitorsOf row) ++ joined
                      (List.map (fun row => toString (visitorsOf row)) rows)))).
    rewrite add_text, IH. now rewrite CommaFacts.append_assoc.
Qed.

Lemma sumFrom_number (x0 : float) (rows : list CustomerData) :
  (forall row, In row rows -> textCount (visitor_count row) = false) ->
  exists x, sumFrom (JNum x0) rows = JNum x.
Proof.
  induction rows as [|row rows IH] using rev_ind; intros Hr; [now exists x0|].
  destruct IH as [x Hx]; [intros r Hin; apply Hr, in_or_app; now left|].
  rewrite sumFrom_snoc, Hx.
  assert (H : isText (visitorsOf row) = false)
    by (rewrite visitorsOf_text; apply Hr, in_or_app; right; now left).
  rewrite (add_number x _ H). eexists; reflexivity.
Qed.

Lemma totalVisitors_app (l r : list CustomerData) :
  totalVisitors (l ++ r) = sumFrom (totalVisitors l) r.
Proof. unfold totalVisitors, sumFrom. apply fold_left_app. Qed.

Lemma sumFrom_cons (start : JsVal) (row : CustomerData) (rows : list CustomerData) :
  sumFrom start (row :: rows) = sumFrom (add start (visitorsOf row)) rows.
Proof. reflexivity. Qed.

(** X18.  [totalVisitors] adds numbers only up to the first row whose
    visitor count is a non-empty text or a [Date]: from that row on it
    appends.  The result is then a text -- the number summed so far,
    followed by the text of that count and the texts of all remaining
    visitor counts, a missing count reading 0. *)
Theorem total_appends_after_first_text :
  forall (before after : list CustomerData) (row : CustomerData),
    (forall r, In r before -> textCount (visitor_count r) = false) ->
    textCount (visitor_count row) = true ->
    exists x,
      totalVisitors before = JNum x
      /\ totalVisitors (before ++ row :: after)
         = JStr (numberToString x ++ toString (visitor_count row)
                 ++ joined (List.map (fun r => toString (visitorsOf r)) after)).
Proof.
  intros before after row Hb Hrow.
  destruct (sumFrom_number 0 before Hb) as [x Hx].
  change (sumFrom (JNum 0) before) with (totalVisitors before) in Hx.
  exists x. split; [exact Hx|].
  rewrite totalVisitors_app, Hx, sumFrom_cons.
  rewrite add_to_number by (now rewrite visitorsOf_text).
  rewrite (visitorsOf_textCount row Hrow).
  rewrite sumFrom_text. now rewrite CommaFacts.append_assoc.
Qed.

Lemma total_appends_after_first_text_example :
  let rows := [ sampleRow 1 "On-Trade" "Cafe" "A" "a" (JNum 5);
                sampleRow 2 "On-Trade" "Cafe" "A" "b" (JNum 3);
                sampleRow 3 "On-Trade" "Cafe" "A" "c"
                  (JDate "Tue Jan 02 2024 13:00:00 GMT+0300 (GMT+03:00)"
                         1704189600000);
                sampleRow 4 "On-Trade" "Cafe" "A" "d" JNull;
                sampleRow 5 "On-Trade" "Cafe" "A" "e" (JStr "4");
                sampleRow 6 "On-Trade" "Cafe" "A" "f" (JNum 10) ] in
  totalVisitors rows
  = JStr "8Tue Jan 02 2024 13:00:00 GMT+0300 (GMT+03:00)0410"
  /\ exists x, totalVisitors (firstn 2 rows) = JNum x
               /\ totalVisitors rows
                  = JStr (numberToString x
                          ++ "Tue Jan 02 2024 13:00:00 GMT+0300 (GMT+03:00)"
                          ++ joined (List.map (fun r => toString (visitorsOf r))
                                              (skipn 3 rows))).
Proof.
  intros rows. split; [vm_compute; reflexivity|].
  apply (total_appends_after_first_text
           (firstn 2 rows) (skipn 3 rows)
           (sampleRow 3 "On-Trade" "Cafe" "A" "c"
              (JDate "Tue Jan 02 2024 13:00:00 GMT+0300 (GMT+03:00)"
                     1704189600000))).
  - intros r Hr. repeat (destruct Hr as [<-|Hr]; [reflexivity|]). destruct Hr.
  - reflexivity.
Defined.

(** *** Visitors by customer type and by region *)

(** A running total that the loop's test [!o[key]] treats like the reducer
    does: a number that is not NaN, or a non-empty text. *)
Definition runningTotal (v : JsVal) : Prop :=
  match v with
  | JNum x => isNaN x = false
  | JStr s => s <> EmptyString
  | _ => False
  end.

(** What [row.visitor_count || 0] can be when numeric cells are finite. *)
Definition countValue (v : JsVal) : Prop :=
  (truthy v = true \/ v = JNum 0)
  /\ forall y, v = JNum y -> PrimFloat.is_finite y = true.

Lemma visitorsOf_countValue (row : CustomerData) :
  (forall y, visitorsOf row = JNum y -> PrimFloat.is_finite y = true) ->
  countValue (visitorsOf row).
Proof.
  intros H. split; [|exact H]. unfold visitorsOf, oror.
  destruct (truthy (visitor_count row)) eqn:E; [now left | now right].
Qed.

Lemma append_nonempty_l (a b : string) :
  a <> EmptyString -> (a ++ b)%string <> EmptyString.
Proof. destruct a; simpl; [congruence | discriminate]. Qed.

Lemma decimalString_nonempty (z : Z) : decimalString z <> EmptyString.
Proof.
  unfold decimalString.
  destruct (N.to_uint (Z.to_N z)); simpl; discriminate.
Qed.

Lemma formatDigits_nonempty (ds : string) (n : Z) :
  ds <> EmptyString -> formatDigits ds n <> EmptyString.
Proof.
  intros H. unfold formatDigits.
  destruct ((Z.of_nat (String.length ds) <=? n) && (n <=? 21))%Z%bool;
    [now apply append_nonempty_l|].
  destruct ((0 <? n) && (n <=? 21))%Z%bool;
    [apply append_nonempty; discriminate|].
  destruct ((-6 <? n) && (n <=? 0))%Z%bool; [discriminate|].
  destruct ds as [|d [|c rest]]; [contradiction | discriminate | discriminate].
Qed.

(** The text of a number is never empty. *)
Lemma numberToString_nonempty (x : float) : numberToString x <> EmptyString.
Proof.
  unfold numberToString.
  destruct (Prim2SF x) as [s|s| |s m e]; try discriminate.
  - destruct s; discriminate.
  - destruct (shortestDigits _ _ _ _ _ _) as [d q].
    apply append_nonempty, formatDigits_nonempty, decimalString_nonempty.
Qed.

Lemma add_settled (prev v : JsVal) :
  runningTotal prev -> countValue v -> runningTotal (add prev v).
Proof.
  intros Hp [Ht Hf].
  destruct prev as [| | |x|t|t x]; try contradiction; simpl in Hp;
    destruct v as [| |b|y|s|s y]; cbn [add isText orb toNumber toString runningTotal];
    try (destruct Ht as [Ht|Ht]; discriminate);
    try (now apply append_nonempty_l);
    try (apply append_nonempty_l, numberToString_nonempty).
  - destruct Ht as [Ht|Ht]; [|discriminate]. simpl in Ht. subst b.
    now apply add_finite_not_nan.
  - apply add_finite_not_nan; [assumption | now apply Hf].
Qed.

Lemma falsy_number (z : float) :
  isNaN z = false -> truthy (JNum z) = false -> exists s, Prim2SF z = S754_zero s.
Proof.
  unfold truthy, isNaN. intros Hn Ht. rewrite Hn, orb_false_r in Ht.
  apply negb_false_iff in Ht. unfold PrimFloat.is_zero in Ht.
  rewrite eqb_spec in Ht. change (Prim2SF zero) with (S754_zero false) in Ht.
  destruct (Prim2SF z) as [s|s| |s m e]; try discriminate; eauto;
    destruct s; discriminate.
Qed.

Lemma truthy_not_negative_zero (y : float) :
  truthy (JNum y) = true -> Prim2SF y <> S754_zero true.
Proof.
  unfold truthy. intros Ht E. apply negb_true_iff, orb_false_iff in Ht.
  destruct Ht as [Hz _]. unfold PrimFloat.is_zero in Hz.
  rewrite eqb_spec, E in Hz. discriminate.
Qed.

Lemma add_reset (prev v : JsVal) :
  runningTotal prev -> truthy prev = false -> countValue v ->
  add (JNum 0) v = add prev v.
Proof.
  intros Hp Hf [Ht _].
  destruct prev as [| | |z|t|t z]; try contradiction; simpl in Hp.
  - destruct (falsy_number z Hp Hf) as [sz Ez].
    destruct v as [| |b|y|s|s y]; try (destruct Ht as [Ht|Ht]; discriminate).
    + destruct Ht as [Ht|Ht]; [|discriminate]. simpl in Ht. subst b.
      cbn [add isText orb toNumber]. f_equal. symmetry. now apply (zero_add z 1 sz).
    + cbn [add isText orb toNumber]. f_equal. symmetry. apply (zero_add z y sz Ez).
      destruct Ht as [Ht|Ht]; [now apply truthy_not_negative_zero|].
      injection Ht as ->. discriminate.
    + cbn [add isText orb toString]. unfold numberToString. rewrite Ez. reflexivity.
    + cbn [add isText orb toString]. unfold numberToString. rewrite Ez. reflexivity.
  - simpl in Hf. apply negb_false_iff, String.eqb_eq in Hf. contradiction.
Qed.

Section Grouping.

Variable functionText : string -> string.
Variable column : CustomerData -> JsVal.

Lemma visitorsBy_snoc (l : list CustomerData) (row : CustomerData) :
  visitorsBy functionText column (l ++ [row])
  = addVisitors functionText (column row) row (visitorsBy functionText column l).
Proof. unfold visitorsBy. now rewrite fold_left_app. Qed.

(** One round of the loop on a key other than [__proto__]: the key is set,
    the others are left alone. *)
Lemma addVisitors_other (row : CustomerData) (o : Obj) :
  keyOf column row <> "__proto__" ->
  let o' := addVisitors functionText (column row) row o in
  (NoDup (List.map fst o) -> NoDup (List.map fst o'))
  /\ (forall k, In k (List.map fst o') <-> In k (List.map fst o) \/ k = keyOf column row)
  /\ (forall k, k <> keyOf column row -> getOwn k o' = getOwn k o).
Proof.
  intros Hp o'. subst o'. unfold addVisitors. fold (keyOf column row).
  set (k0 := keyOf column row) in *.
  unfold assign. destruct (String.eqb_spec k0 "__proto__"); [contradiction|].
  destruct (truthyValue (get k0 o)).
  - split; [apply setOwn_NoDup|]. split; [intros k; apply setOwn_in|].
    intros k Hk. now apply getOwn_setOwn_other.
  - split; [intros H; now apply setOwn_NoDup, setOwn_NoDup|]. split.
    + intros k. rewrite !setOwn_in. tauto.
    + intros k Hk. now rewrite !getOwn_setOwn_other.
Qed.

Lemma addVisitors_proto (row : CustomerData) (o : Obj) :
  keyOf column row = "__proto__" ->
  addVisitors functionText (column row) row o = o.
Proof.
  intros Hp. unfold addVisitors. fold (keyOf column row). rewrite Hp.
  unfold assign. simpl String.eqb. now destruct (truthyValue _).
Qed.

(** The value one round leaves under its own key. *)
Lemma addVisitors_first (row : CustomerData) (o : Obj) :
  keyOf column row <> "__proto__" -> isMethod (keyOf column row) = false ->
  getOwn (keyOf column row) o = None ->
  getOwn (keyOf column row) (addVisitors functionText (column row) row o)
  = Some (add (JNum 0) (visitorsOf row)).
Proof.
  intros Hp Hm Ho. unfold addVisitors. fold (keyOf column row).
  set (k0 := keyOf column row) in *.
  unfold assign. destruct (String.eqb_spec k0 "__proto__"); [contradiction|].
  assert (Eg : get k0 o = Prim JUndefined).
  { unfold get. rewrite Ho. destruct (String.eqb_spec k0 "__proto__"); [contradiction|].
    unfold isMethod in Hm. now rewrite Hm. }
  rewrite Eg. cbn [truthyValue truthy].
  rewrite getOwn_setOwn_same. unfold get. rewrite getOwn_setOwn_same. reflexivity.
Qed.

Lemma addVisitors_next (row : CustomerData) (o : Obj) (prev : JsVal) :
  keyOf column row <> "__proto__" ->
  getOwn (keyOf column row) o = Some prev ->
  runningTotal prev -> countValue (visitorsOf row) ->
  getOwn (keyOf column row) (addVisitors functionText (column row) row o)
  = Some (add prev (visitorsOf row)).
Proof.
  intros Hp Ho Hs Hc. unfold addVisitors. fold (keyOf column row).
  set (k0 := keyOf column row) in *.
  unfold assign. destruct (String.eqb_spec k0 "__proto__"); [contradiction|].
  assert (Eg : get k0 o = Prim prev) by (unfold get; now rewrite Ho).
  rewrite Eg. cbn [truthyValue].
  rewrite getOwn_setOwn_same. destruct (truthy prev) eqn:Et.
  - now rewrite Eg.
  - unfold get. rewrite getOwn_setOwn_same. cbn [addValue].
    now rewrite (add_reset prev _ Hs Et Hc).
Qed.

Lemma visitorsBy_spec (data : list CustomerData) :
  (forall row y, In row data -> visitorsOf row = JNum y ->
                 PrimFloat.is_finite y = true) ->
  let o := visitorsBy functionText column data in
  NoDup (List.map fst o)
  /\ (forall k, In k (List.map fst o)
                <-> k <> "__proto__" /\ rowsOf column k data <> [])
  /\ (forall k, k <> "__proto__" -> isMethod k = false ->
                rowsOf column k data <> [] ->
                getOwn k o = Some (totalVisitors (rowsOf column k data))
                /\ runningTotal (totalVisitors (rowsOf column k data))).
Proof.
  induction data as [|row l IH] using rev_ind; intros Hfin o.
  - subst o. simpl. split; [constructor|]. split.
    + intros k. split; [intros [] | intros [_ H]; now apply H].
    + intros k _ _ H. now contradiction H.
  - destruct IH as (Nd & Dom & Val);
      [intros r y Hr; apply Hfin, in_or_app; now left|].
    assert (Hc : countValue (visitorsOf row)).
    { apply visitorsOf_countValue. intros y. apply Hfin, in_or_app. right. now left. }
    subst o. rewrite visitorsBy_snoc.
    set (o := visitorsBy functionText column l) in *.
    set (k0 := keyOf column row).
    destruct (String.eqb_spec k0 "__proto__") as [Ep|Np].
    + rewrite addVisitors_proto by exact Ep.
      assert (Er : forall k, k <> "__proto__" -> rowsOf column k (l ++ [row]) = rowsOf column k l).
      { intros k Hk. rewrite rowsOf_snoc. fold k0.
        destruct (String.eqb_spec k0 k); [congruence | apply app_nil_r]. }
      split; [assumption|]. split.
      * intros k. rewrite Dom. split; intros [H1 H2]; (split; [assumption|]).
        -- now rewrite Er.
        -- now rewrite <- Er.
      * intros k Hk Hm Hr. rewrite Er in * by assumption. now apply Val.
    + destruct (addVisitors_other row o Np) as (Nd' & Dom' & Oth).
      split; [now apply Nd'|]. split.
      * intros k. rewrite Dom', Dom, rowsOf_snoc. fold k0.
        destruct (String.eqb_spec k0 k) as [<-|Hne].
        -- split; [intros _ | now right].
           split; [assumption|]. intros H. apply app_eq_nil in H. destruct H; discriminate.
        -- rewrite app_nil_r. split; [intros [|]; [assumption | congruence] | now left].
      * intros k Hk Hm Hr. rewrite rowsOf_snoc in *. fold k0 in Hr |- *.
        destruct (String.eqb_spec k0 k) as [<-|Hne].
        -- unfold totalVisitors. rewrite fold_left_app. simpl fold_left.
           fold (totalVisitors (rowsOf column k0 l)).
           destruct (rowsOf column k0 l) as [|r rs] eqn:Er.
           ++ split.
              ** apply addVisitors_first; [assumption | assumption |].
                 change (getOwn k0 o = None).
                 destruct (getOwn k0 o) eqn:Eg; [|reflexivity].
                 assert (In k0 (List.map fst o)) by (apply getOwn_in; congruence).
                 apply Dom in H. destruct H as [_ H]. now contradiction H.
              ** apply (add_settled (JNum 0)); [reflexivity | exact Hc].
           ++ destruct (Val k0 Np Hm) as [Hg Hs]; [rewrite Er; discriminate|].
              rewrite Er in Hg, Hs. split.
              ** now apply addVisitors_next.
              ** now apply add_settled.
        -- rewrite app_nil_r in *. rewrite Oth by (fold k0; congruence). now apply Val.
Qed.

End Grouping.

(** What the visitors charts hold for a column. *)
Definition grouped (column : CustomerData -> JsVal) (data : list CustomerData)
                   (chart : list VisitorsItem) : Prop :=
  NoDup (List.map visitorsName chart)
  /\ (forall k, In k (List.map visitorsName chart)
                <-> k <> "__proto__"
                    /\ exists row, In row data /\ toString (column row) = k)
  /\ (forall item, In item chart -> isMethod (visitorsName item) = false ->
        visitors item = totalVisitors (rowsOf column (visitorsName item) data)).

Lemma visitorsChart_perm (o : Obj) (total : JsVal) :
  Permutation (List.map visitorsName (visitorsChart o total)) (List.map fst o).
Proof.
  unfold visitorsChart.
  rewrite (Permutation_map visitorsName (sortBy_perm byVisitors _)).
  rewrite map_map. simpl. rewrite map_id. apply keys_perm.
Qed.

Lemma visitorsChart_entry (o : Obj) (total : JsVal) (item : VisitorsItem) :
  In item (visitorsChart o total) ->
  visitors item = ownValue (visitorsName item) o.
Proof.
  unfold visitorsChart. intros H.
  apply (Permutation_in _ (sortBy_perm byVisitors _)) in H.
  apply in_map_iff in H. destruct H as (k & <- & _). reflexivity.
Qed.

Lemma visitorsChart_grouped (functionText : string -> string)
                            (column : CustomerData -> JsVal)
                            (data : list CustomerData) (total : JsVal) :
  (forall row y, In row data -> visitorsOf row = JNum y ->
                 PrimFloat.is_finite y = true) ->
  grouped column data (visitorsChart (visitorsBy functionText column data) total).
Proof.
  intros Hfin.
  destruct (visitorsBy_spec functionText column data Hfin) as (Nd & Dom & Val).
  set (o := visitorsBy functionText column data) in *.
  pose proof (visitorsChart_perm o total) as P.
  split; [apply (Permutation_NoDup (Permutation_sym P)); assumption|]. split.
  - intros k. pose proof (rowsOf_nonempty column k data) as Hn.
    unfold keyOf in Hn. rewrite <- Hn, <- Dom.
    split; apply Permutation_in; [exact P | now apply Permutation_sym].
  - intros item Hi Hm.
    assert (Hk : In (visitorsName item) (List.map fst o))
      by (apply (Permutation_in _ P); now apply in_map).
    apply Dom in Hk. destruct Hk as [Hp Hr].
    rewrite (visitorsChart_entry o total item Hi). unfold ownValue.
    destruct (Val _ Hp Hm Hr) as [-> _]. reflexivity.
Qed.

(** X19.  The visitors charts group like the total does: when no visitor
    count is an infinite number, every customer type (every region) other
    than [__proto__] that occurs in the rows has exactly one entry, and the
    visitors of an entry whose name is not that of an inherited method are
    what [totalVisitors] computes from the rows of that type (region) alone
    -- the test [if (!o[key]) o[key] = 0] never throws a running total
    away. *)
Theorem group_totals :
  forall (functionText : string -> string) (data : list CustomerData) (total : JsVal),
    (forall row y, In row data -> visitorsOf row = JNum y ->
                   PrimFloat.is_finite y = true) ->
    grouped MusteriCesidi data (processVisitorsByCustomerType functionText data total)
    /\ grouped MusteriBolge4 data (processVisitorsByRegion functionText data total).
Proof.
  intros functionText data total Hfin.
  split; now apply visitorsChart_grouped.
Qed.

Lemma sampleRows_finite (row : CustomerData) (y : float) :
  In row sampleRows -> visitorsOf row = JNum y -> PrimFloat.is_finite y = true.
Proof.
  intros Hr. repeat (destruct Hr as [<-|Hr]; [intros [= <-]; reflexivity|]).
  destruct Hr.
Qed.

Lemma group_totals_example :
  List.map (fun item => (visitorsName item, visitors item, visitorPercent item))
           (processVisitorsByCustomerType nativeText sampleRows (totalVisitors sampleRows))
  = [("Modern Pub & Bistro", JNum 388, 97%float); ("Market", JNum 12, 3%float);
     ("Cafe", JNum 0, 0%float)]
  /\ grouped MusteriCesidi sampleRows
             (processVisitorsByCustomerType nativeText sampleRows (totalVisitors sampleRows))
  /\ grouped MusteriBolge4 sampleRows
             (processVisitorsByRegion nativeText sampleRows (totalVisitors sampleRows)).
Proof.
  split; [vm_compute; reflexivity|].
  apply (group_totals nativeText sampleRows (totalVisitors sampleRows)).
  exact sampleRows_finite.
Defined.

(** *** Visitor counts that are counts *)

(** The sum of the integer counts [n] of some rows. *)
Definition sumOf (n : CustomerData -> Z) (rows : list CustomerData) : Z :=
  fold_right Z.add 0%Z (List.map n rows).

(** Every visitor count is the non-negative integer [n row] (0 for a
    missing one). *)
Definition counts (n : CustomerData -> Z) (data : list CustomerData) : Prop :=
  forall row, In row data -> (0 <= n row)%Z /\ visitorsOf row = JNum (Z2F (n row)).

Lemma sumOf_app (n : CustomerData -> Z) (l r : list CustomerData) :
  sumOf n (l ++ r) = (sumOf n l + sumOf n r)%Z.
Proof.
  unfold sumOf. induction l as [|x l IH]; simpl; [reflexivity | rewrite IH; lia].
Qed.

Lemma sumOf_nonneg (n : CustomerData -> Z) (rows : list CustomerData) :
  (forall row, In row rows -> (0 <= n row)%Z) -> (0 <= sumOf n rows)%Z.
Proof.
  unfold sumOf. induction rows as [|x l IH]; simpl; intros H; [lia|].
  specialize (H x (or_introl eq_refl)) as Hx.
  specialize (IH (fun row Hr => H row (or_intror Hr))). lia.
Qed.

Lemma sumOf_filter (n : CustomerData -> Z) (f : CustomerData -> bool)
                   (rows : list CustomerData) :
  (forall row, In row rows -> (0 <= n row)%Z) ->
  (0 <= sumOf n (filter f rows) <= sumOf n rows)%Z.
Proof.
  unfold sumOf. induction rows as [|x l IH]; simpl; intros H; [lia|].
  specialize (H x (or_introl eq_refl)) as Hx.
  specialize (IH (fun row Hr => H row (or_intror Hr))).
  destruct (f x); simpl; lia.
Qed.

Lemma totalVisitors_counts (n : CustomerData -> Z) (rows : list CustomerData) :
  counts n rows -> (sumOf n rows < 2 ^ 53)%Z ->
  totalVisitors rows = JNum (Z2F (sumOf n rows)).
Proof.
  induction rows as [|row l IH] using rev_ind; intros Hc Hs; [reflexivity|].
  rewrite sumOf_app in *. unfold sumOf at 2 in Hs. unfold sumOf at 2. simpl in Hs |- *.
  rewrite Z.add_0_r in *.
  assert (Hl : counts n l) by (intros r Hr; apply Hc, in_or_app; now left).
  destruct (Hc row ltac:(apply in_or_app; right; now left)) as [Hn Hv].
  pose proof (sumOf_nonneg n l (fun r Hr => proj1 (Hl r Hr))) as H0.
  rewrite totalVisitors_app, (IH Hl) by lia.
  rewrite sumFrom_cons, Hv. cbn [sumFrom fold_left add isText orb toNumber].
  now rewrite Z2F_add0 by lia.
Qed.

Lemma weight_sum (x : string) (w : Z) (ks : list string) :
  NoDup ks ->
  fold_right Z.add 0%Z (List.map (fun k => if String.eqb x k then w else 0%Z) ks)
  = if existsb (String.eqb x) ks then w else 0%Z.
Proof.
  induction 1 as [|k ks Hk Hn IH]; simpl; [reflexivity|].
  rewrite IH. destruct (String.eqb_spec x k) as [->|]; simpl; [|reflexivity].
  destruct (existsb (String.eqb k) ks) eqn:E; [|lia].
  apply existsb_eqb in E. contradiction.
Qed.

Lemma fold_add {A : Type} (f g : A -> Z) (l : list A) :
  fold_right Z.add 0%Z (List.map (fun x => f x + g x)%Z l)
  = (fold_right Z.add 0 (List.map f l) + fold_right Z.add 0 (List.map g l))%Z.
Proof. induction l as [|x l IH]; simpl; [reflexivity | rewrite IH; lia]. Qed.

(** The group sums add up to the sum over the rows that have a group. *)
Lemma sums_add_up (column : CustomerData -> JsVal) (n : CustomerData -> Z)
                  (ks : list string) (data : list CustomerData) :
  NoDup ks ->
  ~ In "__proto__" ks ->
  (forall row, In row data -> keyOf column row <> "__proto__" ->
               In (keyOf column row) ks) ->
  fold_right Z.add 0%Z (List.map (fun k => sumOf n (rowsOf column k data)) ks)
  = sumOf n (filter (fun row => negb (String.eqb (keyOf column row) "__proto__")) data).
Proof.
  intros Nd Hp. induction data as [|row data IH]; intros Hall.
  - simpl. clear. induction ks; simpl; auto.
  - assert (E : forall k, sumOf n (rowsOf column k (row :: data))
                          = ((if String.eqb (keyOf column row) k then n row else 0)
                             + sumOf n (rowsOf column k data))%Z).
    { intros k. unfold rowsOf. simpl.
      destruct (String.eqb (keyOf column row) k); reflexivity. }
    rewrite (map_ext _ _ E), fold_add, weight_sum by assumption.
    rewrite IH by (intros r Hr; apply Hall; now right).
    simpl filter. destruct (String.eqb_spec (keyOf column row) "__proto__") as [Ep|Np]; simpl.
    + destruct (existsb (String.eqb (keyOf column row)) ks) eqn:Ex; [|reflexivity].
      apply existsb_eqb in Ex. rewrite Ep in Ex. contradiction.
    + destruct (existsb (String.eqb (keyOf column row)) ks) eqn:Ex; [reflexivity|].
      assert (In (keyOf column row) ks) by (apply Hall; [now left | assumption]).
      apply existsb_eqb in H. congruence.
Qed.

(** What a visitors chart holds when the visitor counts are counts. *)
Definition summed (column : CustomerData -> JsVal) (n : CustomerData -> Z)
                  (data : list CustomerData) (chart : list VisitorsItem) : Prop :=
  (forall item, In item chart ->
     visitors item = JNum (Z2F (sumOf n (rowsOf column (visitorsName item) data))))
  /\ StronglySorted
       (fun a b => (sumOf n (rowsOf column (visitorsName b) data)
                    <= sumOf n (rowsOf column (visitorsName a) data))%Z)
       chart
  /\ fold_right Z.add 0%Z
       (List.map (fun item => sumOf n (rowsOf column (visitorsName item) data)) chart)
     = sumOf n (filter (fun row => negb (String.eqb (toString (column row)) "__proto__"))
                       data).

Lemma counts_finite (n : CustomerData -> Z) (data : list CustomerData) :
  counts n data -> (sumOf n data < 2 ^ 53)%Z ->
  forall row y, In row data -> visitorsOf row = JNum y -> PrimFloat.is_finite y = true.
Proof.
  intros Hc Hs row y Hr Hv. destruct (Hc row Hr) as [Hn Ev].
  rewrite Ev in Hv. injection Hv as <-. apply count_finite.
  split; [assumption|].
  apply in_split in Hr. destruct Hr as (l1 & l2 & ->).
  rewrite sumOf_app in Hs. unfold sumOf at 2 in Hs. simpl in Hs.
  fold (sumOf n l2) in Hs.
  pose proof (sumOf_nonneg n l1) as H1. pose proof (sumOf_nonneg n l2) as H2.
  assert (0 <= sumOf n l1)%Z
    by (apply H1; intros r Hr; apply Hc, in_or_app; now left).
  assert (0 <= sumOf n l2)%Z
    by (apply H2; intros r Hr; apply Hc, in_or_app; right; now right).
  lia.
Qed.

Lemma visitorsChart_summed (functionText : string -> string)
                           (column : CustomerData -> JsVal)
                           (n : CustomerData -> Z)
                           (data : list CustomerData) (total : JsVal) :
  counts n data -> (sumOf n data < 2 ^ 53)%Z ->
  (forall row, In row data -> isMethod (toString (column row)) = false) ->
  summed column n data (visitorsChart (visitorsBy functionText column data) total).
Proof.
  intros Hc Hs Hm.
  destruct (visitorsChart_grouped functionText column data total
              (counts_finite n data Hc Hs)) as (Nd & Dom & Val).
  set (chart := visitorsChart (visitorsBy functionText column data) total) in *.
  assert (Hg : forall k, (0 <= sumOf n (rowsOf column k data) < 2 ^ 53)%Z).
  { intros k. pose proof (sumOf_filter n (fun row => String.eqb (keyOf column row) k) data
                            (fun r Hr => proj1 (Hc r Hr))) as H.
    fold (rowsOf column k data) in H. lia. }
  assert (Hv : forall item, In item chart ->
                 visitors item
                 = JNum (Z2F (sumOf n (rowsOf column (visitorsName item) data)))).
  { intros item Hi.
    assert (Hk : In (visitorsName item) (List.map visitorsName chart)) by now apply in_map.
    apply Dom in Hk. destruct Hk as (_ & row & Hrow & Ek).
    rewrite (Val item Hi) by (rewrite <- Ek; now apply Hm).
    apply totalVisitors_counts; [|apply Hg].
    intros r Hr. apply Hc. unfold rowsOf in Hr. apply filter_In in Hr. tauto. }
  split; [exact Hv|]. split.
  - unfold chart, visitorsChart. apply sortBy_sorted.
    + intros x y z; lia.
    + intros a b Ha Hb H.
      assert (Ha' : In a chart)
        by (apply (Permutation_in _ (Permutation_sym (sortBy_perm byVisitors _))); exact Ha).
      assert (Hb' : In b chart)
        by (apply (Permutation_in _ (Permutation_sym (sortBy_perm byVisitors _))); exact Hb).
      unfold byVisitors, sub, gt in H. rewrite (Hv a Ha'), (Hv b Hb') in H.
      cbn [toNumber] in H. rewrite count_compare0 in H by apply Hg.
      apply Z.ltb_lt in H. lia.
    + intros a b Ha Hb H.
      assert (Ha' : In a chart)
        by (apply (Permutation_in _ (Permutation_sym (sortBy_perm byVisitors _))); exact Ha).
      assert (Hb' : In b chart)
        by (apply (Permutation_in _ (Permutation_sym (sortBy_perm byVisitors _))); exact Hb).
      unfold byVisitors, sub, gt in H. rewrite (Hv a Ha'), (Hv b Hb') in H.
      cbn [toNumber] in H. rewrite count_compare0 in H by apply Hg.
      apply Z.ltb_ge in H. lia.
  - rewrite <- (map_map visitorsName (fun k => sumOf n (rowsOf column k data))).
    apply (sums_add_up column n); [assumption | |].
    + intros H. apply Dom in H. now destruct H.
    + intros row Hr Hp. apply Dom. split; [assumption|]. eauto.
Qed.

(** X20.  When every visitor count is a non-negative integer (a missing one
    counting 0), their sum stays below 2^53 and no customer type or region
    is the name of an inherited method, the arithmetic is exact:
    [totalVisitors] is the integer sum over all rows; every entry of the
    two visitors charts holds the integer sum over the rows of its type
    (region); each chart is in descending order of these sums; and the
    sums of a chart add up to the sum over the rows whose type (region) is
    not [__proto__]. *)
Theorem visitor_sums_exact :
  forall (functionText : string -> string) (n : CustomerData -> Z)
         (data : list CustomerData),
    counts n data -> (sumOf n data < 2 ^ 53)%Z ->
    (forall row, In row data -> isMethod (toString (MusteriCesidi row)) = false) ->
    (forall row, In row data -> isMethod (toString (MusteriBolge4 row)) = false) ->
    let total := totalVisitors data in
    total = JNum (Z2F (sumOf n data))
    /\ summed MusteriCesidi n data
               (processVisitorsByCustomerType functionText data total)
    /\ summed MusteriBolge4 n data
               (processVisitorsByRegion functionText data total).
Proof.
  intros functionText n data Hc Hs Ht Hr total.
  split; [now apply totalVisitors_counts|].
  split; now apply visitorsChart_summed.
Qed.

(** The counts of the four sample rows. *)
Definition sampleCount (row : CustomerData) : Z :=
  match visitor_count row with
  | JNum x => if (x =? 179)%float then 179 else if (x =? 12)%float then 12
              else if (x =? 209)%float then 209 else 0
  | _ => 0
  end.

Lemma visitor_sums_exact_example :
  totalVisitors sampleRows = JNum 400
  /\ sumOf sampleCount sampleRows = 400%Z
  /\ summed MusteriCesidi sampleCount sampleRows
             (processVisitorsByCustomerType nativeText sampleRows (totalVisitors sampleRows))
  /\ summed MusteriBolge4 sampleCount sampleRows
             (processVisitorsByRegion nativeText sampleRows (totalVisitors sampleRows)).
Proof.
  split; [vm_compute; reflexivity|]. split; [reflexivity|].
  apply (visitor_sums_exact nativeText sampleCount sampleRows).
  - intros row Hr.
    repeat (destruct Hr as [<-|Hr]; [split; [discriminate | vm_compute; reflexivity]|]).
    destruct Hr.
  - reflexivity.
  - intros row Hr. repeat (destruct Hr as [<-|Hr]; [reflexivity|]). destruct Hr.
  - intros row Hr. repeat (destruct Hr as [<-|Hr]; [reflexivity|]). destruct Hr.
Defined.

(** *** The top destinations *)

(** The visitors of a chart entry as a number. *)
Definition shownVisitors (item : DestinationItem) : float :=
  toNumber (destinationVisitors item).

(** The entry [a] holds a count that is at least the count of [b]. *)
Definition outranks (a b : DestinationItem) : Prop :=
  exists na nb,
    (0 <= na < 2 ^ 53)%Z /\ (0 <= nb < 2 ^ 53)%Z
    /\ shownVisitors a = Z2F na /\ shownVisitors b = Z2F nb /\ (nb <= na)%Z.

Lemma outranks_trans (x y z : DestinationItem) :
  outranks x y -> outranks y z -> outranks x z.
Proof.
  intros (nx & ny & Hx & Hy & Ex & Ey & H1) (ny' & nz & Hy' & Hz & Ey' & Ez & H2).
  assert (ny = ny') by (apply Z2F_inj; congruence). subst ny'.
  exists nx, nz. repeat split; try assumption; lia.
Qed.

Lemma outranks_le (a b : DestinationItem) :
  outranks a b -> le (shownVisitors b) (shownVisitors a) = true.
Proof.
  intros (na & nb & Ha & Hb & -> & -> & H). unfold le.
  rewrite count_leb by assumption. now apply Z.leb_le.
Qed.

Lemma keepDestination_spec (item : DestinationItem) :
  keepDestination item
  = (truthy (destinationName item) && gt (shownVisitors item) 0)%bool.
Proof.
  unfold keepDestination, andand, shownVisitors.
  destruct (truthy (destinationName item)) eqn:E; [reflexivity | exact E].
Qed.

(** The entries that pass the filter of the top destinations. *)
Lemma kept_destinations (n : CustomerData -> Z) (data : list CustomerData)
                        (total : JsVal) (item : DestinationItem) :
  (forall row, In row data ->
               (0 <= n row < 2 ^ 53)%Z /\ visitorsOf row = JNum (Z2F (n row))) ->
  In item (filter keepDestination (List.map (toDestinationItem total) data))
  <-> exists row, In row data /\ item = toDestinationItem total row
                  /\ truthy (oror (place_name row) (MusteriTabelaAdi row)) = true
                  /\ (0 < n row)%Z.
Proof.
  intros Hc. rewrite filter_In, in_map_iff. split.
  - intros [(row & <- & Hr) K]. exists row. split; [assumption|]. split; [reflexivity|].
    rewrite keepDestination_spec in K. apply andb_true_iff in K. destruct K as [K1 K2].
    split; [exact K1|]. destruct (Hc row Hr) as [Hn Ev].
    unfold shownVisitors, toDestinationItem, gt in K2. cbn [destinationVisitors] in K2.
    rewrite Ev in K2. cbn [toNumber] in K2. rewrite count_positive in K2 by assumption.
    now apply Z.ltb_lt.
  - intros (row & Hr & -> & Hn & Hp). split; [exists row; now split|].
    rewrite keepDestination_spec. apply andb_true_iff. split; [exact Hn|].
    destruct (Hc row Hr) as [Hb Ev].
    unfold shownVisitors, toDestinationItem, gt. cbn [destinationVisitors].
    rewrite Ev. cbn [toNumber]. rewrite count_positive by assumption.
    now apply Z.ltb_lt.
Qed.

Lemma top_items (n : CustomerData -> Z) (data : list CustomerData) (total : JsVal) :
  (forall row, In row data ->
               (0 <= n row < 2 ^ 53)%Z /\ visitorsOf row = JNum (Z2F (n row))) ->
  forall item, In item (processTopDestinations data total) ->
    exists row, In row data /\ item = toDestinationItem total row
                /\ truthy (oror (place_name row) (MusteriTabelaAdi row)) = true
                /\ (0 < n row)%Z.
Proof.
  intros Hc item Hi. apply (kept_destinations n data total item Hc).
  unfold processTopDestinations in Hi. apply PipelineFacts.firstn_in in Hi.
  revert Hi. apply Permutation_in, sortBy_perm.
Qed.

(** X21.  When every visitor count is an integer count below 2^53 (a
    missing one counting 0), the top-destinations chart has at most ten
    entries; each comes from a row with a name (the place name, else the
    sign name) and a positive count; the entries are in descending order of
    visitors; and a named row with a positive count that is left out has no
    more visitors than any entry shown, which happens only when ten are
    shown. *)
Theorem top_destinations_ranked :
  forall (n : CustomerData -> Z) (data : list CustomerData) (total : JsVal),
    (forall row, In row data ->
                 (0 <= n row < 2 ^ 53)%Z /\ visitorsOf row = JNum (Z2F (n row))) ->
    let top := processTopDestinations data total in
    let named := fun row => truthy (oror (place_name row) (MusteriTabelaAdi row)) in
    (List.length top <= 10)%nat
    /\ (forall item, In item top ->
          exists row, In row data /\ item = toDestinationItem total row
                      /\ named row = true /\ (0 < n row)%Z)
    /\ StronglySorted
         (fun a b => le (shownVisitors b) (shownVisitors a) = true) top
    /\ (forall row, In row data -> named row = true -> (0 < n row)%Z ->
          In (toDestinationItem total row) top
          \/ (List.length top = 10%nat
              /\ forall item, In item top ->
                    le (Z2F (n row)) (shownVisitors item) = true)).
Proof.
  intros n data total Hc top named.
  set (kept := filter keepDestination (List.map (toDestinationItem total) data)).
  set (sorted := sortBy byDestinationVisitors kept).
  assert (Hk : forall item, In item kept <->
                 exists row, In row data /\ item = toDestinationItem total row
                             /\ named row = true /\ (0 < n row)%Z)
    by (intros item; now apply kept_destinations).
  assert (Hv : forall item, In item kept ->
                 exists m, (0 < m < 2 ^ 53)%Z /\ shownVisitors item = Z2F m).
  { intros item Hi. apply Hk in Hi. destruct Hi as (row & Hr & -> & _ & Hp).
    destruct (Hc row Hr) as [Hb Ev]. exists (n row). split; [lia|].
    unfold shownVisitors, toDestinationItem. cbn [destinationVisitors].
    now rewrite Ev. }
  assert (Hcmp : forall a b, In a kept -> In b kept ->
                  exists na nb, (0 < na < 2 ^ 53)%Z /\ (0 < nb < 2 ^ 53)%Z
                    /\ shownVisitors a = Z2F na /\ shownVisitors b = Z2F nb
                    /\ gt (byDestinationVisitors a b) 0 = (na <? nb)%Z).
  { intros a b Ha Hb. destruct (Hv a Ha) as (na & Ra & Ea).
    destruct (Hv b Hb) as (nb & Rb & Eb). exists na, nb.
    repeat split; try assumption; try lia.
    unfold byDestinationVisitors, sub, gt. unfold shownVisitors in Ea, Eb.
    rewrite Ea, Eb. now apply count_compare. }
  assert (Hs : StronglySorted outranks sorted).
  { apply sortBy_sorted.
    - exact outranks_trans.
    - intros a b Ha Hb H. destruct (Hcmp a b Ha Hb) as (na & nb & Ra & Rb & Ea & Eb & E).
      rewrite E in H. apply Z.ltb_lt in H.
      exists nb, na. repeat split; try assumption; lia.
    - intros a b Ha Hb H. destruct (Hcmp a b Ha Hb) as (na & nb & Ra & Rb & Ea & Eb & E).
      rewrite E in H. apply Z.ltb_ge in H.
      exists na, nb. repeat split; try assumption; lia. }
  assert (Hin : forall item, In item sorted <-> In item kept).
  { intros item. split; apply Permutation_in;
      [apply sortBy_perm | apply Permutation_sym, sortBy_perm]. }
  change top with (firstn 10 sorted).
  split; [apply firstn_le_length|]. split.
  - intros item Hi. apply Hk, Hin. revert Hi. apply PipelineFacts.firstn_in.
  - split.
    + apply (sorted_weaken outranks); [exact outranks_le|].
      rewrite <- (firstn_skipn 10 sorted) in Hs.
      clear -Hs. induction (firstn 10 sorted) as [|a l IH]; [constructor|].
      simpl in Hs. apply StronglySorted_inv in Hs. destruct Hs as [Hs Hf].
      constructor; [now apply IH|].
      rewrite Forall_forall in *. intros x Hx. apply Hf, in_or_app. now left.
    + intros row Hr Hn Hp.
      assert (Hi : In (toDestinationItem total row) sorted).
      { apply Hin, Hk. exists row. repeat split; assumption. }
      rewrite <- (firstn_skipn 10 sorted) in Hi, Hs.
      apply in_app_or in Hi. destruct Hi as [Hi|Hi]; [now left | right].
      split.
      * apply firstn_length_le. destruct (Nat.le_gt_cases 10 (List.length sorted)) as [|Hlt];
          [assumption|].
        rewrite skipn_all2 in Hi by lia. destruct Hi.
      * intros item Hitem.
        pose proof (outranks_le _ _ (sorted_app outranks _ _ _ _ Hs Hitem Hi)) as H.
        destruct (Hc row Hr) as [_ Ev].
        unfold shownVisitors at 1 in H. unfold toDestinationItem in H.
        cbn [destinationVisitors] in H. rewrite Ev in H. exact H.
Qed.

Lemma top_destinations_ranked_example :
  List.map (fun item => (destinationName item, destinationVisitors item))
           (processTopDestinations sampleRows (totalVisitors sampleRows))
  = [(JStr "Aksam Kadikoy", JNum 209); (JStr "Fil bistro moda", JNum 179);
     (JStr "Moda market", JNum 12)]
  /\ StronglySorted
       (fun a b => le (shownVisitors b) (shownVisitors a) = true)
       (processTopDestinations sampleRows (totalVisitors sampleRows)).
Proof.
  split; [vm_compute; reflexivity|].
  destruct (top_destinations_ranked sampleCount sampleRows (totalVisitors sampleRows))
    as (_ & _ & H & _); [|exact H].
  intros row Hr.
  repeat (destruct Hr as [<-|Hr];
          [split; [split; [discriminate | reflexivity] | vm_compute; reflexivity]|]).
  destruct Hr.
Defined.

(** *** The order of the chart entries *)

(** The texts of a list in the order of their first occurrence. *)
Definition firstSeen (l : list string) : list string :=
  fold_left (fun seen k => if existsb (String.eqb k) seen then seen else seen ++ [k])
            l [].

(** The index an array-index key stands for. *)
Definition indexOf (k : string) : Z :=
  match arrayIndex k with Some i => i | None => 0%Z end.

Lemma countBy_keys (functionText : string -> string)
                   (column : CustomerData -> JsVal) (data : list CustomerData) :
  List.map fst (countBy functionText column data)
  = firstSeen (filter (fun k => negb (String.eqb k "__proto__"))
                      (List.map (keyOf column) data)).
Proof.
  induction data as [|row l IH] using rev_ind; [reflexivity|].
  rewrite countBy_snoc, map_app, filter_app. unfold firstSeen.
  rewrite fold_left_app. fold (firstSeen (filter (fun k => negb (String.eqb k "__proto__"))
                                           (List.map (keyOf column) l))).
  rewrite <- IH. unfold countRow, assign. fold (keyOf column row). simpl.
  destruct (String.eqb (keyOf column row) "__proto__"); simpl; [reflexivity|].
  apply setOwn_keys.
Qed.

Lemma firstSeen_in (l : list string) (k : string) :
  In k (firstSeen l) -> In k l.
Proof.
  unfold firstSeen. induction l as [|x l IH] using rev_ind; [intros []|].
  rewrite fold_left_app. simpl. intros H. apply in_or_app.
  destruct (existsb (String.eqb x) (fold_left _ l [])).
  - left. now apply IH.
  - apply in_app_or in H. destruct H as [H|H]; [left; now apply IH | now right].
Qed.

Lemma countBy_spec_keys (functionText : string -> string)
                        (column : CustomerData -> JsVal) (data : list CustomerData)
                        (k : string) :
  In k (List.map fst (countBy functionText column data)) ->
  exists row, In row data /\ toString (column row) = k.
Proof.
  rewrite countBy_keys. intros H. apply firstSeen_in, filter_In in H.
  destruct H as [H _]. apply in_map_iff in H. destruct H as (row & <- & Hr). eauto.
Qed.

(** X22.  The sales-channel chart keeps the order [Object.keys] gives:
    first the channels that read like an array index (such as 7 or 12), in
    ascending order of the index, then all other channels in the order in
    which they first occur in the rows.  So when no channel reads like an
    array index the entries are in order of first occurrence. *)
Theorem channel_chart_order :
  forall (functionText : string -> string) (data : list CustomerData),
    let names := List.map name (processChannelDistribution functionText data) in
    let seen :=
      firstSeen (filter (fun k => negb (String.eqb k "__proto__"))
                        (List.map (fun row => toString (SatisKanali row)) data)) in
    (exists front,
        names = front ++ filter (fun k => negb (isIndex k)) seen
        /\ Permutation front (filter isIndex seen)
        /\ StronglySorted (fun a b => (indexOf a <= indexOf b)%Z) front)
    /\ ((forall row, In row data -> isIndex (toString (SatisKanali row)) = false) ->
        names = seen).
Proof.
  intros functionText data names seen.
  set (o := countBy functionText SatisKanali data).
  assert (En : names = keys o) by apply chart_names.
  assert (Es : List.map fst o = seen) by apply countBy_keys.
  assert (Ef : exists front,
             names = front ++ filter (fun k => negb (isIndex k)) seen
             /\ Permutation front (filter isIndex seen)
             /\ StronglySorted (fun a b => (indexOf a <= indexOf b)%Z) front).
  { exists (List.map snd (indexKeys o)). split; [|split].
    - rewrite En. unfold keys. now rewrite otherKeys_filter, Es.
    - rewrite <- Es. apply indexKeys_perm.
    - pose proof (indexKeys_sorted o) as S.
      pose proof (indexKeys_index o) as I.
      induction (indexKeys o) as [|e l IH]; simpl; [constructor|].
      apply StronglySorted_inv in S. destruct S as [S F].
      constructor; [apply IH; [assumption | intros x Hx; apply I; now right]|].
      rewrite Forall_forall in *. intros k Hk. apply in_map_iff in Hk.
      destruct Hk as (x & <- & Hx). unfold indexOf.
      rewrite (I e (or_introl eq_refl)), (I x (or_intror Hx)). now apply F. }
  split; [exact Ef|].
  intros Hn. destruct Ef as (front & E & P & _).
  assert (Hall : forall k, In k seen -> isIndex k = false).
  { intros k Hk. rewrite <- Es in Hk.
    destruct (countBy_spec_keys functionText SatisKanali data k Hk) as (row & Hr & <-).
    now apply Hn. }
  assert (F1 : filter isIndex seen = []).
  { clear -Hall. induction seen as [|k l IH]; [reflexivity|]. simpl.
    rewrite (Hall k (or_introl eq_refl)). apply IH. intros x Hx. apply Hall. now right. }
  assert (F2 : filter (fun k => negb (isIndex k)) seen = seen).
  { clear -Hall. induction seen as [|k l IH]; [reflexivity|]. simpl.
    rewrite (Hall k (or_introl eq_refl)). simpl. f_equal. apply IH.
    intros x Hx. apply Hall. now right. }
  rewrite F1 in P. apply Permutation_sym, Permutation_nil in P. subst front.
  rewrite E, F2. reflexivity.
Qed.

End DashboardFacts.

(** ** Percentages *)

Module PercentFacts.
Import Js JsNumber JsOps JsObject Dashboard Rounding FloatFacts CountFacts.
Import ObjectFacts SortFacts DashboardFacts.

(** Structural equality of two numbers. *)
Definition sameFloat (a b : float) : bool :=
  match Prim2SF a, Prim2SF b with
  | S754_zero s, S754_zero s' => Bool.eqb s s'
  | S754_infinity s, S754_infinity s' => Bool.eqb s s'
  | S754_nan, S754_nan => true
  | S754_finite s m e, S754_finite s' m' e' =>
      (Bool.eqb s s' && Pos.eqb m m' && Z.eqb e e')%bool
  | _, _ => false
  end.

Lemma sameFloat_eq (a b : float) : sameFloat a b = true -> a = b.
Proof.
  unfold sameFloat. intros H. apply Prim2SF_inj.
  destruct (Prim2SF a) as [s|s| |s m e], (Prim2SF b) as [s'|s'| |s' m' e'];
    try discriminate; try reflexivity.
  - apply Bool.eqb_prop in H. now subst.
  - apply Bool.eqb_prop in H. now subst.
  - apply andb_true_iff in H. destruct H as [H He].
    apply andb_true_iff in H. destruct H as [Hs Hm].
    apply Bool.eqb_prop in Hs. apply Pos.eqb_eq in Hm. apply Z.eqb_eq in He.
    now subst.
Qed.

(** The number [k/10] reads back from its one-decimal text, and lies
    between 0 and 100. *)
Definition tenthOk (k : nat) : bool :=
  let n := Z.of_nat k in
  let p := parseFloat (fixedDigits 1 n) in
  (sameFloat p (decimalToFloat false n (-1))
   && negb (isNaN p) && le 0 p && le p 100)%bool.

Lemma tenths_table : forallb tenthOk (seq 0 1001) = true.
Proof. vm_compute. reflexivity. Qed.

Lemma tenth_read (n : Z) :
  (0 <= n <= 1000)%Z ->
  let p := parseFloat (fixedDigits 1 n) in
  p = decimalToFloat false n (-1)
  /\ isNaN p = false /\ le 0 p = true /\ le p 100 = true.
Proof.
  intros Hn p.
  pose proof tenths_table as T. rewrite forallb_forall in T.
  specialize (T (Z.to_nat n)). rewrite in_seq in T. specialize (T ltac:(lia)).
  unfold tenthOk in T. rewrite Z2Nat.id in T by lia. fold p in T.
  apply andb_true_iff in T. destruct T as [T H4].
  apply andb_true_iff in T. destruct T as [T H3].
  apply andb_true_iff in T. destruct T as [H1 H2].
  apply negb_true_iff in H2. apply sameFloat_eq in H1. auto.
Qed.

Local Open Scope R_scope.

(** [toFixed(1)] of a number between 0 and 100 writes an integer number of
    tenths between 0 and 1000. *)
Lemma toFixed_small (x : float) :
  nonneg_finite (Prim2SF x) -> SFval (Prim2SF x) <= 100 ->
  exists n, (0 <= n <= 1000)%Z /\ toFixed 1 x = fixedDigits 1 n.
Proof.
  intros [E | (m & e & E)] Hx; unfold toFixed; rewrite E.
  - exists 0%Z. split; [lia | reflexivity].
  - rewrite E in Hx. simpl in Hx. unfold F2R in Hx.
    set (num := (Z.pos m * 2 ^ Z.max 0 e)%Z).
    set (den := (2 ^ Z.max 0 (- e))%Z).
    assert (Hden : (0 < den)%Z) by (apply Z.pow_pos_nonneg; lia).
    assert (Hnum : (0 < num)%Z) by (apply Z.mul_pos_pos; [lia | apply Z.pow_pos_nonneg; lia]).
    assert (Hr : (num <= 100 * den)%Z).
    { apply le_IZR. unfold num, den. rewrite !mult_IZR.
      destruct (Z.le_gt_cases 0 e) as [He|He].
      - rewrite (Z.max_r 0 e), (Z.max_l 0 (- e)) by lia.
        rewrite <- bpow_IZR by lia. change (2 ^ 0)%Z with 1%Z. lra.
      - rewrite (Z.max_l 0 e), (Z.max_r 0 (- e)) by lia.
        change (2 ^ 0)%Z with 1%Z. rewrite <- bpow_IZR by lia.
        pose proof (bpow_gt_0 (- e)) as Hp.
        pose proof (bpow_cancel e) as Hc.
        assert (IZR (Z.pos m) = IZR (Z.pos m) * bpow e * bpow (- e)) by (rewrite Rmult_assoc, Hc; lra).
        rewrite Rmult_1_r. rewrite H. apply Rmult_le_compat_r; lra. }
    destruct (Z.leb_spec (10 ^ 21 * den) num) as [Hbig|_].
    + exfalso. change (10 ^ 21)%Z with 1000000000000000000000%Z in Hbig. lia.
    + exists ((2 * num * 10 ^ Z.of_nat 1 + den) / (2 * den))%Z. split; [|reflexivity].
      change (10 ^ Z.of_nat 1)%Z with 10%Z. split.
      * apply Z.div_pos; lia.
      * apply Z.lt_succ_r. apply Z.div_lt_upper_bound; lia.
Qed.

(** The percentage of a part of a total. *)
Lemma percent_of_counts (c t : Z) :
  (0 <= c <= t)%Z -> (0 < t < 2 ^ 53)%Z ->
  exists n,
    (0 <= n <= 1000)%Z
    /\ percentOf (Z2F c) (Z2F t) = decimalToFloat false n (-1)
    /\ isNaN (percentOf (Z2F c) (Z2F t)) = false
    /\ le 0 (percentOf (Z2F c) (Z2F t)) = true
    /\ le (percentOf (Z2F c) (Z2F t)) 100 = true.
Proof.
  intros Hc Ht.
  assert (V100 : F2R 7036874417766400 (-46) = 100).
  { change 7036874417766400%Z with (100 * 2 ^ 46)%Z. now rewrite F2R_int by lia. }
  assert (Hx : nonneg_finite (Prim2SF (Z2F c / Z2F t * 100)%float)
               /\ SFval (Prim2SF (Z2F c / Z2F t * 100)%float) <= 100).
  { destruct (VisualFacts.Z2F_exact t Ht) as (mb & eb & Eb & Vb).
    rewrite mul_spec, div_spec, Eb.
    change (Prim2SF 100) with (S754_finite false 7036874417766400 (-46)).
    destruct (Z.eq_dec c 0) as [->|Nc].
    - change (Prim2SF (Z2F 0)) with (S754_zero false). simpl.
      split; [now left | lra].
    - destruct (VisualFacts.Z2F_exact c ltac:(lia)) as (ma & ea & Ea & Va).
      rewrite Ea.
      pose proof (F2R_pos ma ea) as Ha. pose proof (F2R_pos mb eb) as Hb.
      assert (Hq : F2R (Z.pos ma) ea / F2R (Z.pos mb) eb <= 1).
      { apply Rmult_le_reg_r with (F2R (Z.pos mb) eb); [assumption|].
        unfold Rdiv. rewrite Rmult_assoc, Rinv_l, Rmult_1_r, Rmult_1_l by lra.
        rewrite Va, Vb. apply IZR_le. lia. }
      destruct (div_bounds ma mb ea eb 4503599627370496 (-52) eq_refl)
        as (Nq & [Q0 Q1] & _);
        [rewrite val_F1; lra | rewrite val_F1; apply one_le_bpow971 |].
      rewrite val_F1 in Q1.
      unfold SF64mul, SF64div.
      change prec with FloatOps.prec in *. change emax with FloatOps.emax in *.
      destruct Nq as [-> | (mq & eq & Eq)].
      + simpl. split; [now left | lra].
      + rewrite Eq in Q1 |- *. simpl in Q1.
        destruct (mul_bounds mq 7036874417766400 eq (-46) 7036874417766400 (-46)
                    eq_refl eq_refl) as (Nm & [M0 M1] & _).
        * rewrite V100. pose proof (F2R_pos mq eq). nra.
        * rewrite V100. apply Rle_trans with (bpow 7); [|apply bpow_le; lia].
          rewrite bpow_IZR by lia. apply IZR_le. simpl. lia.
        * rewrite V100 in M1. split; assumption. }
  destruct Hx as [N Hx].
  destruct (toFixed_small _ N Hx) as (n & Hn & En).
  exists n. split; [exact Hn|].
  unfold percentOf. rewrite En.
  exact (tenth_read n Hn).
Qed.

Local Close Scope R_scope.

(** The whole is 100 percent. *)
Lemma percent_of_all (t : Z) :
  (0 < t < 2 ^ 53)%Z -> percentOf (Z2F t) (Z2F t) = 100%float.
Proof.
  intros Ht. unfold percentOf. rewrite (StyleFacts.div_self t Ht).
  vm_compute. reflexivity.
Qed.

Local Open Scope string_scope.
Local Open Scope list_scope.

(** A percentage with one decimal: the number read from the text of [n]
    tenths, which is a number between 0 and 100. *)
Definition tenths (p : float) : Prop :=
  exists n, (0 <= n <= 1000)%Z
            /\ p = decimalToFloat false n (-1)
            /\ isNaN p = false /\ le 0 p = true /\ le p 100 = true.

Lemma chart_percent (o : Obj) (total : float) (item : DistributionItem) :
  In item (distributionChart o total) ->
  percent item = percentOf (toNumber (value item)) total.
Proof.
  unfold distributionChart. intros H. apply in_map_iff in H.
  destruct H as (k & <- & _). reflexivity.
Qed.

(** The percentages of a distribution chart. *)
Definition shares (column : CustomerData -> JsVal) (data : list CustomerData)
                  (chart : list DistributionItem) : Prop :=
  forall item, In item chart -> isMethod (name item) = false ->
    tenths (percent item)
    /\ (List.length (rowsOf column (name item) data) = List.length data ->
        percent item = 100%float).

Lemma countsChart_shares (functionText : string -> string)
                         (column : CustomerData -> JsVal)
                         (data : list CustomerData) :
  (Z.of_nat (List.length data) <= 4294967295)%Z ->
  shares column data (countsChart functionText column data).
Proof.
  intros Hlen item Hi Hm.
  destruct (countsChart_spec functionText column data Hlen) as (_ & _ & Val & _).
  destruct (Val item Hi) as [Hr Hv]. unfold counted in Hv. rewrite Hm in Hv.
  rewrite (chart_percent _ _ _ Hi), Hv. cbn [toNumber]. unfold lengthOf.
  pose proof (filter_length_le (fun row => String.eqb (keyOf column row) (name item)) data)
    as Hle.
  fold (rowsOf column (name item) data) in Hle.
  assert (Hpos : (0 < List.length (rowsOf column (name item) data))%nat)
    by (destruct (rowsOf column (name item) data); [congruence | simpl; lia]).
  assert (Hb : (0 < Z.of_nat (List.length data) < 2 ^ 53)%Z)
    by (change (2 ^ 53)%Z with 9007199254740992%Z; lia).
  split.
  - apply percent_of_counts; [lia | exact Hb].
  - intros ->. now apply percent_of_all.
Qed.

(** X23.  In the three distribution charts every entry whose name is not
    that of an inherited method has a percentage with one decimal between 0
    and 100 (for at most 2^32 - 1 rows): it is the number read from the
    one-decimal text of an integer number of tenths between 0 and 1000,
    never NaN; and an entry that covers all rows has exactly 100. *)
Theorem distribution_percentages :
  forall (functionText : string -> string) (data : list CustomerData),
    (Z.of_nat (List.length data) <= 4294967295)%Z ->
    shares SatisKanali data (processChannelDistribution functionText data)
    /\ shares MusteriCesidi data (processCustomerTypeDistribution functionText data)
    /\ shares Mapin_Segment data (processSegmentDistribution functionText data).
Proof.
  intros functionText data Hlen.
  split; [now apply countsChart_shares|].
  split; intros item Hi Hm;
    apply (Permutation_in _ (sortBy_perm byValue _)) in Hi;
    now apply (countsChart_shares functionText _ data Hlen).
Qed.

Lemma distribution_percentages_example :
  List.map (fun item => (name item, percent item))
           (processChannelDistribution nativeText sampleRows)
  = [("On-Trade", 75%float); ("Off-Trade", 25%float)]
  /\ shares SatisKanali sampleRows (processChannelDistribution nativeText sampleRows)
  /\ shares MusteriCesidi sampleRows
            (processCustomerTypeDistribution nativeText sampleRows)
  /\ shares Mapin_Segment sampleRows
            (processSegmentDistribution nativeText sampleRows).
Proof.
  split; [vm_compute; reflexivity|].
  apply (distribution_percentages nativeText sampleRows).
  vm_compute; discriminate.
Defined.

(** *** Percentages of visitors *)

Lemma visitorsChart_percent (o : Obj) (total : JsVal) (item : VisitorsItem) :
  In item (visitorsChart o total) ->
  visitorPercent item = percentOf (toNumber (visitors item)) (toNumber total).
Proof.
  unfold visitorsChart. intros H.
  apply (Permutation_in _ (sortBy_perm byVisitors _)) in H.
  apply in_map_iff in H. destruct H as (k & <- & _). reflexivity.
Qed.

Lemma count_le_sum (n : CustomerData -> Z) (data : list CustomerData)
                   (row : CustomerData) :
  counts n data -> In row data -> (0 <= n row <= sumOf n data)%Z.
Proof.
  intros Hc Hr. destruct (Hc row Hr) as [Hn _]. split; [assumption|].
  apply in_split in Hr. destruct Hr as (l1 & l2 & ->).
  rewrite sumOf_app. unfold sumOf at 2. simpl. fold (sumOf n l2).
  assert (0 <= sumOf n l1)%Z
    by (apply sumOf_nonneg; intros r Hr; apply Hc, in_or_app; now left).
  assert (0 <= sumOf n l2)%Z
    by (apply sumOf_nonneg; intros r Hr; apply Hc, in_or_app; right; now right).
  lia.
Qed.

(** The percentages of a visitors chart, by the sum of all counts. *)
Definition visitorShares (total : Z) (chart : list VisitorsItem) : Prop :=
  forall item, In item chart ->
    if (0 <? total)%Z then tenths (visitorPercent item)
    else isNaN (visitorPercent item) = true.

Lemma visitorsChart_shares (functionText : string -> string)
                           (column : CustomerData -> JsVal)
                           (n : CustomerData -> Z) (data : list CustomerData) :
  counts n data -> (sumOf n data < 2 ^ 53)%Z ->
  (forall row, In row data -> isMethod (toString (column row)) = false) ->
  visitorShares (sumOf n data)
    (visitorsChart (visitorsBy functionText column data) (totalVisitors data)).
Proof.
  intros Hc Hs Hm item Hi.
  destruct (visitorsChart_summed functionText column n data (totalVisitors data) Hc Hs Hm)
    as (Hv & _ & _).
  rewrite (visitorsChart_percent _ _ _ Hi), (Hv item Hi).
  rewrite (totalVisitors_counts n data Hc Hs). cbn [toNumber].
  pose proof (sumOf_filter n (fun row => String.eqb (keyOf column row) (visitorsName item))
                data (fun r Hr => proj1 (Hc r Hr))) as Hg.
  fold (rowsOf column (visitorsName item) data) in Hg.
  destruct (Z.ltb_spec 0 (sumOf n data)) as [Hpos|Hzero].
  - apply percent_of_counts; lia.
  - replace (sumOf n data) with 0%Z in * by lia.
    replace (sumOf n (rowsOf column (visitorsName item) data)) with 0%Z by lia.
    reflexivity.
Qed.

(** X24.  When every visitor count is a non-negative integer (a missing one
    counting 0), their sum is below 2^53 and no customer type or region is
    the name of an inherited method: if the sum is positive, every
    percentage of the two visitors charts and of the top-destinations chart
    is a one-decimal number between 0 and 100 (the number read from the
    text of an integer number of tenths, never NaN); if the sum is 0, every
    percentage of the two visitors charts is NaN and the top-destinations
    chart is empty. *)
Theorem visitor_percentages :
  forall (functionText : string -> string) (n : CustomerData -> Z)
         (data : list CustomerData),
    counts n data -> (sumOf n data < 2 ^ 53)%Z ->
    (forall row, In row data -> isMethod (toString (MusteriCesidi row)) = false) ->
    (forall row, In row data -> isMethod (toString (MusteriBolge4 row)) = false) ->
    let total := totalVisitors data in
    visitorShares (sumOf n data) (processVisitorsByCustomerType functionText data total)
    /\ visitorShares (sumOf n data) (processVisitorsByRegion functionText data total)
    /\ (forall item, In item (processTopDestinations data total) ->
          tenths (destinationPercent item))
    /\ (sumOf n data = 0%Z -> processTopDestinations data total = []).
Proof.
  intros functionText n data Hc Hs Ht Hr total.
  split; [now apply visitorsChart_shares|].
  split; [now apply visitorsChart_shares|].
  assert (Hrow : forall row, In row data ->
                   (0 <= n row < 2 ^ 53)%Z /\ visitorsOf row = JNum (Z2F (n row))).
  { intros row Hin. pose proof (count_le_sum n data row Hc Hin).
    destruct (Hc row Hin). split; [lia | assumption]. }
  pose proof (top_items n data total Hrow) as Hk.
  split.
  - intros item Hi. destruct (Hk item Hi) as (row & Hin & -> & _ & Hp).
    unfold toDestinationItem. cbn [destinationPercent].
    destruct (Hrow row Hin) as [_ ->]. subst total.
    rewrite (totalVisitors_counts n data Hc Hs). cbn [toNumber].
    pose proof (count_le_sum n data row Hc Hin).
    apply percent_of_counts; lia.
  - intros Hz. destruct (processTopDestinations data total) as [|item rest] eqn:E;
      [reflexivity|].
    destruct (Hk item (or_introl eq_refl)) as (row & Hin & _ & _ & Hp).
    pose proof (count_le_sum n data row Hc Hin). lia.
Qed.

Lemma visitor_percentages_example :
  List.map (fun item => (destinationName item, destinationPercent item))
           (processTopDestinations sampleRows (totalVisitors sampleRows))
  = [(JStr "Aksam Kadikoy", 52.3%float); (JStr "Fil bistro moda", 44.8%float);
     (JStr "Moda market", 3%float)]
  /\ visitorShares 400
       (processVisitorsByCustomerType nativeText sampleRows (totalVisitors sampleRows))
  /\ forall item,
       In item (processTopDestinations sampleRows (totalVisitors sampleRows)) ->
       tenths (destinationPercent item).
Proof.
  split; [vm_compute; reflexivity|].
  destruct (visitor_percentages nativeText sampleCount sampleRows)
    as (H1 & _ & H3 & _).
  - intros row Hr.
    repeat (destruct Hr as [<-|Hr]; [split; [discriminate | vm_compute; reflexivity]|]).
    destruct Hr.
  - reflexivity.
  - intros row Hr. repeat (destruct Hr as [<-|Hr]; [reflexivity|]). destruct Hr.
  - intros row Hr. repeat (destruct Hr as [<-|Hr]; [reflexivity|]). destruct Hr.
  - split; [exact H1 | exact H3].
Defined.

End PercentFacts.
